(** * Gomoku decision engines: minimax with alpha-beta pruning and MCTS

    A shallow embedding of [minimax.py] (class [GomokuAI]) and [mcts.py]
    (classes [Node] and [MCTS]), and the properties of the engines stated
    over it.

    Conventions of the embedding.
    - Python [int] is [Z]; coordinates, cell values (0 empty, 1 black,
      -1 white) and the player indicator are integers as in the source.
    - Python [float] is IEEE-754 binary64, taken from the bit-level
      specification [SpecFloat] of the Standard Library (round to nearest,
      ties to even).  The scores of the source start as [int] and become
      [float] at the first multiplication by [1.1]; every integer that
      occurs is far below 2^53, so converting it to binary64 is exact and a
      score is modelled by its binary64 value throughout.
    - Board objects are mutable and shared by reference: they live in a
      store, [copy] allocates, [make_move] and item assignment update in
      place.  Tree nodes of the MCTS engine live in the same store. *)

From Stdlib Require Import ZArith List Bool Lia SpecFloat Orders OrdersTac Permutation.
Import ListNotations.
Open Scope Z_scope.

Set Implicit Arguments.

(* ================================================================== *)
(** * Python floats *)

Module PyFloat.

Definition prec : Z := 53.
Definition emax : Z := 1024.

Definition float := spec_float.

(** [float(n)] for an integer [n]. *)
Definition of_int (n : Z) : float := binary_normalize prec emax n 0 false.

Definition add : float -> float -> float := SFadd prec emax.
Definition sub : float -> float -> float := SFsub prec emax.
Definition mul : float -> float -> float := SFmul prec emax.
Definition div : float -> float -> float := SFdiv prec emax.
Definition sqrt : float -> float := SFsqrt prec emax.

Definition ltb : float -> float -> bool := SFltb.
Definition leb : float -> float -> bool := SFleb.
Definition eqb : float -> float -> bool := SFeqb.

(** [float('inf')] and [float('-inf')]. *)
Definition inf : float := S754_infinity false.
Definition neg_inf : float := S754_infinity true.

(** The literals of the source, as the binary64 values nearest to them. *)
Definition lit_1_1 : float := S754_finite false 4953959590107546 (-52).
Definition lit_0_1 : float := S754_finite false 7205759403792794 (-56).
Definition lit_0_5 : float := S754_finite false 4503599627370496 (-53).
Definition lit_1_414 : float := S754_finite false 6368089873101881 (-52).

(** Python's two-argument [max(a, b)] and [min(a, b)]: the first
    argument is kept unless the second is strictly better. *)
Definition max (a b : float) : float := if ltb a b then b else a.
Definition min (a b : float) : float := if ltb b a then b else a.

Definition is_nan (x : float) : bool :=
  match x with S754_nan => true | _ => false end.

End PyFloat.

Abbreviation float := PyFloat.float.

(* ================================================================== *)
(** * Generic list helpers *)

(** [range(n)]. *)
Definition range (n : Z) : list Z := map Z.of_nat (seq 0 (Z.to_nat n)).

(** In-place update of position [n] of a list; out of range is a no-op
    (the source never indexes out of range: every access is guarded). *)
Fixpoint update (A : Type) (n : nat) (f : A -> A) (l : list A) : list A :=
  match l, n with
  | [], _ => []
  | x :: l', O => f x :: l'
  | x :: l', S n' => x :: update n' f l'
  end.

Definition Move : Type := Z * Z.

(** Python's [<] and [==] on coordinate pairs (lexicographic). *)
Definition move_ltb (a b : Move) : bool :=
  (fst a <? fst b) || ((fst a =? fst b) && (snd a <? snd b)).

Definition move_eqb (a b : Move) : bool :=
  (fst a =? fst b) && (snd a =? snd b).

(** Python's [<] on [(score, move)] tuples: the first components decide
    unless they compare equal. *)
Definition scored_ltb (a b : float * Move) : bool :=
  if PyFloat.eqb (fst a) (fst b) then move_ltb (snd a) (snd b)
  else PyFloat.ltb (fst a) (fst b).

(** [l.sort(reverse=True)]: a stable sort into descending order. *)
Fixpoint insert_desc (A : Type) (ltb : A -> A -> bool) (x : A) (l : list A) : list A :=
  match l with
  | [] => [x]
  | y :: l' => if ltb x y then y :: insert_desc ltb x l' else x :: l
  end.

Definition sort_desc (A : Type) (ltb : A -> A -> bool) (l : list A) : list A :=
  fold_right (insert_desc ltb) [] l.

(** [sorted(l, key=key)]: a stable sort into ascending order of [key]. *)
Fixpoint insert_asc (A K : Type) (ltb : K -> K -> bool) (key : A -> K) (x : A) (l : list A) : list A :=
  match l with
  | [] => [x]
  | y :: l' => if ltb (key y) (key x) then y :: insert_asc ltb key x l' else x :: l
  end.

Definition sorted (A K : Type) (ltb : K -> K -> bool) (key : A -> K) (l : list A) : list A :=
  fold_right (insert_asc ltb key) [] l.

(* ================================================================== *)
(** * The board *)

Module Board.

(** Modelled from the spec: the class [Board] of [board.py] (its source
    is not part of the repository snapshot).  A square grid of side
    [size] with cells 0 (empty), 1 (black), -1 (white) and the indicator
    [current_player] of the side that places the next stone. *)
Record t : Type := mk { size : Z; board : list (list Z); current_player : Z }.

(** [b.board[i][j]]. *)
Definition get (b : t) (i j : Z) : Z :=
  nth (Z.to_nat j) (nth (Z.to_nat i) (board b) []) 0.

(** The guard [0 <= i < size and 0 <= j < size] of the source. *)
Definition in_range (b : t) (i j : Z) : bool :=
  (0 <=? i) && (i <? size b) && (0 <=? j) && (j <? size b).

(** The value of a board after [b.board[i][j] = v], for a cell
    [(i, j)] of the board.  (Python wraps a negative index around and
    raises [IndexError] beyond the side; the theorems about a method
    that writes a cell take the cell on the board.) *)
Definition set (b : t) (i j v : Z) : t :=
  mk (size b)
     (update (Z.to_nat i) (update (Z.to_nat j) (fun _ => v)) (board b))
     (current_player b).

(** All coordinates, row by row. *)
Definition cells (b : t) : list Move :=
  flat_map (fun i => map (fun j => (i, j)) (range (size b))) (range (size b)).

(** Modelled from the spec: [get_valid_moves] is the collection of all
    currently empty cells; the spec leaves its order open and the model
    lists them row by row. *)
Definition get_valid_moves (b : t) : list Move :=
  filter (fun m => get b (fst m) (snd m) =? 0) (cells b).

(** Modelled from the spec: [make_move] places the current player's
    stone and flips the current player, without validation. *)
Definition make_move (b : t) (m : Move) : t :=
  mk (size b)
     (update (Z.to_nat (fst m)) (update (Z.to_nat (snd m)) (fun _ => current_player b)) (board b))
     (- current_player b).

Definition directions : list (Z * Z) := [(1, 0); (0, 1); (1, 1); (1, -1)].

(** Length of the run of [player] stones that starts at [(i, j)] and
    extends in direction [(di, dj)]. *)
Fixpoint run_from (fuel : nat) (b : t) (i j di dj player : Z) : Z :=
  match fuel with
  | O => 0
  | S fuel' =>
      if in_range b i j && (get b i j =? player)
      then 1 + run_from fuel' b (i + di) (j + dj) di dj player
      else 0
  end.

(** Modelled from the spec: [check_win] returns the player value of a
    five-or-more in-line run found anywhere on the board, scanning the
    four axis directions, or 0 when there is none. *)
Definition check_win (b : t) : Z :=
  let wins (m : Move) :=
    negb (get b (fst m) (snd m) =? 0) &&
    existsb (fun d => 5 <=? run_from (Z.to_nat (size b)) b (fst m) (snd m)
                                     (fst d) (snd d) (get b (fst m) (snd m)))
            directions in
  match find wins (cells b) with
  | Some m => get b (fst m) (snd m)
  | None => 0
  end.

(** Modelled from the spec: [is_game_over] holds iff [check_win] found a
    winner or no empty cell is left. *)
Definition is_game_over (b : t) : bool :=
  negb (check_win b =? 0) || (length (get_valid_moves b) =? 0)%nat.

(** The board [Board()] creates: empty, black to move, side 15. *)
Definition empty : t := mk 15 (repeat (repeat 0 15%nat) 15%nat) 1.

End Board.

(* ================================================================== *)
(** * The line scans shared by the three classes

    The source repeats the same two loops in [GomokuAI], [Node] and
    [MCTS]; they are embedded once.  A walk leaves the board after at most
    [size] steps, which is the fuel the callers pass. *)

Module Scan.

(** [while 0 <= ni < size and 0 <= nj < size and b[ni][nj] == player:
       count += 1; ni += di; nj += dj] *)
Fixpoint count_loop (fuel : nat) (b : Board.t) (ni nj di dj player count : Z) : Z :=
  match fuel with
  | O => count
  | S fuel' =>
      if Board.in_range b ni nj && (Board.get b ni nj =? player)
      then count_loop fuel' b (ni + di) (nj + dj) di dj player (count + 1)
      else count
  end.

(** The body shared by every [_is_winning_move]: with the stone already
    placed on [b], is there a direction with five or more in line
    through [move]? *)
Definition line_count (b : Board.t) (move : Move) (d : Z * Z) (player : Z) : Z :=
  let fuel := Z.to_nat (Board.size b) in
  let count := 1 in
  let count := count_loop fuel b (fst move + fst d) (snd move + snd d) (fst d) (snd d) player count in
  let count := count_loop fuel b (fst move - fst d) (snd move - snd d) (- fst d) (- snd d) player count in
  count.

Definition five_through (b : Board.t) (move : Move) (player : Z) : bool :=
  existsb (fun d => 5 <=? line_count b move d player) Board.directions.

(** The state of one directional walk of the pattern scan. *)
Record walk : Type := mk_walk { consecutive : Z; space : Z; blocked : Z }.

(** One walk of [_get_pattern] / [_evaluate_line] / [_quick_evaluate_move]:
[[
    while 0 <= ni < size and 0 <= nj < size:
        if b[ni][nj] == 0:
            space += 1
            if space >= 2: break
        elif b[ni][nj] == player:
            if space == 0: consecutive += 1
            else: break
        else:
            blocked += 1
            break
        ni += di; nj += dj
]]
    ([_quick_evaluate_move] tests the player's stone before the empty
    cell; the branches are exclusive for a player in {1, -1}.) *)
Fixpoint walk_loop (fuel : nat) (b : Board.t) (ni nj di dj player : Z) (w : walk) : walk :=
  match fuel with
  | O => w
  | S fuel' =>
      if negb (Board.in_range b ni nj) then w
      else if Board.get b ni nj =? 0 then
        let w := mk_walk (consecutive w) (space w + 1) (blocked w) in
        if 2 <=? space w then w
        else walk_loop fuel' b (ni + di) (nj + dj) di dj player w
      else if Board.get b ni nj =? player then
        if space w =? 0
        then walk_loop fuel' b (ni + di) (nj + dj) di dj player
                       (mk_walk (consecutive w + 1) (space w) (blocked w))
        else w
      else mk_walk (consecutive w) (space w) (blocked w + 1)
  end.

(** The triple [(consecutive, blocked, space_before + space_after)] that
    [_get_pattern] returns and [_evaluate_line] scores. *)
Definition pattern (b : Board.t) (i j di dj player : Z) : Z * Z * Z :=
  let fuel := Z.to_nat (Board.size b) in
  let before := walk_loop fuel b (i - di) (j - dj) (- di) (- dj) player (mk_walk 1 0 0) in
  let after := walk_loop fuel b (i + di) (j + dj) di dj player
                         (mk_walk (consecutive before) 0 (blocked before)) in
  (consecutive after, blocked after, space before + space after).

End Scan.

(* ================================================================== *)
(** * The object store and the monad of the embedding *)

Definition ref := nat.

(** The attributes of a [Node] object of [mcts.py]. *)
Record node : Type := mk_node {
  board : ref;
  parent : option ref;
  move : option Move;
  children : list ref;
  wins : float;
  visits : Z;
  untried_moves : list Move
}.

(** Board objects and node objects, each addressed by its allocation
    index. *)
Record Store : Type := mk_store { boards : list Board.t; nodes : list node }.

Inductive exn : Type := IndexError | ZeroDivisionError | ValueError.

Inductive res (A : Type) : Type :=
| Val (a : A)
| Exn (e : exn).
Arguments Exn {A} e.

(** Computations that read and update the store and may raise. *)
Definition M (A : Type) : Type := Store -> res A * Store.

Definition ret (A : Type) (a : A) : M A := fun s => (Val a, s).

Definition bind (A B : Type) (c : M A) (k : A -> M B) : M B :=
  fun s => match c s with
           | (Val a, s') => k a s'
           | (Exn e, s') => (Exn e, s')
           end.

Definition raise (A : Type) (e : exn) : M A := fun s => (Exn e, s).
Arguments raise {A} e.

Notation "x <- c ;; k" := (bind c (fun x => k))
  (at level 61, c at next level, right associativity).
Notation "c ;;; k" := (bind c (fun _ => k))
  (at level 61, right associativity).

(** Dereferencing a board reference (references handed out by [copy] are
    always allocated). *)
Definition deref (s : Store) (r : ref) : Board.t := nth r (boards s) Board.empty.

Definition read (r : ref) : M Board.t := fun s => (Val (deref s r), s).

(** [r.copy()]: a fresh board object with the same contents. *)
Definition copy (r : ref) : M ref :=
  fun s => (Val (length (boards s)),
            mk_store (boards s ++ [deref s r]) (nodes s)).

(** [r.board[i][j] = v]. *)
Definition setitem (r : ref) (m : Move) (v : Z) : M unit :=
  fun s => (Val tt,
            mk_store (update r (fun b => Board.set b (fst m) (snd m) v) (boards s)) (nodes s)).

(** [r.make_move(m)]. *)
Definition make_move (r : ref) (m : Move) : M unit :=
  fun s => (Val tt,
            mk_store (update r (fun b => Board.make_move b m) (boards s)) (nodes s)).

(** [for x in l: if p(x): return x] as a search for the first hit. *)
Fixpoint findM (A : Type) (p : A -> M bool) (l : list A) : M (option A) :=
  match l with
  | [] => ret None
  | x :: l' => hit <- p x ;; if hit then ret (Some x) else findM p l'
  end.

(** [[f(x) for x in l]]. *)
Fixpoint mapM (A B : Type) (f : A -> M B) (l : list A) : M (list B) :=
  match l with
  | [] => ret []
  | x :: l' => y <- f x ;; ys <- mapM f l' ;; ret (y :: ys)
  end.

(* ================================================================== *)
(** * minimax.py: class GomokuAI *)

Module GomokuAI.

(** [GomokuAI(max_depth=4)]; a positive depth is assumed, as every
    caller in the repository passes one. *)
Record t : Type := mk { max_depth : nat }.

Inductive pattern_name : Type :=
| win5 | alive4 | rush4 | alive3 | sleep3 | alive2 | sleep2 | alive1.

(** The dictionary [self.pattern_scores]. *)
Definition pattern_scores (k : pattern_name) : Z :=
  match k with
  | win5 => 100000
  | alive4 => 10000
  | rush4 => 5000
  | alive3 => 1000
  | sleep3 => 500
  | alive2 => 100
  | sleep2 => 50
  | alive1 => 10
  end.

Definition _has_neighbor (b : Board.t) (i j : Z) : bool :=
  existsb (fun di =>
    existsb (fun dj =>
      if (di =? 0) && (dj =? 0) then false
      else
        let ni := i + di in
        let nj := j + dj in
        Board.in_range b ni nj && negb (Board.get b ni nj =? 0))
      [-1; 0; 1])
    [-1; 0; 1].

Definition _get_pattern (b : Board.t) (i j di dj player : Z) : Z * Z * Z :=
  Scan.pattern b i j di dj player.

Definition _get_pattern_score (pattern : Z * Z * Z) : Z :=
  let '(consecutive, blocked, space) := pattern in
  if 5 <=? consecutive then pattern_scores win5
  else if (consecutive =? 4) && (blocked =? 0) then pattern_scores alive4
  else if (consecutive =? 4) && (blocked =? 1) then pattern_scores rush4
  else if (consecutive =? 3) && (blocked =? 0) then pattern_scores alive3
  else if (consecutive =? 3) && (blocked =? 1) then pattern_scores sleep3
  else if (consecutive =? 2) && (blocked =? 0) then pattern_scores alive2
  else if (consecutive =? 2) && (blocked =? 1) then pattern_scores sleep2
  else if (consecutive =? 1) && (blocked =? 0) then pattern_scores alive1
  else 0.

Definition _evaluate_direction_all (b : Board.t) (i j player : Z) : Z :=
  fold_left (fun score d =>
               score + _get_pattern_score (_get_pattern b i j (fst d) (snd d) player))
            Board.directions 0.

(** [_evaluate_board]: the running [score] is updated cell by cell and
    direction by direction, in the order of the source. *)
Definition _evaluate_board (b : Board.t) : float :=
  let player := Board.current_player b in
  let opponent := - player in
  fold_left (fun score m =>
    let '(i, j) := m in
    if Board.get b i j =? 0 then score
    else
      fold_left (fun score d =>
        if Board.get b i j =? player
        then PyFloat.add score
               (PyFloat.of_int (_get_pattern_score (_get_pattern b i j (fst d) (snd d) player)))
        else PyFloat.sub score
               (PyFloat.mul
                  (PyFloat.of_int (_get_pattern_score (_get_pattern b i j (fst d) (snd d) opponent)))
                  PyFloat.lit_1_1))
        Board.directions score)
    (Board.cells b) (PyFloat.of_int 0).

Definition _is_winning_move (board : ref) (move : Move) (player : Z) : M bool :=
  test_board <- copy board ;;
  setitem test_board move player ;;;
  tb <- read test_board ;;
  ret (Scan.five_through tb move player).

Definition _evaluate_move (board : ref) (move : Move) : M float :=
  b <- read board ;;
  let '(i, j) := move in
  let player := Board.current_player b in
  let opponent := - player in
  test_board <- copy board ;;
  setitem test_board move player ;;;
  tb <- read test_board ;;
  let attack_score := _evaluate_direction_all tb i j player in
  let score := PyFloat.of_int (0 + attack_score) in
  setitem test_board move opponent ;;;
  tb <- read test_board ;;
  let defense_score := _evaluate_direction_all tb i j opponent in
  let score := PyFloat.add score (PyFloat.mul (PyFloat.of_int defense_score) PyFloat.lit_1_1) in
  let center := Board.size b / 2 in
  let distance_to_center := Z.abs (i - center) + Z.abs (j - center) in
  ret (PyFloat.sub score (PyFloat.of_int (distance_to_center * 10))).

Definition _get_valid_moves (board : ref) : M (list Move) :=
  b <- read board ;;
  if Z.of_nat (length (Board.get_valid_moves b)) =? Board.size b * Board.size b then
    let center := Board.size b / 2 in
    ret [(center, center)]
  else
    moves <- mapM (fun m => score <- _evaluate_move board m ;; ret (score, m))
                  (filter (fun m => (Board.get b (fst m) (snd m) =? 0)
                                    && _has_neighbor b (fst m) (snd m))
                          (Board.cells b)) ;;
    ret (map snd (firstn 15 (sort_desc scored_ltb moves))).

Section Search.

(** [prune = true] is the source; [prune = false] is the same
    recursion with the two [if beta <= alpha: break] removed. *)
Variable prune : bool.

Section Loops.

(** [child move alpha beta]: clone, apply [move], recurse. *)
Variable child : Move -> float -> float -> M float.

Fixpoint max_loop (moves : list Move) (max_eval alpha beta : float) : M float :=
  match moves with
  | [] => ret max_eval
  | move :: rest =>
      eval <- child move alpha beta ;;
      let max_eval := PyFloat.max max_eval eval in
      let alpha := PyFloat.max alpha eval in
      if prune && PyFloat.leb beta alpha then ret max_eval
      else max_loop rest max_eval alpha beta
  end.

Fixpoint min_loop (moves : list Move) (min_eval alpha beta : float) : M float :=
  match moves with
  | [] => ret min_eval
  | move :: rest =>
      eval <- child move alpha beta ;;
      let min_eval := PyFloat.min min_eval eval in
      let beta := PyFloat.min beta eval in
      if prune && PyFloat.leb beta alpha then ret min_eval
      else min_loop rest min_eval alpha beta
  end.

End Loops.

Fixpoint _minimax_with (depth : nat) (board : ref) (is_maximizing : bool)
         (alpha beta : float) {struct depth} : M float :=
  b <- read board ;;
  match depth with
  | O => ret (_evaluate_board b)
  | S depth' =>
      if Board.is_game_over b then ret (_evaluate_board b)
      else
        valid_moves <- _get_valid_moves board ;;
        let child (is_max : bool) (move : Move) (alpha beta : float) : M float :=
          new_board <- copy board ;;
          make_move new_board move ;;;
          _minimax_with depth' new_board is_max alpha beta in
        if is_maximizing
        then max_loop (child false) valid_moves PyFloat.neg_inf alpha beta
        else min_loop (child true) valid_moves PyFloat.inf alpha beta
  end.

(** The scoring loop at the root of [get_move]. *)
Fixpoint root_loop (depth : nat) (board : ref) (moves : list Move)
         (alpha beta best_score : float) (best_move : option Move) : M (option Move) :=
  match moves with
  | [] => ret best_move
  | move :: rest =>
      new_board <- copy board ;;
      make_move new_board move ;;;
      score <- _minimax_with depth new_board false alpha beta ;;
      let '(best_score, best_move) :=
        if PyFloat.ltb best_score score then (score, Some move)
        else (best_score, best_move) in
      let alpha := PyFloat.max alpha best_score in
      root_loop depth board rest alpha beta best_score best_move
  end.

Definition get_move_with (self : t) (board : ref) : M (option Move) :=
  b <- read board ;;
  valid_moves <- _get_valid_moves board ;;
  match valid_moves with
  | [] => ret None
  | _ :: _ =>
      if Z.of_nat (length valid_moves) =? Board.size b * Board.size b then
        let center := Board.size b / 2 in
        ret (Some (center, center))
      else
        won <- findM (fun move => _is_winning_move board move (Board.current_player b))
                     valid_moves ;;
        match won with
        | Some move => ret (Some move)
        | None =>
            blocked <- findM (fun move => _is_winning_move board move (- Board.current_player b))
                             valid_moves ;;
            match blocked with
            | Some move => ret (Some move)
            | None =>
                root_loop (max_depth self - 1) board valid_moves
                          PyFloat.neg_inf PyFloat.inf PyFloat.neg_inf None
            end
        end
  end.

End Search.

(** The two methods as the source has them (with the cutoff). *)
Definition _minimax : nat -> ref -> bool -> float -> float -> M float :=
  _minimax_with true.

Definition get_move : t -> ref -> M (option Move) := get_move_with true.

End GomokuAI.

(* ================================================================== *)
(** * mcts.py: class Node *)

(** [range(a, b)]. *)
Definition range2 (a b : Z) : list Z := map (fun k => a + Z.of_nat k) (seq 0 (Z.to_nat (b - a))).

(** [l.remove(x)]: drop the first element equal to [x]. *)
Fixpoint remove_first (x : Move) (l : list Move) : list Move :=
  match l with
  | [] => []
  | y :: l' => if move_eqb y x then l' else y :: remove_first x l'
  end.

Definition dummy_node : node := mk_node O None None [] (PyFloat.of_int 0) 0 [].

Definition get_node (n : ref) : M node := fun s => (Val (nth n (nodes s) dummy_node), s).

Definition set_node (n : ref) (f : node -> node) : M unit :=
  fun s => (Val tt, mk_store (boards s) (update n f (nodes s))).

Definition alloc_node (nd : node) : M ref :=
  fun s => (Val (length (nodes s)), mk_store (boards s) (nodes s ++ [nd])).

(** Attribute assignments on a node object. *)
Definition with_untried_moves (l : list Move) (nd : node) : node :=
  mk_node (board nd) (parent nd) (move nd) (children nd) (wins nd) (visits nd) l.

Definition with_children (l : list ref) (nd : node) : node :=
  mk_node (board nd) (parent nd) (move nd) l (wins nd) (visits nd) (untried_moves nd).

Definition with_visits (v : Z) (nd : node) : node :=
  mk_node (board nd) (parent nd) (move nd) (children nd) (wins nd) v (untried_moves nd).

Definition with_wins (w : float) (nd : node) : node :=
  mk_node (board nd) (parent nd) (move nd) (children nd) w (visits nd) (untried_moves nd).

Module Node.

Definition _is_winning_move (board : ref) (move : Move) (player : Z) : M bool :=
  test_board <- copy board ;;
  setitem test_board move player ;;;
  tb <- read test_board ;;
  ret (Scan.five_through tb move player).

(** [_evaluate_line]: the pattern scan followed by the scoring rule. *)
Definition _evaluate_line (b : Board.t) (i j di dj player : Z) : Z :=
  let '(consecutive, blocked, _) := Scan.pattern b i j di dj player in
  if 5 <=? consecutive then 100000
  else if consecutive =? 4 then
    if blocked =? 0 then 50000 else if blocked =? 1 then 10000 else 100
  else if consecutive =? 3 then
    if blocked =? 0 then 8000 else if blocked =? 1 then 3000 else 100
  else if consecutive =? 2 then
    if blocked =? 0 then 1000 else if blocked =? 1 then 300 else 100
  else 100.

Definition _get_min_distance_to_pieces (b : Board.t) (move : Move) : float :=
  let '(i, j) := move in
  fold_left (fun min_distance x =>
    fold_left (fun min_distance y =>
      if negb (Board.get b x y =? 0) then
        let distance := Z.abs (x - i) + Z.abs (y - j) in
        PyFloat.min min_distance (PyFloat.of_int distance)
      else min_distance)
      (range2 (Z.max 0 (j - 2)) (Z.min (Board.size b) (j + 3))) min_distance)
    (range2 (Z.max 0 (i - 2)) (Z.min (Board.size b) (i + 3))) PyFloat.inf.

Definition _evaluate_move (board : ref) (move : Move) : M float :=
  b <- read board ;;
  let '(i, j) := move in
  let player := Board.current_player b in
  let opponent := - player in
  test_board <- copy board ;;
  setitem test_board move player ;;;
  tb <- read test_board ;;
  let score :=
    fold_left (fun score d =>
      let attack_score := _evaluate_line tb i j (fst d) (snd d) player in
      let score := PyFloat.add score (PyFloat.of_int attack_score) in
      let defense_score := _evaluate_line b i j (fst d) (snd d) opponent in
      PyFloat.add score (PyFloat.mul (PyFloat.of_int defense_score) PyFloat.lit_1_1))
      Board.directions (PyFloat.of_int 0) in
  let center := Board.size b / 2 in
  let distance_to_center := Z.abs (i - center) + Z.abs (j - center) in
  let score := PyFloat.sub score (PyFloat.of_int (distance_to_center * 10)) in
  let min_distance := _get_min_distance_to_pieces b move in
  ret (if PyFloat.ltb (PyFloat.of_int 2) min_distance
       then PyFloat.mul score PyFloat.lit_0_1 else score).

(** The classification loop of [_get_sorted_moves] and the code after
    it. *)
Fixpoint sort_loop (board : ref) (current_player : Z) (valid_moves : list Move)
         (critical_moves : list Move) (high_priority_moves normal_moves : list (float * Move))
  : M (list Move) :=
  match valid_moves with
  | [] =>
      match critical_moves with
      | _ :: _ => ret critical_moves
      | [] =>
          let sorted_moves := map snd (sort_desc scored_ltb high_priority_moves)
                              ++ map snd (sort_desc scored_ltb normal_moves) in
          ret (firstn 10 sorted_moves)
      end
  | move :: rest =>
      win <- _is_winning_move board move current_player ;;
      if win then ret [move]
      else
        threat <- _is_winning_move board move (- current_player) ;;
        if threat
        then sort_loop board current_player rest
                       (critical_moves ++ [move]) high_priority_moves normal_moves
        else
          score <- _evaluate_move board move ;;
          if PyFloat.leb (PyFloat.of_int 5000) score
          then sort_loop board current_player rest critical_moves
                         (high_priority_moves ++ [(score, move)]) normal_moves
          else sort_loop board current_player rest critical_moves
                         high_priority_moves (normal_moves ++ [(score, move)])
  end.

Definition _get_sorted_moves (board : ref) : M (list Move) :=
  b <- read board ;;
  let valid_moves := Board.get_valid_moves b in
  match valid_moves with
  | [] => ret []
  | _ :: _ =>
      if Z.of_nat (length valid_moves) =? Board.size b * Board.size b then
        let center := Board.size b / 2 in
        ret [(center, center)]
      else sort_loop board (Board.current_player b) valid_moves [] [] []
  end.

(** [Node(board, parent, move)]. *)
Definition __init__ (board : ref) (parent : option ref) (move : option Move) : M ref :=
  untried <- _get_sorted_moves board ;;
  alloc_node (mk_node board parent move [] (PyFloat.of_int 0) 0 untried).

Definition add_child (self : ref) (move : Move) : M ref :=
  nd <- get_node self ;;
  new_board <- copy (board nd) ;;
  make_move new_board move ;;;
  child <- __init__ new_board (Some self) (Some move) ;;
  set_node self (fun nd => with_untried_moves (remove_first move (untried_moves nd)) nd) ;;;
  set_node self (fun nd => with_children (children nd ++ [child]) nd) ;;;
  ret child.

Definition update (self : ref) (result : float) : M unit :=
  set_node self (fun nd => with_visits (visits nd + 1) nd) ;;;
  set_node self (fun nd => with_wins (PyFloat.add (wins nd) result) nd).

Section UCB.

(** [math.log] is a function of the C library; the embedding takes
    it as a parameter. *)
Variable math_log : float -> float.

(** The sort key of [select_child] for child [x] of [self]; the
    quotient [x.wins / x.visits] is evaluated first and raises
    [ZeroDivisionError] at zero visits, then [math.log] raises
    [ValueError] outside its domain.  ([math.sqrt] raises [ValueError]
    on a negative number, which its argument here is only for a
    negative visit count of the child or a negative logarithm; the
    embedding is for visit counts that are not negative.) *)
Definition ucb1 (self x : node) : M float :=
  let c := PyFloat.lit_1_414 in
  if visits x =? 0 then raise ZeroDivisionError
  else if visits self <=? 0 then raise ValueError
  else
    ret (PyFloat.add
           (PyFloat.div (wins x) (PyFloat.of_int (visits x)))
           (PyFloat.mul c
              (PyFloat.sqrt
                 (PyFloat.div
                    (PyFloat.mul (PyFloat.of_int 2) (math_log (PyFloat.of_int (visits self))))
                    (PyFloat.of_int (visits x)))))).

Definition select_child (self : ref) : M ref :=
  nd <- get_node self ;;
  keyed <- mapM (fun x => xn <- get_node x ;; k <- ucb1 nd xn ;; ret (k, x)) (children nd) ;;
  match rev (sorted PyFloat.ltb fst keyed) with
  | [] => raise IndexError
  | (_, x) :: _ => ret x
  end.

End UCB.

End Node.

(* ================================================================== *)
(** * mcts.py: class MCTS *)

(** [len(self.nodes)] of the store: the bound of every walk along
    [parent] or [children] links. *)
Definition node_count : M nat := fun s => (Val (length (nodes s)), s).

(** Python's [<] on [(int, move)] tuples. *)
Definition int_scored_ltb (a b : Z * Move) : bool :=
  if fst a =? fst b then move_ltb (snd a) (snd b) else fst a <? fst b.

Module MCTS.

(** [MCTS(time_limit=5.0, max_moves=1000)]. *)
Record t : Type := mk { time_limit : float; max_moves : Z }.

(** What a call of [get_move] produces: the returned Python value, or
    [OutOfTicks] when the supplied clock readings end before the call
    does (the readings are the successive results of [time.time()]). *)
Inductive outcome : Type :=
| Returned (v : option Move)
| OutOfTicks.

Definition _is_winning_move (board : ref) (move : Move) (check_opponent : bool) : M bool :=
  b <- read board ;;
  let player := if check_opponent then - Board.current_player b else Board.current_player b in
  test_board <- copy board ;;
  setitem test_board move player ;;;
  tb <- read test_board ;;
  ret (Scan.five_through tb move player).

(** The inner [while] of [_quick_evaluate_move]. *)
Fixpoint quick_walk (fuel : nat) (b : Board.t) (ni nj di dj player : Z) (w : Scan.walk)
  : Scan.walk :=
  match fuel with
  | O => w
  | S fuel' =>
      if negb (Board.in_range b ni nj) then w
      else if Board.get b ni nj =? player then
        if Scan.space w =? 0
        then quick_walk fuel' b (ni + di) (nj + dj) di dj player
                        (Scan.mk_walk (Scan.consecutive w + 1) (Scan.space w) (Scan.blocked w))
        else w
      else if Board.get b ni nj =? 0 then
        let w := Scan.mk_walk (Scan.consecutive w) (Scan.space w + 1) (Scan.blocked w) in
        if 2 <=? Scan.space w then w
        else quick_walk fuel' b (ni + di) (nj + dj) di dj player w
      else Scan.mk_walk (Scan.consecutive w) (Scan.space w) (Scan.blocked w + 1)
  end.

Definition _quick_evaluate_move (b : Board.t) (move : Move) : Z :=
  let '(i, j) := move in
  let player := Board.current_player b in
  let fuel := Z.to_nat (Board.size b) in
  fold_left (fun score d =>
    let '(di, dj) := d in
    let w :=
      fold_left (fun w direction =>
                   quick_walk fuel b (i + direction * di) (j + direction * dj)
                              (direction * di) (direction * dj) player w)
                [1; -1] (Scan.mk_walk 1 0 0) in
    let consecutive := Scan.consecutive w in
    let blocked := Scan.blocked w in
    if 5 <=? consecutive then score + 100000
    else if consecutive =? 4 then
      if blocked =? 0 then score + 50000 else if blocked =? 1 then score + 10000 else score
    else if consecutive =? 3 then
      if blocked =? 0 then score + 5000 else if blocked =? 1 then score + 1000 else score
    else if consecutive =? 2 then
      if blocked =? 0 then score + 500 else if blocked =? 1 then score + 100 else score
    else score)
    Board.directions 0.

(** The [for move in moves[:6]] of the rollout: the first winning move
    ends the scan, the last blocking move seen is remembered. *)
Fixpoint scan_forced (board_state : ref) (moves : list Move) (blocking_move : option Move)
  : M (option Move * option Move) :=
  match moves with
  | [] => ret (None, blocking_move)
  | move :: rest =>
      win <- _is_winning_move board_state move false ;;
      if win then ret (Some move, blocking_move)
      else
        threat <- _is_winning_move board_state move true ;;
        scan_forced board_state rest (if threat then Some move else blocking_move)
  end.

(** [while not board_state.is_game_over(): ...]; every round fills an
    empty cell, so the number of empty cells bounds the rounds. *)
Fixpoint rollout (fuel : nat) (board_state : ref) : M unit :=
  match fuel with
  | O => ret tt
  | S fuel' =>
      bs <- read board_state ;;
      if Board.is_game_over bs then ret tt
      else
        let moves := Board.get_valid_moves bs in
        match moves with
        | [] => ret tt
        | _ :: _ =>
            let top := firstn (Z.to_nat (Z.min 6 (Z.of_nat (length moves)))) moves in
            forced <- scan_forced board_state top None ;;
            chosen_move <-
              match forced with
              | (Some winning_move, _) => ret winning_move
              | (None, Some blocking_move) => ret blocking_move
              | (None, None) =>
                  let move_scores := map (fun move => (_quick_evaluate_move bs move, move)) top in
                  match sort_desc int_scored_ltb move_scores with
                  | (_, move) :: _ => ret move
                  | [] => raise IndexError
                  end
              end ;;
            make_move board_state chosen_move ;;;
            rollout fuel' board_state
        end
  end.

(** The value [node.update] receives during backpropagation. *)
Definition reward (result current_player : Z) : float :=
  if result =? 0 then PyFloat.lit_0_5
  else PyFloat.of_int (if result =? current_player then 1 else 0).

(** [while node is not None: node.update(...); node = node.parent]. *)
Fixpoint backpropagate (fuel : nat) (node : option ref) (result current_player : Z) : M unit :=
  match fuel with
  | O => ret tt
  | S fuel' =>
      match node with
      | None => ret tt
      | Some n =>
          Node.update n (reward result current_player) ;;;
          nd <- get_node n ;;
          backpropagate fuel' (parent nd) result current_player
      end
  end.

Section Search.

Variable math_log : float -> float.

(** [while node.untried_moves == [] and node.children != []:
       node = node.select_child()] *)
Fixpoint select (fuel : nat) (node : ref) : M ref :=
  match fuel with
  | O => ret node
  | S fuel' =>
      nd <- get_node node ;;
      match untried_moves nd, children nd with
      | [], _ :: _ => child <- Node.select_child math_log node ;; select fuel' child
      | _, _ => ret node
      end
  end.

(** One round of the [while time.time() < end_time] loop. *)
Definition iteration (root : ref) : M unit :=
  (* Selection *)
  bound <- node_count ;;
  node <- select bound root ;;
  (* Expansion *)
  nd <- get_node node ;;
  node <- match untried_moves nd with
          | move :: _ => Node.add_child node move
          | [] => ret node
          end ;;
  (* Simulation *)
  nd <- get_node node ;;
  board_state <- copy (board nd) ;;
  bs <- read board_state ;;
  let current_player := Board.current_player bs in
  rollout (S (length (Board.get_valid_moves bs))) board_state ;;;
  (* Backpropagation *)
  bs <- read board_state ;;
  let result := Board.check_win bs in
  bound <- node_count ;;
  backpropagate bound (Some node) result current_player.

(** The search loop; [true] when the loop test failed and the loop was
    left, [false] when the clock readings ran out first. *)
Fixpoint search_loop (ticks : list float) (end_time : float) (root : ref) : M bool :=
  match ticks with
  | [] => ret false
  | now :: ticks' =>
      if PyFloat.ltb now end_time
      then iteration root ;;; search_loop ticks' end_time root
      else ret true
  end.

(** [return sorted(root.children, key=lambda x: x.visits)[-1].move] *)
Definition most_visited (root : ref) : M (option Move) :=
  rn <- get_node root ;;
  keyed <- mapM (fun x => xn <- get_node x ;; ret (visits xn, x)) (children rn) ;;
  match rev (sorted Z.ltb fst keyed) with
  | [] => raise IndexError
  | (_, x) :: _ => xn <- get_node x ;; ret (move xn)
  end.

(** The second half of [get_move]: the time-boxed loop and the final
    choice.  The first reading of the clock fixes [end_time]. *)
Definition search (self : t) (clock : list float) (root : ref) : M outcome :=
  match clock with
  | [] => ret OutOfTicks
  | now :: ticks =>
      let end_time := PyFloat.add now (time_limit self) in
      finished <- search_loop ticks end_time root ;;
      if finished
      then v <- most_visited root ;; ret (Returned v)
      else ret OutOfTicks
  end.

Definition get_move (self : t) (clock : list float) (board : ref) : M outcome :=
  b <- read board ;;
  root <- Node.__init__ board None None ;;
  rn <- get_node root ;;
  forced <- findM (fun move =>
                     win <- Node._is_winning_move board move (Board.current_player b) ;;
                     if win then ret true
                     else Node._is_winning_move board move (- Board.current_player b))
                  (untried_moves rn) ;;
  match forced with
  | Some move => ret (Returned (Some move))
  | None => search self clock root
  end.

End Search.

End MCTS.

Unset Implicit Arguments.

(* ================================================================== *)
(** * Specification-side definitions *)

(** ** Where a walk of the pattern scan ends

    A walk first passes the stones of [player] that follow one another
    from its starting cell; [walk_end] classifies the cell after them and,
    when that cell is empty, the next one. *)

Inductive stop : Type :=
| AtEdge            (* the walk left the board *)
| AtOpponent        (* the walk met a stone that is not the player's *)
| AtSecondGap       (* a second empty cell *)
| AtStoneAfterGap.  (* a stone of the player behind an empty cell *)

(** The cell at which the run of stones has ended, classified. *)
Definition classify (b : Board.t) (qi qj di dj player : Z) : stop :=
  if negb (Board.in_range b qi qj) then AtEdge
  else if Board.get b qi qj =? 0 then
    if negb (Board.in_range b (qi + di) (qj + dj)) then AtEdge
    else if Board.get b (qi + di) (qj + dj) =? 0 then AtSecondGap
    else if Board.get b (qi + di) (qj + dj) =? player then AtStoneAfterGap
    else AtOpponent
  else AtOpponent.

Definition walk_end_with (fuel : nat) (b : Board.t) (ni nj di dj player : Z) : stop :=
  let run := Scan.count_loop fuel b ni nj di dj player 0 in
  classify b (ni + run * di) (nj + run * dj) di dj player.

Definition walk_end (b : Board.t) (ni nj di dj player : Z) : stop :=
  walk_end_with (Z.to_nat (Board.size b)) b ni nj di dj player.

(** [fuel] steps from [(ni, nj)] lead off the board. *)
Definition off_after (b : Board.t) (di dj : Z) (fuel : nat) (ni nj : Z) : Prop :=
  forall k, Z.of_nat fuel <= k ->
            Board.in_range b (ni + k * di) (nj + k * dj) = false.

(** What one walk, started next to the anchor [(i, j)] in direction
    [(di, dj)], adds to the blocked-end count. *)
Definition end_mark (b : Board.t) (i j di dj player : Z) : Z :=
  Scan.blocked (Scan.walk_loop (Z.to_nat (Board.size b)) b (i + di) (j + dj) di dj player
                               (Scan.mk_walk 1 0 0)).

Definition opponent_mark (s : stop) : Z :=
  match s with AtOpponent => 1 | _ => 0 end.

(** The reading of the pattern scan under which an end counts as blocked
    exactly when its walk stops at an opponent stone or at the board
    edge. *)
Definition blocked_iff_opponent_or_edge (b : Board.t) (i j di dj player : Z) : Prop :=
  end_mark b i j di dj player = 1 <->
  (walk_end b (i + di) (j + dj) di dj player = AtOpponent \/
   walk_end b (i + di) (j + dj) di dj player = AtEdge).

(** A board given by its stones: [(i, j, v)] puts [v] on cell [(i, j)]
    of the empty 15 x 15 grid. *)
Definition place (stones : list (Z * Z * Z)) (to_move : Z) : Board.t :=
  fold_left (fun b s => Board.set b (fst (fst s)) (snd (fst s)) (snd s)) stones
            (Board.mk 15 (Board.board Board.empty) to_move).

(** ** Reading the store *)

(** The node object behind a reference. *)
Definition node_at (s : Store) (n : ref) : node := nth n (nodes s) dummy_node.

(** [c] is the last element of [l] whose key is maximal. *)
Definition last_maximal (A : Type) (key : A -> Z) (l : list A) (c : A) : Prop :=
  exists before after,
    l = before ++ c :: after /\
    (forall x, In x before -> key x <= key c) /\
    (forall x, In x after -> key x < key c).

(** ** Concrete positions used below *)

(** Black has just completed five on the top row; the row is closed by
    the border on one side and a white stone on the other.  White is to
    move. *)
Definition finished_board : Board.t :=
  place [(0, 0, 1); (0, 1, 1); (0, 2, 1); (0, 3, 1); (0, 4, 1);
         (0, 5, -1); (5, 5, -1); (9, 9, -1); (3, 8, -1)] (-1).

(** A stand-in for [math.log] where a run does not reach [select_child]. *)
Definition no_log (x : float) : float := x.

(** [MCTS()] with its defaults. *)
Definition default_mcts : MCTS.t := MCTS.mk (PyFloat.of_int 5) 1000.

(** A board of three rows with one stone, on which no game is ever won;
    White is to move. *)
Definition small_board : Board.t := Board.mk 3 [[0; 0; 0]; [0; 1; 0]; [0; 0; 0]] (-1).

(** ** The values the methods compute

    Every method of the engines writes only to board objects it has
    cloned itself, so what it returns is a function of the contents of the
    board it was given.  [Pure] states these functions; the lemmas named
    [..._yields] below show that the methods compute them. *)

Module Pure.

Definition is_winning_move (b : Board.t) (move : Move) (player : Z) : bool :=
  Scan.five_through (Board.set b (fst move) (snd move) player) move player.

Definition evaluate_move (b : Board.t) (move : Move) : float :=
  let '(i, j) := move in
  let player := Board.current_player b in
  let opponent := - player in
  let tb := Board.set b i j player in
  let attack_score := GomokuAI._evaluate_direction_all tb i j player in
  let tb := Board.set tb i j opponent in
  let defense_score := GomokuAI._evaluate_direction_all tb i j opponent in
  let score := PyFloat.add (PyFloat.of_int (0 + attack_score))
                           (PyFloat.mul (PyFloat.of_int defense_score) PyFloat.lit_1_1) in
  let center := Board.size b / 2 in
  let distance_to_center := Z.abs (i - center) + Z.abs (j - center) in
  PyFloat.sub score (PyFloat.of_int (distance_to_center * 10)).

(** The empty cells next to a stone, in board order. *)
Definition neighbour_cells (b : Board.t) : list Move :=
  filter (fun m => (Board.get b (fst m) (snd m) =? 0)
                   && GomokuAI._has_neighbor b (fst m) (snd m))
         (Board.cells b).

Definition get_valid_moves (b : Board.t) : list Move :=
  if Z.of_nat (length (Board.get_valid_moves b)) =? Board.size b * Board.size b then
    [(Board.size b / 2, Board.size b / 2)]
  else
    map snd (firstn 15 (sort_desc scored_ltb
                          (map (fun m => (evaluate_move b m, m)) (neighbour_cells b)))).

Section Search.

Variable prune : bool.

Section Loops.

Variable child : Move -> float -> float -> float.

Fixpoint max_loop (moves : list Move) (max_eval alpha beta : float) : float :=
  match moves with
  | [] => max_eval
  | move :: rest =>
      let eval := child move alpha beta in
      let max_eval := PyFloat.max max_eval eval in
      let alpha := PyFloat.max alpha eval in
      if prune && PyFloat.leb beta alpha then max_eval
      else max_loop rest max_eval alpha beta
  end.

Fixpoint min_loop (moves : list Move) (min_eval alpha beta : float) : float :=
  match moves with
  | [] => min_eval
  | move :: rest =>
      let eval := child move alpha beta in
      let min_eval := PyFloat.min min_eval eval in
      let beta := PyFloat.min beta eval in
      if prune && PyFloat.leb beta alpha then min_eval
      else min_loop rest min_eval alpha beta
  end.

End Loops.

Fixpoint minimax (depth : nat) (b : Board.t) (is_maximizing : bool)
         (alpha beta : float) {struct depth} : float :=
  match depth with
  | O => GomokuAI._evaluate_board b
  | S depth' =>
      if Board.is_game_over b then GomokuAI._evaluate_board b
      else
        let child (is_max : bool) (move : Move) (alpha beta : float) :=
          minimax depth' (Board.make_move b move) is_max alpha beta in
        if is_maximizing
        then max_loop (child false) (get_valid_moves b) PyFloat.neg_inf alpha beta
        else min_loop (child true) (get_valid_moves b) PyFloat.inf alpha beta
  end.

Fixpoint root_loop (depth : nat) (b : Board.t) (moves : list Move)
         (alpha beta best_score : float) (best_move : option Move) : option Move :=
  match moves with
  | [] => best_move
  | move :: rest =>
      let score := minimax depth (Board.make_move b move) false alpha beta in
      let '(best_score, best_move) :=
        if PyFloat.ltb best_score score then (score, Some move)
        else (best_score, best_move) in
      let alpha := PyFloat.max alpha best_score in
      root_loop depth b rest alpha beta best_score best_move
  end.

Definition get_move (self : GomokuAI.t) (b : Board.t) : option Move :=
  let valid_moves := get_valid_moves b in
  match valid_moves with
  | [] => None
  | _ :: _ =>
      if Z.of_nat (length valid_moves) =? Board.size b * Board.size b then
        Some (Board.size b / 2, Board.size b / 2)
      else
        match find (fun move => is_winning_move b move (Board.current_player b)) valid_moves with
        | Some move => Some move
        | None =>
            match find (fun move => is_winning_move b move (- Board.current_player b))
                       valid_moves with
            | Some move => Some move
            | None =>
                root_loop (GomokuAI.max_depth self - 1) b valid_moves
                          PyFloat.neg_inf PyFloat.inf PyFloat.neg_inf None
            end
        end
  end.

End Search.

End Pure.

(** ** Stores that extend one another *)

(** [r] refers to a board object with contents [b]. *)
Definition holds (s : Store) (r : ref) (b : Board.t) : Prop :=
  nth_error (boards s) r = Some b.

(** [s'] has every board object of [s], unchanged, and maybe more;
    [grows] leaves the node objects alone as well. *)
Definition grows_boards (s s' : Store) : Prop :=
  exists e, boards s' = boards s ++ e.

Definition grows (s s' : Store) : Prop :=
  grows_boards s s' /\ nodes s' = nodes s.

(** [c], run in [s], returns [a] and leaves a store that [grows] from
    [s]. *)
Definition yields (A : Type) (c : M A) (s : Store) (a : A) : Prop :=
  exists s', c s = (Val a, s') /\ grows s s'.

(** [c], run in [s], returns or raises, and keeps every board object of
    [s] as it was. *)
Definition keeps_boards (A : Type) (c : M A) (s : Store) : Prop :=
  exists r s', c s = (r, s') /\ grows_boards s s'.

(** ** The order of binary64 values

    [float_key] ranks a float so that the lexicographic order of the ranks
    is the order [<] of IEEE-754 on everything that is not a NaN (the two
    zeros share a rank). *)

Definition float_key (x : float) : Z * Z * Z :=
  match x with
  | S754_infinity true => (-2, 0, 0)
  | S754_finite true m e => (-1, - e, - Z.pos m)
  | S754_zero _ => (0, 0, 0)
  | S754_finite false m e => (1, e, Z.pos m)
  | S754_infinity false => (2, 0, 0)
  | S754_nan => (3, 0, 0)
  end.

Definition key_lt (a b : Z * Z * Z) : Prop :=
  fst (fst a) < fst (fst b) \/
  (fst (fst a) = fst (fst b) /\
   (snd (fst a) < snd (fst b) \/ (snd (fst a) = snd (fst b) /\ snd a < snd b))).

Module FloatOrder.

Definition t : Type := float.
Definition eq (x y : t) : Prop := float_key x = float_key y.
Definition lt (x y : t) : Prop := key_lt (float_key x) (float_key y).
Definition le (x y : t) : Prop := lt x y \/ eq x y.

End FloatOrder.

(** A float that is a number. *)
Definition num (x : float) : Prop := PyFloat.is_nan x = false.

(** Zero or finite: neither a NaN nor an infinity. *)
Definition finite (x : float) : Prop :=
  match x with
  | S754_zero _ | S754_finite _ _ _ => True
  | _ => False
  end.

(** ** Searching with a window

    [r] answers, for the window [(alpha, beta)], a position whose exact
    value is [v]: inside the window the answer is the value, outside it
    the answer lies on the same side. *)
Definition within_window (alpha beta v r : float) : Prop :=
  (FloatOrder.lt alpha v -> FloatOrder.lt v beta -> FloatOrder.eq r v) /\
  (FloatOrder.le v alpha -> FloatOrder.le r alpha) /\
  (FloatOrder.le beta v -> FloatOrder.le beta r).
(* ================================================================== *)
(** * Notions used to state the properties of the engines *)


(** The cell [t] steps from [(ni, nj)] in direction [(di, dj)] is on the
    board and holds a stone of [player]. *)
Definition on_cell (b : Board.t) (di dj player ni nj t : Z) : Prop :=
  Board.in_range b (ni + t * di) (nj + t * dj) = true /\
  Board.get b (ni + t * di) (nj + t * dj) = player.

(** A stone of [player] on [move] would complete five in a row: some
    line through [move] has a window of five cells that contains [move]
    and whose other four cells are on the board and hold stones of
    [player]. *)
Definition completes_five (b : Board.t) (move : Move) (player : Z) : Prop :=
  exists d k,
    In d Board.directions /\ 0 <= k <= 4 /\
    forall t, 0 <= t <= 4 -> t <> k ->
              on_cell b (fst d) (snd d) player (fst move) (snd move) (t - k).


(** One of the eight cells around [(i, j)] is on the board and holds a
    stone. *)
Definition adjacent_stone (b : Board.t) (i j : Z) : Prop :=
  exists ni nj,
    Z.abs (ni - i) <= 1 /\ Z.abs (nj - j) <= 1 /\ (ni, nj) <> (i, j) /\
    Board.in_range b ni nj = true /\ Board.get b ni nj <> 0.

(** [m] is the first element of [l] that satisfies [P]. *)
Definition first_such (A : Type) (P : A -> Prop) (l : list A) (m : A) : Prop :=
  exists pre post, l = pre ++ m :: post /\ P m /\ forall x, In x pre -> ~ P x.

(** Black, to move, has an open four on row 7; white has three on
    row 8. *)
Definition four_board : Board.t :=
  place [(7, 3, 1); (7, 4, 1); (7, 5, 1); (7, 6, 1);
         (8, 3, -1); (8, 4, -1); (8, 5, -1)] 1.

(** Every cell of the board holds a stone. *)
Definition full (b : Board.t) : Prop :=
  forall i j, Board.in_range b i j = true -> Board.get b i j <> 0.

(** ** The values the methods of [Node] and [MCTS] compute *)

Module PureNode.

Definition evaluate_move (b : Board.t) (move : Move) : float :=
  let '(i, j) := move in
  let player := Board.current_player b in
  let opponent := - player in
  let tb := Board.set b i j player in
  let score :=
    fold_left (fun score d =>
      let attack_score := Node._evaluate_line tb i j (fst d) (snd d) player in
      let score := PyFloat.add score (PyFloat.of_int attack_score) in
      let defense_score := Node._evaluate_line b i j (fst d) (snd d) opponent in
      PyFloat.add score (PyFloat.mul (PyFloat.of_int defense_score) PyFloat.lit_1_1))
      Board.directions (PyFloat.of_int 0) in
  let center := Board.size b / 2 in
  let distance_to_center := Z.abs (i - center) + Z.abs (j - center) in
  let score := PyFloat.sub score (PyFloat.of_int (distance_to_center * 10)) in
  let min_distance := Node._get_min_distance_to_pieces b move in
  if PyFloat.ltb (PyFloat.of_int 2) min_distance
  then PyFloat.mul score PyFloat.lit_0_1 else score.

Fixpoint sort_loop (b : Board.t) (valid_moves : list Move)
         (critical_moves : list Move) (high_priority_moves normal_moves : list (float * Move))
  : list Move :=
  match valid_moves with
  | [] =>
      match critical_moves with
      | _ :: _ => critical_moves
      | [] =>
          firstn 10 (map snd (sort_desc scored_ltb high_priority_moves)
                     ++ map snd (sort_desc scored_ltb normal_moves))
      end
  | move :: rest =>
      if Pure.is_winning_move b move (Board.current_player b) then [move]
      else if Pure.is_winning_move b move (- Board.current_player b)
      then sort_loop b rest (critical_moves ++ [move]) high_priority_moves normal_moves
      else
        let score := evaluate_move b move in
        if PyFloat.leb (PyFloat.of_int 5000) score
        then sort_loop b rest critical_moves
                       (high_priority_moves ++ [(score, move)]) normal_moves
        else sort_loop b rest critical_moves
                       high_priority_moves (normal_moves ++ [(score, move)])
  end.

Definition get_sorted_moves (b : Board.t) : list Move :=
  match Board.get_valid_moves b with
  | [] => []
  | _ :: _ =>
      if Z.of_nat (length (Board.get_valid_moves b)) =? Board.size b * Board.size b
      then [(Board.size b / 2, Board.size b / 2)]
      else sort_loop b (Board.get_valid_moves b) [] [] []
  end.

(** The node object [Node(board, parent, move)] creates for a board
    with contents [b]. *)
Definition fresh (board : ref) (b : Board.t) (parent : option ref) (move : option Move)
  : node :=
  mk_node board parent move [] (PyFloat.of_int 0) 0 (get_sorted_moves b).

End PureNode.

Module PureMCTS.

Fixpoint scan_forced (b : Board.t) (moves : list Move) (blocking_move : option Move)
  : option Move * option Move :=
  match moves with
  | [] => (None, blocking_move)
  | move :: rest =>
      if Pure.is_winning_move b move (Board.current_player b)
      then (Some move, blocking_move)
      else scan_forced b rest
             (if Pure.is_winning_move b move (- Board.current_player b)
              then Some move else blocking_move)
  end.

(** The test of the first loop of [get_move]. *)
Definition forced (b : Board.t) (move : Move) : bool :=
  if Pure.is_winning_move b move (Board.current_player b) then true
  else Pure.is_winning_move b move (- Board.current_player b).

End PureMCTS.

(** The moves of [valid_moves] that are not critical, with their scores. *)
Definition scored_rest (b : Board.t) (valid_moves : list Move) : list (float * Move) :=
  map (fun m => (PureNode.evaluate_move b m, m))
      (filter (fun m => negb (Pure.is_winning_move b m (- Board.current_player b)))
              valid_moves).

(** The test [score >= 5000] for a high-priority move. *)
Definition is_high (p : float * Move) : bool := PyFloat.leb (PyFloat.of_int 5000) (fst p).

(** [m] is the last element of [l] that satisfies [P]. *)
Definition last_such (A : Type) (P : A -> Prop) (l : list A) (m : A) : Prop :=
  exists pre post, l = pre ++ m :: post /\ P m /\ forall x, In x post -> ~ P x.

(** The grid of a board has [size] rows of [size] cells. *)
Definition well_formed (b : Board.t) : Prop :=
  length (Board.board b) = Z.to_nat (Board.size b) /\
  forall row, In row (Board.board b) -> length row = Z.to_nat (Board.size b).

(** A position without forced moves, and a small board without an empty
    cell. *)
Definition quiet_board : Board.t := place [(7, 7, 1); (7, 8, -1)] 1.

Definition full_board : Board.t := Board.mk 2 [[1; -1]; [-1; 1]] 1.

(** Black has three in a row and is to move: the cells at both ends of
    the row are empty. *)
Definition three_board : Board.t := place [(7, 3, 1); (7, 4, 1); (7, 5, 1)] 1.

(** [MCTS(time_limit=0)]. *)
Definition hasty_mcts : MCTS.t := MCTS.mk (PyFloat.of_int 0) 1000.

(** What one round of backpropagation does to a node object. *)
Definition visited (result : float) (nd : node) : node :=
  with_wins (PyFloat.add (wins nd) result) (with_visits (visits nd + 1) nd).

(** The root [root] of the store can grow no child: it has neither
    untried moves nor children, and its board [b] is a finished game. *)
Definition barren (s : Store) (root : ref) (b : Board.t) : Prop :=
  (root < length (nodes s))%nat /\
  untried_moves (node_at s root) = [] /\
  children (node_at s root) = [] /\
  parent (node_at s root) = None /\
  holds s (board (node_at s root)) b /\
  Board.is_game_over b = true.

(** The root node created for [four_board]. *)
Definition four_store : Store := snd (Node.__init__ O None None (mk_store [four_board] [])).

(** The UCB1 score of child [x] of [self], as [select_child] computes
    it. *)
Definition ucb_key (math_log : float -> float) (self x : node) : float :=
  PyFloat.add
    (PyFloat.div (wins x) (PyFloat.of_int (visits x)))
    (PyFloat.mul PyFloat.lit_1_414
       (PyFloat.sqrt
          (PyFloat.div
             (PyFloat.mul (PyFloat.of_int 2) (math_log (PyFloat.of_int (visits self))))
             (PyFloat.of_int (visits x))))).

(** [c] is the last element of [l] whose float key is greatest. *)
Definition last_greatest (A : Type) (key : A -> float) (l : list A) (c : A) : Prop :=
  exists before after,
    l = before ++ c :: after /\
    (forall x, In x before -> FloatOrder.le (key x) (key c)) /\
    (forall x, In x after -> FloatOrder.lt (key x) (key c)).

(** A tree of two nodes: a root that was visited once and its child. *)
Definition two_node_store : Store :=
  mk_store [four_board; Board.make_move four_board (7, 2)]
           [mk_node 0%nat None None [1%nat] (PyFloat.of_int 1) 1 [];
            mk_node 1%nat (Some O) (Some (7, 2)) [] (PyFloat.of_int 1) 1 []].

(** A root that was visited three times and its three children, each
    visited once; the rollouts of the first two were won. *)
Definition family_store : Store :=
  mk_store [quiet_board;
            Board.make_move quiet_board (6, 6);
            Board.make_move quiet_board (6, 7);
            Board.make_move quiet_board (6, 8)]
           [mk_node 0%nat None None [1%nat; 2%nat; 3%nat] (PyFloat.of_int 2) 3 [];
            mk_node 1%nat (Some O) (Some (6, 6)) [] (PyFloat.of_int 1) 1 [];
            mk_node 2%nat (Some O) (Some (6, 7)) [] (PyFloat.of_int 1) 1 [];
            mk_node 3%nat (Some O) (Some (6, 8)) [] (PyFloat.of_int 0) 1 []].

(** [math.log] at the visit count of that root: [math.log(3)] is
    [0x1.193ea7aad030bp+0]; at other arguments the stand-in gives 0. *)
Definition log_at_3 (x : float) : float :=
  if PyFloat.eqb x (PyFloat.of_int 3)
  then S754_finite false 4947709893870347 (-52)
  else PyFloat.of_int 0.

(** [math.log] of a visit count of 1 or more is not negative, so that
    [math.sqrt] is applied to a number that is not negative. *)
Definition log_not_negative (math_log : float -> float) (visits : Z) : Prop :=
  PyFloat.ltb (math_log (PyFloat.of_int visits)) (PyFloat.of_int 0) = false.

(** Every parent link of the store points to a node object that was
    created earlier. *)
Definition parents_below (s : Store) : Prop :=
  forall n p, (n < length (nodes s))%nat ->
              parent (node_at s n) = Some p -> (p < n)%nat.

(** The nodes met when following the parent links from [n]. *)
Fixpoint lineage (fuel : nat) (s : Store) (n : ref) : list ref :=
  match fuel with
  | O => []
  | S fuel' =>
      n :: match parent (node_at s n) with
           | Some p => lineage fuel' s p
           | None => []
           end
  end.

(** The path from [n] up to the root of its tree. *)
Definition path_to_root (s : Store) (n : ref) : list ref := lineage (S n) s n.

(** The cells of the board in the 5 x 5 window around [(i, j)] that
    [_get_min_distance_to_pieces] scans, and the distance it measures. *)
Definition in_window (b : Board.t) (i j x y : Z) : Prop :=
  Board.in_range b x y = true /\ Z.abs (x - i) <= 2 /\ Z.abs (y - j) <= 2.

Definition manhattan (i j x y : Z) : Z := Z.abs (x - i) + Z.abs (y - j).

(** The moves one round of the rollout looks at ([moves[:min(6,
    len(moves))]]) and the move it plays. *)
Definition top_moves (b : Board.t) : list Move :=
  let moves := Board.get_valid_moves b in
  firstn (Z.to_nat (Z.min 6 (Z.of_nat (length moves)))) moves.

Definition choose (b : Board.t) : option Move :=
  match PureMCTS.scan_forced b (top_moves b) None with
  | (Some winning_move, _) => Some winning_move
  | (None, Some blocking_move) => Some blocking_move
  | (None, None) =>
      match sort_desc int_scored_ltb
              (map (fun move => (MCTS._quick_evaluate_move b move, move)) (top_moves b)) with
      | (_, move) :: _ => Some move
      | [] => None
      end
  end.

(** From [s] to [s'] no node object and no board object other than [r]
    has changed; board objects may have been added. *)
Definition changes_only (r : ref) (s s' : Store) : Prop :=
  nodes s' = nodes s /\
  (length (boards s) <= length (boards s'))%nat /\
  forall r0 x, r0 <> r -> holds s r0 x -> holds s' r0 x.

(** [b'] has every stone of [b]. *)
Definition extends (b b' : Board.t) : Prop :=
  Board.size b' = Board.size b /\
  forall i j, Board.get b i j <> 0 -> Board.get b' i j = Board.get b i j.

(** The order in which the rollout ranks the moves it has scored: [m]
    is ranked at least as high as [x]. *)
Definition ranks_above (b : Board.t) (m x : Move) : Prop :=
  MCTS._quick_evaluate_move b x < MCTS._quick_evaluate_move b m \/
  (MCTS._quick_evaluate_move b x = MCTS._quick_evaluate_move b m /\
   (fst x < fst m \/ (fst x = fst m /\ snd x <= snd m))).

(** ** The search trees of the store

    [tree_inv exempt s]: every parent link points to an earlier node;
    every node has a well-formed board with a side to move, its untried
    moves and the moves of its children are empty cells of that board,
    and its children point back to it.  A node with children was visited,
    and so was every child, except for the nodes in [exempt] (the path
    that the round in progress has still to backpropagate along). *)
Definition tree_inv (exempt : ref -> Prop) (s : Store) : Prop :=
  parents_below s /\
  forall n, (n < length (nodes s))%nat ->
    (exists b,
        holds s (board (node_at s n)) b /\
        well_formed b /\ Board.current_player b <> 0 /\ 0 < Board.size b /\
        (forall m, In m (untried_moves (node_at s n)) ->
                   Board.in_range b (fst m) (snd m) = true /\
                   Board.get b (fst m) (snd m) = 0) /\
        (forall c, In c (children (node_at s n)) ->
                   exists m, move (node_at s c) = Some m /\
                             Board.in_range b (fst m) (snd m) = true /\
                             Board.get b (fst m) (snd m) = 0)) /\
    0 <= visits (node_at s n) /\
    (children (node_at s n) <> [] -> 1 <= visits (node_at s n) \/ exempt n) /\
    (forall c, In c (children (node_at s n)) ->
               (c < length (nodes s))%nat /\
               parent (node_at s c) = Some n /\
               (1 <= visits (node_at s c) \/ exempt c)).

Definition tree_ok (s : Store) : Prop := tree_inv (fun _ => False) s.

(** The number of rounds the search loop makes: the clock readings
    before the first one that is not earlier than [end_time]. *)
Fixpoint rounds (end_time : float) (ticks : list float) : nat :=
  match ticks with
  | [] => O
  | now :: ticks' => if PyFloat.ltb now end_time then S (rounds end_time ticks') else O
  end.

(** The loop is left: some reading is not earlier than [end_time]. *)
Definition expires (end_time : float) (ticks : list float) : bool :=
  existsb (fun t => negb (PyFloat.ltb t end_time)) ticks.

(** Clock readings after the one that fixes [end_time]: one or two
    rounds within five seconds, then a reading after them. *)
Definition one_round_ticks : list float := map PyFloat.of_int [1; 6].

Definition two_round_ticks : list float := map PyFloat.of_int [1; 2; 6].

(** The wins of node [k] before a round: a node created by the round
    starts from 0. *)
Definition wins_before (s : Store) (k : ref) : float :=
  if (k <? length (nodes s))%nat then wins (node_at s k) else PyFloat.of_int 0.

(** The position on which the rollout started from position [b] stops:
    each round plays the move [choose] picks. *)
Fixpoint playout (fuel : nat) (b : Board.t) : Board.t :=
  match fuel with
  | O => b
  | S fuel' =>
      if Board.is_game_over b then b
      else match choose b with
           | Some m => playout fuel' (Board.make_move b m)
           | None => b
           end
  end.

(** What a round of the search loop simulates from, when its selection
    ends at node [n]: the child it adds for the first untried move of
    [n], which becomes the next node object of the store, or [n] itself
    when [n] has no move to try and no child. *)
Definition simulated_from (s s' : Store) (n node : ref) (bn : Board.t) : Prop :=
  match untried_moves (node_at s n) with
  | [] => node = n /\ children (node_at s n) = [] /\ length (nodes s') = length (nodes s)
  | mv :: _ =>
      node = length (nodes s) /\
      length (nodes s') = S (length (nodes s)) /\
      parent (node_at s' node) = Some n /\
      move (node_at s' node) = Some mv /\
      In node (children (node_at s' n)) /\
      exists b, holds s (board (node_at s n)) b /\ bn = Board.make_move b mv
  end.

(** The root node created for [quiet_board]. *)
Definition quiet_store : Store := snd (Node.__init__ O None None (mk_store [quiet_board] [])).

(* ================================================================== *)
(** * gui.py: the mapping from pixels to intersections *)

(** Python's [round(x)] for a float [x]: the nearest integer, ties to
    the even one; [None] where Python raises (infinities and NaN). *)
Definition py_round (x : float) : option Z :=
  match x with
  | S754_zero _ => Some 0
  | S754_finite s m e =>
      let n :=
        if 0 <=? e then Z.pos m * 2 ^ e
        else
          let d := 2 ^ (- e) in
          let q := Z.pos m / d in
          let r := Z.pos m mod d in
          if 2 * r <? d then q
          else if d <? 2 * r then q + 1
          else if Z.even q then q else q + 1 in
      Some (if s then - n else n)
  | _ => None
  end.

Module GomokuGUI.

(** The attributes of [GomokuGUI] that [get_board_pos] reads;
    [__init__] sets them and no method changes them. *)
Record t : Type := mk { cell_size : Z; margin : Z; board_size : Z }.

Definition __init__ : t := mk 40 40 15.

(** [round((v - self.margin) / self.cell_size)]: pixel coordinates are
    integers far below 2^53, so their conversion to binary64 is exact and
    [/] is the IEEE-754 division; it raises for a cell size of 0. *)
Definition nearest_line (self : t) (v : Z) : res Z :=
  if cell_size self =? 0 then Exn ZeroDivisionError
  else
    match py_round (PyFloat.div (PyFloat.of_int (v - margin self))
                                (PyFloat.of_int (cell_size self))) with
    | Some k => Val k
    | None => Exn ValueError
    end.

Definition get_board_pos (self : t) (mouse_pos : Z * Z) : res (option (Z * Z)) :=
  let '(x, y) := mouse_pos in
  match nearest_line self y with
  | Exn e => Exn e
  | Val i =>
      match nearest_line self x with
      | Exn e => Exn e
      | Val j =>
          if (0 <=? i) && (i <? board_size self) && (0 <=? j) && (j <? board_size self)
          then Val (Some (i, j))
          else Val None
      end
  end.

End GomokuGUI.

(** The pixel of grid line [k] (row or column) on the screen. *)
Definition line_pixel (k : Z) : Z := 40 + 40 * k.

(** [nearest_line] sends pixel [v] to line [k]. *)
Definition snaps_to (v k : Z) : bool :=
  match GomokuGUI.nearest_line GomokuGUI.__init__ v with
  | Val k' =>
      (k' =? k)
      && (Z.abs (v - line_pixel k) <=? 20)
      && ((Z.abs (v - line_pixel k) <? 20) || Z.even k)
  | Exn _ => false
  end.

(** The line that pixel [v] is expected to snap to: the nearest one, and
    the even one of the two when [v] is half-way. *)
Definition expected_line (v : Z) : Z :=
  let q := (v - 40) / 40 in
  let r := (v - 40) mod 40 in
  if r <? 20 then q else if 20 <? r then q + 1 else if Z.even q then q else q + 1.

(** ** The scores of the candidate ranking *)

(** The values of [_get_pattern_score], and the sums of four of them
    (the values of [_evaluate_direction_all]). *)
Definition score_values : list Z := [0; 10; 50; 100; 500; 1000; 5000; 10000; 100000].

Definition score_sums : list Z :=
  nodup Z.eq_dec
    (flat_map (fun a =>
       flat_map (fun b =>
         flat_map (fun c => map (fun d => 0 + a + b + c + d) score_values) score_values)
                score_values)
              score_values).

Definition is_finite (x : float) : bool :=
  match x with
  | S754_zero _ | S754_finite _ _ _ => true
  | _ => false
  end.

(** Python's [(score_x, x) <= (score_m, m)] for numbers. *)
Definition ranked_below (sx : float) (x : Move) (sm : float) (m : Move) : Prop :=
  FloatOrder.lt sx sm \/
  (FloatOrder.eq sx sm /\ (fst x < fst m \/ (fst x = fst m /\ snd x <= snd m))).

(** A list in descending order: no element is below a later one. *)
Inductive descending (A : Type) (ltb : A -> A -> bool) : list A -> Prop :=
| desc_nil : descending A ltb []
| desc_cons (x : A) (l : list A) :
    descending A ltb l -> (forall y, In y l -> ltb x y = false) ->
    descending A ltb (x :: l).

(** The ranked list of [_get_valid_moves] before it is cut. *)
Definition ranked (b : Board.t) : list (float * Move) :=
  sort_desc scored_ltb (map (fun m => (Pure.evaluate_move b m, m)) (Pure.neighbour_cells b)).


(** ** Definitions for the claims about the engines *)

(** The end-to-end scenario of the specification: Black has an open
    four on row 7 and White is to move. *)
Definition open_four_board : Board.t :=
  place [(7, 7, 1); (7, 8, 1); (7, 9, 1); (7, 10, 1)] (-1).

(** The reading of the backpropagated value in which the value a round
    adds to the wins of node [k] is the value of the finished game [b'] for the player to move on
    the board of [root], the board that was passed to [get_move]. *)
Definition rewards_root_mover (s s' : Store) (root k : ref) (b' : Board.t) : Prop :=
  wins (node_at s' k)
  = PyFloat.add (wins_before s k)
      (MCTS.reward (Board.check_win b')
                   (Board.current_player (deref s (board (node_at s root))))).

(** The reading of [max_moves] as a cap: the rounds made by a call of
    [get_move], counted by the visits of the root it creates, do not
    exceed [max_moves]. *)
Definition simulations_capped (math_log : float -> float) (self : MCTS.t)
           (clock : list float) (board : ref) (s : Store) : Prop :=
  visits (node_at (snd (MCTS.get_move math_log self clock board s)) (length (nodes s)))
  <= MCTS.max_moves self.

(** [MCTS(max_moves=1)]. *)
Definition capped_mcts : MCTS.t := MCTS.mk (PyFloat.of_int 5) 1.




(** A full board without five in a row: the end of a drawn game, in
    which Black has placed 113 stones and White 112. *)
Definition drawn_board : Board.t :=
  Board.mk 15
    (map (fun i => map (fun j => if (j + 2 * i) mod 4 <? 2 then 1 else -1) (range 15))
         (range 15))
    (-1).

(** A board of two rows with two empty cells; Black is to move. *)
Definition pair_board : Board.t := Board.mk 2 [[1; 0]; [0; -1]] 1.

(** [math.log] at 1, 2, 3 and 4, the visit counts that occur in a
    search of four rounds; at other arguments the stand-in gives 0. *)
Definition log_to_4 (x : float) : float :=
  if PyFloat.eqb x (PyFloat.of_int 2) then S754_finite false 6243314768165359 (-53)
  else if PyFloat.eqb x (PyFloat.of_int 3) then S754_finite false 4947709893870347 (-52)
  else if PyFloat.eqb x (PyFloat.of_int 4) then S754_finite false 6243314768165359 (-52)
  else PyFloat.of_int 0.


(* ================================================================== *)
(** * Results *)

(** ** The pattern scan (C5) *)

Section WalkFacts.

Variable b : Board.t.
Variables di dj player : Z.
Hypothesis player_nonzero : player <> 0.

Lemma count_loop_acc fuel ni nj count :
  Scan.count_loop fuel b ni nj di dj player count
  = count + Scan.count_loop fuel b ni nj di dj player 0.
Proof.
  revert ni nj count.
  induction fuel as [|fuel IH]; intros ni nj count; simpl.
  - lia.
  - destruct (Board.in_range b ni nj && (Board.get b ni nj =? player)); [|lia].
    rewrite (IH _ _ (count + 1)), (IH _ _ (0 + 1)). lia.
Qed.

Lemma count_loop_nonneg fuel ni nj :
  0 <= Scan.count_loop fuel b ni nj di dj player 0.
Proof.
  revert ni nj. induction fuel as [|fuel IH]; intros ni nj; simpl; [lia|].
  destruct (Board.in_range b ni nj && (Board.get b ni nj =? player)); [|lia].
  rewrite count_loop_acc. specialize (IH (ni + di) (nj + dj)). lia.
Qed.

Lemma walk_end_with_stop fuel ni nj :
  Board.in_range b ni nj && (Board.get b ni nj =? player) = false ->
  walk_end_with (S fuel) b ni nj di dj player = classify b ni nj di dj player.
Proof.
  intros H. unfold walk_end_with. cbn [Scan.count_loop]. rewrite H.
  rewrite ?Z.mul_0_l, ?Z.add_0_r. reflexivity.
Qed.

Lemma walk_end_with_O ni nj :
  walk_end_with 0 b ni nj di dj player = classify b ni nj di dj player.
Proof.
  unfold walk_end_with. simpl. rewrite ?Z.mul_0_l, ?Z.add_0_r. reflexivity.
Qed.

Lemma walk_end_with_go fuel ni nj :
  Board.in_range b ni nj && (Board.get b ni nj =? player) = true ->
  walk_end_with (S fuel) b ni nj di dj player
  = walk_end_with fuel b (ni + di) (nj + dj) di dj player.
Proof.
  intros H. unfold walk_end_with. cbn [Scan.count_loop]. rewrite H.
  rewrite (count_loop_acc fuel (ni + di) (nj + dj) (0 + 1)).
  set (run := Scan.count_loop fuel b (ni + di) (nj + dj) di dj player 0).
  replace (ni + (0 + 1 + run) * di) with (ni + di + run * di) by lia.
  replace (nj + (0 + 1 + run) * dj) with (nj + dj + run * dj) by lia.
  reflexivity.
Qed.

Lemma off_after_step fuel ni nj :
  off_after b di dj (S fuel) ni nj -> off_after b di dj fuel (ni + di) (nj + dj).
Proof.
  intros H k Hk. specialize (H (k + 1)).
  replace (ni + di + k * di) with (ni + (k + 1) * di) by lia.
  replace (nj + dj + k * dj) with (nj + (k + 1) * dj) by lia.
  apply H. lia.
Qed.

Lemma off_after_here ni nj :
  off_after b di dj 0 ni nj -> Board.in_range b ni nj = false.
Proof.
  intros H. specialize (H 0). rewrite ?Z.mul_0_l, ?Z.add_0_r in H.
  apply H. simpl. lia.
Qed.

(** After the first empty cell the walk looks at one more cell. *)
Lemma walk_loop_after_gap fuel ni nj c bl :
  off_after b di dj fuel ni nj ->
  Scan.blocked (Scan.walk_loop fuel b ni nj di dj player (Scan.mk_walk c 1 bl))
  = bl + (if negb (Board.in_range b ni nj) then 0
          else if Board.get b ni nj =? 0 then 0
          else if Board.get b ni nj =? player then 0 else 1).
Proof.
  intros Hoff. destruct fuel as [|fuel]; simpl.
  - rewrite (off_after_here _ _ Hoff). simpl. lia.
  - destruct (Board.in_range b ni nj); simpl; [|lia].
    destruct (Board.get b ni nj =? 0); simpl; [lia|].
    destruct (Board.get b ni nj =? player); simpl; lia.
Qed.

Lemma walk_loop_blocked fuel : forall ni nj c bl,
  off_after b di dj fuel ni nj ->
  Scan.blocked (Scan.walk_loop fuel b ni nj di dj player (Scan.mk_walk c 0 bl))
  = bl + opponent_mark (walk_end_with fuel b ni nj di dj player).
Proof.
  induction fuel as [|fuel IH]; intros ni nj c bl Hoff.
  - rewrite walk_end_with_O. unfold classify.
    rewrite (off_after_here _ _ Hoff). simpl. lia.
  - simpl Scan.walk_loop.
    destruct (Board.in_range b ni nj) eqn:Hin; simpl negb; cbv iota.
    + destruct (Board.get b ni nj =? 0) eqn:Hz.
      * (* an empty cell: one more look *)
        assert (Hp : (Board.get b ni nj =? player) = false).
        { apply Z.eqb_eq in Hz. apply Z.eqb_neq. congruence. }
        rewrite walk_end_with_stop by (rewrite Hin, Hp; reflexivity).
        unfold classify. rewrite Hin, Hz. simpl.
        rewrite walk_loop_after_gap by (apply off_after_step; exact Hoff).
        destruct (Board.in_range b (ni + di) (nj + dj)); simpl; [|lia].
        destruct (Board.get b (ni + di) (nj + dj) =? 0); simpl; [lia|].
        destruct (Board.get b (ni + di) (nj + dj) =? player); simpl; lia.
      * destruct (Board.get b ni nj =? player) eqn:Hp.
        -- (* a stone of the player: the run goes on *)
           simpl. rewrite IH by (apply off_after_step; exact Hoff).
           rewrite walk_end_with_go by (rewrite Hin, Hp; reflexivity).
           reflexivity.
        -- (* any other stone *)
           rewrite walk_end_with_stop by (rewrite Hin, Hp; reflexivity).
           unfold classify. rewrite Hin, Hz. simpl. lia.
    + rewrite walk_end_with_stop by (rewrite Hin; reflexivity).
      unfold classify. rewrite Hin. simpl. lia.
Qed.

(** The count of stones and the count of blocked ends do not depend on
    what the walk starts from. *)
Lemma walk_loop_shift fuel : forall ni nj c sp bl,
  Scan.walk_loop fuel b ni nj di dj player (Scan.mk_walk c sp bl)
  = let w := Scan.walk_loop fuel b ni nj di dj player (Scan.mk_walk 1 sp 0) in
    Scan.mk_walk (c - 1 + Scan.consecutive w) (Scan.space w) (bl + Scan.blocked w).
Proof.
  induction fuel as [|fuel IH]; intros ni nj c sp bl;
    cbn [Scan.walk_loop Scan.consecutive Scan.space Scan.blocked]; cbv zeta.
  - cbn [Scan.consecutive Scan.space Scan.blocked]. f_equal; lia.
  - destruct (Board.in_range b ni nj);
      cbn [negb Scan.consecutive Scan.space Scan.blocked]; [|f_equal; lia].
    destruct (Board.get b ni nj =? 0).
    + destruct (2 <=? sp + 1);
        [cbn [Scan.consecutive Scan.space Scan.blocked]; f_equal; lia|].
      apply IH.
    + destruct (Board.get b ni nj =? player).
      * destruct (sp =? 0);
          [|cbn [Scan.consecutive Scan.space Scan.blocked]; f_equal; lia].
        rewrite (IH _ _ (c + 1)), (IH _ _ (1 + 1)). cbv zeta.
        cbn [Scan.consecutive Scan.space Scan.blocked]. f_equal; lia.
      * cbn [Scan.consecutive Scan.space Scan.blocked]. f_equal; lia.
Qed.

End WalkFacts.

Lemma off_after_size (b : Board.t) (i j di dj : Z) :
  Board.in_range b i j = true ->
  di <> 0 \/ dj <> 0 ->
  off_after b di dj (Z.to_nat (Board.size b)) (i + di) (j + dj).
Proof.
  intros Hin Hd k Hk.
  apply not_true_is_false. intros Hout.
  unfold Board.in_range in Hin, Hout.
  rewrite !andb_true_iff in Hin, Hout.
  rewrite !Z.leb_le, !Z.ltb_lt in Hin, Hout.
  rewrite Z2Nat.id in Hk by lia.
  destruct Hd; nia.
Qed.

Lemma end_mark_opponent (b : Board.t) (i j di dj player : Z) :
  Board.in_range b i j = true ->
  di <> 0 \/ dj <> 0 ->
  player <> 0 ->
  end_mark b i j di dj player
  = opponent_mark (walk_end b (i + di) (j + dj) di dj player).
Proof.
  intros Hin Hd Hp. unfold end_mark, walk_end.
  rewrite walk_loop_blocked by (auto using off_after_size).
  lia.
Qed.

Lemma pattern_blocked (b : Board.t) (i j di dj player : Z) :
  snd (fst (Scan.pattern b i j di dj player))
  = end_mark b i j (- di) (- dj) player + end_mark b i j di dj player.
Proof.
  unfold Scan.pattern, end_mark. cbv zeta. cbn [fst snd].
  rewrite !Z.add_opp_r.
  rewrite (walk_loop_shift b di dj player (Z.to_nat (Board.size b)) (i + di) (j + dj)).
  cbv zeta. cbn [Scan.blocked]. reflexivity.
Qed.

(** Reading of C5 by the code: an end counts as blocked exactly when its
    walk stops at a stone that is not the player's; a walk that leaves the
    board marks nothing.  For every board, anchor cell on the board,
    direction and player, the blocked-end count of [_get_pattern] (the scan
    that [Node._evaluate_line] scores as well) is the number of ends whose
    walk stops at an opponent stone, and the run is open (count 0) iff
    neither walk stops at one. *)
Theorem C5_blocked_counts_opponent_stones (b : Board.t) (i j di dj player : Z) :
  Board.in_range b i j = true ->
  di <> 0 \/ dj <> 0 ->
  player <> 0 ->
  let back := walk_end b (i - di) (j - dj) (- di) (- dj) player in
  let forth := walk_end b (i + di) (j + dj) di dj player in
  let blocked := snd (fst (GomokuAI._get_pattern b i j di dj player)) in
  end_mark b i j (- di) (- dj) player = opponent_mark back /\
  end_mark b i j di dj player = opponent_mark forth /\
  blocked = opponent_mark back + opponent_mark forth /\
  (blocked = 0 <-> back <> AtOpponent /\ forth <> AtOpponent).
Proof.
  intros Hin Hd Hp. cbv zeta.
  set (back := walk_end b (i - di) (j - dj) (- di) (- dj) player).
  set (forth := walk_end b (i + di) (j + dj) di dj player).
  assert (Hb : end_mark b i j (- di) (- dj) player = opponent_mark back).
  { unfold back. rewrite <- !Z.add_opp_r. apply end_mark_opponent; auto. lia. }
  assert (Hf : end_mark b i j di dj player = opponent_mark forth).
  { apply end_mark_opponent; auto. }
  unfold GomokuAI._get_pattern. rewrite pattern_blocked, Hb, Hf.
  clearbody back forth.
  split; [reflexivity|]. split; [reflexivity|]. split; [reflexivity|].
  destruct back, forth; cbn [opponent_mark]; split;
    try (intros H; split; intros; discriminate);
    try (intros [H1 H2]; congruence);
    try (intros H; exfalso; lia);
    try reflexivity.
Qed.

(** A black stone on the top border, scanned along its column: one
    black neighbour below, then the white stone that stops the walk. *)
Definition border_board : Board.t := place [(0, 7, 1); (1, 7, 1); (2, 7, -1)] 1.

Lemma C5_blocked_counts_opponent_stones_witness :
  Board.in_range border_board 0 7 = true /\
  snd (fst (GomokuAI._get_pattern border_board 0 7 1 0 1)) = 0 + 1.
Proof.
  split; [reflexivity|].
  refine (proj1 (proj2 (proj2
    (C5_blocked_counts_opponent_stones border_board 0 7 1 0 1 _ _ _)))).
  - reflexivity.
  - left; lia.
  - lia.
Defined.

(** C5 as stated fails at the border: the walk upwards from [(0, 7)]
    leaves the board at once, and that end is not marked blocked. *)
Lemma C5_edge_is_not_marked :
  walk_end border_board (0 + -1) (7 + 0) (-1) 0 1 = AtEdge /\
  end_mark border_board 0 7 (-1) 0 1 = 0 /\
  ~ blocked_iff_opponent_or_edge border_board 0 7 (-1) 0 1.
Proof.
  assert (He : walk_end border_board (0 + -1) (7 + 0) (-1) 0 1 = AtEdge)
    by (vm_compute; reflexivity).
  assert (Hm : end_mark border_board 0 7 (-1) 0 1 = 0)
    by (vm_compute; reflexivity).
  repeat split; auto.
  intros [_ H]. rewrite Hm in H.
  specialize (H (or_intror He)). discriminate.
Qed.

(** ** Stable sorts and their last element *)

Lemma forallb_false_witness (A : Type) (f : A -> bool) (l : list A) :
  forallb f l = false -> exists x, In x l /\ f x = false.
Proof.
  induction l as [|x l IH]; cbn [forallb]; [discriminate|].
  destruct (f x) eqn:Hx; cbn [andb].
  - intros H. destruct (IH H) as (y & Hy & Hf). exists y. split; [right|]; assumption.
  - intros _. exists x. split; [left; reflexivity|assumption].
Qed.

Section SortedLast.

Variable A : Type.
Variable key : A -> Z.

Lemma insert_asc_last (x : A) (l : list A) (d : A) :
  last (insert_asc Z.ltb key x l) d
  = if forallb (fun y => key y <? key x) l then x else last l d.
Proof.
  induction l as [|y l IH]; [reflexivity|].
  cbn [insert_asc forallb].
  destruct (key y <? key x) eqn:Hy; cbn [andb].
  - destruct l as [|z l]; [reflexivity|].
    change (last (y :: insert_asc Z.ltb key x (z :: l)) d)
      with (match insert_asc Z.ltb key x (z :: l) with
            | [] => y
            | _ :: _ => last (insert_asc Z.ltb key x (z :: l)) d
            end).
    rewrite IH.
    destruct (insert_asc Z.ltb key x (z :: l)) eqn:E.
    + cbn [insert_asc] in E. destruct (key z <? key x); discriminate.
    + reflexivity.
  - reflexivity.
Qed.

Lemma insert_asc_In (x y : A) (l : list A) :
  In y (insert_asc Z.ltb key x l) <-> y = x \/ In y l.
Proof.
  induction l as [|z l IH]; cbn [insert_asc In].
  - intuition.
  - destruct (key z <? key x); cbn [In]; rewrite ?IH; intuition.
Qed.

Lemma sorted_In (y : A) (l : list A) :
  In y (sorted Z.ltb key l) <-> In y l.
Proof.
  induction l as [|x l IH]; cbn [sorted fold_right In]; [tauto|].
  fold (sorted Z.ltb key l). rewrite insert_asc_In, IH. intuition.
Qed.

Lemma sorted_nonempty (l : list A) : l <> [] -> sorted Z.ltb key l <> [].
Proof.
  destruct l as [|x l]; [congruence|]. intros _ E.
  assert (H : In x (sorted Z.ltb key (x :: l))) by (apply sorted_In; left; reflexivity).
  rewrite E in H. destruct H.
Qed.

(** The last element of the stable ascending sort is the last element
    of the input whose key is maximal. *)
Lemma sorted_last_maximal (l : list A) (d : A) :
  l <> [] -> last_maximal A key l (last (sorted Z.ltb key l) d).
Proof.
  induction l as [|x l IH]; [congruence|]. intros _.
  cbn [sorted fold_right]. fold (sorted Z.ltb key l).
  rewrite insert_asc_last.
  destruct (forallb (fun y => key y <? key x) (sorted Z.ltb key l)) eqn:Hall.
  - exists [], l. split; [reflexivity|]. split; [intros y []|].
    intros y Hy. rewrite forallb_forall in Hall.
    apply Z.ltb_lt. apply Hall. apply sorted_In. exact Hy.
  - destruct l as [|z l]; [discriminate|].
    destruct IH as (before & after & Hl & Hb & Ha); [congruence|].
    set (c := last (sorted Z.ltb key (z :: l)) d) in *.
    exists (x :: before), after. split; [rewrite Hl; reflexivity|]. split; [|exact Ha].
    intros y [<-|Hy]; [|auto].
    (* some element is not below [x], and [c] is above every element *)
    assert (Hex : exists y, In y (z :: l) /\ key x <= key y).
    { destruct (forallb_false_witness _ _ _ Hall) as (y & Hy & Hf).
      exists y. split; [apply sorted_In; exact Hy|].
      apply Z.ltb_ge. exact Hf. }
    destruct Hex as (y & Hy & Hle).
    rewrite Hl in Hy. apply in_app_or in Hy.
    destruct Hy as [Hy|[<-|Hy]].
    + specialize (Hb _ Hy). lia.
    + lia.
    + specialize (Ha _ Hy). lia.
Qed.

End SortedLast.

Lemma rev_head_last (A : Type) (l : list A) (d : A) :
  l <> [] -> exists t, rev l = last l d :: t.
Proof.
  intros H. exists (rev (removelast l)).
  rewrite (app_removelast_last d H) at 1.
  rewrite rev_app_distr. reflexivity.
Qed.

Lemma mapM_visits (l : list ref) (s : Store) :
  mapM (fun x => xn <- get_node x ;; ret (visits xn, x)) l s
  = (Val (map (fun x => (visits (node_at s x), x)) l), s).
Proof.
  induction l as [|x l IH]; [reflexivity|].
  cbn [mapM]. unfold bind at 1. unfold bind at 1. cbn [get_node ret].
  unfold bind at 1. rewrite IH. reflexivity.
Qed.

Lemma most_visited_spec (s : Store) (root : ref) :
  children (node_at s root) <> [] ->
  exists c,
    last_maximal ref (fun x => visits (node_at s x)) (children (node_at s root)) c /\
    MCTS.most_visited root s = (Val (move (node_at s c)), s).
Proof.
  intros Hne. unfold MCTS.most_visited.
  unfold bind at 1. cbn [get_node]. fold (node_at s root).
  unfold bind at 1. rewrite mapM_visits.
  set (keyed := map (fun x => (visits (node_at s x), x)) (children (node_at s root))).
  assert (Hk : keyed <> []).
  { unfold keyed. destruct (children (node_at s root)); [congruence|discriminate]. }
  destruct (sorted_last_maximal _ fst keyed (0, O) Hk)
    as (before & after & Hl & Hb & Ha).
  destruct (rev_head_last _ (sorted Z.ltb fst keyed) (0, O)
              (sorted_nonempty _ fst keyed Hk)) as (t & Hrev).
  rewrite Hrev.
  set (top := last (sorted Z.ltb fst keyed) (0, O)) in *.
  unfold keyed in Hl.
  apply map_eq_app in Hl. destruct Hl as (b' & r' & Hch & Hb' & Hr').
  apply map_eq_cons in Hr'. destruct Hr' as (c & a' & Hr' & Hc & Ha').
  subst r'. exists c. split.
  - exists b', a'. split; [exact Hch|]. split.
    + intros x Hx. specialize (Hb (visits (node_at s x), x)).
      rewrite <- Hc in Hb. cbn [fst] in Hb. apply Hb.
      rewrite <- Hb'. apply in_map_iff. exists x. auto.
    + intros x Hx. specialize (Ha (visits (node_at s x), x)).
      rewrite <- Hc in Ha. cbn [fst] in Ha. apply Ha.
      rewrite <- Ha'. apply in_map_iff. exists x. auto.
  - rewrite <- Hc. unfold bind. cbn [get_node ret]. reflexivity.
Qed.

Lemma most_visited_empty (s : Store) (root : ref) :
  children (node_at s root) = [] ->
  MCTS.most_visited root s = (Exn IndexError, s).
Proof.
  intros He. unfold MCTS.most_visited.
  unfold bind at 1. cbn [get_node]. fold (node_at s root).
  unfold bind at 1. rewrite mapM_visits, He. reflexivity.
Qed.

(** ** Running the methods in a store *)

Lemma update_app_length (A : Type) (f : A -> A) (l : list A) (x : A) (e : list A) :
  update (length l) f (l ++ x :: e) = l ++ f x :: e.
Proof.
  induction l as [|y l IH]; [reflexivity|].
  cbn [length app update]. rewrite IH. reflexivity.
Qed.

Lemma update_app_l (A : Type) (f : A -> A) (n : nat) (l e : list A) :
  (n < length l)%nat -> update n f (l ++ e) = update n f l ++ e.
Proof.
  revert n. induction l as [|y l IH]; intros n Hn; cbn [length] in Hn; [lia|].
  destruct n as [|n]; cbn [app update]; [reflexivity|].
  rewrite IH by lia. reflexivity.
Qed.

Lemma update_length (A : Type) (f : A -> A) (n : nat) (l : list A) :
  length (update n f l) = length l.
Proof.
  revert n. induction l as [|y l IH]; intros [|n]; cbn [update length]; auto.
Qed.

Lemma nth_update_eq (A : Type) (f : A -> A) (n : nat) (l : list A) (d : A) :
  (n < length l)%nat -> nth n (update n f l) d = f (nth n l d).
Proof.
  revert n. induction l as [|y l IH]; intros [|n] Hn; cbn [length] in Hn; try lia;
    cbn [update nth]; [reflexivity|]. apply IH. lia.
Qed.

Lemma nth_update_neq (A : Type) (f : A -> A) (n m : nat) (l : list A) (d : A) :
  n <> m -> nth m (update n f l) d = nth m l d.
Proof.
  revert n m. induction l as [|y l IH]; intros [|n] [|m] Hne; cbn [update nth];
    try reflexivity; try congruence.
  apply IH. congruence.
Qed.

Lemma holds_deref (s : Store) (r : ref) (b : Board.t) :
  holds s r b -> deref s r = b.
Proof. intros H. unfold deref. apply nth_error_nth. exact H. Qed.

Lemma holds_valid (s : Store) (r : ref) (b : Board.t) :
  holds s r b -> (r < length (boards s))%nat.
Proof. intros H. apply nth_error_Some. unfold holds in H. congruence. Qed.

Lemma grows_boards_refl (s : Store) : grows_boards s s.
Proof. exists []. rewrite app_nil_r. reflexivity. Qed.

Lemma grows_boards_trans (s1 s2 s3 : Store) :
  grows_boards s1 s2 -> grows_boards s2 s3 -> grows_boards s1 s3.
Proof.
  intros [e1 H1] [e2 H2]. exists (e1 ++ e2). rewrite H2, H1, app_assoc. reflexivity.
Qed.

Lemma grows_refl (s : Store) : grows s s.
Proof. split; [apply grows_boards_refl|reflexivity]. Qed.

Lemma grows_trans (s1 s2 s3 : Store) : grows s1 s2 -> grows s2 s3 -> grows s1 s3.
Proof.
  intros [H1 N1] [H2 N2]. split; [eapply grows_boards_trans; eauto|congruence].
Qed.

Lemma holds_grows_boards (s s' : Store) (r : ref) (b : Board.t) :
  holds s r b -> grows_boards s s' -> holds s' r b.
Proof.
  intros H [e He]. unfold holds in *. rewrite He.
  rewrite nth_error_app1; [exact H|]. apply nth_error_Some. congruence.
Qed.

Lemma holds_grows (s s' : Store) (r : ref) (b : Board.t) :
  holds s r b -> grows s s' -> holds s' r b.
Proof. intros H [G _]. eapply holds_grows_boards; eauto. Qed.

Create HintDb store.

#[global] Hint Resolve grows_refl grows_boards_refl holds_grows holds_grows_boards : store.

Lemma yields_ret (A : Type) (a : A) (s : Store) : yields A (ret a) s a.
Proof. exists s. split; [reflexivity|apply grows_refl]. Qed.

Lemma yields_bind (A B : Type) (c : M A) (k : A -> M B) (s : Store) (a : A) (b : B) :
  yields A c s a ->
  (forall s', grows s s' -> yields B (k a) s' b) ->
  yields B (bind c k) s b.
Proof.
  intros (s1 & Hc & G1) Hk. destruct (Hk s1 G1) as (s2 & Hk2 & G2).
  exists s2. split; [|eapply grows_trans; eauto].
  unfold bind. rewrite Hc. exact Hk2.
Qed.

Lemma yields_read (s : Store) (r : ref) (b : Board.t) :
  holds s r b -> yields Board.t (read r) s b.
Proof.
  intros H. exists s. split; [|apply grows_refl].
  unfold read. rewrite (holds_deref _ _ _ H). reflexivity.
Qed.

(** Cloning a board and writing to the clone: the clone is a new object
    that holds the written contents, everything else is as before. *)
Lemma yields_clone_then (A : Type) (s : Store) (board : ref) (b : Board.t)
      (write : ref -> M unit) (f : Board.t -> Board.t) (k : ref -> M A) (a : A) :
  holds s board b ->
  (forall r s0, write r s0 = (Val tt, mk_store (update r f (boards s0)) (nodes s0))) ->
  (forall s' r, grows s s' -> holds s' r (f b) -> yields A (k r) s' a) ->
  yields A (new_board <- copy board ;; write new_board ;;; k new_board) s a.
Proof.
  intros Hb Hw Hk.
  set (s1 := mk_store (boards s ++ [f b]) (nodes s)).
  assert (G1 : grows s s1) by (split; [exists [f b]|]; reflexivity).
  assert (H1 : holds s1 (length (boards s)) (f b)).
  { unfold holds, s1. cbn [boards]. rewrite nth_error_app2 by lia.
    rewrite Nat.sub_diag. reflexivity. }
  destruct (Hk s1 _ G1 H1) as (s2 & Hk2 & G2).
  exists s2. split; [|eapply grows_trans; eauto].
  unfold bind, copy. rewrite Hw. cbn [boards nodes].
  rewrite (holds_deref _ _ _ Hb), update_app_length. exact Hk2.
Qed.

Lemma setitem_writes (m : Move) (v : Z) (r : ref) (s0 : Store) :
  setitem r m v s0
  = (Val tt, mk_store (update r (fun b => Board.set b (fst m) (snd m) v) (boards s0)) (nodes s0)).
Proof. reflexivity. Qed.

Lemma make_move_writes (m : Move) (r : ref) (s0 : Store) :
  make_move r m s0
  = (Val tt, mk_store (update r (fun b => Board.make_move b m) (boards s0)) (nodes s0)).
Proof. reflexivity. Qed.

Lemma yields_mapM (A B : Type) (f : A -> M B) (g : A -> B) (l : list A) (s : Store) :
  (forall x s', grows s s' -> yields B (f x) s' (g x)) ->
  yields (list B) (mapM f l) s (map g l).
Proof.
  intros Hf. revert s Hf. induction l as [|x l IH]; intros s Hf; cbn [mapM map].
  - apply yields_ret.
  - eapply yields_bind; [apply Hf, grows_refl|]. intros s1 G1.
    eapply yields_bind.
    + apply IH. intros y s2 G2. apply Hf. eapply grows_trans; eauto.
    + intros s2 G2. apply yields_ret.
Qed.

Lemma yields_findM (A : Type) (p : A -> M bool) (q : A -> bool) (l : list A) (s : Store) :
  (forall x s', grows s s' -> yields bool (p x) s' (q x)) ->
  yields (option A) (findM p l) s (find q l).
Proof.
  intros Hp. revert s Hp. induction l as [|x l IH]; intros s Hp; cbn [findM find].
  - apply yields_ret.
  - eapply yields_bind; [apply Hp, grows_refl|]. intros s1 G1.
    destruct (q x).
    + apply yields_ret.
    + apply IH. intros y s2 G2. apply Hp. eapply grows_trans; eauto.
Qed.

(** ** The methods of [GomokuAI] compute the functions of [Pure] *)

Lemma deref_fresh (bs : list Board.t) (x : Board.t) (e : list Board.t) (ns : list node) :
  deref (mk_store (bs ++ x :: e) ns) (length bs) = x.
Proof. unfold deref. cbn [boards]. apply nth_middle. Qed.

Lemma is_winning_move_yields (s : Store) (board : ref) (b : Board.t) (move : Move) (player : Z) :
  holds s board b ->
  yields bool (GomokuAI._is_winning_move board move player) s
         (Pure.is_winning_move b move player).
Proof.
  intros Hb. unfold GomokuAI._is_winning_move.
  apply (yields_clone_then bool s board b (fun r => setitem r move player)
           (fun b => Board.set b (fst move) (snd move) player));
    [exact Hb|reflexivity|].
  intros s' r G Hr.
  eapply yields_bind; [apply yields_read; exact Hr|].
  intros s2 G2. apply yields_ret.
Qed.

Lemma evaluate_move_yields (s : Store) (board : ref) (b : Board.t) (move : Move) :
  holds s board b ->
  yields float (GomokuAI._evaluate_move board move) s (Pure.evaluate_move b move).
Proof.
  intros Hb. destruct move as [i j].
  exists (mk_store (boards s ++
            [Board.set (Board.set b i j (Board.current_player b)) i j (- Board.current_player b)])
          (nodes s)).
  split; [|split; [eexists|]; reflexivity].
  unfold GomokuAI._evaluate_move, Pure.evaluate_move, bind, read, copy, setitem, ret.
  rewrite (holds_deref _ _ _ Hb). cbn [boards nodes fst snd].
  rewrite update_app_length, deref_fresh. cbn [boards nodes].
  rewrite update_app_length, deref_fresh. reflexivity.
Qed.

Lemma get_valid_moves_yields (s : Store) (board : ref) (b : Board.t) :
  holds s board b ->
  yields (list Move) (GomokuAI._get_valid_moves board) s (Pure.get_valid_moves b).
Proof.
  intros Hb. unfold GomokuAI._get_valid_moves, Pure.get_valid_moves.
  eapply yields_bind; [apply yields_read; exact Hb|]. intros s1 G1.
  destruct (Z.of_nat (length (Board.get_valid_moves b)) =? Board.size b * Board.size b).
  - apply yields_ret.
  - eapply yields_bind.
    + apply (yields_mapM _ _ _ (fun m => (Pure.evaluate_move b m, m))).
      intros m s2 G2.
      eapply yields_bind; [apply evaluate_move_yields; eauto with store|].
      intros s3 G3. apply yields_ret.
    + intros s2 G2. apply yields_ret.
Qed.

Section SearchYields.

Variable prune : bool.

Lemma max_loop_yields (child : Move -> float -> float -> M float)
      (childv : Move -> float -> float -> float) (moves : list Move) :
  forall (s : Store) (max_eval alpha beta : float),
  (forall move a b' s', grows s s' -> yields float (child move a b') s' (childv move a b')) ->
  yields float (GomokuAI.max_loop prune child moves max_eval alpha beta) s
         (Pure.max_loop prune childv moves max_eval alpha beta).
Proof.
  induction moves as [|move rest IH]; intros s max_eval alpha beta Hc;
    cbn [GomokuAI.max_loop Pure.max_loop].
  - apply yields_ret.
  - eapply yields_bind; [apply Hc, grows_refl|]. intros s1 G1. cbv zeta.
    destruct (prune && PyFloat.leb beta (PyFloat.max alpha (childv move alpha beta))).
    + apply yields_ret.
    + apply IH. intros m a b' s2 G2. apply Hc. eapply grows_trans; eauto.
Qed.

Lemma min_loop_yields (child : Move -> float -> float -> M float)
      (childv : Move -> float -> float -> float) (moves : list Move) :
  forall (s : Store) (min_eval alpha beta : float),
  (forall move a b' s', grows s s' -> yields float (child move a b') s' (childv move a b')) ->
  yields float (GomokuAI.min_loop prune child moves min_eval alpha beta) s
         (Pure.min_loop prune childv moves min_eval alpha beta).
Proof.
  induction moves as [|move rest IH]; intros s min_eval alpha beta Hc;
    cbn [GomokuAI.min_loop Pure.min_loop].
  - apply yields_ret.
  - eapply yields_bind; [apply Hc, grows_refl|]. intros s1 G1. cbv zeta.
    destruct (prune && PyFloat.leb (PyFloat.min beta (childv move alpha beta)) alpha).
    + apply yields_ret.
    + apply IH. intros m a b' s2 G2. apply Hc. eapply grows_trans; eauto.
Qed.

Lemma minimax_yields (depth : nat) :
  forall (s : Store) (board : ref) (b : Board.t) (is_max : bool) (alpha beta : float),
  holds s board b ->
  yields float (GomokuAI._minimax_with prune depth board is_max alpha beta) s
         (Pure.minimax prune depth b is_max alpha beta).
Proof.
  induction depth as [|depth IH]; intros s board b is_max alpha beta Hb;
    cbn [GomokuAI._minimax_with Pure.minimax].
  - eapply yields_bind; [apply yields_read; exact Hb|]. intros s1 G1. apply yields_ret.
  - eapply yields_bind; [apply yields_read; exact Hb|]. intros s1 G1.
    destruct (Board.is_game_over b); [apply yields_ret|].
    eapply yields_bind; [apply get_valid_moves_yields; eauto with store|].
    intros s2 G2.
    assert (Hchild : forall (mx : bool) move a b' s',
               grows s2 s' ->
               yields float
                 (new_board <- copy board ;;
                  make_move new_board move ;;;
                  GomokuAI._minimax_with prune depth new_board mx a b') s'
                 (Pure.minimax prune depth (Board.make_move b move) mx a b')).
    { intros mx move a b' s' G'.
      apply (yields_clone_then float s' board b (fun r => make_move r move)
               (fun b => Board.make_move b move));
        [eauto using grows_trans with store|reflexivity|].
      intros s3 r G3 Hr. apply IH. exact Hr. }
    destruct is_max.
    + apply max_loop_yields. intros; apply Hchild; assumption.
    + apply min_loop_yields. intros; apply Hchild; assumption.
Qed.

Lemma root_loop_yields (depth : nat) (board : ref) (b : Board.t) (moves : list Move) :
  forall (s : Store) (alpha beta best_score : float) (best_move : option Move),
  holds s board b ->
  yields (option Move)
         (GomokuAI.root_loop prune depth board moves alpha beta best_score best_move) s
         (Pure.root_loop prune depth b moves alpha beta best_score best_move).
Proof.
  induction moves as [|move rest IH]; intros s alpha beta best_score best_move Hb;
    cbn [GomokuAI.root_loop Pure.root_loop].
  - apply yields_ret.
  - change (yields (option Move)
      (new_board <- copy board ;;
       make_move new_board move ;;;
       (fun nb =>
          score <- GomokuAI._minimax_with prune depth nb false alpha beta ;;
          (let '(best_score0, best_move0) :=
             if PyFloat.ltb best_score score then (score, Some move)
             else (best_score, best_move) in
           GomokuAI.root_loop prune depth board rest
             (PyFloat.max alpha best_score0) beta best_score0 best_move0)) new_board) s
      (Pure.root_loop prune depth b (move :: rest) alpha beta best_score best_move)).
    apply (yields_clone_then _ s board b (fun r => make_move r move)
             (fun b => Board.make_move b move)); [exact Hb|reflexivity|].
    intros s1 r G1 Hr. cbv beta.
    eapply yields_bind; [apply minimax_yields; exact Hr|]. intros s2 G2.
    cbn [Pure.root_loop]. cbv zeta.
    destruct (PyFloat.ltb best_score
                (Pure.minimax prune depth (Board.make_move b move) false alpha beta));
      apply IH; eauto using grows_trans with store.
Qed.

Lemma get_move_yields (self : GomokuAI.t) (s : Store) (board : ref) (b : Board.t) :
  holds s board b ->
  yields (option Move) (GomokuAI.get_move_with prune self board) s
         (Pure.get_move prune self b).
Proof.
  intros Hb. unfold GomokuAI.get_move_with, Pure.get_move.
  eapply yields_bind; [apply yields_read; exact Hb|]. intros s1 G1.
  eapply yields_bind; [apply get_valid_moves_yields; eauto with store|]. intros s2 G2.
  cbv zeta.
  destruct (Pure.get_valid_moves b) as [|m0 ms] eqn:Hvm; [apply yields_ret|].
  destruct (Z.of_nat (length (m0 :: ms)) =? Board.size b * Board.size b);
    [apply yields_ret|].
  assert (H2 : holds s2 board b) by eauto using grows_trans with store.
  eapply yields_bind.
  { apply (yields_findM _ _
             (fun move => Pure.is_winning_move b move (Board.current_player b))).
    intros x s3 G3. apply is_winning_move_yields. eauto with store. }
  intros s3 G3.
  destruct (find _ (m0 :: ms)); [apply yields_ret|].
  eapply yields_bind.
  { apply (yields_findM _ _
             (fun move => Pure.is_winning_move b move (- Board.current_player b))).
    intros x s4 G4. apply is_winning_move_yields. eauto using grows_trans with store. }
  intros s4 G4.
  destruct (find _ (m0 :: ms)); [apply yields_ret|].
  apply root_loop_yields. eauto using grows_trans with store.
Qed.

End SearchYields.

(** ** Facts about floats *)

Module FloatOrderLaws.

Lemma eq_equiv : Equivalence FloatOrder.eq.
Proof.
  unfold FloatOrder.eq. split.
  - intros x. reflexivity.
  - intros x y H. congruence.
  - intros x y z H1 H2. congruence.
Qed.

Lemma lt_strorder : StrictOrder FloatOrder.lt.
Proof.
  unfold FloatOrder.lt, key_lt. split.
  - intros x H. lia.
  - intros x y z H1 H2. lia.
Qed.

Lemma lt_compat : Proper (FloatOrder.eq ==> FloatOrder.eq ==> iff) FloatOrder.lt.
Proof.
  intros x x' Hx y y' Hy. unfold FloatOrder.eq, FloatOrder.lt in *.
  rewrite Hx, Hy. reflexivity.
Qed.

Lemma le_lteq (x y : float) :
  FloatOrder.le x y <-> FloatOrder.lt x y \/ FloatOrder.eq x y.
Proof. reflexivity. Qed.

Lemma lt_total (x y : float) :
  FloatOrder.lt x y \/ FloatOrder.eq x y \/ FloatOrder.lt y x.
Proof.
  unfold FloatOrder.lt, FloatOrder.eq, key_lt.
  destruct (float_key x) as [[a b] c], (float_key y) as [[a' b'] c'].
  cbn [fst snd].
  assert (H : (a, b, c) = (a', b', c') <-> a = a' /\ b = b' /\ c = c').
  { split; [intros H; inversion H; auto|intros (-> & -> & ->); reflexivity]. }
  rewrite H. lia.
Qed.

End FloatOrderLaws.

Module FloatTac := !MakeOrderTac FloatOrder FloatOrderLaws.

Lemma compare_key (x y : float) :
  num x -> num y ->
  exists c, SFcompare x y = Some c /\
            (c = Lt <-> FloatOrder.lt x y) /\
            (c = Eq <-> FloatOrder.eq x y) /\
            (c = Gt <-> FloatOrder.lt y x).
Proof.
  unfold num, FloatOrder.lt, FloatOrder.eq, key_lt.
  intros Hx Hy.
  destruct x as [sx|sx| |sx mx ex]; try discriminate;
    destruct y as [sy|sy| |sy my ey]; try discriminate;
    try destruct sx; try destruct sy; cbn [SFcompare float_key fst snd];
    try (eexists; split; [reflexivity|];
         repeat split; intros H; try discriminate; try reflexivity;
         try (exfalso; lia); try (inversion H; lia); try lia; fail).
  - (* two negative finite values *)
    change (Pos.compare_cont Eq mx my) with (Pos.compare mx my).
    destruct (Z.compare_spec ex ey) as [He|He|He];
      [destruct (Pos.compare_spec mx my) as [Hm|Hm|Hm]| |];
      cbn [CompOpp]; eexists; (split; [reflexivity|]);
      repeat split; intros H; try discriminate; try reflexivity;
      try (exfalso; lia); try (inversion H; lia); try lia;
      try (subst; reflexivity).
  - (* two positive finite values *)
    change (Pos.compare_cont Eq mx my) with (Pos.compare mx my).
    destruct (Z.compare_spec ex ey) as [He|He|He];
      [destruct (Pos.compare_spec mx my) as [Hm|Hm|Hm]| |];
      eexists; (split; [reflexivity|]);
      repeat split; intros H; try discriminate; try reflexivity;
      try (exfalso; lia); try (inversion H; lia); try lia;
      try (subst; reflexivity).
Qed.

Lemma ltb_lt (x y : float) :
  num x -> num y -> (PyFloat.ltb x y = true <-> FloatOrder.lt x y).
Proof.
  intros Hx Hy. destruct (compare_key x y Hx Hy) as (c & Hc & Hlt & Heq & Hgt).
  unfold PyFloat.ltb, SFltb. rewrite Hc.
  destruct c; split; intros H; try discriminate; try reflexivity.
  - apply Hlt in H. discriminate.
  - apply Hlt. reflexivity.
  - apply Hlt in H. discriminate.
Qed.

Lemma leb_le (x y : float) :
  num x -> num y -> (PyFloat.leb x y = true <-> FloatOrder.le x y).
Proof.
  intros Hx Hy. destruct (compare_key x y Hx Hy) as (c & Hc & Hlt & Heq & Hgt).
  unfold PyFloat.leb, SFleb, FloatOrder.le. rewrite Hc.
  destruct c; split; intros H; try discriminate; try reflexivity.
  - right. apply Heq. reflexivity.
  - left. apply Hlt. reflexivity.
  - destruct H as [H|H]; [apply Hlt in H|apply Heq in H]; discriminate.
Qed.

Lemma eqb_eq (x y : float) :
  num x -> num y -> (PyFloat.eqb x y = true <-> FloatOrder.eq x y).
Proof.
  intros Hx Hy. destruct (compare_key x y Hx Hy) as (c & Hc & Hlt & Heq & Hgt).
  unfold PyFloat.eqb, SFeqb. rewrite Hc.
  destruct c; split; intros H; try discriminate; try reflexivity.
  - apply Heq. reflexivity.
  - apply Heq in H. discriminate.
  - apply Heq in H. discriminate.
Qed.

Lemma ltb_ge (x y : float) :
  num x -> num y -> (PyFloat.ltb x y = false <-> FloatOrder.le y x).
Proof.
  intros Hx Hy. pose proof (ltb_lt x y Hx Hy) as H.
  destruct (PyFloat.ltb x y); split; intros H1; try discriminate; try reflexivity.
  - assert (H2 : FloatOrder.lt x y) by (apply H; reflexivity). FloatTac.order.
  - destruct (FloatOrderLaws.lt_total x y) as [H2|[H2|H2]]; try FloatTac.order.
    apply H in H2. discriminate.
Qed.

Lemma leb_gt (x y : float) :
  num x -> num y -> (PyFloat.leb x y = false <-> FloatOrder.lt y x).
Proof.
  intros Hx Hy. pose proof (leb_le x y Hx Hy) as H.
  destruct (PyFloat.leb x y); split; intros H1; try discriminate; try reflexivity.
  - assert (H2 : FloatOrder.le x y) by (apply H; reflexivity). FloatTac.order.
  - destruct (FloatOrderLaws.lt_total x y) as [H2|[H2|H2]]; try FloatTac.order.
    + assert (H3 : FloatOrder.le x y) by FloatTac.order. apply H in H3. discriminate.
    + assert (H3 : FloatOrder.le x y) by FloatTac.order. apply H in H3. discriminate.
Qed.

(** Rounding a non-negative significand never produces a NaN. *)

Lemma shr_1_nonneg (mrs : shr_record) : 0 <= shr_m mrs -> 0 <= shr_m (shr_1 mrs).
Proof.
  destruct mrs as [m r s]. destruct m as [|p|p]; cbn; try lia; destruct p; cbn; lia.
Qed.

Lemma iter_shr_1_nonneg (p : positive) :
  forall mrs, 0 <= shr_m mrs -> 0 <= shr_m (iter_pos shr_1 p mrs).
Proof.
  induction p as [p IH|p IH|]; intros mrs H; cbn [iter_pos];
    auto using shr_1_nonneg.
Qed.

Lemma shr_fexp_nonneg (prec emax m e : Z) (l : location) :
  0 <= m -> 0 <= shr_m (fst (shr_fexp prec emax m e l)).
Proof.
  intros Hm. unfold shr_fexp, shr.
  assert (H0 : 0 <= shr_m (shr_record_of_loc m l)).
  { destruct l as [|[]]; exact Hm. }
  destruct (fexp prec emax (Zdigits2 m + e) - e); cbn [fst]; auto.
  apply iter_shr_1_nonneg. exact H0.
Qed.

Lemma round_nearest_even_nonneg (m : Z) (l : location) :
  0 <= m -> 0 <= round_nearest_even m l.
Proof.
  intros Hm. unfold round_nearest_even.
  destruct l as [|[]]; try lia. destruct (Z.even m); lia.
Qed.

Lemma binary_round_aux_num (prec emax : Z) (sx : bool) (mx ex : Z) (lx : location) :
  0 <= mx -> num (binary_round_aux prec emax sx mx ex lx).
Proof.
  intros Hm. unfold binary_round_aux.
  pose proof (shr_fexp_nonneg prec emax mx ex lx Hm) as H1.
  destruct (shr_fexp prec emax mx ex lx) as [mrs' e']. cbn [fst] in H1.
  pose proof (shr_fexp_nonneg prec emax
                (round_nearest_even (shr_m mrs') (loc_of_shr_record mrs')) e' loc_Exact
                (round_nearest_even_nonneg _ _ H1)) as H2.
  destruct (shr_fexp prec emax _ e' loc_Exact) as [mrs'' e'']. cbn [fst] in H2.
  destruct (shr_m mrs'') as [|p|p]; try reflexivity.
  - destruct (e'' <=? emax - prec); reflexivity.
  - lia.
Qed.

Lemma binary_normalize_num (prec emax m e : Z) (szero : bool) :
  num (binary_normalize prec emax m e szero).
Proof.
  unfold binary_normalize, binary_round.
  destruct m as [|p|p]; [reflexivity| |];
    destruct (shl_align p e _) as [mz ez]; apply binary_round_aux_num; lia.
Qed.

Lemma add_num (x y : float) : num x -> finite y -> num (PyFloat.add x y).
Proof.
  unfold PyFloat.add, SFadd.
  destruct x as [sx|sx| |sx mx ex]; try discriminate;
    destruct y as [sy|sy| |sy my ey]; cbn [finite]; try contradiction; intros _ _;
    try reflexivity.
  - destruct sx, sy; reflexivity.
  - apply binary_normalize_num.
Qed.

Lemma sub_num (x y : float) : num x -> finite y -> num (PyFloat.sub x y).
Proof.
  unfold PyFloat.sub, SFsub.
  destruct x as [sx|sx| |sx mx ex]; try discriminate;
    destruct y as [sy|sy| |sy my ey]; cbn [finite]; try contradiction; intros _ _;
    try reflexivity.
  - destruct sx, sy; reflexivity.
  - apply binary_normalize_num.
Qed.

Lemma max_num (x y : float) : num x -> num y -> num (PyFloat.max x y).
Proof. intros Hx Hy. unfold PyFloat.max. destruct (PyFloat.ltb x y); assumption. Qed.

Lemma min_num (x y : float) : num x -> num y -> num (PyFloat.min x y).
Proof. intros Hx Hy. unfold PyFloat.min. destruct (PyFloat.ltb y x); assumption. Qed.

Lemma fold_left_invariant (A B : Type) (P : A -> Prop) (f : A -> B -> A) (l : list B) :
  (forall acc x, P acc -> P (f acc x)) ->
  forall init, P init -> P (fold_left f l init).
Proof.
  intros Hf. induction l as [|x l IH]; intros init Hi; cbn [fold_left]; auto.
Qed.

Lemma pattern_score_finite (p : Z * Z * Z) :
  finite (PyFloat.of_int (GomokuAI._get_pattern_score p)) /\
  finite (PyFloat.mul (PyFloat.of_int (GomokuAI._get_pattern_score p)) PyFloat.lit_1_1).
Proof.
  unfold GomokuAI._get_pattern_score. destruct p as [[c bl] sp].
  repeat match goal with
         | |- context [if ?t then _ else _] => destruct t
         end; split; vm_compute; exact I.
Qed.

(** The static evaluation is always a number. *)
Lemma evaluate_board_num (b : Board.t) : num (GomokuAI._evaluate_board b).
Proof.
  unfold GomokuAI._evaluate_board.
  apply fold_left_invariant; [|reflexivity].
  intros score [i j] Hs.
  destruct (Board.get b i j =? 0); [exact Hs|].
  apply fold_left_invariant; [|exact Hs].
  intros acc d Hacc.
  destruct (Board.get b i j =? Board.current_player b).
  - apply add_num; [exact Hacc|apply pattern_score_finite].
  - apply sub_num; [exact Hacc|apply pattern_score_finite].
Qed.

(** ** Alpha-beta pruning (C9) *)

Create HintDb num.

#[global] Hint Resolve max_num min_num evaluate_board_num : num.

Ltac solve_num := solve [auto with num | reflexivity].

(** Case analysis on a test of the source, turned into a fact of the
    order. *)
Ltac float_case t H :=
  lazymatch t with
  | PyFloat.ltb ?x ?y =>
      destruct (PyFloat.ltb x y) eqn:H;
      [apply ltb_lt in H; [|solve_num|solve_num]
      |apply ltb_ge in H; [|solve_num|solve_num]]
  | PyFloat.leb ?x ?y =>
      destruct (PyFloat.leb x y) eqn:H;
      [apply leb_le in H; [|solve_num|solve_num]
      |apply leb_gt in H; [|solve_num|solve_num]]
  end.

Ltac use_facts :=
  repeat match goal with
         | H : _ /\ _ |- _ => destruct H
         | H : ?P -> _ |- _ =>
             lazymatch type of P with
             | Prop => let HP := fresh in
                       assert (HP : P) by FloatTac.order; specialize (H HP)
             end
         end.

Ltac float_crush :=
  use_facts;
  repeat match goal with
         | |- _ /\ _ => split
         | |- _ -> _ => intro
         end;
  use_facts; try assumption; try FloatTac.order.

Lemma num_inf : num PyFloat.inf.
Proof. reflexivity. Qed.

Lemma num_neg_inf : num PyFloat.neg_inf.
Proof. reflexivity. Qed.

Lemma neg_inf_least (x : float) : num x -> FloatOrder.le PyFloat.neg_inf x.
Proof.
  unfold num, FloatOrder.le, FloatOrder.lt, FloatOrder.eq, key_lt.
  destruct x as [[]|[]| |[] m e]; intros H; try discriminate;
    cbn [float_key PyFloat.neg_inf fst snd];
    first [right; reflexivity|left; lia].
Qed.

Lemma inf_greatest (x : float) : num x -> FloatOrder.le x PyFloat.inf.
Proof.
  unfold num, FloatOrder.le, FloatOrder.lt, FloatOrder.eq, key_lt.
  destruct x as [[]|[]| |[] m e]; intros H; try discriminate;
    cbn [float_key PyFloat.inf fst snd];
    first [right; reflexivity|left; lia].
Qed.

Lemma max_spec (x y : float) :
  num x -> num y ->
  (FloatOrder.lt x y /\ PyFloat.max x y = y) \/
  (FloatOrder.le y x /\ PyFloat.max x y = x).
Proof.
  intros Hx Hy. unfold PyFloat.max.
  float_case (PyFloat.ltb x y) H; [left|right]; split; auto.
Qed.

Lemma min_spec (x y : float) :
  num x -> num y ->
  (FloatOrder.lt y x /\ PyFloat.min x y = y) \/
  (FloatOrder.le x y /\ PyFloat.min x y = x).
Proof.
  intros Hx Hy. unfold PyFloat.min.
  float_case (PyFloat.ltb y x) H; [left|right]; split; auto.
Qed.

Section Unpruned.

Variable cu : Move -> float -> float -> float.
Hypothesis cu_window : forall m a b a' b', cu m a b = cu m a' b'.
Hypothesis cu_num : forall m a b, num (cu m a b).

Lemma max_loop_unpruned_window (moves : list Move) :
  forall E A B A' B',
    Pure.max_loop false cu moves E A B = Pure.max_loop false cu moves E A' B'.
Proof.
  induction moves as [|m rest IH]; intros E A B A' B'; cbn [Pure.max_loop andb];
    [reflexivity|].
  cbv zeta. rewrite (cu_window m A B A' B'). apply IH.
Qed.

Lemma min_loop_unpruned_window (moves : list Move) :
  forall E A B A' B',
    Pure.min_loop false cu moves E A B = Pure.min_loop false cu moves E A' B'.
Proof.
  induction moves as [|m rest IH]; intros E A B A' B'; cbn [Pure.min_loop andb];
    [reflexivity|].
  cbv zeta. rewrite (cu_window m A B A' B'). apply IH.
Qed.

Lemma max_loop_unpruned_ge (moves : list Move) :
  forall E A B, num E ->
    num (Pure.max_loop false cu moves E A B) /\
    FloatOrder.le E (Pure.max_loop false cu moves E A B).
Proof.
  induction moves as [|m rest IH]; intros E A B HE; cbn [Pure.max_loop andb].
  - split; [exact HE|FloatTac.order].
  - cbv zeta. pose proof (cu_num m A B) as Hu.
    destruct (IH (PyFloat.max E (cu m A B)) (PyFloat.max A (cu m A B)) B
                 (max_num _ _ HE Hu)) as [Hn Hle].
    split; [exact Hn|].
    destruct (max_spec E (cu m A B) HE Hu) as [[H1 H2]|[H1 H2]];
      rewrite H2 in *; FloatTac.order.
Qed.

Lemma min_loop_unpruned_le (moves : list Move) :
  forall E A B, num E ->
    num (Pure.min_loop false cu moves E A B) /\
    FloatOrder.le (Pure.min_loop false cu moves E A B) E.
Proof.
  induction moves as [|m rest IH]; intros E A B HE; cbn [Pure.min_loop andb].
  - split; [exact HE|FloatTac.order].
  - cbv zeta. pose proof (cu_num m A B) as Hu.
    destruct (IH (PyFloat.min E (cu m A B)) A (PyFloat.min B (cu m A B))
                 (min_num _ _ HE Hu)) as [Hn Hle].
    split; [exact Hn|].
    destruct (min_spec E (cu m A B) HE Hu) as [[H1 H2]|[H1 H2]];
      rewrite H2 in *; FloatTac.order.
Qed.

End Unpruned.

Ltac tri x y :=
  destruct (FloatOrderLaws.lt_total x y) as [?|[?|?]].

Section Pruned.

Variables cp cu : Move -> float -> float -> float.
Hypothesis cu_window : forall m a b a' b', cu m a b = cu m a' b'.
Hypothesis cu_num : forall m a b, num (cu m a b).
Hypothesis cp_ok : forall m a b,
    num a -> num b -> FloatOrder.lt a b ->
    num (cp m a b) /\ within_window a b (cu m a b) (cp m a b).

Lemma max_loop_window (alpha beta : float) (moves : list Move) :
  num alpha -> num beta ->
  forall E A E' A' B',
    num E -> num A -> num E' ->
    FloatOrder.lt A beta ->
    (FloatOrder.le E' alpha -> FloatOrder.eq A alpha /\ FloatOrder.le E alpha) ->
    (FloatOrder.lt alpha E' -> FloatOrder.eq A E' /\ FloatOrder.eq E E') ->
    num (Pure.max_loop true cp moves E A beta) /\
    within_window alpha beta (Pure.max_loop false cu moves E' A' B')
                  (Pure.max_loop true cp moves E A beta).
Proof.
  intros Halpha Hbeta.
  induction moves as [|m rest IH]; intros E A E' A' B' HE HA HE' HAb Hlow Hhigh;
    cbn [Pure.max_loop andb]; cbv zeta.
  - split; [exact HE|]. unfold within_window.
    tri E' alpha; float_crush.
  - rewrite (cu_window m A' B' A beta).
    destruct (cp_ok m A beta HA Hbeta HAb) as [Ha Hw].
    pose proof (cu_num m A beta) as Hu.
    set (a := cp m A beta) in *. set (u := cu m A beta) in *.
    unfold within_window in Hw.
    assert (HE1 : num (PyFloat.max E a)) by solve_num.
    assert (HA1 : num (PyFloat.max A a)) by solve_num.
    assert (HE1' : num (PyFloat.max E' u)) by solve_num.
    destruct (max_loop_unpruned_ge cu cu_num rest (PyFloat.max E' u)
                (PyFloat.max A' u) B' HE1') as [HV HVge].
    float_case (PyFloat.leb beta (PyFloat.max A a)) Hcut.
    + (* the cutoff *)
      split; [exact HE1|]. unfold within_window.
      destruct (max_spec E a HE Ha) as [[H1 ->]|[H1 ->]];
        destruct (max_spec A a HA Ha) as [[H2 H2e]|[H2 H2e]]; rewrite H2e in *;
        destruct (max_spec E' u HE' Hu) as [[H3 H3e]|[H3 H3e]]; rewrite H3e in *;
        tri u A; tri u beta; tri E' alpha; float_crush.
    + (* the loop goes on *)
      apply IH; [exact HE1|exact HA1|exact HE1'|exact Hcut| |];
        destruct (max_spec E a HE Ha) as [[H1 H1e]|[H1 H1e]]; rewrite H1e in *;
        destruct (max_spec A a HA Ha) as [[H2 H2e]|[H2 H2e]]; rewrite H2e in *;
        destruct (max_spec E' u HE' Hu) as [[H3 H3e]|[H3 H3e]]; rewrite H3e in *;
        tri u A; tri u beta; tri E' alpha; float_crush.
Qed.

Lemma min_loop_window (alpha beta : float) (moves : list Move) :
  num alpha -> num beta ->
  forall E B E' A' B',
    num E -> num B -> num E' ->
    FloatOrder.lt alpha B ->
    (FloatOrder.le beta E' -> FloatOrder.eq B beta /\ FloatOrder.le beta E) ->
    (FloatOrder.lt E' beta -> FloatOrder.eq B E' /\ FloatOrder.eq E E') ->
    num (Pure.min_loop true cp moves E alpha B) /\
    within_window alpha beta (Pure.min_loop false cu moves E' A' B')
                  (Pure.min_loop true cp moves E alpha B).
Proof.
  intros Halpha Hbeta.
  induction moves as [|m rest IH]; intros E B E' A' B' HE HB HE' HaB Hhigh Hlow;
    cbn [Pure.min_loop andb]; cbv zeta.
  - split; [exact HE|]. unfold within_window.
    tri E' beta; float_crush.
  - rewrite (cu_window m A' B' alpha B).
    destruct (cp_ok m alpha B Halpha HB HaB) as [Ha Hw].
    pose proof (cu_num m alpha B) as Hu.
    set (a := cp m alpha B) in *. set (u := cu m alpha B) in *.
    unfold within_window in Hw.
    assert (HE1 : num (PyFloat.min E a)) by solve_num.
    assert (HB1 : num (PyFloat.min B a)) by solve_num.
    assert (HE1' : num (PyFloat.min E' u)) by solve_num.
    destruct (min_loop_unpruned_le cu cu_num rest (PyFloat.min E' u)
                A' (PyFloat.min B' u) HE1') as [HV HVle].
    float_case (PyFloat.leb (PyFloat.min B a) alpha) Hcut.
    + (* the cutoff *)
      split; [exact HE1|]. unfold within_window.
      destruct (min_spec E a HE Ha) as [[H1 ->]|[H1 ->]];
        destruct (min_spec B a HB Ha) as [[H2 H2e]|[H2 H2e]]; rewrite H2e in *;
        destruct (min_spec E' u HE' Hu) as [[H3 H3e]|[H3 H3e]]; rewrite H3e in *;
        tri u B; tri u alpha; tri E' beta; float_crush.
    + (* the loop goes on *)
      apply IH; [exact HE1|exact HB1|exact HE1'|exact Hcut| |];
        destruct (min_spec E a HE Ha) as [[H1 H1e]|[H1 H1e]]; rewrite H1e in *;
        destruct (min_spec B a HB Ha) as [[H2 H2e]|[H2 H2e]]; rewrite H2e in *;
        destruct (min_spec E' u HE' Hu) as [[H3 H3e]|[H3 H3e]]; rewrite H3e in *;
        tri u B; tri u alpha; tri E' beta; float_crush.
Qed.

End Pruned.

(** ** The pruned and the unpruned search agree *)

Lemma max_loop_num (prune : bool) (child : Move -> float -> float -> float)
      (moves : list Move) :
  (forall m a b, num a -> num b -> num (child m a b)) ->
  forall E A B, num E -> num A -> num B ->
    num (Pure.max_loop prune child moves E A B).
Proof.
  intros Hc. induction moves as [|m rest IH]; intros E A B HE HA HB;
    cbn [Pure.max_loop]; cbv zeta; [exact HE|].
  pose proof (Hc m A B HA HB) as Hm.
  destruct (prune && PyFloat.leb B (PyFloat.max A (child m A B))); auto with num.
Qed.

Lemma min_loop_num (prune : bool) (child : Move -> float -> float -> float)
      (moves : list Move) :
  (forall m a b, num a -> num b -> num (child m a b)) ->
  forall E A B, num E -> num A -> num B ->
    num (Pure.min_loop prune child moves E A B).
Proof.
  intros Hc. induction moves as [|m rest IH]; intros E A B HE HA HB;
    cbn [Pure.min_loop]; cbv zeta; [exact HE|].
  pose proof (Hc m A B HA HB) as Hm.
  destruct (prune && PyFloat.leb (PyFloat.min B (child m A B)) A); auto with num.
Qed.

(** Every value of the search is a number. *)
Lemma minimax_num (prune : bool) (depth : nat) :
  forall b is_max alpha beta, num alpha -> num beta ->
    num (Pure.minimax prune depth b is_max alpha beta).
Proof.
  induction depth as [|depth IH]; intros b is_max alpha beta Ha Hb;
    cbn [Pure.minimax]; [apply evaluate_board_num|].
  destruct (Board.is_game_over b); [apply evaluate_board_num|].
  destruct is_max.
  - apply max_loop_num; auto using num_neg_inf.
  - apply min_loop_num; auto using num_inf.
Qed.

(** Without the cutoff the window plays no part. *)
Lemma minimax_unpruned_window (depth : nat) :
  forall b is_max a b' a' b'',
    Pure.minimax false depth b is_max a b' = Pure.minimax false depth b is_max a' b''.
Proof.
  induction depth as [|depth IH]; intros b is_max a b' a' b''; cbn [Pure.minimax];
    [reflexivity|].
  destruct (Board.is_game_over b); [reflexivity|].
  destruct is_max.
  - apply max_loop_unpruned_window. intros; apply IH.
  - apply min_loop_unpruned_window. intros; apply IH.
Qed.

Lemma minimax_window (depth : nat) :
  forall b is_max alpha beta,
    num alpha -> num beta -> FloatOrder.lt alpha beta ->
    within_window alpha beta (Pure.minimax false depth b is_max alpha beta)
                  (Pure.minimax true depth b is_max alpha beta).
Proof.
  induction depth as [|depth IH]; intros b is_max alpha beta Ha Hb Hab;
    cbn [Pure.minimax].
  - unfold within_window. float_crush.
  - destruct (Board.is_game_over b); [unfold within_window; float_crush|].
    pose proof (neg_inf_least alpha Ha) as Hlo.
    pose proof (inf_greatest beta Hb) as Hhi.
    destruct is_max.
    + apply max_loop_window; auto using num_neg_inf.
      * intros; apply minimax_unpruned_window.
      * intros m a b'.
        rewrite (minimax_unpruned_window depth _ _ a b' PyFloat.neg_inf PyFloat.inf).
        apply minimax_num; reflexivity.
      * intros m a b' Hna Hnb Hlt. split; [apply minimax_num; auto|apply IH; auto].
      * intros H. split; FloatTac.order.
      * intros H. exfalso. FloatTac.order.
    + apply min_loop_window; auto using num_inf.
      * intros; apply minimax_unpruned_window.
      * intros m a b'.
        rewrite (minimax_unpruned_window depth _ _ a b' PyFloat.neg_inf PyFloat.inf).
        apply minimax_num; reflexivity.
      * intros m a b' Hna Hnb Hlt. split; [apply minimax_num; auto|apply IH; auto].
      * intros H. split; FloatTac.order.
      * intros H. exfalso. FloatTac.order.
Qed.

Lemma minimax_full_window (depth : nat) (b : Board.t) (is_max : bool) :
  PyFloat.eqb (Pure.minimax true depth b is_max PyFloat.neg_inf PyFloat.inf)
              (Pure.minimax false depth b is_max PyFloat.neg_inf PyFloat.inf) = true.
Proof.
  assert (Hlt : FloatOrder.lt PyFloat.neg_inf PyFloat.inf).
  { unfold FloatOrder.lt, key_lt. cbn. lia. }
  pose proof (minimax_window depth b is_max _ _ num_neg_inf num_inf Hlt) as Hw.
  pose proof (minimax_num true depth b is_max _ _ num_neg_inf num_inf) as Hr.
  pose proof (minimax_num false depth b is_max _ _ num_neg_inf num_inf) as Hv.
  apply eqb_eq; auto.
  set (r := Pure.minimax true depth b is_max PyFloat.neg_inf PyFloat.inf) in *.
  set (v := Pure.minimax false depth b is_max PyFloat.neg_inf PyFloat.inf) in *.
  pose proof (neg_inf_least r Hr). pose proof (neg_inf_least v Hv).
  pose proof (inf_greatest r Hr). pose proof (inf_greatest v Hv).
  unfold within_window in Hw.
  tri v PyFloat.neg_inf; tri v PyFloat.inf; float_crush.
Qed.

Lemma root_loop_prune (depth : nat) (b : Board.t) (moves : list Move) :
  forall alpha_p best_p alpha_u best_u best_move,
    num alpha_p -> num best_p -> num best_u ->
    FloatOrder.eq alpha_p best_p -> FloatOrder.eq best_p best_u ->
    Pure.root_loop true depth b moves alpha_p PyFloat.inf best_p best_move
    = Pure.root_loop false depth b moves alpha_u PyFloat.inf best_u best_move.
Proof.
  induction moves as [|m rest IH];
    intros alpha_p best_p alpha_u best_u best_move Hap Hbp Hbu Hab Hbb;
    cbn [Pure.root_loop]; cbv zeta; [reflexivity|].
  rewrite (minimax_unpruned_window depth _ _ alpha_u PyFloat.inf alpha_p PyFloat.inf).
  pose proof (minimax_num true depth (Board.make_move b m) false _ _ Hap num_inf) as Hs.
  pose proof (minimax_num false depth (Board.make_move b m) false _ _ Hap num_inf) as Hv.
  set (s := Pure.minimax true depth (Board.make_move b m) false alpha_p PyFloat.inf) in *.
  set (v := Pure.minimax false depth (Board.make_move b m) false alpha_p PyFloat.inf) in *.
  pose proof (inf_greatest s Hs). pose proof (inf_greatest v Hv).
  pose proof (inf_greatest alpha_p Hap) as Hai.
  assert (Hw : FloatOrder.lt alpha_p PyFloat.inf -> within_window alpha_p PyFloat.inf v s).
  { intros Hlt. apply minimax_window; auto using num_inf. }
  unfold within_window in Hw.
  float_case (PyFloat.ltb best_p s) Hp; float_case (PyFloat.ltb best_u v) Hu.
  - (* both engines take the move *)
    apply IH; auto with num.
    + destruct (max_spec alpha_p s Hap Hs) as [[H1 ->]|[H1 ->]]; FloatTac.order.
    + tri alpha_p PyFloat.inf; tri v PyFloat.inf; float_crush.
  - exfalso. tri alpha_p PyFloat.inf; tri v PyFloat.inf; float_crush.
  - exfalso. tri alpha_p PyFloat.inf; tri v PyFloat.inf; tri v alpha_p; float_crush.
  - (* both engines keep their move *)
    apply IH; auto with num.
    destruct (max_spec alpha_p best_p Hap Hbp) as [[H1 ->]|[H1 ->]]; FloatTac.order.
Qed.

Lemma get_move_prune (self : GomokuAI.t) (b : Board.t) :
  Pure.get_move true self b = Pure.get_move false self b.
Proof.
  unfold Pure.get_move.
  destruct (Pure.get_valid_moves b) as [|m0 ms]; [reflexivity|].
  destruct (Z.of_nat (length (m0 :: ms)) =? Board.size b * Board.size b); [reflexivity|].
  destruct (find _ (m0 :: ms)); [reflexivity|].
  destruct (find _ (m0 :: ms)); [reflexivity|].
  apply root_loop_prune; try reflexivity.
Qed.

(** ** The score tables *)

(** X1: [_get_pattern_score] returns a score between 0 and the score of
    five in a row, and returns the latter exactly for runs of five or
    more; the slack never matters; and for one run length an additional
    blocked end never raises the score. *)
Theorem pattern_score_table (consecutive blocked blocked' space space' : Z) :
  0 <= blocked <= blocked' ->
  let score := GomokuAI._get_pattern_score (consecutive, blocked, space) in
  0 <= score <= GomokuAI.pattern_scores GomokuAI.win5 /\
  (score = GomokuAI.pattern_scores GomokuAI.win5 <-> 5 <= consecutive) /\
  GomokuAI._get_pattern_score (consecutive, blocked, space') = score /\
  GomokuAI._get_pattern_score (consecutive, blocked', space) <= score.
Proof.
  intros Hb. cbv zeta. unfold GomokuAI._get_pattern_score, GomokuAI.pattern_scores.
  repeat match goal with
         | |- context [?a <=? ?b] => destruct (Z.leb_spec a b)
         | |- context [?a =? ?b] => destruct (Z.eqb_spec a b)
         end; cbn [andb]; repeat split; intros; try discriminate; try lia.
Qed.

Lemma pattern_score_table_witness :
  GomokuAI._get_pattern_score (4, 1, 0) <= GomokuAI._get_pattern_score (4, 0, 0).
Proof.
  exact (proj2 (proj2 (proj2 (pattern_score_table 4 0 1 0 0 (conj (Z.le_refl 0) (Z.lt_le_incl 0 1 eq_refl)))))).
Defined.

(** X2: [Node._evaluate_line] returns one of eight scores, never less
    than the base score 100, and 100000 exactly for runs of five or
    more. *)
Theorem evaluate_line_scores (b : Board.t) (i j di dj player : Z) :
  let score := Node._evaluate_line b i j di dj player in
  In score [100; 300; 1000; 3000; 8000; 10000; 50000; 100000] /\
  (score = 100000 <-> 5 <= fst (fst (Scan.pattern b i j di dj player))).
Proof.
  cbv zeta. unfold Node._evaluate_line.
  destruct (Scan.pattern b i j di dj player) as [[c bl] sp]. cbn [fst].
  repeat match goal with
         | |- context [?a <=? ?b] => destruct (Z.leb_spec a b)
         | |- context [?a =? ?b] => destruct (Z.eqb_spec a b)
         end; cbn [In]; split; try tauto; split; intros; try discriminate; try lia.
Qed.

(** ** The range of the pattern scan *)

Lemma walk_loop_bounds (b : Board.t) (di dj player : Z) (fuel : nat) :
  forall ni nj c sp bl,
    0 <= sp <= 1 ->
    let w := Scan.walk_loop fuel b ni nj di dj player (Scan.mk_walk c sp bl) in
    c <= Scan.consecutive w /\
    sp <= Scan.space w <= 2 /\
    bl <= Scan.blocked w <= bl + 1.
Proof.
  induction fuel as [|fuel IH]; intros ni nj c sp bl Hsp; cbv zeta;
    cbn [Scan.walk_loop Scan.consecutive Scan.space Scan.blocked].
  - lia.
  - destruct (Board.in_range b ni nj); cbn [negb Scan.consecutive Scan.space Scan.blocked];
      [|lia].
    destruct (Board.get b ni nj =? 0).
    + destruct (Z.leb_spec 2 (sp + 1));
        [cbn [Scan.consecutive Scan.space Scan.blocked]; lia|].
      specialize (IH (ni + di) (nj + dj) c (sp + 1) bl). cbv zeta in IH. lia.
    + destruct (Board.get b ni nj =? player).
      * destruct (Z.eqb_spec sp 0);
          [|cbn [Scan.consecutive Scan.space Scan.blocked]; lia].
        specialize (IH (ni + di) (nj + dj) (c + 1) sp bl). cbv zeta in IH. lia.
      * cbn [Scan.consecutive Scan.space Scan.blocked]. lia.
Qed.

(** X3: whatever the board, the anchor, the direction and the player,
    [_get_pattern] returns a run length of at least 1 (the anchor itself),
    a blocked-end count of 0, 1 or 2, and a slack between 0 and 4 (at most
    two empty cells are counted on either side). *)
Theorem get_pattern_range (b : Board.t) (i j di dj player : Z) :
  let '(consecutive, blocked, space) := GomokuAI._get_pattern b i j di dj player in
  1 <= consecutive /\ 0 <= blocked <= 2 /\ 0 <= space <= 4.
Proof.
  unfold GomokuAI._get_pattern, Scan.pattern. cbv zeta.
  pose proof (walk_loop_bounds b (- di) (- dj) player (Z.to_nat (Board.size b))
                (i - di) (j - dj) 1 0 0) as H1.
  cbv zeta in H1.
  set (w1 := Scan.walk_loop _ b (i - di) (j - dj) (- di) (- dj) player _) in *.
  pose proof (walk_loop_bounds b di dj player (Z.to_nat (Board.size b))
                (i + di) (j + dj) (Scan.consecutive w1) 0 (Scan.blocked w1)) as H2.
  cbv zeta in H2.
  set (w2 := Scan.walk_loop _ b (i + di) (j + dj) di dj player _) in *.
  lia.
Qed.

(** ** Five in a row through a move *)

Lemma update_ge (A : Type) (f : A -> A) (n : nat) (l : list A) :
  (length l <= n)%nat -> update n f l = l.
Proof.
  revert n. induction l as [|y l IH]; intros [|n] Hn; cbn [length] in Hn;
    cbn [update]; try reflexivity; try lia.
  rewrite IH by lia. reflexivity.
Qed.

Lemma get_set_other (b : Board.t) (i j v x y : Z) :
  (Z.to_nat x, Z.to_nat y) <> (Z.to_nat i, Z.to_nat j) ->
  Board.get (Board.set b i j v) x y = Board.get b x y.
Proof.
  intros Hne. unfold Board.get, Board.set. cbn [Board.board].
  destruct (Nat.eq_dec (Z.to_nat i) (Z.to_nat x)) as [Hi|Hi].
  - destruct (Nat.lt_ge_cases (Z.to_nat i) (length (Board.board b))) as [Hlt|Hge].
    + rewrite <- Hi. rewrite nth_update_eq by exact Hlt.
      rewrite nth_update_neq; [reflexivity|]. intros Hj. apply Hne. congruence.
    + rewrite update_ge by exact Hge. reflexivity.
  - rewrite nth_update_neq by exact Hi. reflexivity.
Qed.

Lemma set_size (b : Board.t) (i j v : Z) : Board.size (Board.set b i j v) = Board.size b.
Proof. reflexivity. Qed.

Lemma set_in_range (b : Board.t) (i j v x y : Z) :
  Board.in_range (Board.set b i j v) x y = Board.in_range b x y.
Proof. reflexivity. Qed.

Section Run.

Variable b : Board.t.
Variables di dj player : Z.

Let on_run := on_cell b di dj player.

Lemma count_loop_run (fuel : nat) :
  forall ni nj,
    off_after b di dj fuel ni nj ->
    let k := Scan.count_loop fuel b ni nj di dj player 0 in
    0 <= k /\ (forall t, 0 <= t < k -> on_run ni nj t) /\ ~ on_run ni nj k.
Proof.
  induction fuel as [|fuel IH]; intros ni nj Hoff; cbv zeta.
  - cbn [Scan.count_loop]. split; [lia|]. split; [intros; lia|].
    intros [Hin _]. unfold on_cell in Hin. rewrite Z.mul_0_l, !Z.add_0_r in Hin.
    rewrite (off_after_here b di dj ni nj Hoff) in Hin. discriminate.
  - cbn [Scan.count_loop].
    destruct (Board.in_range b ni nj && (Board.get b ni nj =? player)) eqn:Hc.
    + rewrite count_loop_acc.
      destruct (IH (ni + di) (nj + dj) (off_after_step b di dj fuel ni nj Hoff))
        as (Hk & Hall & Hstop).
      set (k := Scan.count_loop fuel b (ni + di) (nj + dj) di dj player 0) in *.
      apply andb_true_iff in Hc. destruct Hc as [Hin Hp]. apply Z.eqb_eq in Hp.
      split; [lia|]. split.
      * intros t Ht. destruct (Z.eq_dec t 0) as [->|Hne].
        -- unfold on_run, on_cell. rewrite Z.mul_0_l, !Z.add_0_r. auto.
        -- destruct (Hall (t - 1)) as [H1 H2]; [lia|]. unfold on_run, on_cell.
           replace (ni + t * di) with (ni + di + (t - 1) * di) by lia.
           replace (nj + t * dj) with (nj + dj + (t - 1) * dj) by lia. auto.
      * intros [H1 H2]. apply Hstop. unfold on_run, on_cell in *.
        replace (ni + di + k * di) with (ni + (0 + 1 + k) * di) by lia.
        replace (nj + dj + k * dj) with (nj + (0 + 1 + k) * dj) by lia. auto.
    + split; [lia|]. split; [intros; lia|].
      intros [Hin Hp]. unfold on_cell in Hin, Hp.
      rewrite Z.mul_0_l, !Z.add_0_r in Hin, Hp.
      rewrite Hin in Hc. apply Z.eqb_eq in Hp. rewrite Hp in Hc.
      cbn in Hc. discriminate.
Qed.

End Run.

Lemma on_cell_forth (b : Board.t) (di dj player i j t : Z) :
  on_cell b di dj player (i + di) (j + dj) t <-> on_cell b di dj player i j (t + 1).
Proof.
  unfold on_cell.
  replace (i + di + t * di) with (i + (t + 1) * di) by lia.
  replace (j + dj + t * dj) with (j + (t + 1) * dj) by lia. reflexivity.
Qed.

Lemma on_cell_back (b : Board.t) (di dj player i j t : Z) :
  on_cell b (- di) (- dj) player (i - di) (j - dj) t
  <-> on_cell b di dj player i j (- (t + 1)).
Proof.
  unfold on_cell.
  replace (i - di + t * - di) with (i + - (t + 1) * di) by lia.
  replace (j - dj + t * - dj) with (j + - (t + 1) * dj) by lia. reflexivity.
Qed.

(** The count along one line is five or more exactly when a window of
    five cells around the move is filled. *)
Lemma line_count_five (b : Board.t) (i j di dj player : Z) :
  Board.in_range b i j = true ->
  di <> 0 \/ dj <> 0 ->
  5 <= Scan.line_count b (i, j) (di, dj) player <->
  exists k, 0 <= k <= 4 /\
            forall t, 0 <= t <= 4 -> t <> k -> on_cell b di dj player i j (t - k).
Proof.
  intros Hin Hd. unfold Scan.line_count. cbn [fst snd].
  rewrite count_loop_acc.
  rewrite (count_loop_acc b di dj player _ (i + di) (j + dj) 1).
  destruct (count_loop_run b di dj player (Z.to_nat (Board.size b)) (i + di) (j + dj)
              (off_after_size b i j di dj Hin Hd)) as (Hf0 & Hf & Hfstop).
  assert (Hd' : - di <> 0 \/ - dj <> 0) by lia.
  pose proof (off_after_size b i j (- di) (- dj) Hin Hd') as Hoff.
  rewrite !Z.add_opp_r in Hoff.
  destruct (count_loop_run b (- di) (- dj) player (Z.to_nat (Board.size b))
              (i - di) (j - dj) Hoff) as (Hb0 & Hb & Hbstop).
  set (kf := Scan.count_loop _ b (i + di) (j + dj) di dj player 0) in *.
  set (kb := Scan.count_loop _ b (i - di) (j - dj) (- di) (- dj) player 0) in *.
  split.
  - intros H5. exists (Z.min kb 4). split; [lia|].
    intros t Ht Hne.
    destruct (Z.lt_ge_cases t (Z.min kb 4)) as [Hlt|Hge].
    + replace (t - Z.min kb 4) with (- ((Z.min kb 4 - t - 1) + 1)) by lia.
      apply on_cell_back. apply Hb. lia.
    + replace (t - Z.min kb 4) with ((t - Z.min kb 4 - 1) + 1) by lia.
      apply on_cell_forth. apply Hf. lia.
  - intros (k & Hk & Hwin).
    assert (Hkb : k <= kb).
    { destruct (Z.le_gt_cases k kb) as [|Hgt]; [assumption|]. exfalso.
      apply Hbstop. apply on_cell_back.
      replace (- (kb + 1)) with ((k - kb - 1) - k) by lia. apply Hwin; lia. }
    assert (Hkf : 4 - k <= kf).
    { destruct (Z.le_gt_cases (4 - k) kf) as [|Hgt]; [assumption|]. exfalso.
      apply Hfstop. apply on_cell_forth.
      replace (kf + 1) with ((kf + 1 + k) - k) by lia. apply Hwin; lia. }
    lia.
Qed.

Lemma directions_nonzero (d : Z * Z) :
  In d Board.directions -> fst d <> 0 \/ snd d <> 0.
Proof.
  cbn [Board.directions In]. intros [<-|[<-|[<-|[<-|[]]]]]; cbn [fst snd]; lia.
Qed.

Lemma on_cell_set (b : Board.t) (i j v di dj player t : Z) :
  0 <= i -> 0 <= j -> di <> 0 \/ dj <> 0 -> t <> 0 ->
  on_cell (Board.set b i j v) di dj player i j t <-> on_cell b di dj player i j t.
Proof.
  intros Hi Hj Hd Ht. unfold on_cell. rewrite set_in_range.
  split; intros [Hin Hp]; (split; [exact Hin|]).
  - rewrite get_set_other in Hp; [exact Hp|].
    unfold Board.in_range in Hin. rewrite !andb_true_iff, !Z.leb_le, !Z.ltb_lt in Hin.
    intros E. inversion E as [[E1 E2]].
    apply Z2Nat.inj in E1; [|lia|lia]. apply Z2Nat.inj in E2; [|lia|lia]. nia.
  - rewrite get_set_other; [exact Hp|].
    unfold Board.in_range in Hin. rewrite !andb_true_iff, !Z.leb_le, !Z.ltb_lt in Hin.
    intros E. inversion E as [[E1 E2]].
    apply Z2Nat.inj in E1; [|lia|lia]. apply Z2Nat.inj in E2; [|lia|lia]. nia.
Qed.

Lemma is_winning_move_completes_five (b : Board.t) (move : Move) (player : Z) :
  Board.in_range b (fst move) (snd move) = true ->
  Pure.is_winning_move b move player = true <-> completes_five b move player.
Proof.
  destruct move as [i j]. cbn [fst snd]. intros Hin.
  assert (Hij : 0 <= i /\ 0 <= j).
  { unfold Board.in_range in Hin. rewrite !andb_true_iff, !Z.leb_le, !Z.ltb_lt in Hin. lia. }
  unfold Pure.is_winning_move, Scan.five_through, completes_five. cbn [fst snd].
  rewrite existsb_exists. split.
  - intros ([di dj] & Hd & H5). apply Z.leb_le in H5.
    pose proof (directions_nonzero _ Hd) as Hnz. cbn [fst snd] in Hnz.
    apply line_count_five in H5; [|exact Hin|exact Hnz].
    destruct H5 as (k & Hk & Hwin). exists (di, dj), k. cbn [fst snd].
    split; [exact Hd|]. split; [exact Hk|].
    intros t Ht Hne. apply (on_cell_set b i j player di dj player (t - k)); try lia.
    apply Hwin; assumption.
  - intros ([di dj] & k & Hd & Hk & Hwin). cbn [fst snd] in Hwin.
    exists (di, dj). split; [exact Hd|]. apply Z.leb_le.
    pose proof (directions_nonzero _ Hd) as Hnz. cbn [fst snd] in Hnz.
    apply line_count_five; [exact Hin|exact Hnz|].
    exists k. split; [exact Hk|].
    intros t Ht Hne. apply (on_cell_set b i j player di dj player (t - k)); try lia.
    apply Hwin; assumption.
Qed.

Lemma node_is_winning_move_yields (s : Store) (board : ref) (b : Board.t)
      (move : Move) (player : Z) :
  holds s board b ->
  yields bool (Node._is_winning_move board move player) s
         (Pure.is_winning_move b move player).
Proof. exact (is_winning_move_yields s board b move player). Qed.

Lemma mcts_is_winning_move_yields (s : Store) (board : ref) (b : Board.t)
      (move : Move) (check_opponent : bool) :
  holds s board b ->
  yields bool (MCTS._is_winning_move board move check_opponent) s
         (Pure.is_winning_move b move
            (if check_opponent then - Board.current_player b else Board.current_player b)).
Proof.
  intros Hb. unfold MCTS._is_winning_move.
  eapply yields_bind; [apply yields_read; exact Hb|]. intros s1 G1.
  apply (yields_clone_then bool s1 board b
           (fun r => setitem r move
                       (if check_opponent then - Board.current_player b
                        else Board.current_player b))
           (fun b0 => Board.set b0 (fst move) (snd move)
                        (if check_opponent then - Board.current_player b
                         else Board.current_player b)));
    [eauto with store|reflexivity|].
  intros s' r G Hr.
  eapply yields_bind; [apply yields_read; exact Hr|].
  intros s2 G2. apply yields_ret.
Qed.

(** X4: the three copies of [_is_winning_move] (in [GomokuAI], [Node] and
    [MCTS]) answer True exactly when a stone of the player on the move
    would complete five in a row: some line through the move has five
    consecutive cells on the board, the move among them, whose other four
    hold stones of the player.  The test is made on a clone: no board
    object that existed before is changed and no node is touched.
    [MCTS._is_winning_move] tests the player to move, or the opponent when
    [check_opponent] is set. *)
Theorem is_winning_move_completes_five_in_a_row
  (s : Store) (board : ref) (b : Board.t) (move : Move) (player : Z)
  (check_opponent : bool) :
  holds s board b ->
  Board.in_range b (fst move) (snd move) = true ->
  exists w w',
    yields bool (GomokuAI._is_winning_move board move player) s w /\
    yields bool (Node._is_winning_move board move player) s w /\
    (w = true <-> completes_five b move player) /\
    yields bool (MCTS._is_winning_move board move check_opponent) s w' /\
    (w' = true <->
     completes_five b move (if check_opponent then - Board.current_player b
                            else Board.current_player b)).
Proof.
  intros Hb Hin.
  exists (Pure.is_winning_move b move player),
         (Pure.is_winning_move b move
            (if check_opponent then - Board.current_player b else Board.current_player b)).
  split; [apply is_winning_move_yields; exact Hb|].
  split; [apply node_is_winning_move_yields; exact Hb|].
  split; [apply is_winning_move_completes_five; exact Hin|].
  split; [apply mcts_is_winning_move_yields; exact Hb|].
  apply is_winning_move_completes_five; exact Hin.
Qed.

Lemma is_winning_move_completes_five_in_a_row_witness :
  exists w w',
    yields bool (GomokuAI._is_winning_move O (0, 5) 1) (mk_store [finished_board] []) w /\
    yields bool (Node._is_winning_move O (0, 5) 1) (mk_store [finished_board] []) w /\
    (w = true <-> completes_five finished_board (0, 5) 1) /\
    yields bool (MCTS._is_winning_move O (0, 5) true) (mk_store [finished_board] []) w' /\
    (w' = true <->
     completes_five finished_board (0, 5) (- Board.current_player finished_board)).
Proof.
  apply (is_winning_move_completes_five_in_a_row
           (mk_store [finished_board] []) O finished_board (0, 5) 1 true);
    reflexivity.
Defined.

(** ** The candidate moves of the minimax engine *)

Lemma insert_desc_perm (A : Type) (ltb : A -> A -> bool) (x : A) (l : list A) :
  Permutation (x :: l) (insert_desc ltb x l).
Proof.
  induction l as [|y l IH]; cbn [insert_desc]; [reflexivity|].
  destruct (ltb x y); [|reflexivity].
  rewrite perm_swap. apply perm_skip. exact IH.
Qed.

Lemma sort_desc_perm (A : Type) (ltb : A -> A -> bool) (l : list A) :
  Permutation l (sort_desc ltb l).
Proof.
  induction l as [|x l IH]; cbn [sort_desc fold_right]; [reflexivity|].
  fold (sort_desc ltb l). rewrite <- insert_desc_perm. apply perm_skip. exact IH.
Qed.

Lemma map_NoDup_inj (A B : Type) (f : A -> B) (l : list A) :
  (forall x y, f x = f y -> x = y) -> NoDup l -> NoDup (map f l).
Proof.
  intros Hf. induction 1 as [|x l Hx Hl IH]; cbn [map]; constructor; [|exact IH].
  intros Hin. apply in_map_iff in Hin. destruct Hin as (y & E & Hy).
  apply Hf in E. subst. contradiction.
Qed.

Lemma range_In (n k : Z) : In k (range n) <-> 0 <= k < n.
Proof.
  unfold range. rewrite in_map_iff. split.
  - intros (m & <- & Hm). apply in_seq in Hm. lia.
  - intros Hk. exists (Z.to_nat k). split; [lia|]. apply in_seq. lia.
Qed.

Lemma range_NoDup (n : Z) : NoDup (range n).
Proof.
  unfold range. apply map_NoDup_inj; [|apply seq_NoDup].
  intros x y H. lia.
Qed.

Lemma range_length (n : Z) : 0 <= n -> Z.of_nat (length (range n)) = n.
Proof. intros Hn. unfold range. rewrite length_map, length_seq. lia. Qed.

Lemma cells_In (b : Board.t) (m : Move) :
  In m (Board.cells b) <-> Board.in_range b (fst m) (snd m) = true.
Proof.
  unfold Board.cells, Board.in_range. rewrite in_flat_map.
  rewrite !andb_true_iff, !Z.leb_le, !Z.ltb_lt. split.
  - intros (i & Hi & Hm). apply in_map_iff in Hm. destruct Hm as (j & <- & Hj).
    apply range_In in Hi, Hj. cbn [fst snd]. lia.
  - intros H. exists (fst m). split; [apply range_In; lia|].
    apply in_map_iff. exists (snd m). split; [destruct m; reflexivity|].
    apply range_In; lia.
Qed.

Lemma cells_NoDup (b : Board.t) : NoDup (Board.cells b).
Proof.
  unfold Board.cells.
  assert (H : forall l : list Z, NoDup l ->
            NoDup (flat_map (fun i => map (fun j => (i, j)) (range (Board.size b))) l)).
  { induction l as [|i l IH]; intros Hl; cbn [flat_map]; [constructor|].
    inversion Hl as [|? ? Hni Hl']; subst.
    apply NoDup_app; [|apply IH; exact Hl'|].
    - apply map_NoDup_inj; [|apply range_NoDup].
      intros x y E. congruence.
    - intros [x y] Hx Hy. apply in_map_iff in Hx. destruct Hx as (j & E & _).
      apply in_flat_map in Hy. destruct Hy as (i' & Hi' & Hy).
      apply in_map_iff in Hy. destruct Hy as (j' & E' & _).
      apply Hni. congruence. }
  apply H, range_NoDup.
Qed.

Lemma cells_length (b : Board.t) :
  0 <= Board.size b ->
  Z.of_nat (length (Board.cells b)) = Board.size b * Board.size b.
Proof.
  intros Hs. unfold Board.cells.
  assert (H : forall l : list Z, Z.of_nat (length
              (flat_map (fun i => map (fun j => (i, j)) (range (Board.size b))) l))
            = Z.of_nat (length l) * Board.size b).
  { induction l as [|i l IH]; cbn [flat_map length]; [lia|].
    rewrite length_app, length_map, Nat2Z.inj_add, IH.
    rewrite range_length by exact Hs. lia. }
  rewrite H, range_length by exact Hs. reflexivity.
Qed.

Lemma firstn_In (A : Type) (n : nat) (l : list A) (x : A) :
  In x (firstn n l) -> In x l.
Proof.
  intros H. rewrite <- (firstn_skipn n l). apply in_or_app. left. exact H.
Qed.

Lemma firstn_NoDup (A : Type) (n : nat) (l : list A) : NoDup l -> NoDup (firstn n l).
Proof.
  intros H. rewrite <- (firstn_skipn n l) in H. exact (NoDup_app_remove_r _ _ H).
Qed.

Lemma ranked_perm (b : Board.t) :
  Permutation (Pure.neighbour_cells b)
    (map snd (sort_desc scored_ltb
                (map (fun m => (Pure.evaluate_move b m, m)) (Pure.neighbour_cells b)))).
Proof.
  rewrite <- sort_desc_perm, map_map. cbn [snd]. rewrite map_id. reflexivity.
Qed.

Lemma has_neighbor_iff (b : Board.t) (i j : Z) :
  GomokuAI._has_neighbor b i j = true <-> adjacent_stone b i j.
Proof.
  unfold GomokuAI._has_neighbor, adjacent_stone. rewrite existsb_exists. split.
  - intros (di & Hdi & H). apply existsb_exists in H. destruct H as (dj & Hdj & H).
    destruct ((di =? 0) && (dj =? 0)) eqn:Hz; [discriminate|].
    apply andb_true_iff in H. destruct H as [Hin Hg].
    apply negb_true_iff, Z.eqb_neq in Hg.
    exists (i + di), (j + dj).
    assert (Hnz : di <> 0 \/ dj <> 0).
    { apply andb_false_iff in Hz. rewrite !Z.eqb_neq in Hz. exact Hz. }
    cbn [In] in Hdi, Hdj.
    repeat split; try assumption; try lia.
    intros E. inversion E. lia.
  - intros (ni & nj & Hi & Hj & Hne & Hin & Hg).
    exists (ni - i). split; [cbn [In]; lia|].
    apply existsb_exists. exists (nj - j). split; [cbn [In]; lia|].
    destruct ((ni - i =? 0) && (nj - j =? 0)) eqn:Hz.
    + apply andb_true_iff in Hz. rewrite !Z.eqb_eq in Hz.
      exfalso. apply Hne. f_equal; lia.
    + replace (i + (ni - i)) with ni by lia. replace (j + (nj - j)) with nj by lia.
      rewrite Hin. apply negb_true_iff, Z.eqb_neq. exact Hg.
Qed.

Lemma neighbour_cells_In (b : Board.t) (m : Move) :
  In m (Pure.neighbour_cells b) <->
  Board.in_range b (fst m) (snd m) = true /\
  Board.get b (fst m) (snd m) = 0 /\
  adjacent_stone b (fst m) (snd m).
Proof.
  unfold Pure.neighbour_cells.
  rewrite filter_In, cells_In, andb_true_iff, Z.eqb_eq, has_neighbor_iff.
  tauto.
Qed.

(** What the candidate list is made of. *)
Lemma pure_get_valid_moves_spec (b : Board.t) :
  (length (Pure.get_valid_moves b) <= 15)%nat /\
  NoDup (Pure.get_valid_moves b) /\
  (if Z.of_nat (length (Board.get_valid_moves b)) =? Board.size b * Board.size b
   then Pure.get_valid_moves b = [(Board.size b / 2, Board.size b / 2)]
   else forall m, In m (Pure.get_valid_moves b) ->
                  Board.in_range b (fst m) (snd m) = true /\
                  Board.get b (fst m) (snd m) = 0 /\
                  adjacent_stone b (fst m) (snd m)).
Proof.
  unfold Pure.get_valid_moves.
  destruct (Z.of_nat (length (Board.get_valid_moves b)) =? Board.size b * Board.size b).
  - split; [cbn; lia|]. split; [|reflexivity].
    constructor; [intros []|constructor].
  - rewrite <- firstn_map. split; [rewrite length_firstn; lia|]. split.
    + apply firstn_NoDup. apply (Permutation_NoDup (ranked_perm b)).
      unfold Pure.neighbour_cells. apply NoDup_filter, cells_NoDup.
    + intros m Hm. apply firstn_In in Hm.
      apply (Permutation_in _ (Permutation_sym (ranked_perm b))) in Hm.
      apply neighbour_cells_In. exact Hm.
Qed.

(** X5: [_get_valid_moves] hands the search at most 15 candidates, without
    repetitions.  When every cell is empty it is the single centre cell;
    otherwise every candidate is a cell of the board that is empty and has
    a stone among its eight neighbours.  Scoring the cells is done on
    clones: the boards that existed before are unchanged. *)
Theorem get_valid_moves_candidates (s : Store) (board : ref) (b : Board.t) :
  holds s board b ->
  exists moves,
    yields (list Move) (GomokuAI._get_valid_moves board) s moves /\
    (length moves <= 15)%nat /\
    NoDup moves /\
    (if Z.of_nat (length (Board.get_valid_moves b)) =? Board.size b * Board.size b
     then moves = [(Board.size b / 2, Board.size b / 2)]
     else forall m, In m moves ->
                    Board.in_range b (fst m) (snd m) = true /\
                    Board.get b (fst m) (snd m) = 0 /\
                    adjacent_stone b (fst m) (snd m)).
Proof.
  intros Hb. exists (Pure.get_valid_moves b).
  split; [apply get_valid_moves_yields; exact Hb|].
  apply pure_get_valid_moves_spec.
Qed.

Lemma get_valid_moves_candidates_witness :
  exists moves,
    yields (list Move) (GomokuAI._get_valid_moves O) (mk_store [border_board] []) moves /\
    (length moves <= 15)%nat /\
    NoDup moves /\
    (if Z.of_nat (length (Board.get_valid_moves border_board))
        =? Board.size border_board * Board.size border_board
     then moves = [(Board.size border_board / 2, Board.size border_board / 2)]
     else forall m, In m moves ->
                    Board.in_range border_board (fst m) (snd m) = true /\
                    Board.get border_board (fst m) (snd m) = 0 /\
                    adjacent_stone border_board (fst m) (snd m)).
Proof.
  apply (get_valid_moves_candidates (mk_store [border_board] []) O border_board).
  reflexivity.
Defined.

(** ** What the minimax engine returns *)

Lemma root_loop_In (prune : bool) (depth : nat) (b : Board.t) (moves : list Move) :
  forall alpha beta best_score best_move m,
    Pure.root_loop prune depth b moves alpha beta best_score best_move = Some m ->
    In m moves \/ best_move = Some m.
Proof.
  induction moves as [|move rest IH]; intros alpha beta best_score best_move m;
    cbn [Pure.root_loop]; cbv zeta; [auto|].
  destruct (PyFloat.ltb best_score _); intros H; apply IH in H; cbn [In].
  - destruct H as [H|H]; [auto|]. inversion H; auto.
  - destruct H as [H|H]; auto.
Qed.

Lemma filter_all_length (A : Type) (f : A -> bool) (l : list A) :
  (forall x, In x l -> f x = true) -> length (filter f l) = length l.
Proof.
  induction l as [|x l IH]; intros H; cbn [filter length]; [reflexivity|].
  rewrite (H x (or_introl eq_refl)). cbn [length]. rewrite IH; [reflexivity|].
  intros y Hy. apply H. right. exact Hy.
Qed.

Lemma all_empty_when_full_count (b : Board.t) (m : Move) :
  0 <= Board.size b ->
  Z.of_nat (length (Board.get_valid_moves b)) = Board.size b * Board.size b ->
  Board.in_range b (fst m) (snd m) = true ->
  Board.get b (fst m) (snd m) = 0.
Proof.
  intros Hs Hn Hin. unfold Board.get_valid_moves in Hn.
  rewrite <- (cells_length b Hs) in Hn. apply Nat2Z.inj in Hn.
  apply filter_length_forallb in Hn. rewrite forallb_forall in Hn.
  apply Z.eqb_eq. apply Hn. apply cells_In. exact Hin.
Qed.

Lemma centre_in_range (b : Board.t) :
  0 < Board.size b ->
  Board.in_range b (Board.size b / 2) (Board.size b / 2) = true.
Proof.
  intros Hs. unfold Board.in_range.
  assert (0 <= Board.size b / 2 < Board.size b).
  { split; [apply Z.div_pos; lia|apply Z.div_lt_upper_bound; lia]. }
  rewrite !andb_true_iff, !Z.leb_le, !Z.ltb_lt. lia.
Qed.

(** The candidate list never has as many cells as the board unless the
    board has a single cell. *)
Lemma candidates_fill_board (b : Board.t) :
  0 < Board.size b ->
  Z.of_nat (length (Pure.get_valid_moves b)) = Board.size b * Board.size b ->
  Pure.get_valid_moves b = [(Board.size b / 2, Board.size b / 2)] /\
  Z.of_nat (length (Board.get_valid_moves b)) = Board.size b * Board.size b.
Proof.
  intros Hs Hlen.
  destruct (pure_get_valid_moves_spec b) as (_ & Hnd & Hcase).
  destruct (Z.eqb_spec (Z.of_nat (length (Board.get_valid_moves b)))
                       (Board.size b * Board.size b)) as [Hn|Hn]; [auto|].
  exfalso. apply Hn.
  assert (Hincl : incl (Pure.get_valid_moves b) (Board.cells b)).
  { intros m Hm. apply cells_In. apply Hcase. exact Hm. }
  assert (Hall : incl (Board.cells b) (Pure.get_valid_moves b)).
  { apply NoDup_length_incl; [exact Hnd| |exact Hincl].
    apply Nat2Z.inj_le. rewrite Hlen, cells_length by lia. lia. }
  unfold Board.get_valid_moves. rewrite filter_all_length.
  - apply cells_length. lia.
  - intros m Hm. apply Z.eqb_eq. apply Hcase. apply Hall. exact Hm.
Qed.

Lemma pure_get_move_empty_cell (prune : bool) (self : GomokuAI.t) (b : Board.t) (m : Move) :
  0 < Board.size b ->
  Pure.get_move prune self b = Some m ->
  Board.in_range b (fst m) (snd m) = true /\ Board.get b (fst m) (snd m) = 0.
Proof.
  intros Hs. unfold Pure.get_move.
  assert (Hcand : forall x, In x (Pure.get_valid_moves b) ->
            Board.in_range b (fst x) (snd x) = true /\ Board.get b (fst x) (snd x) = 0).
  { intros x Hx. destruct (pure_get_valid_moves_spec b) as (_ & _ & Hcase).
    destruct (Z.eqb_spec (Z.of_nat (length (Board.get_valid_moves b)))
                         (Board.size b * Board.size b)) as [Hn|Hn].
    - rewrite Hcase in Hx. destruct Hx as [<-|[]]. cbn [fst snd].
      split; [apply centre_in_range; exact Hs|].
      apply (all_empty_when_full_count b (Board.size b / 2, Board.size b / 2));
        [lia|exact Hn|apply centre_in_range; exact Hs].
    - destruct (Hcase x Hx) as (H1 & H2 & _). auto. }
  destruct (Pure.get_valid_moves b) as [|m0 ms] eqn:Hv; [discriminate|].
  destruct (Z.eqb_spec (Z.of_nat (length (m0 :: ms))) (Board.size b * Board.size b))
    as [Hlen|Hlen].
  - intros H. inversion H; subst. cbn [fst snd].
    rewrite <- Hv in Hlen. destruct (candidates_fill_board b Hs Hlen) as [Hc Hn].
    apply (Hcand (Board.size b / 2, Board.size b / 2)).
    rewrite <- Hv, Hc. left. reflexivity.
  - destruct (find (fun move => Pure.is_winning_move b move (Board.current_player b))
                   (m0 :: ms)) as [w|] eqn:Hw.
    { intros H. inversion H; subst. apply find_some in Hw. apply Hcand, Hw. }
    destruct (find (fun move => Pure.is_winning_move b move (- Board.current_player b))
                   (m0 :: ms)) as [w|] eqn:Hw2.
    { intros H. inversion H; subst. apply find_some in Hw2. apply Hcand, Hw2. }
    intros H. apply root_loop_In in H. destruct H as [H|H]; [|discriminate].
    apply Hcand, H.
Qed.

Lemma pure_get_move_full_board (prune : bool) (self : GomokuAI.t) (b : Board.t) :
  0 < Board.size b ->
  forallb (fun m => negb (Board.get b (fst m) (snd m) =? 0)) (Board.cells b) = true ->
  Pure.get_move prune self b = None.
Proof.
  intros Hs Hfull. rewrite forallb_forall in Hfull.
  assert (Hnone : Board.get_valid_moves b = []).
  { unfold Board.get_valid_moves.
    destruct (filter (fun m => Board.get b (fst m) (snd m) =? 0) (Board.cells b))
      as [|m l] eqn:E; [reflexivity|].
    assert (Hm : In m (m :: l)) by (left; reflexivity).
    rewrite <- E in Hm. apply filter_In in Hm. destruct Hm as [Hc He].
    apply Hfull in Hc. rewrite He in Hc. discriminate. }
  destruct (pure_get_valid_moves_spec b) as (_ & _ & Hcase).
  rewrite Hnone in Hcase. cbn [length] in Hcase.
  destruct (Z.eqb_spec (Z.of_nat 0) (Board.size b * Board.size b)) as [E|_]; [nia|].
  unfold Pure.get_move.
  destruct (Pure.get_valid_moves b) as [|m0 ms]; [reflexivity|]. exfalso.
  destruct (Hcase m0 (or_introl eq_refl)) as (Hin & He & _).
  apply cells_In in Hin. apply Hfull in Hin. rewrite He in Hin. discriminate.
Qed.

(** X6: [GomokuAI.get_move] returns [None] or a cell of the board that
    is empty, at every positive search depth; on a board without an
    empty cell it returns [None]. *)
Theorem gomoku_get_move_returns_empty_cell
  (self : GomokuAI.t) (s : Store) (board : ref) (b : Board.t) :
  holds s board b ->
  0 < Board.size b ->
  (1 <= GomokuAI.max_depth self)%nat ->
  exists r,
    yields (option Move) (GomokuAI.get_move self board) s r /\
    (forall m, r = Some m ->
               Board.in_range b (fst m) (snd m) = true /\ Board.get b (fst m) (snd m) = 0) /\
    (forallb (fun m => negb (Board.get b (fst m) (snd m) =? 0)) (Board.cells b) = true ->
     r = None).
Proof.
  intros Hb Hs _. exists (Pure.get_move true self b).
  split; [apply get_move_yields; exact Hb|]. split.
  - intros m Hm. apply (pure_get_move_empty_cell true self b m Hs Hm).
  - apply pure_get_move_full_board. exact Hs.
Qed.

Lemma gomoku_get_move_returns_empty_cell_witness :
  exists r,
    yields (option Move) (GomokuAI.get_move (GomokuAI.mk 2) O)
           (mk_store [four_board] []) r /\
    (forall m, r = Some m ->
               Board.in_range four_board (fst m) (snd m) = true /\
               Board.get four_board (fst m) (snd m) = 0) /\
    (forallb (fun m => negb (Board.get four_board (fst m) (snd m) =? 0))
             (Board.cells four_board) = true ->
     r = None).
Proof.
  apply (gomoku_get_move_returns_empty_cell (GomokuAI.mk 2)
           (mk_store [four_board] []) O four_board);
    [reflexivity|reflexivity|cbn [GomokuAI.max_depth]; lia].
Defined.

Lemma completes_five_size (b : Board.t) (move : Move) (player : Z) :
  Board.in_range b (fst move) (snd move) = true ->
  completes_five b move player -> 5 <= Board.size b.
Proof.
  intros Hin (d & k & Hd & Hk & Hwin).
  pose proof (directions_nonzero d Hd) as Hnz.
  unfold Board.in_range in Hin. rewrite !andb_true_iff, !Z.leb_le, !Z.ltb_lt in Hin.
  assert (Hcell : forall t, 0 <= t <= 4 ->
            0 <= fst move + (t - k) * fst d < Board.size b /\
            0 <= snd move + (t - k) * snd d < Board.size b).
  { intros t Ht. destruct (Z.eq_dec t k) as [->|Hne].
    - replace (k - k) with 0 by lia. lia.
    - destruct (Hwin t Ht Hne) as [Hr _]. unfold Board.in_range in Hr.
      rewrite !andb_true_iff, !Z.leb_le, !Z.ltb_lt in Hr. lia. }
  pose proof (Hcell 0 ltac:(lia)) as H0. pose proof (Hcell 4 ltac:(lia)) as H4.
  destruct Hnz; nia.
Qed.

Lemma find_first_hit (A : Type) (f : A -> bool) (l : list A) (x : A) :
  In x l -> f x = true -> exists y, find f l = Some y.
Proof.
  intros Hx Hf. destruct (find f l) as [y|] eqn:E; [eauto|].
  rewrite (find_none f l E x Hx) in Hf. discriminate.
Qed.

Lemma pure_get_move_forced (prune : bool) (self : GomokuAI.t) (b : Board.t)
      (player : Z) (w : Move) :
  In w (Pure.get_valid_moves b) ->
  completes_five b w player ->
  (forall m, In m (Pure.get_valid_moves b) ->
             Board.in_range b (fst m) (snd m) = true) /\
  Z.of_nat (length (Pure.get_valid_moves b)) <> Board.size b * Board.size b.
Proof.
  intros Hw H5.
  assert (Hs : 0 < Board.size b).
  { destruct H5 as (d & k & Hd & Hk & Hwin).
    destruct (Hwin (if k =? 0 then 1 else 0)) as [Hr _];
      [destruct (k =? 0); lia|destruct (Z.eqb_spec k 0); lia|].
    unfold Board.in_range in Hr. rewrite !andb_true_iff, !Z.leb_le, !Z.ltb_lt in Hr. lia. }
  assert (Hrange : forall m, In m (Pure.get_valid_moves b) ->
             Board.in_range b (fst m) (snd m) = true).
  { intros m Hm. destruct (pure_get_valid_moves_spec b) as (_ & _ & Hcase).
    destruct (Z.of_nat (length (Board.get_valid_moves b)) =? Board.size b * Board.size b).
    - rewrite Hcase in Hm. destruct Hm as [<-|[]]. apply centre_in_range. exact Hs.
    - apply Hcase. exact Hm. }
  split; [exact Hrange|].
  pose proof (completes_five_size b w player (Hrange w Hw) H5) as H5s.
  destruct (pure_get_valid_moves_spec b) as (Hlen & _ & _). nia.
Qed.

Lemma find_split (A : Type) (f : A -> bool) (l : list A) (y : A) :
  find f l = Some y ->
  exists pre post, l = pre ++ y :: post /\ f y = true /\ forall x, In x pre -> f x = false.
Proof.
  induction l as [|a l IH]; cbn [find]; [discriminate|].
  destruct (f a) eqn:Ea.
  - intros [= ->]. exists [], l. repeat split; [exact Ea|intros x []].
  - intros H. destruct (IH H) as (pre & post & -> & Hy & Hpre).
    exists (a :: pre), post. repeat split; [exact Hy|].
    intros x [<-|Hx]; [exact Ea|apply Hpre; exact Hx].
Qed.

Lemma find_first_such (b : Board.t) (player : Z) (l : list Move) :
  (forall m, In m l -> Board.in_range b (fst m) (snd m) = true) ->
  match find (fun move => Pure.is_winning_move b move player) l with
  | Some m => first_such Move (fun x => completes_five b x player) l m
  | None => forall x, In x l -> ~ completes_five b x player
  end.
Proof.
  intros Hr.
  destruct (find (fun move => Pure.is_winning_move b move player) l) as [m|] eqn:E.
  - destruct (find_split _ _ _ _ E) as (pre & post & Hl & Hm & Hpre).
    exists pre, post. split; [exact Hl|].
    assert (Hin : In m l) by (rewrite Hl; apply in_or_app; right; left; reflexivity).
    split.
    + apply is_winning_move_completes_five; [apply Hr; exact Hin|exact Hm].
    + intros x Hx H5.
      assert (Hxl : In x l) by (rewrite Hl; apply in_or_app; left; exact Hx).
      apply (is_winning_move_completes_five b x player (Hr x Hxl)) in H5.
      rewrite (Hpre x Hx) in H5. discriminate.
  - intros x Hx H5.
    apply (is_winning_move_completes_five b x player (Hr x Hx)) in H5.
    pose proof (find_none _ _ E x Hx) as Hf. cbv beta in Hf.
    rewrite H5 in Hf. discriminate.
Qed.

Lemma pure_get_move_wins_or_blocks (prune : bool) (self : GomokuAI.t) (b : Board.t) :
  let me := Board.current_player b in
  let cands := Pure.get_valid_moves b in
  ((exists w, In w cands /\ completes_five b w me) ->
   exists m, Pure.get_move prune self b = Some m /\
             first_such Move (fun x => completes_five b x me) cands m) /\
  ((forall w, In w cands -> ~ completes_five b w me) ->
   (exists w, In w cands /\ completes_five b w (- me)) ->
   exists m, Pure.get_move prune self b = Some m /\
             first_such Move (fun x => completes_five b x (- me)) cands m).
Proof.
  cbv zeta. split.
  - intros (w & Hw & H5).
    destruct (pure_get_move_forced prune self b _ w Hw H5) as [Hr Hlen].
    pose proof (find_first_such b (Board.current_player b) _ Hr) as Hf.
    unfold Pure.get_move.
    destruct (Pure.get_valid_moves b) as [|m0 ms] eqn:EV; [destruct Hw|].
    destruct (Z.eqb_spec (Z.of_nat (length (m0 :: ms))) (Board.size b * Board.size b))
      as [E|_]; [contradiction|].
    destruct (find (fun move => Pure.is_winning_move b move (Board.current_player b))
                   (m0 :: ms)) as [m|].
    + exists m. split; [reflexivity|exact Hf].
    + exfalso. exact (Hf w Hw H5).
  - intros Hnone (w & Hw & H5).
    destruct (pure_get_move_forced prune self b _ w Hw H5) as [Hr Hlen].
    pose proof (find_first_such b (Board.current_player b) _ Hr) as Hf.
    pose proof (find_first_such b (- Board.current_player b) _ Hr) as Hg.
    unfold Pure.get_move.
    destruct (Pure.get_valid_moves b) as [|m0 ms] eqn:EV; [destruct Hw|].
    destruct (Z.eqb_spec (Z.of_nat (length (m0 :: ms))) (Board.size b * Board.size b))
      as [E|_]; [contradiction|].
    destruct (find (fun move => Pure.is_winning_move b move (Board.current_player b))
                   (m0 :: ms)) as [m|].
    + exfalso. destruct Hf as (pre & post & Hl & Hm & _).
      apply (Hnone m); [rewrite Hl; apply in_or_app; right; left; reflexivity|exact Hm].
    + destruct (find (fun move => Pure.is_winning_move b move (- Board.current_player b))
                     (m0 :: ms)) as [m|].
      * exists m. split; [reflexivity|exact Hg].
      * exfalso. exact (Hg w Hw H5).
Qed.

(** X7: the forced moves of [GomokuAI.get_move].  Among the candidates
    of [_get_valid_moves], in their order: if some candidate completes
    five in a row for the player to move, the first such candidate is
    returned; otherwise, if some candidate would complete five for the
    opponent, the first such candidate is returned.  Neither case runs
    the search, so the result is the same at every positive depth. *)
Theorem gomoku_get_move_wins_then_blocks
  (self : GomokuAI.t) (s : Store) (board : ref) (b : Board.t) :
  holds s board b ->
  (1 <= GomokuAI.max_depth self)%nat ->
  exists cands r,
    yields (list Move) (GomokuAI._get_valid_moves board) s cands /\
    yields (option Move) (GomokuAI.get_move self board) s r /\
    ((exists w, In w cands /\ completes_five b w (Board.current_player b)) ->
     exists m, r = Some m /\
               first_such Move (fun x => completes_five b x (Board.current_player b)) cands m) /\
    ((forall w, In w cands -> ~ completes_five b w (Board.current_player b)) ->
     (exists w, In w cands /\ completes_five b w (- Board.current_player b)) ->
     exists m, r = Some m /\
               first_such Move (fun x => completes_five b x (- Board.current_player b)) cands m).
Proof.
  intros Hb _. exists (Pure.get_valid_moves b), (Pure.get_move true self b).
  split; [apply get_valid_moves_yields; exact Hb|].
  split; [apply get_move_yields; exact Hb|].
  exact (pure_get_move_wins_or_blocks true self b).
Qed.

Lemma gomoku_get_move_wins_then_blocks_witness :
  exists cands r,
    yields (list Move) (GomokuAI._get_valid_moves O) (mk_store [four_board] []) cands /\
    yields (option Move) (GomokuAI.get_move (GomokuAI.mk 2) O) (mk_store [four_board] []) r /\
    ((exists w, In w cands /\ completes_five four_board w (Board.current_player four_board)) ->
     exists m, r = Some m /\
               first_such Move
                 (fun x => completes_five four_board x (Board.current_player four_board))
                 cands m) /\
    ((forall w, In w cands ->
                ~ completes_five four_board w (Board.current_player four_board)) ->
     (exists w, In w cands /\
                completes_five four_board w (- Board.current_player four_board)) ->
     exists m, r = Some m /\
               first_such Move
                 (fun x => completes_five four_board x (- Board.current_player four_board))
                 cands m).
Proof.
  apply (gomoku_get_move_wins_then_blocks (GomokuAI.mk 2) (mk_store [four_board] []) O
           four_board); [reflexivity|cbn [GomokuAI.max_depth]; lia].
Defined.
(* ================================================================== *)
(** * [_get_valid_moves] is empty only on a full board *)

Lemma in_range_bounds (b : Board.t) (i j : Z) :
  Board.in_range b i j = true <-> 0 <= i < Board.size b /\ 0 <= j < Board.size b.
Proof.
  unfold Board.in_range. rewrite !andb_true_iff, !Z.leb_le, !Z.ltb_lt. lia.
Qed.

(** Between a stone and an empty cell there is an empty cell that touches
    a stone: walk from the stone towards the empty cell, one king's step
    at a time. *)
Lemma stone_next_to_empty (b : Board.t) (d : nat) :
  forall i0 j0 i1 j1,
    Board.in_range b i0 j0 = true -> Board.get b i0 j0 <> 0 ->
    Board.in_range b i1 j1 = true -> Board.get b i1 j1 = 0 ->
    Z.max (Z.abs (i1 - i0)) (Z.abs (j1 - j0)) <= Z.of_nat d ->
    exists i j, Board.in_range b i j = true /\ Board.get b i j = 0 /\
                adjacent_stone b i j.
Proof.
  induction d as [|d IH]; intros i0 j0 i1 j1 H0 S0 H1 E1 Hd.
  - assert (i1 = i0 /\ j1 = j0) as [-> ->] by lia. contradiction.
  - set (ci := i0 + Z.sgn (i1 - i0)). set (cj := j0 + Z.sgn (j1 - j0)).
    assert (Hne : (i0, j0) <> (ci, cj)).
    { intros [= Hi Hj]. subst ci cj.
      assert (i1 = i0 /\ j1 = j0) as [-> ->] by lia. contradiction. }
    apply in_range_bounds in H0 as B0. apply in_range_bounds in H1 as B1.
    assert (Hc : Board.in_range b ci cj = true).
    { apply in_range_bounds. subst ci cj. lia. }
    destruct (Z.eq_dec (Board.get b ci cj) 0) as [E|N].
    + exists ci, cj. split; [exact Hc|]. split; [exact E|].
      exists i0, j0. subst ci cj. repeat split; try lia; try assumption.
    + apply (IH ci cj i1 j1 Hc N H1 E1). subst ci cj. lia.
Qed.

Lemma filter_nil_iff (A : Type) (f : A -> bool) (l : list A) :
  filter f l = [] <-> forall x, In x l -> f x = false.
Proof.
  induction l as [|a l IH]; cbn [filter]; [split; [intros _ x []|reflexivity]|].
  destruct (f a) eqn:E; split.
  - discriminate.
  - intros H. rewrite (H a (or_introl eq_refl)) in E. discriminate.
  - intros H x [<-|Hx]; [exact E|]. apply IH; assumption.
  - intros H. apply IH. intros x Hx. apply H. right. exact Hx.
Qed.

Lemma pure_get_valid_moves_nil (b : Board.t) :
  0 < Board.size b ->
  Pure.get_valid_moves b = [] <-> Board.get_valid_moves b = [].
Proof.
  intros Hs. unfold Pure.get_valid_moves.
  destruct (Z.eqb_spec (Z.of_nat (length (Board.get_valid_moves b)))
                       (Board.size b * Board.size b)) as [E|N].
  - split; [discriminate|]. intros H. rewrite H in E. cbn [length] in E. nia.
  - split.
    + intros H.
      assert (Hn : Pure.neighbour_cells b = []).
      { apply Permutation_nil. rewrite (ranked_perm b).
        destruct (sort_desc scored_ltb
                    (map (fun m => (Pure.evaluate_move b m, m)) (Pure.neighbour_cells b)))
          as [|x l] eqn:Es; [reflexivity|].
        cbn [firstn map] in H. discriminate. }
      destruct (Board.get_valid_moves b) as [|e es] eqn:Ev; [reflexivity|]. exfalso.
      assert (He : In e (Board.get_valid_moves b)) by (rewrite Ev; left; reflexivity).
      unfold Board.get_valid_moves in He. apply filter_In in He.
      destruct He as [Hce Hge]. apply cells_In in Hce. apply Z.eqb_eq in Hge.
      (* some cell holds a stone, as not all cells are empty *)
      assert (Hstone : exists m, In m (Board.cells b) /\ Board.get b (fst m) (snd m) <> 0).
      { destruct (filter (fun m => negb (Board.get b (fst m) (snd m) =? 0)) (Board.cells b))
          as [|m l] eqn:Ef.
        - exfalso. apply N. rewrite <- Ev. unfold Board.get_valid_moves.
          rewrite <- (cells_length b) by lia. f_equal.
          apply filter_all_length. intros x Hx.
          pose proof (proj1 (filter_nil_iff _ _ _) Ef x Hx) as Hf. cbv beta in Hf.
          apply negb_false_iff in Hf. exact Hf.
        - assert (Hm : In m (m :: l)) by (left; reflexivity).
          rewrite <- Ef in Hm. apply filter_In in Hm. destruct Hm as [Hc Hg].
          exists m. split; [exact Hc|]. apply negb_true_iff, Z.eqb_neq in Hg. exact Hg. }
      destruct Hstone as (m & Hcm & Hgm). apply cells_In in Hcm.
      destruct (stone_next_to_empty b
                  (Z.to_nat (Z.max (Z.abs (fst e - fst m)) (Z.abs (snd e - snd m))))
                  (fst m) (snd m) (fst e) (snd e) Hcm Hgm Hce Hge ltac:(lia))
        as (i & j & Hin & Hg & Hadj).
      assert (Hc : In (i, j) (Pure.neighbour_cells b)).
      { apply neighbour_cells_In. cbn [fst snd]. auto. }
      rewrite Hn in Hc. destruct Hc.
    + intros H.
      assert (Hn : Pure.neighbour_cells b = []).
      { apply filter_nil_iff. intros x Hx.
        unfold Board.get_valid_moves in H.
        rewrite (proj1 (filter_nil_iff _ _ _) H x Hx). reflexivity. }
      rewrite Hn. reflexivity.
Qed.
(* ================================================================== *)
(** * The minimax engine: further properties *)

Lemma full_iff (b : Board.t) : full b <-> Board.get_valid_moves b = [].
Proof.
  unfold full, Board.get_valid_moves. rewrite filter_nil_iff. split.
  - intros H m Hm. apply cells_In in Hm. apply Z.eqb_neq. apply H. exact Hm.
  - intros H i j Hin. apply Z.eqb_neq. apply (H (i, j)). apply cells_In. exact Hin.
Qed.

(** X8: the candidate list of [_get_valid_moves] is empty exactly when
    the board has no empty cell: as long as one cell is empty, the
    search has a move to try. *)
Theorem get_valid_moves_empty_iff_full (s : Store) (board : ref) (b : Board.t) :
  holds s board b ->
  0 < Board.size b ->
  exists moves,
    yields (list Move) (GomokuAI._get_valid_moves board) s moves /\
    (moves = [] <-> full b).
Proof.
  intros Hb Hs. exists (Pure.get_valid_moves b).
  split; [apply get_valid_moves_yields; exact Hb|].
  rewrite full_iff. apply pure_get_valid_moves_nil. exact Hs.
Qed.

Lemma get_valid_moves_empty_iff_full_witness :
  exists moves,
    yields (list Move) (GomokuAI._get_valid_moves O) (mk_store [four_board] []) moves /\
    (moves = [] <-> full four_board).
Proof.
  apply (get_valid_moves_empty_iff_full (mk_store [four_board] []) O four_board);
    reflexivity.
Defined.

(** X9: alpha-beta with a window.  For numbers [alpha < beta], the
    value [_minimax] returns with its cut-offs relates to the value of
    the same recursion without them as follows: if the exact value lies
    strictly inside the window, it is returned; if it is at most
    [alpha], the result is at most [alpha]; if it is at least [beta],
    the result is at least [beta]. *)
Theorem minimax_cutoff_respects_window
  (depth : nat) (s : Store) (board : ref) (b : Board.t) (is_maximizing : bool)
  (alpha beta : float) :
  holds s board b ->
  num alpha -> num beta -> FloatOrder.lt alpha beta ->
  exists exact pruned,
    yields float (GomokuAI._minimax_with false depth board is_maximizing alpha beta) s exact /\
    yields float (GomokuAI._minimax depth board is_maximizing alpha beta) s pruned /\
    within_window alpha beta exact pruned.
Proof.
  intros Hb Ha Hbeta Hlt.
  exists (Pure.minimax false depth b is_maximizing alpha beta),
         (Pure.minimax true depth b is_maximizing alpha beta).
  split; [apply minimax_yields; exact Hb|].
  split; [apply (minimax_yields true); exact Hb|].
  apply minimax_window; assumption.
Qed.

Lemma minimax_cutoff_respects_window_witness :
  exists exact pruned,
    yields float (GomokuAI._minimax_with false 2 O true (PyFloat.of_int 0) (PyFloat.of_int 500))
           (mk_store [four_board] []) exact /\
    yields float (GomokuAI._minimax 2 O true (PyFloat.of_int 0) (PyFloat.of_int 500))
           (mk_store [four_board] []) pruned /\
    within_window (PyFloat.of_int 0) (PyFloat.of_int 500) exact pruned.
Proof.
  apply (minimax_cutoff_respects_window 2 (mk_store [four_board] []) O four_board true
           (PyFloat.of_int 0) (PyFloat.of_int 500)).
  - reflexivity.
  - reflexivity.
  - reflexivity.
  - unfold FloatOrder.lt, key_lt. vm_compute. left. reflexivity.
Defined.

(** X10: the cut-offs change neither the value of [_minimax] started
    with the full window [(-inf, +inf)] nor the move [get_move]
    returns (at a positive depth). *)
Theorem cutoffs_change_no_result
  (self : GomokuAI.t) (depth : nat) (s : Store) (board : ref) (b : Board.t)
  (is_maximizing : bool) :
  holds s board b ->
  (1 <= GomokuAI.max_depth self)%nat ->
  exists v v' r,
    yields float
      (GomokuAI._minimax depth board is_maximizing PyFloat.neg_inf PyFloat.inf) s v /\
    yields float
      (GomokuAI._minimax_with false depth board is_maximizing PyFloat.neg_inf PyFloat.inf)
      s v' /\
    PyFloat.eqb v v' = true /\
    yields (option Move) (GomokuAI.get_move self board) s r /\
    yields (option Move) (GomokuAI.get_move_with false self board) s r.
Proof.
  intros Hb _.
  exists (Pure.minimax true depth b is_maximizing PyFloat.neg_inf PyFloat.inf),
         (Pure.minimax false depth b is_maximizing PyFloat.neg_inf PyFloat.inf),
         (Pure.get_move true self b).
  split; [apply (minimax_yields true); exact Hb|].
  split; [apply minimax_yields; exact Hb|].
  split; [apply minimax_full_window|].
  split; [apply (get_move_yields true); exact Hb|].
  rewrite get_move_prune. apply get_move_yields. exact Hb.
Qed.

Lemma cutoffs_change_no_result_witness :
  exists v v' r,
    yields float (GomokuAI._minimax 2 O false PyFloat.neg_inf PyFloat.inf)
           (mk_store [four_board] []) v /\
    yields float (GomokuAI._minimax_with false 2 O false PyFloat.neg_inf PyFloat.inf)
           (mk_store [four_board] []) v' /\
    PyFloat.eqb v v' = true /\
    yields (option Move) (GomokuAI.get_move (GomokuAI.mk 3) O) (mk_store [four_board] []) r /\
    yields (option Move) (GomokuAI.get_move_with false (GomokuAI.mk 3) O)
           (mk_store [four_board] []) r.
Proof.
  apply (cutoffs_change_no_result (GomokuAI.mk 3) 2 (mk_store [four_board] []) O
           four_board false); [reflexivity|cbn [GomokuAI.max_depth]; lia].
Defined.

(** X11: the engine works on clones and never raises.  A call of
    [get_move] (at a positive depth) returns, every board object that existed before the call
    (the one passed in included) has the contents it had, and no node
    object is touched; the same holds for [_minimax] at every depth,
    whose value moreover is never a NaN when the window bounds are
    numbers. *)
Theorem minimax_engine_preserves_boards
  (self : GomokuAI.t) (depth : nat) (s : Store) (board : ref) (b : Board.t)
  (is_maximizing : bool) (alpha beta : float) :
  holds s board b ->
  (1 <= GomokuAI.max_depth self)%nat ->
  num alpha -> num beta ->
  (exists r s',
     GomokuAI.get_move self board s = (Val r, s') /\
     (forall r0 x, holds s r0 x -> holds s' r0 x) /\ nodes s' = nodes s) /\
  (exists v s',
     GomokuAI._minimax depth board is_maximizing alpha beta s = (Val v, s') /\
     num v /\
     (forall r0 x, holds s r0 x -> holds s' r0 x) /\ nodes s' = nodes s).
Proof.
  intros Hb _ Ha Hbeta. split.
  - destruct (get_move_yields true self s board b Hb) as (s' & Hrun & Hg).
    exists (Pure.get_move true self b), s'. split; [exact Hrun|].
    split; [|exact (proj2 Hg)].
    intros r0 x Hx. exact (holds_grows s s' r0 x Hx Hg).
  - destruct (minimax_yields true depth s board b is_maximizing alpha beta Hb)
      as (s' & Hrun & Hg).
    exists (Pure.minimax true depth b is_maximizing alpha beta), s'.
    split; [exact Hrun|]. split; [apply minimax_num; assumption|].
    split; [|exact (proj2 Hg)].
    intros r0 x Hx. exact (holds_grows s s' r0 x Hx Hg).
Qed.

Lemma minimax_engine_preserves_boards_witness :
  (exists r s',
     GomokuAI.get_move (GomokuAI.mk 2) O (mk_store [four_board] []) = (Val r, s') /\
     (forall r0 x, holds (mk_store [four_board] []) r0 x -> holds s' r0 x) /\
     nodes s' = nodes (mk_store [four_board] [])) /\
  (exists v s',
     GomokuAI._minimax 1 O true (PyFloat.of_int 0) PyFloat.inf (mk_store [four_board] [])
     = (Val v, s') /\
     num v /\
     (forall r0 x, holds (mk_store [four_board] []) r0 x -> holds s' r0 x) /\
     nodes s' = nodes (mk_store [four_board] [])).
Proof.
  apply (minimax_engine_preserves_boards (GomokuAI.mk 2) 1 (mk_store [four_board] []) O
           four_board true (PyFloat.of_int 0) PyFloat.inf);
    [reflexivity|cbn [GomokuAI.max_depth]; lia|reflexivity|reflexivity].
Defined.
(* ================================================================== *)
(** * [Node]: the methods compute the values of [PureNode] *)

Lemma node_evaluate_move_yields (s : Store) (board : ref) (b : Board.t) (move : Move) :
  holds s board b ->
  yields float (Node._evaluate_move board move) s (PureNode.evaluate_move b move).
Proof.
  intros Hb. destruct move as [i j].
  unfold Node._evaluate_move, PureNode.evaluate_move.
  eapply yields_bind; [apply yields_read; exact Hb|]. intros s1 G1.
  apply (yields_clone_then float s1 board b
           (fun r => setitem r (i, j) (Board.current_player b))
           (fun b0 => Board.set b0 i j (Board.current_player b)));
    [eauto with store|reflexivity|].
  intros s2 r G2 Hr.
  eapply yields_bind; [apply yields_read; exact Hr|]. intros s3 G3.
  apply yields_ret.
Qed.

Lemma sort_loop_yields (board : ref) (b : Board.t) (valid_moves : list Move) :
  forall (s : Store) (critical_moves : list Move)
         (high_priority_moves normal_moves : list (float * Move)),
  holds s board b ->
  yields (list Move)
    (Node.sort_loop board (Board.current_player b) valid_moves
                    critical_moves high_priority_moves normal_moves) s
    (PureNode.sort_loop b valid_moves critical_moves high_priority_moves normal_moves).
Proof.
  induction valid_moves as [|move rest IH]; intros s crit high normal Hb;
    cbn [Node.sort_loop PureNode.sort_loop].
  - destruct crit; apply yields_ret.
  - eapply yields_bind; [apply node_is_winning_move_yields; exact Hb|]. intros s1 G1.
    destruct (Pure.is_winning_move b move (Board.current_player b)); [apply yields_ret|].
    eapply yields_bind;
      [apply node_is_winning_move_yields; eauto with store|]. intros s2 G2.
    assert (Hb2 : holds s2 board b) by eauto with store.
    destruct (Pure.is_winning_move b move (- Board.current_player b)); [apply IH; exact Hb2|].
    eapply yields_bind; [apply node_evaluate_move_yields; exact Hb2|]. intros s3 G3.
    assert (Hb3 : holds s3 board b) by eauto with store.
    cbv zeta. destruct (PyFloat.leb _ _); apply IH; exact Hb3.
Qed.

Lemma get_sorted_moves_yields (s : Store) (board : ref) (b : Board.t) :
  holds s board b ->
  yields (list Move) (Node._get_sorted_moves board) s (PureNode.get_sorted_moves b).
Proof.
  intros Hb. unfold Node._get_sorted_moves, PureNode.get_sorted_moves.
  eapply yields_bind; [apply yields_read; exact Hb|]. intros s1 G1. cbv zeta.
  destruct (Board.get_valid_moves b) as [|m0 ms] eqn:E; [apply yields_ret|].
  destruct (Z.of_nat (length (m0 :: ms)) =? Board.size b * Board.size b);
    [apply yields_ret|].
  apply sort_loop_yields. eauto with store.
Qed.

Lemma scan_forced_yields (board_state : ref) (b : Board.t) (moves : list Move) :
  forall (s : Store) (blocking_move : option Move),
  holds s board_state b ->
  yields (option Move * option Move)
    (MCTS.scan_forced board_state moves blocking_move) s
    (PureMCTS.scan_forced b moves blocking_move).
Proof.
  induction moves as [|move rest IH]; intros s blocking Hb;
    cbn [MCTS.scan_forced PureMCTS.scan_forced]; [apply yields_ret|].
  eapply yields_bind; [apply (mcts_is_winning_move_yields s board_state b move false Hb)|].
  intros s1 G1. cbv iota.
  destruct (Pure.is_winning_move b move (Board.current_player b)); [apply yields_ret|].
  assert (Hb1 : holds s1 board_state b) by eauto with store.
  eapply yields_bind; [apply (mcts_is_winning_move_yields s1 board_state b move true Hb1)|].
  intros s2 G2. cbv iota. apply IH. eauto with store.
Qed.

(** [Node(board, parent, move)] appends one node object and returns its
    index. *)
Lemma node_init_runs (s : Store) (board : ref) (b : Board.t)
      (parent : option ref) (move : option Move) :
  holds s board b ->
  exists s',
    Node.__init__ board parent move s = (Val (length (nodes s)), s') /\
    grows_boards s s' /\
    nodes s' = nodes s ++ [PureNode.fresh board b parent move].
Proof.
  intros Hb. destruct (get_sorted_moves_yields s board b Hb) as (s1 & Hrun & G1 & N1).
  unfold Node.__init__, bind. rewrite Hrun. unfold alloc_node.
  rewrite N1. eexists. split; [reflexivity|]. cbn [boards nodes]. split; [exact G1|].
  reflexivity.
Qed.
(* ================================================================== *)
(** * [Node._get_sorted_moves] *)

Lemma sort_loop_win (b : Board.t) (valid_moves : list Move) (m : Move) :
  forall critical_moves high_priority_moves normal_moves,
  find (fun move => Pure.is_winning_move b move (Board.current_player b)) valid_moves
  = Some m ->
  PureNode.sort_loop b valid_moves critical_moves high_priority_moves normal_moves = [m].
Proof.
  induction valid_moves as [|move rest IH]; intros crit high normal;
    cbn [find PureNode.sort_loop]; [discriminate|].
  destruct (Pure.is_winning_move b move (Board.current_player b)).
  - intros [= ->]. reflexivity.
  - intros H. destruct (Pure.is_winning_move b move (- Board.current_player b));
      [apply IH; exact H|].
    cbv zeta. destruct (PyFloat.leb _ _); apply IH; exact H.
Qed.

Lemma sort_loop_no_win (b : Board.t) (valid_moves : list Move) :
  forall critical_moves high_priority_moves normal_moves,
  find (fun move => Pure.is_winning_move b move (Board.current_player b)) valid_moves
  = None ->
  PureNode.sort_loop b valid_moves critical_moves high_priority_moves normal_moves
  = match critical_moves
          ++ filter (fun m => Pure.is_winning_move b m (- Board.current_player b)) valid_moves
    with
    | (_ :: _) as c => c
    | [] =>
        firstn 10
          (map snd (sort_desc scored_ltb
                      (high_priority_moves ++ filter is_high (scored_rest b valid_moves)))
           ++ map snd (sort_desc scored_ltb
                         (normal_moves
                          ++ filter (fun p => negb (is_high p)) (scored_rest b valid_moves))))
    end.
Proof.
  unfold scored_rest.
  induction valid_moves as [|move rest IH]; intros crit high normal;
    cbn [find PureNode.sort_loop filter map].
  - intros _. rewrite !app_nil_r. destruct crit; reflexivity.
  - destruct (Pure.is_winning_move b move (Board.current_player b)); [discriminate|].
    intros H.
    destruct (Pure.is_winning_move b move (- Board.current_player b)); cbn [negb].
    + rewrite (IH _ _ _ H), <- app_assoc. reflexivity.
    + cbv zeta. cbn [filter map].
      change (PyFloat.leb (PyFloat.of_int 5000) (PureNode.evaluate_move b move))
        with (is_high (PureNode.evaluate_move b move, move)).
      destruct (is_high (PureNode.evaluate_move b move, move));
        cbn [negb]; rewrite (IH _ _ _ H), <- ?app_assoc; reflexivity.
Qed.

Lemma filter_partition_perm (A : Type) (f : A -> bool) (l : list A) :
  Permutation (filter f l ++ filter (fun x => negb (f x)) l) l.
Proof.
  induction l as [|a l IH]; cbn [filter]; [constructor|].
  destruct (f a); cbn [negb app].
  - apply perm_skip. exact IH.
  - rewrite <- Permutation_middle. apply perm_skip. exact IH.
Qed.

(** Without winning and without critical moves, the ranked list is a
    rearrangement of the valid moves. *)
Lemma ranked_rest_perm (b : Board.t) (valid_moves : list Move) :
  filter (fun m => Pure.is_winning_move b m (- Board.current_player b)) valid_moves = [] ->
  Permutation
    (map snd (sort_desc scored_ltb (filter is_high (scored_rest b valid_moves)))
     ++ map snd (sort_desc scored_ltb
                   (filter (fun p => negb (is_high p)) (scored_rest b valid_moves))))
    valid_moves.
Proof.
  intros Hnone.
  rewrite <- !sort_desc_perm, <- map_app, filter_partition_perm.
  unfold scored_rest. rewrite map_map. cbn [snd]. rewrite map_id.
  pose proof (filter_partition_perm Move
                (fun m => Pure.is_winning_move b m (- Board.current_player b)) valid_moves)
    as Hp.
  rewrite Hnone in Hp. exact Hp.
Qed.

Lemma valid_moves_In (b : Board.t) (m : Move) :
  In m (Board.get_valid_moves b) <->
  Board.in_range b (fst m) (snd m) = true /\ Board.get b (fst m) (snd m) = 0.
Proof.
  unfold Board.get_valid_moves. rewrite filter_In, cells_In, Z.eqb_eq. reflexivity.
Qed.

Lemma valid_moves_NoDup (b : Board.t) : NoDup (Board.get_valid_moves b).
Proof. apply NoDup_filter, cells_NoDup. Qed.

Lemma filter_sublist_NoDup (A : Type) (f : A -> bool) (l : list A) :
  NoDup l -> NoDup (filter f l).
Proof. apply NoDup_filter. Qed.

(** What [_get_sorted_moves] returns, case by case. *)
Lemma pure_get_sorted_moves_cases (b : Board.t) :
  let valid := Board.get_valid_moves b in
  let wins := fun m => Pure.is_winning_move b m (Board.current_player b) in
  let blocks := fun m => Pure.is_winning_move b m (- Board.current_player b) in
  PureNode.get_sorted_moves b =
  match valid with
  | [] => []
  | _ :: _ =>
      if Z.of_nat (length valid) =? Board.size b * Board.size b
      then [(Board.size b / 2, Board.size b / 2)]
      else match find wins valid with
           | Some m => [m]
           | None =>
               match filter blocks valid with
               | (_ :: _) as c => c
               | [] => PureNode.get_sorted_moves b
               end
           end
  end.
Proof.
  cbv zeta. unfold PureNode.get_sorted_moves.
  destruct (Board.get_valid_moves b) as [|m0 ms] eqn:E; [reflexivity|].
  destruct (Z.of_nat (length (m0 :: ms)) =? Board.size b * Board.size b); [reflexivity|].
  destruct (find (fun m => Pure.is_winning_move b m (Board.current_player b)) (m0 :: ms))
    as [m|] eqn:Ef.
  - apply sort_loop_win. exact Ef.
  - rewrite (sort_loop_no_win b (m0 :: ms) [] [] [] Ef). cbn [app].
    destruct (filter (fun m => Pure.is_winning_move b m (- Board.current_player b))
                     (m0 :: ms)); reflexivity.
Qed.

Lemma pure_get_sorted_moves_incl (b : Board.t) (m : Move) :
  0 < Board.size b ->
  In m (PureNode.get_sorted_moves b) ->
  Board.in_range b (fst m) (snd m) = true /\ Board.get b (fst m) (snd m) = 0.
Proof.
  intros Hs. unfold PureNode.get_sorted_moves.
  destruct (Board.get_valid_moves b) as [|m0 ms] eqn:E; [intros []|].
  destruct (Z.eqb_spec (Z.of_nat (length (m0 :: ms))) (Board.size b * Board.size b))
    as [Hn|Hn].
  - intros [<-|[]]. cbn [fst snd]. split; [apply centre_in_range; exact Hs|].
    apply (all_empty_when_full_count b (Board.size b / 2, Board.size b / 2));
      [lia|rewrite E; exact Hn|apply centre_in_range; exact Hs].
  - rewrite <- E. intros Hin. apply valid_moves_In.
    destruct (find (fun m => Pure.is_winning_move b m (Board.current_player b))
                   (Board.get_valid_moves b)) as [w|] eqn:Ef.
    + rewrite (sort_loop_win b _ w [] [] [] Ef) in Hin. destruct Hin as [<-|[]].
      apply find_some in Ef. exact (proj1 Ef).
    + rewrite (sort_loop_no_win b _ [] [] [] Ef) in Hin. cbn [app] in Hin.
      destruct (filter (fun m => Pure.is_winning_move b m (- Board.current_player b))
                       (Board.get_valid_moves b)) as [|c cs] eqn:Ec.
      * apply firstn_In in Hin.
        apply (Permutation_in m (ranked_rest_perm b _ Ec)). exact Hin.
      * rewrite <- Ec in Hin. apply filter_In in Hin. exact (proj1 Hin).
Qed.

Lemma pure_get_sorted_moves_NoDup (b : Board.t) : NoDup (PureNode.get_sorted_moves b).
Proof.
  unfold PureNode.get_sorted_moves.
  destruct (Board.get_valid_moves b) as [|m0 ms] eqn:E; [constructor|].
  destruct (Z.of_nat (length (m0 :: ms)) =? Board.size b * Board.size b).
  - constructor; [intros []|constructor].
  - rewrite <- E.
    destruct (find (fun m => Pure.is_winning_move b m (Board.current_player b))
                   (Board.get_valid_moves b)) as [w|] eqn:Ef.
    + rewrite (sort_loop_win b _ w [] [] [] Ef). constructor; [intros []|constructor].
    + rewrite (sort_loop_no_win b _ [] [] [] Ef). cbn [app].
      destruct (filter (fun m => Pure.is_winning_move b m (- Board.current_player b))
                       (Board.get_valid_moves b)) as [|c cs] eqn:Ec.
      * apply firstn_NoDup.
        apply (Permutation_NoDup (Permutation_sym (ranked_rest_perm b _ Ec))).
        apply valid_moves_NoDup.
      * rewrite <- Ec. apply NoDup_filter, valid_moves_NoDup.
Qed.

Lemma completes_five_stone (b : Board.t) (w : Move) (player : Z) :
  completes_five b w player ->
  exists i j, Board.in_range b i j = true /\ Board.get b i j = player.
Proof.
  intros (d & k & Hd & Hk & Hwin).
  destruct (Hwin (if k =? 0 then 1 else 0)) as [Hr Hg];
    [destruct (k =? 0); lia|destruct (Z.eqb_spec k 0); lia|].
  eauto.
Qed.

Lemma completes_five_not_blank (b : Board.t) (w : Move) (player : Z) :
  player <> 0 ->
  completes_five b w player ->
  0 < Board.size b /\
  Z.of_nat (length (Board.get_valid_moves b)) <> Board.size b * Board.size b.
Proof.
  intros Hp H5. destruct (completes_five_stone b w player H5) as (i & j & Hin & Hg).
  assert (Hs : 0 < Board.size b) by (apply in_range_bounds in Hin; lia).
  split; [exact Hs|]. intros Hn.
  pose proof (all_empty_when_full_count b (i, j) ltac:(lia) Hn Hin) as He.
  cbn [fst snd] in He. congruence.
Qed.

Lemma wins_iff_on_valid (b : Board.t) (player : Z) (m : Move) :
  In m (Board.get_valid_moves b) ->
  Pure.is_winning_move b m player = true <-> completes_five b m player.
Proof.
  intros Hm. apply is_winning_move_completes_five.
  apply valid_moves_In in Hm. exact (proj1 Hm).
Qed.

Lemma pure_get_sorted_moves_forced (b : Board.t) :
  Board.current_player b <> 0 ->
  let valid := Board.get_valid_moves b in
  let me := Board.current_player b in
  ((exists w, In w valid /\ completes_five b w me) ->
   exists m, PureNode.get_sorted_moves b = [m] /\
             first_such Move (fun x => completes_five b x me) valid m) /\
  ((forall w, In w valid -> ~ completes_five b w me) ->
   (exists w, In w valid /\ completes_five b w (- me)) ->
   PureNode.get_sorted_moves b
   = filter (fun m => Pure.is_winning_move b m (- me)) valid) /\
  ((forall w, In w valid -> ~ completes_five b w me /\ ~ completes_five b w (- me)) ->
   (length (PureNode.get_sorted_moves b) <= 10)%nat).
Proof.
  intros Hp. cbv zeta.
  pose proof (find_first_such b (Board.current_player b) (Board.get_valid_moves b)
                (fun m Hm => proj1 (proj1 (valid_moves_In b m) Hm))) as Hf.
  pose proof (pure_get_sorted_moves_cases b) as Hc. cbv zeta in Hc.
  split; [|split].
  - intros (w & Hw & H5).
    destruct (completes_five_not_blank b w _ Hp H5) as [Hs Hn].
    apply Z.eqb_neq in Hn. rewrite Hn in Hc.
    destruct (Board.get_valid_moves b) as [|m0 ms] eqn:E; [destruct Hw|].
    destruct (find (fun m => Pure.is_winning_move b m (Board.current_player b)) (m0 :: ms))
      as [m|].
    + exists m. split; [exact Hc|exact Hf].
    + exfalso. exact (Hf w Hw H5).
  - intros Hnone (w & Hw & H5).
    assert (Hp' : - Board.current_player b <> 0) by lia.
    destruct (completes_five_not_blank b w _ Hp' H5) as [Hs Hn].
    apply Z.eqb_neq in Hn. rewrite Hn in Hc.
    assert (Hblock : In w (filter (fun m => Pure.is_winning_move b m (- Board.current_player b))
                                  (Board.get_valid_moves b))).
    { apply filter_In. split; [exact Hw|]. apply wins_iff_on_valid; assumption. }
    destruct (Board.get_valid_moves b) as [|m0 ms] eqn:E; [destruct Hw|].
    destruct (find (fun m => Pure.is_winning_move b m (Board.current_player b)) (m0 :: ms))
      as [m|].
    + exfalso. destruct Hf as (pre & post & Hl & Hm & _).
      apply (Hnone m); [rewrite Hl; apply in_or_app; right; left; reflexivity|exact Hm].
    + destruct (filter (fun m => Pure.is_winning_move b m (- Board.current_player b))
                       (m0 :: ms)) as [|c cs]; [destruct Hblock|exact Hc].
  - intros Hnone. unfold PureNode.get_sorted_moves.
    destruct (Board.get_valid_moves b) as [|m0 ms] eqn:E; [cbn; lia|].
    destruct (Z.of_nat (length (m0 :: ms)) =? Board.size b * Board.size b); [cbn; lia|].
    destruct (find (fun m => Pure.is_winning_move b m (Board.current_player b)) (m0 :: ms))
      as [m|] eqn:Ef.
    + rewrite (sort_loop_win b _ m [] [] [] Ef). cbn; lia.
    + rewrite (sort_loop_no_win b _ [] [] [] Ef). cbn [app].
      destruct (filter (fun m => Pure.is_winning_move b m (- Board.current_player b))
                       (m0 :: ms)) as [|c cs] eqn:Ec.
      * rewrite length_firstn. lia.
      * exfalso. assert (Hc' : In c (c :: cs)) by (left; reflexivity).
        rewrite <- Ec in Hc'. apply filter_In in Hc'. destruct Hc' as [Hin Hw].
        rewrite <- E in Hin.
        apply (wins_iff_on_valid b _ c Hin) in Hw.
        rewrite <- E in Hnone. exact (proj2 (Hnone c Hin) Hw).
Qed.

Lemma pure_get_sorted_moves_nil (b : Board.t) :
  PureNode.get_sorted_moves b = [] <-> full b.
Proof.
  rewrite full_iff. split.
  - intros H. unfold PureNode.get_sorted_moves in H.
    destruct (Board.get_valid_moves b) as [|m0 ms] eqn:E; [reflexivity|]. exfalso.
    destruct (Z.of_nat (length (m0 :: ms)) =? Board.size b * Board.size b); [discriminate|].
    destruct (find (fun m => Pure.is_winning_move b m (Board.current_player b)) (m0 :: ms))
      as [m|] eqn:Ef.
    + rewrite (sort_loop_win b _ m [] [] [] Ef) in H. discriminate.
    + rewrite (sort_loop_no_win b _ [] [] [] Ef) in H. cbn [app] in H.
      destruct (filter (fun m => Pure.is_winning_move b m (- Board.current_player b))
                       (m0 :: ms)) as [|c cs] eqn:Ec; [|discriminate].
      pose proof (ranked_rest_perm b (m0 :: ms) Ec) as Hperm.
      destruct (map snd (sort_desc scored_ltb (filter is_high (scored_rest b (m0 :: ms))))
                ++ map snd (sort_desc scored_ltb
                              (filter (fun p => negb (is_high p))
                                      (scored_rest b (m0 :: ms))))) as [|x l].
      * apply Permutation_nil in Hperm. discriminate.
      * cbn [firstn] in H. discriminate.
  - intros H. unfold PureNode.get_sorted_moves. rewrite H. reflexivity.
Qed.

(** X12: the move list a node is created with.  [_get_sorted_moves]
    returns empty cells of the board, without repetition, and returns
    the empty list exactly on a board without an empty cell.  If some
    empty cell completes five for the player to move, the list is that
    single cell (the first one in the order of [board.get_valid_moves]);
    otherwise, if some empty cells would complete five for the opponent,
    the list consists of all of them, however many; and if no empty cell
    does either, the list has at most 10 moves. *)
Theorem get_sorted_moves_forced_first (s : Store) (board : ref) (b : Board.t) :
  holds s board b ->
  0 < Board.size b ->
  Board.current_player b <> 0 ->
  exists moves,
    yields (list Move) (Node._get_sorted_moves board) s moves /\
    NoDup moves /\
    (forall m, In m moves ->
               Board.in_range b (fst m) (snd m) = true /\ Board.get b (fst m) (snd m) = 0) /\
    (moves = [] <-> full b) /\
    ((exists w, In w (Board.get_valid_moves b) /\
                completes_five b w (Board.current_player b)) ->
     exists m, moves = [m] /\
               first_such Move (fun x => completes_five b x (Board.current_player b))
                          (Board.get_valid_moves b) m) /\
    ((forall w, In w (Board.get_valid_moves b) ->
                ~ completes_five b w (Board.current_player b)) ->
     (exists w, In w (Board.get_valid_moves b) /\
                completes_five b w (- Board.current_player b)) ->
     exists blocks,
       (forall m, In m (Board.get_valid_moves b) ->
                  (blocks m = true <-> completes_five b m (- Board.current_player b))) /\
       moves = filter blocks (Board.get_valid_moves b)) /\
    ((forall w, In w (Board.get_valid_moves b) ->
                ~ completes_five b w (Board.current_player b) /\
                ~ completes_five b w (- Board.current_player b)) ->
     (length moves <= 10)%nat).
Proof.
  intros Hb Hs Hp. exists (PureNode.get_sorted_moves b).
  split; [apply get_sorted_moves_yields; exact Hb|].
  split; [apply pure_get_sorted_moves_NoDup|].
  split; [intros m; apply pure_get_sorted_moves_incl; exact Hs|].
  split; [apply pure_get_sorted_moves_nil|].
  destruct (pure_get_sorted_moves_forced b Hp) as (Hwin & Hblock & Hrest).
  split; [exact Hwin|]. split; [|exact Hrest].
  intros Hnone Hsome.
  exists (fun m => Pure.is_winning_move b m (- Board.current_player b)).
  split; [intros m Hm; apply wins_iff_on_valid; exact Hm|].
  apply Hblock; assumption.
Qed.

Lemma get_sorted_moves_forced_first_witness :
  exists moves,
    yields (list Move) (Node._get_sorted_moves O) (mk_store [four_board] []) moves /\
    NoDup moves /\
    (forall m, In m moves ->
               Board.in_range four_board (fst m) (snd m) = true /\
               Board.get four_board (fst m) (snd m) = 0) /\
    (moves = [] <-> full four_board) /\
    ((exists w, In w (Board.get_valid_moves four_board) /\
                completes_five four_board w (Board.current_player four_board)) ->
     exists m, moves = [m] /\
               first_such Move
                 (fun x => completes_five four_board x (Board.current_player four_board))
                 (Board.get_valid_moves four_board) m) /\
    ((forall w, In w (Board.get_valid_moves four_board) ->
                ~ completes_five four_board w (Board.current_player four_board)) ->
     (exists w, In w (Board.get_valid_moves four_board) /\
                completes_five four_board w (- Board.current_player four_board)) ->
     exists blocks,
       (forall m, In m (Board.get_valid_moves four_board) ->
                  (blocks m = true <->
                   completes_five four_board m (- Board.current_player four_board))) /\
       moves = filter blocks (Board.get_valid_moves four_board)) /\
    ((forall w, In w (Board.get_valid_moves four_board) ->
                ~ completes_five four_board w (Board.current_player four_board) /\
                ~ completes_five four_board w (- Board.current_player four_board)) ->
     (length moves <= 10)%nat).
Proof.
  apply (get_sorted_moves_forced_first (mk_store [four_board] []) O four_board);
    [reflexivity|reflexivity|discriminate].
Defined.
(* ================================================================== *)
(** * [MCTS.get_move]: the forced moves at the root *)

Lemma forced_yields (s : Store) (board : ref) (b : Board.t) (move : Move) :
  holds s board b ->
  yields bool
    (win <- Node._is_winning_move board move (Board.current_player b) ;;
     if win then ret true
     else Node._is_winning_move board move (- Board.current_player b)) s
    (PureMCTS.forced b move).
Proof.
  intros Hb. unfold PureMCTS.forced.
  eapply yields_bind; [apply node_is_winning_move_yields; exact Hb|]. intros s1 G1.
  destruct (Pure.is_winning_move b move (Board.current_player b)); [apply yields_ret|].
  apply node_is_winning_move_yields. eauto with store.
Qed.

Lemma bind_val (A B : Type) (c : M A) (k : A -> M B) (s : Store) (a : A) (s' : Store) :
  c s = (Val a, s') -> bind c k s = k a s'.
Proof. intros H. unfold bind. rewrite H. reflexivity. Qed.

Lemma bind_exn (A B : Type) (c : M A) (k : A -> M B) (s : Store) (e : exn) (s' : Store) :
  c s = (Exn e, s') -> bind c k s = (Exn e, s').
Proof. intros H. unfold bind. rewrite H. reflexivity. Qed.

Lemma nth_length_app (A : Type) (l : list A) (x d : A) : nth (length l) (l ++ [x]) d = x.
Proof. apply nth_middle. Qed.

(** [get_move] creates the root, scans its move list for a forced move
    and otherwise hands over to the search. *)
Lemma mcts_get_move_runs (math_log : float -> float) (self : MCTS.t) (clock : list float)
      (s : Store) (board : ref) (b : Board.t) :
  holds s board b ->
  exists s1,
    grows_boards s s1 /\
    nodes s1 = nodes s ++ [PureNode.fresh board b None None] /\
    MCTS.get_move math_log self clock board s
    = match find (PureMCTS.forced b) (PureNode.get_sorted_moves b) with
      | Some move => (Val (MCTS.Returned (Some move)), s1)
      | None => MCTS.search math_log self clock (length (nodes s)) s1
      end.
Proof.
  intros Hb.
  destruct (node_init_runs s board b None None Hb) as (s0 & Hinit & G0 & N0).
  assert (Hb0 : holds s0 board b) by (eapply holds_grows_boards; eauto).
  destruct (yields_findM Move
              (fun move =>
                 win <- Node._is_winning_move board move (Board.current_player b) ;;
                 if win then ret true
                 else Node._is_winning_move board move (- Board.current_player b))
              (PureMCTS.forced b) (PureNode.get_sorted_moves b) s0)
    as (s1 & Hfind & G1 & N1).
  { intros x s' G. apply forced_yields. eauto with store. }
  exists s1. split; [eapply grows_boards_trans; eauto|]. split; [congruence|].
  unfold MCTS.get_move.
  rewrite (bind_val _ _ (read board) _ s b s)
    by (unfold read; rewrite (holds_deref s board b Hb); reflexivity).
  rewrite (bind_val _ _ _ _ s _ s0 Hinit).
  rewrite (bind_val _ _ (get_node (length (nodes s))) _ s0
             (PureNode.fresh board b None None) s0)
    by (unfold get_node; rewrite N0, nth_length_app; reflexivity).
  cbn [untried_moves PureNode.fresh].
  rewrite (bind_val _ _ _ _ s0 _ s1 Hfind).
  destruct (find (PureMCTS.forced b) (PureNode.get_sorted_moves b)); reflexivity.
Qed.

Lemma filter_head_find (A : Type) (f : A -> bool) (l : list A) (c : A) (cs : list A) :
  filter f l = c :: cs -> find f l = Some c.
Proof.
  induction l as [|a l IH]; cbn [filter find]; [discriminate|].
  destruct (f a); [intros [= -> _]; reflexivity|exact IH].
Qed.

Lemma pure_root_forced (b : Board.t) :
  Board.current_player b <> 0 ->
  let valid := Board.get_valid_moves b in
  let me := Board.current_player b in
  ((exists w, In w valid /\ completes_five b w me) ->
   exists m, find (PureMCTS.forced b) (PureNode.get_sorted_moves b) = Some m /\
             first_such Move (fun x => completes_five b x me) valid m) /\
  ((forall w, In w valid -> ~ completes_five b w me) ->
   (exists w, In w valid /\ completes_five b w (- me)) ->
   exists m, find (PureMCTS.forced b) (PureNode.get_sorted_moves b) = Some m /\
             first_such Move (fun x => completes_five b x (- me)) valid m) /\
  ((forall w, In w valid -> ~ completes_five b w me /\ ~ completes_five b w (- me)) ->
   0 < Board.size b ->
   find (PureMCTS.forced b) (PureNode.get_sorted_moves b) = None).
Proof.
  intros Hp. cbv zeta.
  destruct (pure_get_sorted_moves_forced b Hp) as (Hwin & Hblock & _).
  split; [|split].
  - intros Hsome. destruct (Hwin Hsome) as (m & Hm & Hfirst). exists m.
    split; [|exact Hfirst]. rewrite Hm. cbn [find]. unfold PureMCTS.forced.
    destruct Hfirst as (pre & post & Hl & H5 & _).
    assert (Hin : In m (Board.get_valid_moves b))
      by (rewrite Hl; apply in_or_app; right; left; reflexivity).
    apply (wins_iff_on_valid b _ m Hin) in H5. rewrite H5. reflexivity.
  - intros Hnone Hsome. rewrite (Hblock Hnone Hsome).
    destruct Hsome as (w & Hw & H5).
    pose proof (find_first_such b (- Board.current_player b) (Board.get_valid_moves b)
                  (fun m Hm => proj1 (proj1 (valid_moves_In b m) Hm))) as Hf.
    destruct (filter (fun m => Pure.is_winning_move b m (- Board.current_player b))
                     (Board.get_valid_moves b)) as [|c cs] eqn:Ec.
    + exfalso.
      assert (Hin : In w (filter (fun m => Pure.is_winning_move b m (- Board.current_player b))
                                 (Board.get_valid_moves b))).
      { apply filter_In. split; [exact Hw|]. apply wins_iff_on_valid; assumption. }
      rewrite Ec in Hin. destruct Hin.
    + rewrite (filter_head_find _ _ _ _ _ Ec) in Hf. exists c. split; [|exact Hf].
      cbn [find]. unfold PureMCTS.forced.
      destruct Hf as (pre & post & Hl & Hc5 & _).
      assert (Hin : In c (Board.get_valid_moves b))
        by (rewrite Hl; apply in_or_app; right; left; reflexivity).
      apply (wins_iff_on_valid b _ c Hin) in Hc5. rewrite Hc5.
      destruct (Pure.is_winning_move b c (Board.current_player b)); reflexivity.
  - intros Hnone Hs.
    destruct (find (PureMCTS.forced b) (PureNode.get_sorted_moves b)) as [m|] eqn:Ef;
      [|reflexivity].
    exfalso. apply find_some in Ef. destruct Ef as [Hin Hforced].
    apply (pure_get_sorted_moves_incl b m Hs) in Hin. apply valid_moves_In in Hin.
    unfold PureMCTS.forced in Hforced.
    destruct (Pure.is_winning_move b m (Board.current_player b)) eqn:E1.
    + apply (wins_iff_on_valid b _ m Hin) in E1. exact (proj1 (Hnone m Hin) E1).
    + apply (wins_iff_on_valid b _ m Hin) in Hforced. exact (proj2 (Hnone m Hin) Hforced).
Qed.

(** X13: the forced moves of [MCTS.get_move].  If some empty cell
    completes five in a row for the player to move, [get_move] returns
    the first such cell in the order of [board.get_valid_moves]; if none
    does but some empty cell would complete five for the opponent, it
    returns the first of those.  In both cases it returns before the
    clock is read: for every time limit and every sequence of clock
    readings, without any simulation, leaving the boards that existed
    as they were. *)
Theorem mcts_get_move_wins_then_blocks
  (math_log : float -> float) (self : MCTS.t) (clock : list float)
  (s : Store) (board : ref) (b : Board.t) :
  holds s board b ->
  Board.current_player b <> 0 ->
  ((exists w, In w (Board.get_valid_moves b) /\
              completes_five b w (Board.current_player b)) ->
   exists m s',
     MCTS.get_move math_log self clock board s = (Val (MCTS.Returned (Some m)), s') /\
     first_such Move (fun x => completes_five b x (Board.current_player b))
                (Board.get_valid_moves b) m /\
     (forall r0 x, holds s r0 x -> holds s' r0 x)) /\
  ((forall w, In w (Board.get_valid_moves b) ->
              ~ completes_five b w (Board.current_player b)) ->
   (exists w, In w (Board.get_valid_moves b) /\
              completes_five b w (- Board.current_player b)) ->
   exists m s',
     MCTS.get_move math_log self clock board s = (Val (MCTS.Returned (Some m)), s') /\
     first_such Move (fun x => completes_five b x (- Board.current_player b))
                (Board.get_valid_moves b) m /\
     (forall r0 x, holds s r0 x -> holds s' r0 x)).
Proof.
  intros Hb Hp.
  destruct (mcts_get_move_runs math_log self clock s board b Hb) as (s1 & G1 & N1 & Hrun).
  destruct (pure_root_forced b Hp) as (Hwin & Hblock & _).
  split.
  - intros Hsome. destruct (Hwin Hsome) as (m & Hfind & Hfirst).
    rewrite Hfind in Hrun. exists m, s1. split; [exact Hrun|]. split; [exact Hfirst|].
    intros r0 x Hx. eapply holds_grows_boards; eauto.
  - intros Hnone Hsome. destruct (Hblock Hnone Hsome) as (m & Hfind & Hfirst).
    rewrite Hfind in Hrun. exists m, s1. split; [exact Hrun|]. split; [exact Hfirst|].
    intros r0 x Hx. eapply holds_grows_boards; eauto.
Qed.

Lemma mcts_get_move_wins_then_blocks_witness :
  ((exists w, In w (Board.get_valid_moves four_board) /\
              completes_five four_board w (Board.current_player four_board)) ->
   exists m s',
     MCTS.get_move no_log default_mcts [] O (mk_store [four_board] [])
     = (Val (MCTS.Returned (Some m)), s') /\
     first_such Move (fun x => completes_five four_board x (Board.current_player four_board))
                (Board.get_valid_moves four_board) m /\
     (forall r0 x, holds (mk_store [four_board] []) r0 x -> holds s' r0 x)) /\
  ((forall w, In w (Board.get_valid_moves four_board) ->
              ~ completes_five four_board w (Board.current_player four_board)) ->
   (exists w, In w (Board.get_valid_moves four_board) /\
              completes_five four_board w (- Board.current_player four_board)) ->
   exists m s',
     MCTS.get_move no_log default_mcts [] O (mk_store [four_board] [])
     = (Val (MCTS.Returned (Some m)), s') /\
     first_such Move
       (fun x => completes_five four_board x (- Board.current_player four_board))
       (Board.get_valid_moves four_board) m /\
     (forall r0 x, holds (mk_store [four_board] []) r0 x -> holds s' r0 x)).
Proof.
  apply (mcts_get_move_wins_then_blocks no_log default_mcts [] (mk_store [four_board] []) O
           four_board); [reflexivity|discriminate].
Defined.
(* ================================================================== *)
(** * [MCTS.get_move] when the root cannot grow a child *)

Lemma search_out_of_time (math_log : float -> float) (self : MCTS.t)
      (now t1 : float) (rest : list float) (root : ref) (s : Store) :
  PyFloat.ltb t1 (PyFloat.add now (MCTS.time_limit self)) = false ->
  children (node_at s root) = [] ->
  MCTS.search math_log self (now :: t1 :: rest) root s = (Exn IndexError, s).
Proof.
  intros Ht Hc. unfold MCTS.search. cbn [MCTS.search_loop]. rewrite Ht.
  rewrite (bind_val _ _ (ret true) _ s true s eq_refl).
  rewrite (bind_exn _ _ _ _ s IndexError s (most_visited_empty s root Hc)).
  reflexivity.
Qed.

Lemma node_at_fresh (s s1 : Store) (nd : node) :
  nodes s1 = nodes s ++ [nd] -> node_at s1 (length (nodes s)) = nd.
Proof. intros H. unfold node_at. rewrite H. apply nth_length_app. Qed.

(** X14: a search that gets no time fails.  When no empty cell is a
    forced move and the first test [time.time() < end_time] of the loop
    already fails (as it does for a time limit of zero), the root has no
    child and the last line of [get_move] raises [IndexError] instead of
    returning a move. *)
Theorem mcts_get_move_without_time_raises
  (math_log : float -> float) (self : MCTS.t) (now t1 : float) (rest : list float)
  (s : Store) (board : ref) (b : Board.t) :
  holds s board b ->
  0 < Board.size b ->
  Board.current_player b <> 0 ->
  (forall w, In w (Board.get_valid_moves b) ->
             ~ completes_five b w (Board.current_player b) /\
             ~ completes_five b w (- Board.current_player b)) ->
  PyFloat.ltb t1 (PyFloat.add now (MCTS.time_limit self)) = false ->
  exists s',
    MCTS.get_move math_log self (now :: t1 :: rest) board s = (Exn IndexError, s') /\
    (forall r0 x, holds s r0 x -> holds s' r0 x).
Proof.
  intros Hb Hs Hp Hnone Ht.
  destruct (mcts_get_move_runs math_log self (now :: t1 :: rest) s board b Hb)
    as (s1 & G1 & N1 & Hrun).
  destruct (pure_root_forced b Hp) as (_ & _ & Hrest).
  rewrite (Hrest Hnone Hs) in Hrun.
  exists s1. split.
  - rewrite Hrun. apply search_out_of_time; [exact Ht|].
    rewrite (node_at_fresh s s1 _ N1). reflexivity.
  - intros r0 x Hx. eapply holds_grows_boards; eauto.
Qed.

Lemma quiet_board_has_no_forced_move (w : Move) :
  In w (Board.get_valid_moves quiet_board) ->
  ~ completes_five quiet_board w (Board.current_player quiet_board) /\
  ~ completes_five quiet_board w (- Board.current_player quiet_board).
Proof.
  intros Hw.
  assert (H : forallb (fun m => negb (PureMCTS.forced quiet_board m))
                      (Board.get_valid_moves quiet_board) = true)
    by (vm_compute; reflexivity).
  rewrite forallb_forall in H. specialize (H w Hw).
  apply negb_true_iff in H. unfold PureMCTS.forced in H.
  destruct (Pure.is_winning_move quiet_board w (Board.current_player quiet_board)) eqn:E1;
    [discriminate|].
  split; intros H5; apply (wins_iff_on_valid quiet_board _ w Hw) in H5; congruence.
Qed.

Lemma mcts_get_move_without_time_raises_witness :
  exists s',
    MCTS.get_move no_log hasty_mcts [PyFloat.of_int 10; PyFloat.of_int 10] O
                  (mk_store [quiet_board] [])
    = (Exn IndexError, s') /\
    (forall r0 x, holds (mk_store [quiet_board] []) r0 x -> holds s' r0 x).
Proof.
  apply (mcts_get_move_without_time_raises no_log hasty_mcts
           (PyFloat.of_int 10) (PyFloat.of_int 10) [] (mk_store [quiet_board] []) O
           quiet_board).
  - reflexivity.
  - reflexivity.
  - discriminate.
  - exact quiet_board_has_no_forced_move.
  - vm_compute. reflexivity.
Defined.

(** ** A board without an empty cell *)

Lemma update_node_at (s : Store) (n m : ref) (f : node -> node) :
  (n < length (nodes s))%nat ->
  node_at (mk_store (boards s) (update n f (nodes s))) m
  = if Nat.eqb n m then f (node_at s n) else node_at s m.
Proof.
  intros Hn. unfold node_at. cbn [nodes].
  destruct (Nat.eqb_spec n m) as [->|Hne].
  - apply nth_update_eq. exact Hn.
  - apply nth_update_neq. exact Hne.
Qed.

Lemma node_update_runs (s : Store) (n : ref) (result : float) :
  Node.update n result s
  = (Val tt, mk_store (boards s) (update n (visited result) (nodes s))).
Proof.
  unfold Node.update, bind, set_node. cbn [boards nodes]. f_equal. f_equal.
  clear. generalize (nodes s) as l. intros l. revert n.
  induction l as [|x l IH]; intros [|n]; cbn [update]; try reflexivity.
  rewrite IH. reflexivity.
Qed.

(** One round of the loop on a root that has neither untried moves nor
    children, over a finished game: nothing is expanded, the rollout is
    empty, and the root alone is updated. *)
Lemma iteration_barren (math_log : float -> float) (s : Store) (root : ref) (b : Board.t) :
  (root < length (nodes s))%nat ->
  untried_moves (node_at s root) = [] ->
  children (node_at s root) = [] ->
  parent (node_at s root) = None ->
  holds s (board (node_at s root)) b ->
  Board.is_game_over b = true ->
  exists s',
    MCTS.iteration math_log root s = (Val tt, s') /\
    grows_boards s s' /\
    length (nodes s') = length (nodes s) /\
    untried_moves (node_at s' root) = [] /\
    children (node_at s' root) = [] /\
    parent (node_at s' root) = None /\
    board (node_at s' root) = board (node_at s root).
Proof.
  intros Hr Hu Hc Hp Hb Hover.
  set (s1 := mk_store (boards s ++ [b]) (nodes s)).
  set (rw := MCTS.reward (Board.check_win b) (Board.current_player b)).
  exists (mk_store (boards s1) (update root (visited rw) (nodes s1))).
  assert (Hsel : MCTS.select math_log (length (nodes s)) root s = (Val root, s)).
  { destruct (length (nodes s)) as [|k]; [reflexivity|]. cbn [MCTS.select].
    rewrite (bind_val _ _ (get_node root) _ s (node_at s root) s eq_refl).
    rewrite Hu, Hc. reflexivity. }
  assert (Hnew : deref s1 (length (boards s)) = b).
  { unfold deref, s1. cbn [boards]. apply nth_length_app. }
  split.
  - unfold MCTS.iteration.
    rewrite (bind_val _ _ node_count _ s (length (nodes s)) s eq_refl).
    rewrite (bind_val _ _ _ _ s root s Hsel).
    rewrite (bind_val _ _ (get_node root) _ s (node_at s root) s eq_refl).
    rewrite Hu.
    rewrite (bind_val _ _ (ret root) _ s root s eq_refl).
    rewrite (bind_val _ _ (get_node root) _ s (node_at s root) s eq_refl).
    rewrite (bind_val _ _ (copy (board (node_at s root))) _ s (length (boards s)) s1)
      by (unfold copy, s1; rewrite (holds_deref s _ b Hb); reflexivity).
    rewrite (bind_val _ _ (read (length (boards s))) _ s1 b s1)
      by (unfold read; rewrite Hnew; reflexivity).
    cbv zeta.
    rewrite (bind_val _ _ (MCTS.rollout _ _) _ s1 tt s1).
    2:{ cbn [MCTS.rollout].
        rewrite (bind_val _ _ (read (length (boards s))) _ s1 b s1)
          by (unfold read; rewrite Hnew; reflexivity).
        rewrite Hover. reflexivity. }
    rewrite (bind_val _ _ (read (length (boards s))) _ s1 b s1)
      by (unfold read; rewrite Hnew; reflexivity).
    cbv zeta.
    rewrite (bind_val _ _ node_count _ s1 (length (nodes s)) s1 eq_refl).
    destruct (length (nodes s)) as [|k] eqn:Hlen; [lia|].
    cbn [MCTS.backpropagate]. fold rw.
    rewrite (bind_val _ _ (Node.update root rw) _ s1 tt _ (node_update_runs s1 root rw)).
    set (s2 := mk_store (boards s1) (update root (visited rw) (nodes s1))).
    rewrite (bind_val _ _ (get_node root) _ s2 (node_at s2 root) s2 eq_refl).
    assert (Hpar : parent (node_at s2 root) = None).
    { unfold s2. rewrite update_node_at by (unfold s1; cbn [nodes]; lia).
      rewrite Nat.eqb_refl. cbn [visited with_wins with_visits parent].
      unfold s1, node_at. cbn [nodes]. exact Hp. }
    rewrite Hpar. destruct k; reflexivity.
  - split; [exists [b]; reflexivity|].
    split; [cbn [nodes]; rewrite update_length; reflexivity|].
    rewrite update_node_at by (unfold s1; cbn [nodes]; lia).
    rewrite Nat.eqb_refl. cbn [visited with_wins with_visits untried_moves children parent board].
    unfold s1, node_at. cbn [nodes]. auto.
Qed.

Lemma search_loop_barren (math_log : float -> float) (end_time : float) (root : ref)
      (b : Board.t) (ticks : list float) :
  forall s, barren s root b ->
  exists s',
    MCTS.search_loop math_log ticks end_time root s
    = (Val (existsb (fun t => negb (PyFloat.ltb t end_time)) ticks), s') /\
    barren s' root b /\ grows_boards s s'.
Proof.
  induction ticks as [|now ticks IH]; intros s Hbar; cbn [MCTS.search_loop existsb].
  - exists s. split; [reflexivity|]. split; [exact Hbar|apply grows_boards_refl].
  - destruct (PyFloat.ltb now end_time); cbn [negb orb].
    + destruct Hbar as (Hr & Hu & Hc & Hp & Hb & Hover).
      destruct (iteration_barren math_log s root b Hr Hu Hc Hp Hb Hover)
        as (s1 & Hrun & G1 & Hlen & Hu1 & Hc1 & Hp1 & Hb1).
      destruct (IH s1) as (s2 & Hrun2 & Hbar2 & G2).
      { repeat split; try assumption; [lia|].
        rewrite Hb1. eapply holds_grows_boards; eauto. }
      exists s2. rewrite (bind_val _ _ _ _ s tt s1 Hrun).
      split; [exact Hrun2|]. split; [exact Hbar2|eapply grows_boards_trans; eauto].
    + exists s. split; [reflexivity|]. split; [exact Hbar|apply grows_boards_refl].
Qed.

Lemma game_over_when_full (b : Board.t) : full b -> Board.is_game_over b = true.
Proof.
  intros H. apply full_iff in H. unfold Board.is_game_over. rewrite H.
  apply orb_true_r.
Qed.

(** X15: on a board without an empty cell [MCTS.get_move] never returns.
    The root has no move to try, every round of the loop only updates
    the root, and once the loop ends (at the first clock reading that is
    not before [end_time]) the last line raises [IndexError]: there is
    no child to choose.  Until then the loop is running, whatever the
    readings of the clock are. *)
Theorem mcts_get_move_full_board_raises
  (math_log : float -> float) (self : MCTS.t) (clock : list float)
  (s : Store) (board : ref) (b : Board.t) :
  holds s board b ->
  full b ->
  exists s',
    MCTS.get_move math_log self clock board s
    = (match clock with
       | [] => Val MCTS.OutOfTicks
       | now :: ticks =>
           if existsb (fun t => negb (PyFloat.ltb t (PyFloat.add now (MCTS.time_limit self))))
                      ticks
           then Exn IndexError
           else Val MCTS.OutOfTicks
       end, s') /\
    (forall r0 x, holds s r0 x -> holds s' r0 x).
Proof.
  intros Hb Hfull.
  destruct (mcts_get_move_runs math_log self clock s board b Hb) as (s1 & G1 & N1 & Hrun).
  rewrite (proj2 (pure_get_sorted_moves_nil b) Hfull) in Hrun. cbn [find] in Hrun.
  rewrite Hrun. unfold MCTS.search. destruct clock as [|now ticks].
  - exists s1. split; [reflexivity|]. intros r0 x Hx. eapply holds_grows_boards; eauto.
  - assert (Hbar : barren s1 (length (nodes s)) b).
    { pose proof (node_at_fresh s s1 _ N1) as Hn.
      unfold barren. rewrite Hn. unfold PureNode.fresh. simpl.
      rewrite N1, length_app. cbn [length].
      rewrite (proj2 (pure_get_sorted_moves_nil b) Hfull).
      repeat split; [lia| |apply game_over_when_full; exact Hfull].
      eapply holds_grows_boards; eauto. }
    destruct (search_loop_barren math_log (PyFloat.add now (MCTS.time_limit self))
                (length (nodes s)) b ticks s1 Hbar) as (s2 & Hloop & Hbar2 & G2).
    exists s2. split.
    + rewrite (bind_val _ _ _ _ s1 _ s2 Hloop).
      destruct (existsb _ ticks); [|reflexivity].
      destruct Hbar2 as (_ & _ & Hc & _).
      rewrite (bind_exn _ _ _ _ s2 IndexError s2 (most_visited_empty s2 _ Hc)).
      reflexivity.
    + intros r0 x Hx. eapply holds_grows_boards; [exact Hx|].
      eapply grows_boards_trans; eauto.
Qed.

Lemma mcts_get_move_full_board_raises_witness :
  exists s',
    MCTS.get_move no_log default_mcts (map PyFloat.of_int [0; 1; 2; 6; 7]) O
                  (mk_store [full_board] [])
    = (match map PyFloat.of_int [0; 1; 2; 6; 7] with
       | [] => Val MCTS.OutOfTicks
       | now :: ticks =>
           if existsb (fun t => negb (PyFloat.ltb t
                                        (PyFloat.add now (MCTS.time_limit default_mcts))))
                      ticks
           then Exn IndexError
           else Val MCTS.OutOfTicks
       end, s') /\
    (forall r0 x, holds (mk_store [full_board] []) r0 x -> holds s' r0 x).
Proof.
  apply (mcts_get_move_full_board_raises no_log default_mcts
           (map PyFloat.of_int [0; 1; 2; 6; 7]) (mk_store [full_board] []) O full_board).
  - reflexivity.
  - apply full_iff. reflexivity.
Defined.
(* ================================================================== *)
(** * [Node.add_child], [Node.update] and [Node.select_child] *)

Lemma set_node_runs (s : Store) (n : ref) (f : node -> node) :
  set_node n f s = (Val tt, mk_store (boards s) (update n f (nodes s))).
Proof. reflexivity. Qed.

Lemma update_twice (A : Type) (f g : A -> A) (n : nat) (l : list A) :
  update n g (update n f l) = update n (fun x => g (f x)) l.
Proof.
  revert n. induction l as [|x l IH]; intros [|n]; cbn [update]; try reflexivity.
  rewrite IH. reflexivity.
Qed.

Lemma node_at_app_l (s s' : Store) (e : list node) (n : ref) :
  nodes s' = nodes s ++ e -> (n < length (nodes s))%nat -> node_at s' n = node_at s n.
Proof.
  intros H Hn. unfold node_at. rewrite H. apply app_nth1. exact Hn.
Qed.

Lemma holds_new_board (s : Store) (x : Board.t) :
  holds (mk_store (boards s ++ [x]) (nodes s)) (length (boards s)) x.
Proof.
  unfold holds. cbn [boards]. rewrite nth_error_app2 by lia.
  rewrite Nat.sub_diag. reflexivity.
Qed.

Lemma add_child_runs (s : Store) (self : ref) (move : Move) (b : Board.t) :
  (self < length (nodes s))%nat ->
  holds s (board (node_at s self)) b ->
  exists s',
    Node.add_child self move s = (Val (length (nodes s)), s') /\
    length (nodes s') = S (length (nodes s)) /\
    node_at s' (length (nodes s))
    = mk_node (length (boards s)) (Some self) (Some move) [] (PyFloat.of_int 0) 0
              (PureNode.get_sorted_moves (Board.make_move b move)) /\
    holds s' (length (boards s)) (Board.make_move b move) /\
    node_at s' self
    = with_children (children (node_at s self) ++ [length (nodes s)])
        (with_untried_moves (remove_first move (untried_moves (node_at s self)))
           (node_at s self)) /\
    (forall n, n <> self -> (n < length (nodes s))%nat -> node_at s' n = node_at s n) /\
    (forall r0 x, holds s r0 x -> holds s' r0 x).
Proof.
  intros Hself Hb.
  set (nd := node_at s self) in *.
  set (nb := Board.make_move b move).
  set (s1 := mk_store (boards s ++ [nb]) (nodes s)).
  assert (Hnb : holds s1 (length (boards s)) nb) by apply holds_new_board.
  destruct (node_init_runs s1 (length (boards s)) nb (Some self) (Some move) Hnb)
    as (s2 & Hinit & G2 & N2).
  cbn [nodes s1] in Hinit, N2. change (nodes s1) with (nodes s) in Hinit, N2.
  set (f := fun x : node =>
              with_children (children (with_untried_moves
                                         (remove_first move (untried_moves x)) x)
                             ++ [length (nodes s)])
                (with_untried_moves (remove_first move (untried_moves x)) x)).
  exists (mk_store (boards s2) (update self f (nodes s2))).
  assert (Hself2 : (self < length (nodes s2))%nat)
    by (rewrite N2, length_app; cbn [length]; lia).
  split.
  - unfold Node.add_child.
    rewrite (bind_val _ _ (get_node self) _ s nd s eq_refl).
    unfold bind at 1. unfold copy at 1. cbn [boards nodes].
    unfold bind at 1. unfold make_move at 1. cbn [boards nodes].
    rewrite (holds_deref s _ b Hb).
    rewrite (update_app_length _ (fun b0 => Board.make_move b0 move) (boards s) b []).
    fold nb. fold s1.
    rewrite (bind_val _ _ _ _ s1 _ s2 Hinit).
    unfold bind at 1. rewrite set_node_runs.
    unfold bind at 1. rewrite set_node_runs. cbn [boards nodes ret].
    rewrite update_twice. reflexivity.
  - cbn [nodes boards]. split; [rewrite update_length, N2, length_app; cbn [length]; lia|].
    split.
    { rewrite update_node_at by exact Hself2.
      destruct (Nat.eqb_spec self (length (nodes s))) as [E|_]; [lia|].
      unfold node_at. rewrite N2. apply nth_length_app. }
    split.
    { unfold holds. cbn [boards]. eapply holds_grows_boards; [exact Hnb|exact G2]. }
    split.
    { rewrite update_node_at by exact Hself2. rewrite Nat.eqb_refl.
      rewrite (node_at_app_l s s2 _ self N2 Hself). reflexivity. }
    split.
    { intros n Hn Hlt. rewrite update_node_at by exact Hself2.
      destruct (Nat.eqb_spec self n) as [E|_]; [congruence|].
      apply (node_at_app_l s s2 _ n N2 Hlt). }
    intros r0 x Hx. unfold holds. cbn [boards].
    eapply holds_grows_boards; [|exact G2].
    unfold holds, s1. cbn [boards]. rewrite nth_error_app1; [exact Hx|].
    apply (holds_valid s r0 x Hx).
Qed.

(** X16: [add_child] on a node whose board has contents [b], for one of
    its untried moves.  The call returns a new node object whose board
    is a new board object holding [b] after the move, whose parent is
    the node, and whose statistics are zero; its move list is the
    sorted list of that new position.  In the node itself the first
    occurrence of the move leaves the untried moves and the child is
    appended to the children.  No other node object and no board object
    that existed is changed: the parent's board in particular. *)
Theorem add_child_effect (s : Store) (self : ref) (move : Move) (b : Board.t) :
  (self < length (nodes s))%nat ->
  holds s (board (node_at s self)) b ->
  In move (untried_moves (node_at s self)) ->
  exists s',
    Node.add_child self move s = (Val (length (nodes s)), s') /\
    length (nodes s') = S (length (nodes s)) /\
    node_at s' (length (nodes s))
    = mk_node (length (boards s)) (Some self) (Some move) [] (PyFloat.of_int 0) 0
              (PureNode.get_sorted_moves (Board.make_move b move)) /\
    holds s' (length (boards s)) (Board.make_move b move) /\
    node_at s' self
    = with_children (children (node_at s self) ++ [length (nodes s)])
        (with_untried_moves (remove_first move (untried_moves (node_at s self)))
           (node_at s self)) /\
    (forall n, n <> self -> (n < length (nodes s))%nat -> node_at s' n = node_at s n) /\
    (forall r0 x, holds s r0 x -> holds s' r0 x).
Proof.
  intros Hself Hb _. exact (add_child_runs s self move b Hself Hb).
Qed.

Lemma add_child_effect_witness :
  exists s',
    Node.add_child O (7, 2) four_store = (Val (length (nodes four_store)), s') /\
    length (nodes s') = S (length (nodes four_store)) /\
    node_at s' (length (nodes four_store))
    = mk_node (length (boards four_store)) (Some O) (Some (7, 2)) [] (PyFloat.of_int 0) 0
              (PureNode.get_sorted_moves (Board.make_move four_board (7, 2))) /\
    holds s' (length (boards four_store)) (Board.make_move four_board (7, 2)) /\
    node_at s' O
    = with_children (children (node_at four_store O) ++ [length (nodes four_store)])
        (with_untried_moves (remove_first (7, 2) (untried_moves (node_at four_store O)))
           (node_at four_store O)) /\
    (forall n, n <> O -> (n < length (nodes four_store))%nat ->
               node_at s' n = node_at four_store n) /\
    (forall r0 x, holds four_store r0 x -> holds s' r0 x).
Proof.
  apply (add_child_effect four_store O (7, 2) four_board).
  - vm_compute. lia.
  - vm_compute. reflexivity.
  - vm_compute. left. reflexivity.
Defined.

(** ** [select_child] *)

Section SortedLastFloat.

Variable A : Type.
Variable key : A -> float.

Lemma insert_asc_last_float (x : A) (l : list A) (d : A) :
  last (insert_asc PyFloat.ltb key x l) d
  = if forallb (fun y => PyFloat.ltb (key y) (key x)) l then x else last l d.
Proof.
  induction l as [|y l IH]; [reflexivity|].
  cbn [insert_asc forallb].
  destruct (PyFloat.ltb (key y) (key x)) eqn:Hy; cbn [andb].
  - destruct l as [|z l]; [reflexivity|].
    change (last (y :: insert_asc PyFloat.ltb key x (z :: l)) d)
      with (match insert_asc PyFloat.ltb key x (z :: l) with
            | [] => y
            | _ :: _ => last (insert_asc PyFloat.ltb key x (z :: l)) d
            end).
    rewrite IH.
    destruct (insert_asc PyFloat.ltb key x (z :: l)) eqn:E.
    + cbn [insert_asc] in E. destruct (PyFloat.ltb (key z) (key x)); discriminate.
    + reflexivity.
  - reflexivity.
Qed.

Lemma insert_asc_In_float (x y : A) (l : list A) :
  In y (insert_asc PyFloat.ltb key x l) <-> y = x \/ In y l.
Proof.
  induction l as [|z l IH]; cbn [insert_asc In].
  - intuition.
  - destruct (PyFloat.ltb (key z) (key x)); cbn [In]; rewrite ?IH; intuition.
Qed.

Lemma sorted_In_float (y : A) (l : list A) :
  In y (sorted PyFloat.ltb key l) <-> In y l.
Proof.
  induction l as [|x l IH]; cbn [sorted fold_right In]; [tauto|].
  fold (sorted PyFloat.ltb key l). rewrite insert_asc_In_float, IH. intuition.
Qed.

Lemma sorted_nonempty_float (l : list A) : l <> [] -> sorted PyFloat.ltb key l <> [].
Proof.
  destruct l as [|x l]; [congruence|]. intros _ E.
  assert (H : In x (sorted PyFloat.ltb key (x :: l)))
    by (apply sorted_In_float; left; reflexivity).
  rewrite E in H. destruct H.
Qed.

Lemma sorted_last_greatest (l : list A) (d : A) :
  l <> [] ->
  (forall x, In x l -> num (key x)) ->
  last_greatest A key l (last (sorted PyFloat.ltb key l) d).
Proof.
  induction l as [|x l IH]; [congruence|]. intros _ Hnum.
  cbn [sorted fold_right]. fold (sorted PyFloat.ltb key l).
  rewrite insert_asc_last_float.
  assert (Hx : num (key x)) by (apply Hnum; left; reflexivity).
  assert (Hl : forall y, In y l -> num (key y)) by (intros y Hy; apply Hnum; right; exact Hy).
  destruct (forallb (fun y => PyFloat.ltb (key y) (key x)) (sorted PyFloat.ltb key l))
    eqn:Hall.
  - exists [], l. split; [reflexivity|]. split; [intros y []|].
    intros y Hy. rewrite forallb_forall in Hall.
    apply (proj1 (ltb_lt (key y) (key x) (Hl y Hy) Hx)).
    apply Hall. apply sorted_In_float. exact Hy.
  - destruct l as [|z l]; [discriminate|].
    destruct IH as (before & after & El & Hb & Ha); [congruence|exact Hl|].
    set (c := last (sorted PyFloat.ltb key (z :: l)) d) in *.
    exists (x :: before), after. split; [rewrite El; reflexivity|]. split; [|exact Ha].
    intros y [<-|Hy]; [|auto].
    destruct (forallb_false_witness _ _ _ Hall) as (y & Hy & Hf).
    apply (proj1 (sorted_In_float y (z :: l))) in Hy.
    apply (proj1 (ltb_ge (key y) (key x) (Hl y Hy) Hx)) in Hf.
    rewrite El in Hy. apply in_app_or in Hy.
    destruct Hy as [Hy|[<-|Hy]].
    + specialize (Hb _ Hy). FloatTac.order.
    + exact Hf.
    + specialize (Ha _ Hy). FloatTac.order.
Qed.

End SortedLastFloat.

Lemma ucb1_runs (math_log : float -> float) (self x : node) (s : Store) :
  Node.ucb1 math_log self x s
  = if visits x =? 0 then (Exn ZeroDivisionError, s)
    else if visits self <=? 0 then (Exn ValueError, s)
    else (Val (ucb_key math_log self x), s).
Proof.
  unfold Node.ucb1. destruct (visits x =? 0); [reflexivity|].
  destruct (visits self <=? 0); reflexivity.
Qed.

Lemma mapM_ucb_all (math_log : float -> float) (nd : node) (l : list ref) (s : Store) :
  1 <= visits nd ->
  (forall x, In x l -> visits (node_at s x) <> 0) ->
  mapM (fun x => xn <- get_node x ;; k <- Node.ucb1 math_log nd xn ;; ret (k, x)) l s
  = (Val (map (fun x => (ucb_key math_log nd (node_at s x), x)) l), s).
Proof.
  intros Hself. induction l as [|x l IH]; intros Hall; [reflexivity|].
  cbn [mapM map].
  rewrite (bind_val _ _ _ _ s (ucb_key math_log nd (node_at s x), x) s).
  - rewrite (bind_val _ _ _ _ s _ s (IH (fun y Hy => Hall y (or_intror Hy)))).
    reflexivity.
  - rewrite (bind_val _ _ (get_node x) _ s (node_at s x) s eq_refl).
    rewrite (bind_val _ _ _ _ s (ucb_key math_log nd (node_at s x)) s); [reflexivity|].
    rewrite ucb1_runs.
    destruct (Z.eqb_spec (visits (node_at s x)) 0) as [E|_];
      [exfalso; exact (Hall x (or_introl eq_refl) E)|].
    destruct (Z.leb_spec (visits nd) 0); [lia|reflexivity].
Qed.

Lemma mapM_ucb_first (math_log : float -> float) (nd : node) (x : ref) (l : list ref)
      (s : Store) :
  visits (node_at s x) = 0 \/ visits nd <= 0 ->
  mapM (fun x => xn <- get_node x ;; k <- Node.ucb1 math_log nd xn ;; ret (k, x)) (x :: l) s
  = (Exn (if visits (node_at s x) =? 0 then ZeroDivisionError else ValueError), s).
Proof.
  intros H. cbn [mapM].
  apply bind_exn.
  rewrite (bind_val _ _ (get_node x) _ s (node_at s x) s eq_refl).
  apply bind_exn. rewrite ucb1_runs.
  destruct (Z.eqb_spec (visits (node_at s x)) 0) as [E|N]; [reflexivity|].
  destruct (Z.leb_spec (visits nd) 0); [reflexivity|lia].
Qed.

Lemma mapM_ucb_zero (math_log : float -> float) (nd : node) (l : list ref) (s : Store) :
  1 <= visits nd ->
  (exists x, In x l /\ visits (node_at s x) = 0) ->
  mapM (fun x => xn <- get_node x ;; k <- Node.ucb1 math_log nd xn ;; ret (k, x)) l s
  = (Exn ZeroDivisionError, s).
Proof.
  intros Hself. induction l as [|x l IH]; intros (y & Hy & Hz); [destruct Hy|].
  destruct (Z.eq_dec (visits (node_at s x)) 0) as [E|N].
  - rewrite (mapM_ucb_first math_log nd x l s (or_introl E)).
    rewrite E. reflexivity.
  - destruct Hy as [->|Hy]; [contradiction|].
    cbn [mapM].
    rewrite (bind_val _ _ _ _ s (ucb_key math_log nd (node_at s x), x) s).
    + apply bind_exn. apply IH. exists y. auto.
    + rewrite (bind_val _ _ (get_node x) _ s (node_at s x) s eq_refl).
      rewrite (bind_val _ _ _ _ s (ucb_key math_log nd (node_at s x)) s); [reflexivity|].
      rewrite ucb1_runs.
      destruct (Z.eqb_spec (visits (node_at s x)) 0) as [E|_]; [contradiction|].
      destruct (Z.leb_spec (visits nd) 0); [lia|reflexivity].
Qed.

(** X17: [select_child] on a node whose visit count and whose children's
    visit counts are not negative.  Without children it raises
    [IndexError]; with a child that was never visited it raises
    [ZeroDivisionError]; on a node that was never visited itself it
    raises [ValueError] from [math.log], unless its first child has no
    visit either.  When the node and all its children were visited, it
    returns one of the children and changes nothing; when no UCB1 score
    is a NaN, the child returned has the greatest score, and is the last
    such child in the order of the children. *)
Theorem select_child_cases (math_log : float -> float) (s : Store) (self : ref) :
  let nd := node_at s self in
  let key := fun x => ucb_key math_log nd (node_at s x) in
  (children nd = [] -> Node.select_child math_log self s = (Exn IndexError, s)) /\
  (1 <= visits nd ->
   log_not_negative math_log (visits nd) ->
   (forall x, In x (children nd) -> 0 <= visits (node_at s x)) ->
   (exists x, In x (children nd) /\ visits (node_at s x) = 0) ->
   Node.select_child math_log self s = (Exn ZeroDivisionError, s)) /\
  (visits nd <= 0 ->
   forall x l, children nd = x :: l ->
   Node.select_child math_log self s
   = (Exn (if visits (node_at s x) =? 0 then ZeroDivisionError else ValueError), s)) /\
  (1 <= visits nd ->
   log_not_negative math_log (visits nd) ->
   children nd <> [] ->
   (forall x, In x (children nd) -> 1 <= visits (node_at s x)) ->
   exists c,
     Node.select_child math_log self s = (Val c, s) /\
     In c (children nd) /\
     ((forall x, In x (children nd) -> num (key x)) ->
      last_greatest ref key (children nd) c)).
Proof.
  cbv zeta. unfold Node.select_child.
  rewrite (bind_val _ _ (get_node self) _ s (node_at s self) s eq_refl).
  split; [|split; [|split]].
  - intros Hc. rewrite Hc. reflexivity.
  - intros Hv _ _ Hz. apply bind_exn. apply mapM_ucb_zero; assumption.
  - intros Hv x l Hc. rewrite Hc. apply bind_exn. apply mapM_ucb_first. right. exact Hv.
  - intros Hv _ Hne Hpos.
    assert (Hall : forall x, In x (children (node_at s self)) -> visits (node_at s x) <> 0).
    { intros x Hx. specialize (Hpos x Hx). lia. }
    rewrite (bind_val _ _ _ _ s _ s (mapM_ucb_all math_log _ _ s Hv Hall)).
    set (keyed := map (fun x => (ucb_key math_log (node_at s self) (node_at s x), x))
                      (children (node_at s self))).
    assert (Hk : keyed <> []).
    { unfold keyed. destruct (children (node_at s self)); [congruence|discriminate]. }
    destruct (rev_head_last _ (sorted PyFloat.ltb fst keyed) (PyFloat.inf, O)
                (sorted_nonempty_float _ fst keyed Hk)) as (t & Hrev).
    rewrite Hrev.
    set (top := last (sorted PyFloat.ltb fst keyed) (PyFloat.inf, O)) in *.
    assert (Htop : In top keyed).
    { apply (sorted_In_float _ fst). unfold top.
      destruct (exists_last (sorted_nonempty_float _ fst keyed Hk)) as (l' & a & E).
      rewrite E, last_last. apply in_or_app. right. left. reflexivity. }
    unfold keyed in Htop. apply in_map_iff in Htop. destruct Htop as (c & Hc & Hin).
    exists c. rewrite <- Hc. split; [reflexivity|]. split; [exact Hin|].
    intros Hnum.
    destruct (sorted_last_greatest _ fst keyed (PyFloat.inf, O) Hk)
      as (before & after & El & Hb & Ha).
    { intros p Hp. unfold keyed in Hp. apply in_map_iff in Hp.
      destruct Hp as (x & <- & Hx). cbn [fst]. apply Hnum. exact Hx. }
    fold top in El, Hb, Ha. rewrite <- Hc in El, Hb, Ha. cbn [fst] in Hb, Ha.
    unfold keyed in El.
    apply map_eq_app in El. destruct El as (b' & r' & Hch & Hb' & Hr').
    apply map_eq_cons in Hr'. destruct Hr' as (c' & a' & Hr' & Hc' & Ha').
    inversion Hc'; subst c'. subst r'.
    exists b', a'. split; [exact Hch|]. split.
    + intros x Hx.
      apply (Hb (ucb_key math_log (node_at s self) (node_at s x), x)).
      rewrite <- Hb'. apply in_map_iff. exists x. auto.
    + intros x Hx.
      apply (Ha (ucb_key math_log (node_at s self) (node_at s x), x)).
      rewrite <- Ha'. apply in_map_iff. exists x. auto.
Qed.

Lemma select_child_cases_witness :
  Node.select_child log_at_3 O family_store = (Val 2%nat, family_store) /\
  children (node_at family_store O) = [1%nat; 2%nat; 3%nat] /\
  last_greatest ref
    (fun x => ucb_key log_at_3 (node_at family_store O) (node_at family_store x))
    (children (node_at family_store O)) 2%nat.
Proof.
  destruct (proj2 (proj2 (proj2 (select_child_cases log_at_3 family_store O))))
    as (c & Hrun & _ & Hlast).
  - vm_compute. discriminate.
  - reflexivity.
  - vm_compute. discriminate.
  - intros x [<-|[<-|[<-|[]]]]; vm_compute; discriminate.
  - assert (Hc : c = 2%nat).
    { assert (E : Node.select_child log_at_3 O family_store = (Val 2%nat, family_store))
        by (vm_compute; reflexivity).
      rewrite E in Hrun. congruence. }
    subst c. split; [exact Hrun|]. split; [reflexivity|].
    apply Hlast. intros x [<-|[<-|[<-|[]]]]; vm_compute; reflexivity.
Defined.
(* ================================================================== *)
(** * Backpropagation *)

Lemma lineage_same_parents (s s' : Store) (fuel : nat) :
  (forall k, parent (node_at s' k) = parent (node_at s k)) ->
  forall n, lineage fuel s' n = lineage fuel s n.
Proof.
  intros Hp. induction fuel as [|fuel IH]; intros n; cbn [lineage]; [reflexivity|].
  rewrite Hp. destruct (parent (node_at s n)); [rewrite IH|]; reflexivity.
Qed.

Lemma lineage_below (s : Store) (fuel : nat) :
  parents_below s ->
  forall n k, (n < length (nodes s))%nat -> In k (lineage fuel s n) -> (k <= n)%nat.
Proof.
  intros Hwf. induction fuel as [|fuel IH]; intros n k Hn; cbn [lineage]; [intros []|].
  intros [<-|Hk]; [lia|].
  destruct (parent (node_at s n)) as [p|] eqn:Ep; [|destruct Hk].
  pose proof (Hwf n p Hn Ep) as Hlt.
  specialize (IH p k ltac:(lia) Hk). lia.
Qed.

Lemma lineage_fuel_irrelevant (s : Store) :
  parents_below s ->
  forall f1 f2 n, (n < length (nodes s))%nat -> (n < f1)%nat -> (n < f2)%nat ->
                  lineage f1 s n = lineage f2 s n.
Proof.
  intros Hwf. induction f1 as [|f1 IH]; intros f2 n Hn H1 H2; [lia|].
  destruct f2 as [|f2]; [lia|]. cbn [lineage]. f_equal.
  destruct (parent (node_at s n)) as [p|] eqn:Ep; [|reflexivity].
  pose proof (Hwf n p Hn Ep) as Hlt.
  apply IH; lia.
Qed.

Lemma lineage_fuel (s : Store) (fuel : nat) :
  parents_below s ->
  forall n, (n < length (nodes s))%nat -> (n < fuel)%nat ->
            lineage fuel s n = lineage (S n) s n.
Proof.
  intros Hwf n Hn Hf. apply lineage_fuel_irrelevant; [exact Hwf|exact Hn|exact Hf|lia].
Qed.

Lemma visited_parent (result : float) (nd : node) : parent (visited result nd) = parent nd.
Proof. reflexivity. Qed.

Lemma backpropagate_runs (result current_player : Z) (fuel : nat) :
  forall (s : Store) (n : ref),
  parents_below s ->
  (n < length (nodes s))%nat -> (n < fuel)%nat ->
  exists s',
    MCTS.backpropagate fuel (Some n) result current_player s = (Val tt, s') /\
    boards s' = boards s /\
    length (nodes s') = length (nodes s) /\
    forall k, node_at s' k
              = if existsb (Nat.eqb k) (lineage fuel s n)
                then visited (MCTS.reward result current_player) (node_at s k)
                else node_at s k.
Proof.
  set (rw := MCTS.reward result current_player).
  induction fuel as [|fuel IH]; intros s n Hwf Hn Hf; [lia|].
  cbn [MCTS.backpropagate]. fold rw.
  set (s1 := mk_store (boards s) (update n (visited rw) (nodes s))).
  rewrite (bind_val _ _ (Node.update n rw) _ s tt s1 (node_update_runs s n rw)).
  rewrite (bind_val _ _ (get_node n) _ s1 (node_at s1 n) s1 eq_refl).
  assert (Hat : forall k, node_at s1 k
                          = if Nat.eqb n k then visited rw (node_at s n) else node_at s k).
  { intros k. apply update_node_at. exact Hn. }
  assert (Hpar : forall k, parent (node_at s1 k) = parent (node_at s k)).
  { intros k. rewrite Hat. destruct (Nat.eqb_spec n k) as [->|_]; reflexivity. }
  assert (Hlen1 : length (nodes s1) = length (nodes s))
    by (unfold s1; cbn [nodes]; apply update_length).
  rewrite Hpar. cbn [lineage].
  destruct (parent (node_at s n)) as [p|] eqn:Ep.
  - pose proof (Hwf n p Hn Ep) as Hlt.
    assert (Hwf1 : parents_below s1).
    { intros k q Hk Hq. rewrite Hpar in Hq. rewrite Hlen1 in Hk. exact (Hwf k q Hk Hq). }
    destruct (IH s1 p Hwf1 ltac:(lia) ltac:(lia)) as (s' & Hrun & Hb & Hl & Hk).
    exists s'. split; [exact Hrun|]. split; [rewrite Hb; reflexivity|].
    split; [lia|]. intros k. rewrite Hk, (lineage_same_parents s s1 fuel Hpar p).
    cbn [existsb]. rewrite Hat.
    destruct (Nat.eqb_spec k n) as [->|Hne].
    + rewrite Nat.eqb_refl. cbn [orb].
      destruct (existsb (Nat.eqb n) (lineage fuel s p)) eqn:Ex; [|reflexivity].
      exfalso. apply existsb_exists in Ex. destruct Ex as (x & Hx & E).
      apply Nat.eqb_eq in E. subst x.
      pose proof (lineage_below s fuel Hwf p n ltac:(lia) Hx). lia.
    + destruct (Nat.eqb_spec n k) as [E|_]; [congruence|]. reflexivity.
  - exists s1. split; [destruct fuel; reflexivity|]. split; [reflexivity|].
    split; [exact Hlen1|]. intros k. cbn [existsb]. rewrite Hat, orb_false_r.
    destruct (Nat.eqb_spec k n) as [->|Hne].
    + rewrite Nat.eqb_refl. reflexivity.
    + destruct (Nat.eqb_spec n k) as [E|_]; [congruence|]. reflexivity.
Qed.

Lemma lineage_ends_at_root (s : Store) (fuel : nat) :
  parents_below s ->
  forall n, (n < length (nodes s))%nat -> (n < fuel)%nat ->
  exists root rest,
    lineage fuel s n = rest ++ [root] /\ parent (node_at s root) = None.
Proof.
  intros Hwf. induction fuel as [|fuel IH]; intros n Hn Hf; [lia|].
  cbn [lineage]. destruct (parent (node_at s n)) as [p|] eqn:Ep.
  - pose proof (Hwf n p Hn Ep) as Hlt.
    destruct (IH p ltac:(lia) ltac:(lia)) as (root & rest & E & Hroot).
    exists root, (n :: rest). rewrite E. split; [reflexivity|exact Hroot].
  - exists n, []. split; [reflexivity|exact Ep].
Qed.

(** X18: backpropagation.  In a store whose parent links point to
    earlier nodes, the loop [while node is not None] started at node [n]
    ends, and it changes exactly the nodes on the path from [n] to the
    root of its tree: each of them gets one more visit and the same
    value added to its wins, namely 0.5 for a draw, 1 when the winner is
    [current_player] and 0 otherwise.  The path ends at a node without
    parent; all other nodes and all boards stay as they were. *)
Theorem backpropagate_updates_path (s : Store) (n : ref) (result current_player : Z) :
  parents_below s ->
  (n < length (nodes s))%nat ->
  exists s' root rest,
    MCTS.backpropagate (length (nodes s)) (Some n) result current_player s = (Val tt, s') /\
    path_to_root s n = rest ++ [root] /\ parent (node_at s root) = None /\
    boards s' = boards s /\
    (forall k, In k (path_to_root s n) ->
               visits (node_at s' k) = visits (node_at s k) + 1 /\
               wins (node_at s' k)
               = PyFloat.add (wins (node_at s k))
                   (if result =? 0 then PyFloat.lit_0_5
                    else PyFloat.of_int (if result =? current_player then 1 else 0)) /\
               children (node_at s' k) = children (node_at s k) /\
               untried_moves (node_at s' k) = untried_moves (node_at s k)) /\
    (forall k, ~ In k (path_to_root s n) -> node_at s' k = node_at s k).
Proof.
  intros Hwf Hn.
  destruct (backpropagate_runs result current_player (length (nodes s)) s n Hwf Hn Hn)
    as (s' & Hrun & Hb & Hl & Hk).
  rewrite (lineage_fuel s (length (nodes s)) Hwf n Hn Hn) in Hk.
  destruct (lineage_ends_at_root s (S n) Hwf n Hn ltac:(lia)) as (root & rest & E & Hroot).
  exists s', root, rest. fold (path_to_root s n) in E, Hk.
  split; [exact Hrun|]. split; [exact E|]. split; [exact Hroot|]. split; [exact Hb|].
  split.
  - intros k Hin. rewrite Hk.
    assert (Hex : existsb (Nat.eqb k) (path_to_root s n) = true).
    { apply existsb_exists. exists k. split; [exact Hin|apply Nat.eqb_refl]. }
    rewrite Hex. repeat split.
  - intros k Hnin. rewrite Hk.
    destruct (existsb (Nat.eqb k) (path_to_root s n)) eqn:Hex; [|reflexivity].
    exfalso. apply existsb_exists in Hex. destruct Hex as (x & Hx & Ex).
    apply Nat.eqb_eq in Ex. subst x. exact (Hnin Hx).
Qed.

Lemma two_node_store_parents : parents_below two_node_store.
Proof.
  intros n p Hn Hp. cbn in Hn.
  destruct n as [|[|n]]; [discriminate| |lia].
  cbn in Hp. inversion Hp. lia.
Qed.

Lemma backpropagate_updates_path_witness :
  exists s' root rest,
    MCTS.backpropagate (length (nodes two_node_store)) (Some 1%nat) (-1) 1 two_node_store
    = (Val tt, s') /\
    path_to_root two_node_store 1%nat = rest ++ [root] /\
    parent (node_at two_node_store root) = None /\
    boards s' = boards two_node_store /\
    (forall k, In k (path_to_root two_node_store 1%nat) ->
               visits (node_at s' k) = visits (node_at two_node_store k) + 1 /\
               wins (node_at s' k)
               = PyFloat.add (wins (node_at two_node_store k))
                   (if -1 =? 0 then PyFloat.lit_0_5
                    else PyFloat.of_int (if -1 =? 1 then 1 else 0)) /\
               children (node_at s' k) = children (node_at two_node_store k) /\
               untried_moves (node_at s' k) = untried_moves (node_at two_node_store k)) /\
    (forall k, ~ In k (path_to_root two_node_store 1%nat) ->
               node_at s' k = node_at two_node_store k).
Proof.
  apply (backpropagate_updates_path two_node_store 1%nat (-1) 1).
  - exact two_node_store_parents.
  - cbn. lia.
Defined.
(* ================================================================== *)
(** * [Node._get_min_distance_to_pieces] *)

Lemma range2_In (a b k : Z) : In k (range2 a b) <-> a <= k < b.
Proof.
  unfold range2. rewrite in_map_iff. split.
  - intros (m & <- & Hm). apply in_seq in Hm. lia.
  - intros Hk. exists (Z.to_nat (k - a)). split; [lia|]. apply in_seq. lia.
Qed.

Lemma fold_left_flat_map (A B C : Type) (f : A -> C -> A) (g : B -> list C) (l : list B) :
  forall a, fold_left f (flat_map g l) a = fold_left (fun a x => fold_left f (g x) a) l a.
Proof.
  induction l as [|x l IH]; intros a; cbn [flat_map fold_left]; [reflexivity|].
  rewrite fold_left_app. apply IH.
Qed.

Lemma fold_left_map (A B C : Type) (f : A -> C -> A) (g : B -> C) (l : list B) :
  forall a, fold_left f (map g l) a = fold_left (fun a x => f a (g x)) l a.
Proof.
  induction l as [|x l IH]; intros a; cbn [map fold_left]; [reflexivity|]. apply IH.
Qed.

Lemma fold_left_pointwise (A B : Type) (f g : A -> B -> A) (l : list B) :
  (forall a x, f a x = g a x) -> forall a, fold_left f l a = fold_left g l a.
Proof.
  intros H. induction l as [|x l IH]; intros a; cbn [fold_left]; [reflexivity|].
  rewrite H. apply IH.
Qed.

Lemma ltb_small (d m : Z) :
  0 <= d <= 4 -> 0 <= m <= 4 ->
  PyFloat.ltb (PyFloat.of_int d) (PyFloat.of_int m) = (d <? m).
Proof.
  intros Hd Hm.
  assert (Ed : d = 0 \/ d = 1 \/ d = 2 \/ d = 3 \/ d = 4) by lia.
  assert (Em : m = 0 \/ m = 1 \/ m = 2 \/ m = 3 \/ m = 4) by lia.
  destruct Ed as [->|[->|[->|[->| ->]]]]; destruct Em as [->|[->|[->|[->| ->]]]];
    vm_compute; reflexivity.
Qed.

Lemma ltb_small_inf (d : Z) :
  0 <= d <= 4 -> PyFloat.ltb (PyFloat.of_int d) PyFloat.inf = true.
Proof.
  intros Hd.
  assert (Ed : d = 0 \/ d = 1 \/ d = 2 \/ d = 3 \/ d = 4) by lia.
  destruct Ed as [->|[->|[->|[->| ->]]]]; vm_compute; reflexivity.
Qed.

Section Closest.

Variable b : Board.t.
Variables i j : Z.

(** The update of [min_distance] at one cell of the window. *)
Let step (acc : float) (c : Z * Z) : float :=
  if negb (Board.get b (fst c) (snd c) =? 0)
  then PyFloat.min acc (PyFloat.of_int (manhattan i j (fst c) (snd c)))
  else acc.

(** [acc] is the least distance of a stone among the cells [seen]. *)
Let least (acc : float) (seen : list (Z * Z)) : Prop :=
  (acc = PyFloat.inf /\ forall c, In c seen -> Board.get b (fst c) (snd c) = 0) \/
  (exists c0, In c0 seen /\ Board.get b (fst c0) (snd c0) <> 0 /\
              acc = PyFloat.of_int (manhattan i j (fst c0) (snd c0)) /\
              forall c, In c seen -> Board.get b (fst c) (snd c) <> 0 ->
                        manhattan i j (fst c0) (snd c0) <= manhattan i j (fst c) (snd c)).

Let near (c : Z * Z) : Prop := 0 <= manhattan i j (fst c) (snd c) <= 4.

Lemma least_step (acc : float) (seen : list (Z * Z)) (c : Z * Z) :
  near c -> (forall x, In x seen -> near x) ->
  least acc seen -> least (step acc c) (c :: seen).
Proof.
  intros Hc Hseen H. unfold step.
  destruct (Z.eqb_spec (Board.get b (fst c) (snd c)) 0) as [E|N]; cbn [negb].
  - destruct H as [[Ha Hall]|(c0 & Hin & Hs & Ha & Hmin)].
    + left. split; [exact Ha|]. intros x [<-|Hx]; auto.
    + right. exists c0. split; [right; exact Hin|]. split; [exact Hs|]. split; [exact Ha|].
      intros x [<-|Hx] Hst; [contradiction|auto].
  - right. unfold PyFloat.min.
    destruct H as [[Ha Hall]|(c0 & Hin & Hs & Ha & Hmin)].
    + rewrite Ha, (ltb_small_inf _ Hc).
      exists c. split; [left; reflexivity|]. split; [exact N|]. split; [reflexivity|].
      intros x [<-|Hx] Hst; [lia|]. exfalso. exact (Hst (Hall x Hx)).
    + rewrite Ha, (ltb_small _ _ Hc (Hseen c0 Hin)).
      destruct (Z.ltb_spec (manhattan i j (fst c) (snd c))
                           (manhattan i j (fst c0) (snd c0))) as [Hlt|Hge].
      * exists c. split; [left; reflexivity|]. split; [exact N|]. split; [reflexivity|].
        intros x [<-|Hx] Hst; [lia|]. specialize (Hmin x Hx Hst). lia.
      * exists c0. split; [right; exact Hin|]. split; [exact Hs|]. split; [reflexivity|].
        intros x [<-|Hx] Hst; [lia|auto].
Qed.

Lemma least_fold (cs : list (Z * Z)) :
  forall acc seen,
    (forall x, In x cs -> near x) -> (forall x, In x seen -> near x) ->
    least acc seen ->
    exists seen', (forall x, In x seen' <-> In x cs \/ In x seen) /\
                  least (fold_left step cs acc) seen'.
Proof.
  induction cs as [|c cs IH]; intros acc seen Hcs Hseen H; cbn [fold_left].
  - exists seen. split; [intros x; cbn [In]; tauto|exact H].
  - destruct (IH (step acc c) (c :: seen)) as (seen' & Hiff & Hl).
    + intros x Hx. apply Hcs. right. exact Hx.
    + intros x [<-|Hx]; [apply Hcs; left; reflexivity|auto].
    + apply least_step; [apply Hcs; left; reflexivity|exact Hseen|exact H].
    + exists seen'. split; [|exact Hl].
      intros x. rewrite Hiff. cbn [In]. intuition.
Qed.

Lemma min_distance_fold :
  Node._get_min_distance_to_pieces b (i, j)
  = fold_left step
      (flat_map (fun x => map (fun y => (x, y))
                              (range2 (Z.max 0 (j - 2)) (Z.min (Board.size b) (j + 3))))
                (range2 (Z.max 0 (i - 2)) (Z.min (Board.size b) (i + 3))))
      PyFloat.inf.
Proof.
  unfold Node._get_min_distance_to_pieces. rewrite fold_left_flat_map.
  apply fold_left_pointwise. intros acc x. rewrite fold_left_map. reflexivity.
Qed.

Lemma window_cells_In (c : Z * Z) :
  In c (flat_map (fun x => map (fun y => (x, y))
                               (range2 (Z.max 0 (j - 2)) (Z.min (Board.size b) (j + 3))))
                 (range2 (Z.max 0 (i - 2)) (Z.min (Board.size b) (i + 3))))
  <-> in_window b i j (fst c) (snd c).
Proof.
  unfold in_window. rewrite in_flat_map, in_range_bounds. split.
  - intros (x & Hx & Hc). apply in_map_iff in Hc. destruct Hc as (y & <- & Hy).
    apply range2_In in Hx, Hy. cbn [fst snd]. lia.
  - intros H. exists (fst c). split; [apply range2_In; lia|].
    apply in_map_iff. exists (snd c). split; [destruct c; reflexivity|].
    apply range2_In. lia.
Qed.

Lemma min_distance_least :
  exists seen,
    (forall c, In c seen <-> in_window b i j (fst c) (snd c)) /\
    least (Node._get_min_distance_to_pieces b (i, j)) seen.
Proof.
  rewrite min_distance_fold.
  destruct (least_fold
              (flat_map (fun x => map (fun y => (x, y))
                                      (range2 (Z.max 0 (j - 2))
                                              (Z.min (Board.size b) (j + 3))))
                        (range2 (Z.max 0 (i - 2)) (Z.min (Board.size b) (i + 3))))
              PyFloat.inf []) as (seen & Hiff & Hl).
  - intros x Hx. apply window_cells_In in Hx. destruct Hx as (_ & Hx & Hy).
    unfold near, manhattan. lia.
  - intros x [].
  - left. split; [reflexivity|intros c []].
  - exists seen. split; [|exact Hl].
    intros c. rewrite Hiff, window_cells_In. cbn [In]. tauto.
Qed.

End Closest.

(** X19: the distance to the nearest stone.  [_get_min_distance_to_pieces]
    scans the cells of the board that are at most two rows and two
    columns away from the move.  It returns [float('inf')] when none of
    them holds a stone and otherwise the least Manhattan distance of a
    stone among them.  Hence the test [min_distance > 2], on which
    [_evaluate_move] scales the score by 0.1, holds exactly when no
    stone lies within Manhattan distance 2 of the move. *)
Theorem min_distance_to_pieces_spec (b : Board.t) (i j : Z) :
  let r := Node._get_min_distance_to_pieces b (i, j) in
  ((forall x y, in_window b i j x y -> Board.get b x y = 0) -> r = PyFloat.inf) /\
  ((exists x y, in_window b i j x y /\ Board.get b x y <> 0) ->
   exists x y,
     in_window b i j x y /\ Board.get b x y <> 0 /\
     r = PyFloat.of_int (manhattan i j x y) /\
     forall x' y', in_window b i j x' y' -> Board.get b x' y' <> 0 ->
                   manhattan i j x y <= manhattan i j x' y') /\
  (PyFloat.ltb (PyFloat.of_int 2) r = true <->
   forall x y, Board.in_range b x y = true -> manhattan i j x y <= 2 -> Board.get b x y = 0).
Proof.
  cbv zeta. destruct (min_distance_least b i j) as (seen & Hiff & Hl).
  set (r := Node._get_min_distance_to_pieces b (i, j)) in *.
  split; [|split].
  - intros Hnone. destruct Hl as [[Ha _]|(c0 & Hin & Hs & _)]; [exact Ha|].
    exfalso. apply Hs. apply Hnone. apply Hiff. exact Hin.
  - intros (x & y & Hw & Hs).
    destruct Hl as [[_ Hall]|(c0 & Hin & Hs0 & Ha & Hmin)].
    + exfalso. apply Hs. apply (Hall (x, y)). apply Hiff. exact Hw.
    + exists (fst c0), (snd c0). split; [apply Hiff; exact Hin|]. split; [exact Hs0|].
      split; [exact Ha|]. intros x' y' Hw' Hs'.
      apply (Hmin (x', y')); [apply Hiff; exact Hw'|exact Hs'].
  - destruct Hl as [[Ha Hall]|(c0 & Hin & Hs0 & Ha & Hmin)].
    + rewrite Ha. split; [|reflexivity]. intros _ x y Hr Hd.
      apply (Hall (x, y)). apply Hiff. unfold in_window, manhattan in *. cbn [fst snd].
      split; [exact Hr|lia].
    + rewrite Ha.
      assert (Hw0 : in_window b i j (fst c0) (snd c0)) by (apply Hiff; exact Hin).
      assert (Hn0 : 0 <= manhattan i j (fst c0) (snd c0) <= 4).
      { destruct Hw0 as (_ & Hx & Hy). unfold manhattan. lia. }
      rewrite (ltb_small 2 _ ltac:(lia) Hn0). rewrite Z.ltb_lt. split.
      * intros Hlt x y Hr Hd.
        destruct (Z.eq_dec (Board.get b x y) 0) as [E|N]; [exact E|]. exfalso.
        assert (Hw : in_window b i j x y).
        { unfold in_window, manhattan in *. split; [exact Hr|lia]. }
        pose proof (Hmin (x, y) (proj2 (Hiff (x, y)) Hw) N) as Hle.
        cbn [fst snd] in Hle. lia.
      * intros Hnone.
        destruct (Z.lt_ge_cases 2 (manhattan i j (fst c0) (snd c0))) as [Hlt|Hge];
          [exact Hlt|].
        exfalso. apply Hs0. apply Hnone; [exact (proj1 Hw0)|lia].
Qed.
(* ================================================================== *)
(** * The rollout *)

Lemma scan_forced_fst (b : Board.t) (moves : list Move) :
  forall blocking_move,
    fst (PureMCTS.scan_forced b moves blocking_move)
    = find (fun m => Pure.is_winning_move b m (Board.current_player b)) moves.
Proof.
  induction moves as [|move rest IH]; intros blk; cbn [PureMCTS.scan_forced find];
    [reflexivity|].
  destruct (Pure.is_winning_move b move (Board.current_player b)); [reflexivity|apply IH].
Qed.

Lemma find_app (A : Type) (f : A -> bool) (l1 l2 : list A) :
  find f (l1 ++ l2) = match find f l1 with Some x => Some x | None => find f l2 end.
Proof.
  induction l1 as [|a l1 IH]; cbn [app find]; [reflexivity|].
  destruct (f a); [reflexivity|exact IH].
Qed.

Lemma scan_forced_snd (b : Board.t) (moves : list Move) :
  forall blocking_move,
    find (fun m => Pure.is_winning_move b m (Board.current_player b)) moves = None ->
    snd (PureMCTS.scan_forced b moves blocking_move)
    = match find (fun m => Pure.is_winning_move b m (- Board.current_player b)) (rev moves)
      with
      | Some m => Some m
      | None => blocking_move
      end.
Proof.
  induction moves as [|move rest IH]; intros blk; cbn [PureMCTS.scan_forced find rev];
    [reflexivity|].
  destruct (Pure.is_winning_move b move (Board.current_player b)); [discriminate|].
  intros Hnone. rewrite (IH _ Hnone), find_app. cbn [find].
  destruct (find _ (rev rest)); [reflexivity|].
  destruct (Pure.is_winning_move b move (- Board.current_player b)); reflexivity.
Qed.

Lemma find_rev_last_such (b : Board.t) (player : Z) (l : list Move) :
  (forall m, In m l -> Board.in_range b (fst m) (snd m) = true) ->
  match find (fun move => Pure.is_winning_move b move player) (rev l) with
  | Some m => last_such Move (fun x => completes_five b x player) l m
  | None => forall x, In x l -> ~ completes_five b x player
  end.
Proof.
  intros Hr.
  assert (Hr' : forall m, In m (rev l) -> Board.in_range b (fst m) (snd m) = true).
  { intros m Hm. apply Hr. apply in_rev. exact Hm. }
  pose proof (find_first_such b player (rev l) Hr') as H.
  destruct (find (fun move => Pure.is_winning_move b move player) (rev l)) as [m|].
  - destruct H as (pre & post & El & Hm & Hpre).
    exists (rev post), (rev pre). split; [|split; [exact Hm|]].
    + rewrite <- (rev_involutive l), El, rev_app_distr. cbn [rev].
      rewrite <- app_assoc. reflexivity.
    + intros x Hx. apply Hpre. apply in_rev. exact Hx.
  - intros x Hx. apply H. apply in_rev in Hx. exact Hx.
Qed.

(** Heads of descending sorts are greatest. *)
Lemma sort_desc_head_greatest (A : Type) (ltb : A -> A -> bool) (l : list A) :
  (forall a c, ltb a c = true -> ltb c a = false) ->
  (forall a c d, ltb a c = false -> ltb c d = false -> ltb a d = false) ->
  forall h t, sort_desc ltb l = h :: t -> forall x, In x l -> ltb h x = false.
Proof.
  intros Hasym Htrans.
  assert (Hirr : forall a, ltb a a = false).
  { intros a. destruct (ltb a a) eqn:E; [|reflexivity]. rewrite (Hasym a a E) in E.
    discriminate. }
  induction l as [|a l IH]; intros h t; cbn [sort_desc fold_right]; [discriminate|].
  fold (sort_desc ltb l).
  destruct (sort_desc ltb l) as [|h' t'] eqn:Es.
  - cbn [insert_desc]. intros [= <- <-] x [<-|Hx]; [apply Hirr|].
    pose proof (sort_desc_perm A ltb l) as Hp. rewrite Es in Hp.
    apply Permutation_sym, Permutation_nil in Hp. subst l. destruct Hx.
  - cbn [insert_desc]. destruct (ltb a h') eqn:E.
    + intros [= <- <-] x [<-|Hx]; [apply Hasym; exact E|].
      apply (IH h' t' eq_refl). exact Hx.
    + intros [= <- <-] x [<-|Hx]; [apply Hirr|].
      apply (Htrans a h' x E). apply (IH h' t' eq_refl). exact Hx.
Qed.

Ltac bool_lia :=
  rewrite ?orb_true_iff, ?andb_true_iff, ?orb_false_iff, ?andb_false_iff,
          ?Z.ltb_lt, ?Z.ltb_ge, ?Z.eqb_eq, ?Z.eqb_neq in *; lia.

Lemma int_scored_ltb_asym (a c : Z * Move) :
  int_scored_ltb a c = true -> int_scored_ltb c a = false.
Proof.
  unfold int_scored_ltb, move_ltb. intros H.
  destruct (Z.eqb_spec (fst a) (fst c)) as [E|N];
    destruct (Z.eqb_spec (fst c) (fst a)) as [E'|N']; try lia; bool_lia.
Qed.

Lemma int_scored_ltb_trans (a c d : Z * Move) :
  int_scored_ltb a c = false -> int_scored_ltb c d = false -> int_scored_ltb a d = false.
Proof.
  unfold int_scored_ltb, move_ltb. intros H1 H2.
  destruct (Z.eqb_spec (fst a) (fst c)) as [E1|N1];
    destruct (Z.eqb_spec (fst c) (fst d)) as [E2|N2];
    destruct (Z.eqb_spec (fst a) (fst d)) as [E3|N3]; try lia; bool_lia.
Qed.

Lemma top_moves_incl (b : Board.t) (m : Move) :
  In m (top_moves b) -> In m (Board.get_valid_moves b).
Proof. unfold top_moves. apply firstn_In. Qed.

Lemma top_moves_nonempty (b : Board.t) :
  Board.is_game_over b = false -> top_moves b <> [].
Proof.
  unfold Board.is_game_over, top_moves. intros H. apply orb_false_iff in H.
  destruct H as [_ H]. apply Nat.eqb_neq in H.
  destruct (Board.get_valid_moves b) as [|m0 ms]; [contradiction|].
  cbn [length]. replace (Z.to_nat (Z.min 6 (Z.of_nat (S (length ms)))))
    with (S (Nat.min 5 (length ms))) by lia.
  discriminate.
Qed.

Lemma choose_spec (b : Board.t) :
  Board.is_game_over b = false ->
  exists m,
    choose b = Some m /\ In m (top_moves b) /\
    let me := Board.current_player b in
    ((exists w, In w (top_moves b) /\ completes_five b w me) ->
     first_such Move (fun x => completes_five b x me) (top_moves b) m) /\
    ((forall w, In w (top_moves b) -> ~ completes_five b w me) ->
     (exists w, In w (top_moves b) /\ completes_five b w (- me)) ->
     last_such Move (fun x => completes_five b x (- me)) (top_moves b) m) /\
    ((forall w, In w (top_moves b) ->
                ~ completes_five b w me /\ ~ completes_five b w (- me)) ->
     forall x, In x (top_moves b) -> ranks_above b m x).
Proof.
  intros Hover. cbv zeta.
  assert (Hr : forall m, In m (top_moves b) -> Board.in_range b (fst m) (snd m) = true).
  { intros m Hm. apply top_moves_incl, valid_moves_In in Hm. exact (proj1 Hm). }
  pose proof (find_first_such b (Board.current_player b) (top_moves b) Hr) as Hwin.
  pose proof (find_rev_last_such b (- Board.current_player b) (top_moves b) Hr) as Hblk.
  unfold choose.
  pose proof (scan_forced_fst b (top_moves b) None) as Hfst.
  pose proof (scan_forced_snd b (top_moves b) None) as Hsnd.
  destruct (PureMCTS.scan_forced b (top_moves b) None) as [w blk]. cbn [fst snd] in *.
  destruct (find (fun m => Pure.is_winning_move b m (Board.current_player b)) (top_moves b))
    as [w0|] eqn:Ew; subst w.
  - exists w0. split; [reflexivity|].
    assert (Hin : In w0 (top_moves b)) by (apply find_some in Ew; exact (proj1 Ew)).
    split; [exact Hin|]. split; [intros _; exact Hwin|].
    destruct Hwin as (pre & post & El & H5 & _).
    split.
    + intros Hnone _. exfalso. exact (Hnone w0 Hin H5).
    + intros Hnone. exfalso. exact (proj1 (Hnone w0 Hin) H5).
  - specialize (Hsnd eq_refl).
    destruct (find (fun m => Pure.is_winning_move b m (- Board.current_player b))
                   (rev (top_moves b))) as [m0|] eqn:Eb; subst blk.
    + exists m0. split; [reflexivity|].
      assert (Hin : In m0 (top_moves b)).
      { apply find_some in Eb. apply in_rev. exact (proj1 Eb). }
      split; [exact Hin|]. split.
      * intros (w & Hw & H5). exfalso. exact (Hwin w Hw H5).
      * split; [intros _ _; exact Hblk|].
        intros Hnone. exfalso. destruct Hblk as (pre & post & El & H5 & _).
        exact (proj2 (Hnone m0 Hin) H5).
    + pose proof (top_moves_nonempty b Hover) as Hne.
      destruct (sort_desc int_scored_ltb
                  (map (fun move => (MCTS._quick_evaluate_move b move, move)) (top_moves b)))
        as [|[sc m] t] eqn:Es.
      * exfalso.
        pose proof (sort_desc_perm _ int_scored_ltb
                      (map (fun move => (MCTS._quick_evaluate_move b move, move))
                           (top_moves b))) as Hp.
        rewrite Es in Hp. apply Permutation_sym, Permutation_nil in Hp.
        apply map_eq_nil in Hp. contradiction.
      * exists m. split; [reflexivity|].
        assert (Hhead : In (sc, m)
                           (map (fun move => (MCTS._quick_evaluate_move b move, move))
                                (top_moves b))).
        { apply (Permutation_in (sc, m)
                   (Permutation_sym (sort_desc_perm _ int_scored_ltb _))).
          rewrite Es. left. reflexivity. }
        apply in_map_iff in Hhead. destruct Hhead as (m' & Em & Hin).
        inversion Em; subst m' sc.
        split; [exact Hin|]. split.
        -- intros (w & Hw & H5). exfalso. exact (Hwin w Hw H5).
        -- split; [intros _ (w & Hw & H5); exfalso; exact (Hblk w Hw H5)|].
           intros _ x Hx.
           pose proof (sort_desc_head_greatest _ int_scored_ltb _
                         int_scored_ltb_asym int_scored_ltb_trans _ _ Es
                         (MCTS._quick_evaluate_move b x, x)
                         (in_map _ _ _ Hx)) as Hge.
           unfold int_scored_ltb, move_ltb in Hge. cbn [fst snd] in Hge.
           unfold ranks_above.
           destruct (Z.eqb_spec (MCTS._quick_evaluate_move b m)
                                (MCTS._quick_evaluate_move b x)) as [E|N].
           ++ apply orb_false_iff in Hge. destruct Hge as [H1 H2].
              apply Z.ltb_ge in H1. apply andb_false_iff in H2.
              rewrite Z.eqb_neq, Z.ltb_ge in H2. lia.
           ++ apply Z.ltb_ge in Hge. lia.
Qed.

(** ** One round and the whole loop *)

Lemma nth_error_update_eq (A : Type) (f : A -> A) (n : nat) (l : list A) (x : A) :
  nth_error l n = Some x -> nth_error (update n f l) n = Some (f x).
Proof.
  revert n. induction l as [|y l IH]; intros [|n]; cbn [nth_error update];
    try discriminate.
  - intros [= ->]. reflexivity.
  - apply IH.
Qed.

Lemma nth_error_update_neq (A : Type) (f : A -> A) (n m : nat) (l : list A) :
  n <> m -> nth_error (update n f l) m = nth_error l m.
Proof.
  revert n m. induction l as [|y l IH]; intros [|n] [|m] Hne; cbn [nth_error update];
    try reflexivity; try congruence.
  apply IH. congruence.
Qed.

Lemma changes_only_refl (r : ref) (s : Store) : changes_only r s s.
Proof. repeat split; auto. Qed.

Lemma changes_only_trans (r : ref) (s1 s2 s3 : Store) :
  changes_only r s1 s2 -> changes_only r s2 s3 -> changes_only r s1 s3.
Proof.
  intros (N1 & L1 & H1) (N2 & L2 & H2). split; [congruence|]. split; [lia|].
  intros r0 x Hne Hx. apply H2; [exact Hne|]. apply H1; assumption.
Qed.

Lemma grows_changes_only (r : ref) (s s' : Store) : grows s s' -> changes_only r s s'.
Proof.
  intros [[e He] Hn]. split; [exact Hn|]. split; [rewrite He, length_app; lia|].
  intros r0 x _ Hx. eapply holds_grows_boards; [exact Hx|]. exists e. exact He.
Qed.

Lemma chosen_move_runs (b : Board.t) (s : Store) :
  (match PureMCTS.scan_forced b (top_moves b) None with
   | (Some winning_move, _) => ret winning_move
   | (None, Some blocking_move) => ret blocking_move
   | (None, None) =>
       match sort_desc int_scored_ltb
               (map (fun move => (MCTS._quick_evaluate_move b move, move)) (top_moves b))
       with
       | (_, move) :: _ => ret move
       | [] => raise IndexError
       end
   end) s
  = match choose b with
    | Some m => (Val m, s)
    | None => (Exn IndexError, s)
    end.
Proof.
  unfold choose.
  destruct (PureMCTS.scan_forced b (top_moves b) None) as [[w|] [m|]]; try reflexivity.
  destruct (sort_desc int_scored_ltb _) as [|[sc m] t]; reflexivity.
Qed.

Lemma rollout_round (fuel : nat) (s : Store) (r : ref) (b : Board.t) :
  holds s r b ->
  Board.is_game_over b = false ->
  exists m s1,
    choose b = Some m /\
    MCTS.rollout (S fuel) r s = MCTS.rollout fuel r s1 /\
    holds s1 r (Board.make_move b m) /\
    changes_only r s s1.
Proof.
  intros Hb Hover.
  destruct (choose_spec b Hover) as (m & Hchoose & Hin & _).
  destruct (scan_forced_yields r b (top_moves b) s None Hb) as (s0 & Hscan & G0).
  set (s1 := mk_store (update r (fun b0 => Board.make_move b0 m) (boards s0)) (nodes s0)).
  exists m, s1. split; [exact Hchoose|].
  assert (Hb0 : holds s0 r b) by (eapply holds_grows; eauto).
  split; [|split].
  - cbn [MCTS.rollout].
    rewrite (bind_val _ _ (read r) _ s b s)
      by (unfold read; rewrite (holds_deref s r b Hb); reflexivity).
    rewrite Hover. cbv zeta.
    pose proof (top_moves_nonempty b Hover) as Hne.
    unfold top_moves in Hne, Hscan. cbv zeta in Hne, Hscan.
    destruct (Board.get_valid_moves b) as [|m0 ms] eqn:Ev; [contradiction|].
    rewrite (bind_val _ _ _ _ s _ s0 Hscan).
    assert (Hchosen := chosen_move_runs b s0). unfold top_moves in Hchosen.
    cbv zeta in Hchosen. rewrite Ev, Hchoose in Hchosen.
    rewrite (bind_val _ _ _ _ s0 m s0 Hchosen).
    rewrite (bind_val _ _ (make_move r m) _ s0 tt s1 eq_refl).
    reflexivity.
  - unfold holds, s1. cbn [boards].
    exact (nth_error_update_eq _ (fun b0 => Board.make_move b0 m) r (boards s0) b Hb0).
  - apply (changes_only_trans r s s0 s1); [apply grows_changes_only; exact G0|].
    unfold s1. split; [reflexivity|]. cbn [boards]. split; [rewrite update_length; lia|].
    intros r0 x Hne Hx. unfold holds. cbn [boards].
    rewrite nth_error_update_neq by congruence. exact Hx.
Qed.

(** *** Placing a stone on a well-formed board *)

Lemma update_In (A : Type) (f : A -> A) (n : nat) (l : list A) (x : A) :
  In x (update n f l) -> In x l \/ exists y, In y l /\ x = f y.
Proof.
  revert n. induction l as [|y l IH]; intros [|n]; cbn [update In]; try tauto.
  - intros [<-|H]; [right; exists y; auto|auto].
  - intros [<-|H]; [auto|]. destruct (IH n H) as [H'|(z & Hz & E)]; [auto|].
    right. exists z. auto.
Qed.

Lemma make_move_well_formed (b : Board.t) (m : Move) :
  well_formed b -> well_formed (Board.make_move b m).
Proof.
  intros [Hrows Hcols]. unfold well_formed, Board.make_move. cbn [Board.board Board.size].
  split; [rewrite update_length; exact Hrows|].
  intros row Hrow. apply update_In in Hrow.
  destruct Hrow as [Hrow|(y & Hy & ->)]; [auto|].
  rewrite update_length. auto.
Qed.

Lemma get_make_move_same (b : Board.t) (m : Move) :
  well_formed b ->
  Board.in_range b (fst m) (snd m) = true ->
  Board.get (Board.make_move b m) (fst m) (snd m) = Board.current_player b.
Proof.
  intros [Hrows Hcols] Hin. apply in_range_bounds in Hin.
  unfold Board.get, Board.make_move. cbn [Board.board].
  assert (Hi : (Z.to_nat (fst m) < length (Board.board b))%nat) by lia.
  rewrite nth_update_eq by exact Hi.
  apply nth_update_eq.
  rewrite (Hcols (nth (Z.to_nat (fst m)) (Board.board b) [])); [lia|].
  apply nth_In. exact Hi.
Qed.

Lemma get_make_move_other (b : Board.t) (m : Move) (x y : Z) :
  (Z.to_nat x, Z.to_nat y) <> (Z.to_nat (fst m), Z.to_nat (snd m)) ->
  Board.get (Board.make_move b m) x y = Board.get b x y.
Proof.
  intros Hne.
  exact (get_set_other b (fst m) (snd m) (Board.current_player b) x y Hne).
Qed.

Lemma make_move_extends (b : Board.t) (m : Move) :
  Board.get b (fst m) (snd m) = 0 -> extends b (Board.make_move b m).
Proof.
  intros He. split; [reflexivity|]. intros i j Hs.
  apply get_make_move_other. intros [= Hi Hj]. apply Hs.
  unfold Board.get in *. rewrite Hi, Hj. exact He.
Qed.

Lemma extends_trans (b1 b2 b3 : Board.t) : extends b1 b2 -> extends b2 b3 -> extends b1 b3.
Proof.
  intros [S1 H1] [S2 H2]. split; [congruence|]. intros i j Hs.
  rewrite H2; [apply H1; exact Hs|]. rewrite H1; exact Hs.
Qed.

Lemma filter_length_strict (A : Type) (f g : A -> bool) (l : list A) (m : A) :
  (forall x, In x l -> g x = true -> f x = true) ->
  In m l -> f m = true -> g m = false ->
  (length (filter g l) < length (filter f l))%nat.
Proof.
  intros Hle.
  assert (Hweak : forall l', (forall x, In x l' -> g x = true -> f x = true) ->
                             (length (filter g l') <= length (filter f l'))%nat).
  { induction l' as [|x l' IH]; intros H; cbn [filter]; [lia|].
    assert (IH' := IH (fun y Hy => H y (or_intror Hy))).
    destruct (g x) eqn:Eg.
    - rewrite (H x (or_introl eq_refl) Eg). cbn [length]. lia.
    - destruct (f x); cbn [length]; lia. }
  induction l as [|x l IH]; intros Hin Hf Hg; [destruct Hin|].
  cbn [filter]. destruct Hin as [->|Hin].
  - rewrite Hf, Hg. cbn [length].
    pose proof (Hweak l (fun y Hy => Hle y (or_intror Hy))). lia.
  - assert (IH' := IH (fun y Hy => Hle y (or_intror Hy)) Hin Hf Hg).
    destruct (g x) eqn:Eg.
    + rewrite (Hle x (or_introl eq_refl) Eg). cbn [length]. lia.
    + destruct (f x); cbn [length]; lia.
Qed.

Lemma make_move_fills (b : Board.t) (m : Move) :
  well_formed b ->
  Board.current_player b <> 0 ->
  In m (Board.get_valid_moves b) ->
  (length (Board.get_valid_moves (Board.make_move b m))
   < length (Board.get_valid_moves b))%nat.
Proof.
  intros Hwf Hp Hm. apply valid_moves_In in Hm as [Hin He].
  unfold Board.get_valid_moves.
  change (Board.cells (Board.make_move b m)) with (Board.cells b).
  apply (filter_length_strict _ _ _ _ m).
  - intros x _ H. apply Z.eqb_eq in H. apply Z.eqb_eq.
    destruct (Z.eq_dec (Board.get b (fst x) (snd x)) 0) as [E|N]; [exact E|].
    rewrite (proj2 (make_move_extends b m He) _ _ N) in H. contradiction.
  - apply cells_In. exact Hin.
  - apply Z.eqb_eq. exact He.
  - apply Z.eqb_neq. rewrite (get_make_move_same b m Hwf Hin). exact Hp.
Qed.

Lemma rollout_runs (fuel : nat) :
  forall (s : Store) (r : ref) (b : Board.t),
  holds s r b ->
  well_formed b ->
  Board.current_player b <> 0 ->
  (length (Board.get_valid_moves b) < fuel)%nat ->
  exists s' b',
    MCTS.rollout fuel r s = (Val tt, s') /\
    holds s' r b' /\
    Board.is_game_over b' = true /\
    extends b b' /\
    changes_only r s s'.
Proof.
  induction fuel as [|fuel IH]; intros s r b Hb Hwf Hp Hf; [lia|].
  destruct (Board.is_game_over b) eqn:Hover.
  - exists s, b. split.
    + cbn [MCTS.rollout].
      rewrite (bind_val _ _ (read r) _ s b s)
        by (unfold read; rewrite (holds_deref s r b Hb); reflexivity).
      rewrite Hover. reflexivity.
    + split; [exact Hb|]. split; [exact Hover|].
      split; [split; [reflexivity|auto]|apply changes_only_refl].
  - destruct (rollout_round fuel s r b Hb Hover) as (m & s1 & Hchoose & Hrun & Hb1 & C1).
    destruct (choose_spec b Hover) as (m' & Hchoose' & Hin & _).
    rewrite Hchoose in Hchoose'. inversion Hchoose'; subst m'.
    apply top_moves_incl in Hin.
    destruct (IH s1 r (Board.make_move b m) Hb1 (make_move_well_formed b m Hwf))
      as (s' & b' & Hrun' & Hb' & Hover' & Hext & C').
    + cbn [Board.make_move Board.current_player]. lia.
    + pose proof (make_move_fills b m Hwf Hp Hin). lia.
    + exists s', b'. rewrite Hrun. split; [exact Hrun'|]. split; [exact Hb'|].
      split; [exact Hover'|]. split.
      * apply (extends_trans b (Board.make_move b m) b'); [|exact Hext].
        apply make_move_extends. apply valid_moves_In in Hin. exact (proj2 Hin).
      * apply (changes_only_trans r s s1 s'); assumption.
Qed.

(** The rollout computes [playout]. *)
Lemma rollout_playout (fuel : nat) :
  forall (s : Store) (r : ref) (b : Board.t) (s' : Store),
  holds s r b ->
  MCTS.rollout fuel r s = (Val tt, s') ->
  holds s' r (playout fuel b).
Proof.
  induction fuel as [|fuel IH]; intros s r b s' Hb Hrun.
  - cbn [MCTS.rollout] in Hrun. unfold ret in Hrun. inversion Hrun. subst s'. exact Hb.
  - cbn [playout]. destruct (Board.is_game_over b) eqn:Hover.
    + cbn [MCTS.rollout] in Hrun.
      rewrite (bind_val _ _ (read r) _ s b s) in Hrun
        by (unfold read; rewrite (holds_deref s r b Hb); reflexivity).
      rewrite Hover in Hrun. unfold ret in Hrun. inversion Hrun. subst s'. exact Hb.
    + destruct (rollout_round fuel s r b Hb Hover) as (m & s1 & Hchoose & Hstep & Hb1 & _).
      rewrite Hchoose. rewrite Hstep in Hrun.
      exact (IH s1 r (Board.make_move b m) s' Hb1 Hrun).
Qed.

Lemma well_formed_check (b : Board.t) :
  (length (Board.board b) =? Z.to_nat (Board.size b))%nat
  && forallb (fun row => (length row =? Z.to_nat (Board.size b))%nat) (Board.board b)
  = true ->
  well_formed b.
Proof.
  intros H. apply andb_true_iff in H. destruct H as [H1 H2].
  apply Nat.eqb_eq in H1. rewrite forallb_forall in H2.
  split; [exact H1|]. intros row Hrow. apply Nat.eqb_eq. apply H2. exact Hrow.
Qed.

(** X20: one round of the rollout.  On a position that is not over the
    round looks at the first six of [board.get_valid_moves()] only and
    plays one of them: the first that completes five in a row for the
    player to move; if there is none, the last one that would complete
    five for the opponent; and if there is none either, the one with the
    greatest quick score, the greatest coordinates deciding between
    equal scores.  The stone is placed on the rollout's own board. *)
Theorem rollout_round_choice (s : Store) (r : ref) (b : Board.t) :
  holds s r b ->
  Board.is_game_over b = false ->
  exists m s',
    MCTS.rollout 1 r s = (Val tt, s') /\
    holds s' r (Board.make_move b m) /\
    changes_only r s s' /\
    In m (top_moves b) /\
    ((exists w, In w (top_moves b) /\ completes_five b w (Board.current_player b)) ->
     first_such Move (fun x => completes_five b x (Board.current_player b))
                (top_moves b) m) /\
    ((forall w, In w (top_moves b) -> ~ completes_five b w (Board.current_player b)) ->
     (exists w, In w (top_moves b) /\ completes_five b w (- Board.current_player b)) ->
     last_such Move (fun x => completes_five b x (- Board.current_player b))
               (top_moves b) m) /\
    ((forall w, In w (top_moves b) ->
                ~ completes_five b w (Board.current_player b) /\
                ~ completes_five b w (- Board.current_player b)) ->
     forall x, In x (top_moves b) -> ranks_above b m x).
Proof.
  intros Hb Hover.
  destruct (rollout_round O s r b Hb Hover) as (m & s1 & Hchoose & Hrun & Hb1 & C1).
  destruct (choose_spec b Hover) as (m' & Hchoose' & Hin & Hcases).
  rewrite Hchoose in Hchoose'. inversion Hchoose'; subst m'.
  exists m, s1. split; [rewrite Hrun; reflexivity|].
  split; [exact Hb1|]. split; [exact C1|]. split; [exact Hin|exact Hcases].
Qed.

Lemma rollout_round_choice_witness :
  exists m s',
    MCTS.rollout 1 O (mk_store [quiet_board] []) = (Val tt, s') /\
    holds s' O (Board.make_move quiet_board m) /\
    changes_only O (mk_store [quiet_board] []) s' /\
    In m (top_moves quiet_board) /\
    ((exists w, In w (top_moves quiet_board) /\
                completes_five quiet_board w (Board.current_player quiet_board)) ->
     first_such Move (fun x => completes_five quiet_board x (Board.current_player quiet_board))
                (top_moves quiet_board) m) /\
    ((forall w, In w (top_moves quiet_board) ->
                ~ completes_five quiet_board w (Board.current_player quiet_board)) ->
     (exists w, In w (top_moves quiet_board) /\
                completes_five quiet_board w (- Board.current_player quiet_board)) ->
     last_such Move
       (fun x => completes_five quiet_board x (- Board.current_player quiet_board))
       (top_moves quiet_board) m) /\
    ((forall w, In w (top_moves quiet_board) ->
                ~ completes_five quiet_board w (Board.current_player quiet_board) /\
                ~ completes_five quiet_board w (- Board.current_player quiet_board)) ->
     forall x, In x (top_moves quiet_board) -> ranks_above quiet_board m x).
Proof.
  apply (rollout_round_choice (mk_store [quiet_board] []) O quiet_board).
  - reflexivity.
  - vm_compute. reflexivity.
Defined.

(** X21: the rollout ends with a finished game.  Started on its own copy
    of a well-formed board, with the bound the search loop gives it, the
    loop [while not board_state.is_game_over()] neither raises nor runs
    out: it stops on a position for which [is_game_over()] holds.  That
    position has every stone of the start position, no node object was
    touched, and no board object other than the rollout's own was
    changed. *)
Theorem rollout_finishes_game (s : Store) (r : ref) (b : Board.t) :
  holds s r b ->
  well_formed b ->
  Board.current_player b <> 0 ->
  exists s' b',
    MCTS.rollout (S (length (Board.get_valid_moves b))) r s = (Val tt, s') /\
    holds s' r b' /\
    Board.is_game_over b' = true /\
    extends b b' /\
    changes_only r s s'.
Proof.
  intros Hb Hwf Hp. apply (rollout_runs _ s r b Hb Hwf Hp). lia.
Qed.

Lemma rollout_finishes_game_witness :
  exists s' b',
    MCTS.rollout (S (length (Board.get_valid_moves four_board))) O
                 (mk_store [four_board] []) = (Val tt, s') /\
    holds s' O b' /\
    Board.is_game_over b' = true /\
    extends four_board b' /\
    changes_only O (mk_store [four_board] []) s'.
Proof.
  apply (rollout_finishes_game (mk_store [four_board] []) O four_board).
  - reflexivity.
  - apply well_formed_check. vm_compute. reflexivity.
  - discriminate.
Defined.
(* ================================================================== *)
(** * The search loop keeps the trees well formed *)

Lemma holds_unique (s : Store) (r : ref) (x y : Board.t) :
  holds s r x -> holds s r y -> x = y.
Proof. unfold holds. intros H1 H2. congruence. Qed.

Lemma tree_inv_weaken (e1 e2 : ref -> Prop) (s : Store) :
  (forall n, e1 n -> e2 n) -> tree_inv e1 s -> tree_inv e2 s.
Proof.
  intros He [Hp Hn]. split; [exact Hp|]. intros n Hlt.
  destruct (Hn n Hlt) as (Hb & Hv & Hc & Hch).
  split; [exact Hb|]. split; [exact Hv|]. split.
  - intros H. destruct (Hc H); auto.
  - intros c Hin. destruct (Hch c Hin) as (H1 & H2 & [H3|H3]); auto.
Qed.

(** The invariant does not depend on boards that no node refers to. *)
Lemma tree_inv_frame (exempt : ref -> Prop) (s s' : Store) :
  nodes s' = nodes s ->
  (forall r0 x, (r0 < length (boards s))%nat -> holds s r0 x -> holds s' r0 x) ->
  tree_inv exempt s -> tree_inv exempt s'.
Proof.
  intros Hn Hb [Hp Hall].
  assert (Hat : forall k, node_at s' k = node_at s k)
    by (intros k; unfold node_at; rewrite Hn; reflexivity).
  split.
  - intros n p Hlt Hpar. rewrite Hn in Hlt. rewrite Hat in Hpar. exact (Hp n p Hlt Hpar).
  - intros n Hlt. rewrite Hn in Hlt |- *. rewrite Hat.
    destruct (Hall n Hlt) as ((b & Hh & Hrest) & Hv & Hc & Hch).
    split; [|split; [exact Hv|split; [exact Hc|]]].
    + exists b. split; [apply Hb; [apply (holds_valid s _ b Hh)|exact Hh]|].
      destruct Hrest as (H1 & H2 & H3 & H4 & H5).
      split; [exact H1|]. split; [exact H2|]. split; [exact H3|]. split; [exact H4|].
      intros c Hin. rewrite Hat. apply H5. exact Hin.
    + intros c Hin. rewrite Hat. apply Hch. exact Hin.
Qed.

Lemma path_of_child (s : Store) (n c : ref) :
  parents_below s ->
  (c < length (nodes s))%nat ->
  parent (node_at s c) = Some n ->
  path_to_root s c = c :: path_to_root s n.
Proof.
  intros Hp Hc Hpar. unfold path_to_root.
  replace (lineage (S c) s c) with (c :: lineage c s n)
    by (cbn [lineage]; rewrite Hpar; reflexivity).
  f_equal. pose proof (Hp c n Hc Hpar) as Hlt.
  apply lineage_fuel_irrelevant; [exact Hp|lia|lia|lia].
Qed.

Lemma path_self (s : Store) (n : ref) : In n (path_to_root s n).
Proof. unfold path_to_root. cbn [lineage]. left. reflexivity. Qed.

Lemma select_child_returns (math_log : float -> float) (s : Store) (self : ref) :
  1 <= visits (node_at s self) ->
  children (node_at s self) <> [] ->
  (forall x, In x (children (node_at s self)) -> visits (node_at s x) <> 0) ->
  exists c, Node.select_child math_log self s = (Val c, s) /\
            In c (children (node_at s self)).
Proof.
  intros Hv Hne Hall. unfold Node.select_child.
  rewrite (bind_val _ _ (get_node self) _ s (node_at s self) s eq_refl).
  rewrite (bind_val _ _ _ _ s _ s (mapM_ucb_all math_log _ _ s Hv Hall)).
  set (keyed := map (fun x => (ucb_key math_log (node_at s self) (node_at s x), x))
                    (children (node_at s self))).
  assert (Hk : keyed <> []).
  { unfold keyed. destruct (children (node_at s self)); [congruence|discriminate]. }
  destruct (rev_head_last _ (sorted PyFloat.ltb fst keyed) (PyFloat.inf, O)
              (sorted_nonempty_float _ fst keyed Hk)) as (t & Hrev).
  rewrite Hrev.
  set (top := last (sorted PyFloat.ltb fst keyed) (PyFloat.inf, O)) in *.
  assert (Htop : In top keyed).
  { apply (sorted_In_float _ fst). unfold top.
    destruct (exists_last (sorted_nonempty_float _ fst keyed Hk)) as (l' & a & E).
    rewrite E, last_last. apply in_or_app. right. left. reflexivity. }
  unfold keyed in Htop. apply in_map_iff in Htop. destruct Htop as (c & Hc & Hin).
  exists c. rewrite <- Hc. split; [reflexivity|exact Hin].
Qed.

(** Selection walks down the tree and stops at a node that has an
    untried move or no child. *)
Lemma select_runs (math_log : float -> float) (root : ref) (s : Store) (fuel : nat) :
  tree_ok s ->
  forall n,
    (n < length (nodes s))%nat ->
    (length (nodes s) - n <= fuel)%nat ->
    In root (path_to_root s n) ->
    exists n',
      MCTS.select math_log fuel n s = (Val n', s) /\
      (n' < length (nodes s))%nat /\
      (untried_moves (node_at s n') <> [] \/ children (node_at s n') = []) /\
      In root (path_to_root s n').
Proof.
  intros Hok. induction fuel as [|fuel IH]; intros n Hn Hf Hroot; [lia|].
  cbn [MCTS.select].
  rewrite (bind_val _ _ (get_node n) _ s (node_at s n) s eq_refl).
  destruct (untried_moves (node_at s n)) as [|u us] eqn:Eu.
  - destruct (children (node_at s n)) as [|c0 cs] eqn:Ec.
    + exists n. split; [reflexivity|]. split; [exact Hn|]. split; [right; exact Ec|exact Hroot].
    + destruct Hok as [Hp Hall].
      destruct (Hall n Hn) as (_ & Hv & Hc & Hch).
      destruct (select_child_returns math_log s n) as (c & Hsel & Hin).
      * rewrite Ec in Hc. destruct Hc as [Hc|[]]; [discriminate|exact Hc].
      * rewrite Ec. discriminate.
      * intros x Hx. destruct (Hch x Hx) as (_ & _ & [H1|[]]). lia.
      * rewrite (bind_val _ _ _ _ s c s Hsel).
        destruct (Hch c Hin) as (Hlt & Hpar & _).
        pose proof (Hp c n Hlt Hpar) as Hnc.
        apply (IH c Hlt); [lia|].
        rewrite (path_of_child s n c Hp Hlt Hpar). right. exact Hroot.
  - exists n. split; [reflexivity|]. split; [exact Hn|].
    split; [left; rewrite Eu; discriminate|exact Hroot].
Qed.

Lemma remove_first_incl (m x : Move) (l : list Move) :
  In x (remove_first m l) -> In x l.
Proof.
  induction l as [|y l IH]; cbn [remove_first]; [intros []|].
  destruct (move_eqb y m); cbn [In]; [auto|]. intros [H|H]; auto.
Qed.

Lemma lineage_same_below (s s2 : Store) (fuel : nat) :
  parents_below s ->
  forall n,
    (n < length (nodes s))%nat ->
    (forall k, (k <= n)%nat -> parent (node_at s2 k) = parent (node_at s k)) ->
    lineage fuel s2 n = lineage fuel s n.
Proof.
  intros Hp. induction fuel as [|fuel IH]; intros n Hn Hsame; [reflexivity|].
  cbn [lineage]. rewrite (Hsame n (Nat.le_refl n)). f_equal.
  destruct (parent (node_at s n)) as [p|] eqn:Ep; [|reflexivity].
  pose proof (Hp n p Hn Ep) as Hlt.
  apply IH; [lia|]. intros k Hk. apply Hsame. lia.
Qed.

(** Expansion: the new child and its parent wait for the
    backpropagation of the round. *)
Lemma expand_runs (s : Store) (n : ref) (mv : Move) (us : list Move) (root : ref) :
  tree_ok s ->
  (n < length (nodes s))%nat ->
  untried_moves (node_at s n) = mv :: us ->
  In root (path_to_root s n) ->
  exists s2,
    Node.add_child n mv s = (Val (length (nodes s)), s2) /\
    tree_inv (fun k => In k (path_to_root s2 (length (nodes s)))) s2 /\
    length (nodes s2) = S (length (nodes s)) /\
    In root (path_to_root s2 (length (nodes s))) /\
    (forall r0 x, holds s r0 x -> holds s2 r0 x) /\
    (forall k, (k < length (nodes s))%nat ->
               board (node_at s2 k) = board (node_at s k) /\
               parent (node_at s2 k) = parent (node_at s k) /\
               visits (node_at s2 k) = visits (node_at s k) /\
               incl (children (node_at s k)) (children (node_at s2 k))) /\
    children (node_at s2 n) <> [] /\
    (forall k, (k < length (nodes s))%nat -> wins (node_at s2 k) = wins (node_at s k)) /\
    wins (node_at s2 (length (nodes s))) = PyFloat.of_int 0 /\
    visits (node_at s2 (length (nodes s))) = 0 /\
    (forall k, (k < length (nodes s))%nat -> k <> n -> node_at s2 k = node_at s k).
Proof.
  intros [Hp Hall] Hn Hu Hroot.
  destruct (Hall n Hn) as ((b & Hb & Hwf & Hcur & Hsize & Hunt & Hmoves) & Hv & Hc & Hch).
  destruct (add_child_runs s n mv b Hn Hb)
    as (s2 & Hrun & Hlen & Hnew & Hnb & Hself & Hother & Hkeep).
  set (L := length (nodes s)) in *.
  exists s2. split; [exact Hrun|].
  (* the fields of the old nodes *)
  assert (Hfields : forall k, (k < L)%nat ->
            board (node_at s2 k) = board (node_at s k) /\
            parent (node_at s2 k) = parent (node_at s k) /\
            move (node_at s2 k) = move (node_at s k) /\
            visits (node_at s2 k) = visits (node_at s k)).
  { intros k Hk. destruct (Nat.eq_dec k n) as [->|Hne].
    - rewrite Hself. repeat split.
    - rewrite (Hother k Hne Hk). repeat split. }
  assert (Hp2 : parents_below s2).
  { intros k p Hk Hpar. rewrite Hlen in Hk.
    destruct (Nat.eq_dec k L) as [->|Hne].
    - rewrite Hnew in Hpar. cbn [parent] in Hpar. inversion Hpar. subst p. exact Hn.
    - assert (Hk' : (k < L)%nat) by lia.
      destruct (Hfields k Hk') as (_ & Hpk & _). rewrite Hpk in Hpar.
      exact (Hp k p Hk' Hpar). }
  assert (HparL : parent (node_at s2 L) = Some n) by (rewrite Hnew; reflexivity).
  assert (HpathL : path_to_root s2 L = L :: path_to_root s n).
  { rewrite (path_of_child s2 n L Hp2 ltac:(lia) HparL). f_equal.
    unfold path_to_root. apply (lineage_same_below s s2 (S n) Hp n Hn).
    intros k Hk. apply (Hfields k). lia. }
  split; [|split; [exact Hlen|split; [rewrite HpathL; right; exact Hroot|
           split; [exact Hkeep|split]]]].
  - (* the invariant *)
    split; [exact Hp2|]. intros k Hk. rewrite Hlen in Hk. rewrite HpathL.
    destruct (Nat.eq_dec k L) as [->|HneL].
    + (* the new child *)
      rewrite Hnew. cbn [board untried_moves children visits].
      split; [|split; [lia|split; [intros H; contradiction|intros c []]]].
      exists (Board.make_move b mv). split; [exact Hnb|].
      split; [apply make_move_well_formed; exact Hwf|].
      split; [cbn [Board.make_move Board.current_player]; lia|].
      split; [exact Hsize|]. split; [|intros c []].
      intros m Hm. apply (pure_get_sorted_moves_incl (Board.make_move b mv) m);
        [exact Hsize|exact Hm].
    + assert (Hk' : (k < L)%nat) by lia.
      destruct (Nat.eq_dec k n) as [->|Hnen].
      * (* the expanded node *)
        rewrite Hself.
        cbn [with_children with_untried_moves board untried_moves children visits].
        split; [|split; [exact Hv|split]].
        -- exists b. split; [apply Hkeep; exact Hb|]. split; [exact Hwf|].
           split; [exact Hcur|]. split; [exact Hsize|]. split.
           ++ intros m Hm. apply Hunt. apply (remove_first_incl mv m _ Hm).
           ++ intros c Hin. apply in_app_or in Hin. destruct Hin as [Hin|[<-|[]]].
              ** destruct (Hch c Hin) as (Hlt & _ & _).
                 destruct (Hfields c Hlt) as (_ & _ & Hm & _). rewrite Hm.
                 apply Hmoves. exact Hin.
              ** rewrite Hnew. cbn [move]. exists mv. split; [reflexivity|].
                 apply Hunt. rewrite Hu. left. reflexivity.
        -- intros _. right. right. apply path_self.
        -- intros c Hin. apply in_app_or in Hin. destruct Hin as [Hin|[<-|[]]].
           ++ destruct (Hch c Hin) as (Hlt & Hpar & Hvis).
              destruct (Hfields c Hlt) as (_ & Hpc & _ & Hvc). rewrite Hpc, Hvc, Hlen.
              split; [lia|]. split; [exact Hpar|].
              destruct Hvis as [Hvis|[]]. left. exact Hvis.
           ++ rewrite Hlen. split; [lia|]. split; [exact HparL|].
              right. left. reflexivity.
      * (* the other nodes *)
        rewrite (Hother k Hnen Hk').
        destruct (Hall k Hk') as ((bk & Hbk & Hwfk & Hcurk & Hsizek & Huntk & Hmovesk)
                                  & Hvk & Hck & Hchk).
        split; [|split; [exact Hvk|split]].
        -- exists bk. split; [apply Hkeep; exact Hbk|]. split; [exact Hwfk|].
           split; [exact Hcurk|]. split; [exact Hsizek|]. split; [exact Huntk|].
           intros c Hin. destruct (Hchk c Hin) as (Hlt & _ & _).
           destruct (Hfields c Hlt) as (_ & _ & Hm & _). rewrite Hm.
           apply Hmovesk. exact Hin.
        -- intros Hne. destruct (Hck Hne) as [H1|[]]. left. exact H1.
        -- intros c Hin. destruct (Hchk c Hin) as (Hlt & Hpar & Hvis).
           destruct (Hfields c Hlt) as (_ & Hpc & _ & Hvc). rewrite Hpc, Hvc, Hlen.
           split; [lia|]. split; [exact Hpar|].
           destruct Hvis as [Hvis|[]]. left. exact Hvis.
  - intros k Hk. destruct (Hfields k Hk) as (H1 & H2 & _ & H4).
    split; [exact H1|]. split; [exact H2|]. split; [exact H4|].
    destruct (Nat.eq_dec k n) as [->|Hne].
    + rewrite Hself. cbn [with_children children]. apply incl_appl, incl_refl.
    + rewrite (Hother k Hne Hk). apply incl_refl.
  - split.
    + rewrite Hself. cbn [with_children children].
      destruct (children (node_at s n)); discriminate.
    + split; [|rewrite Hnew; split; [reflexivity|split; [reflexivity|]]].
      * intros k Hk. destruct (Nat.eq_dec k n) as [->|Hne].
        -- rewrite Hself. reflexivity.
        -- rewrite (Hother k Hne Hk). reflexivity.
      * intros k Hk Hne. apply (Hother k Hne Hk).
Qed.

Lemma select_stops (math_log : float -> float) (s : Store) (fuel : nat) (n : ref) :
  untried_moves (node_at s n) <> [] ->
  MCTS.select math_log fuel n s = (Val n, s).
Proof.
  intros Hu. destruct fuel as [|fuel]; [reflexivity|]. cbn [MCTS.select].
  rewrite (bind_val _ _ (get_node n) _ s (node_at s n) s eq_refl).
  destruct (untried_moves (node_at s n)); [contradiction|reflexivity].
Qed.

Lemma mem_lineage (k : ref) (l : list ref) : existsb (Nat.eqb k) l = true <-> In k l.
Proof.
  rewrite existsb_exists. split.
  - intros (x & Hx & E). apply Nat.eqb_eq in E. subst x. exact Hx.
  - intros H. exists k. split; [exact H|apply Nat.eqb_refl].
Qed.

(** Backpropagation along the exempted path restores the invariant. *)
Lemma backprop_restores (s s5 : Store) (path : list ref) (rw : float) :
  tree_inv (fun k => In k path) s ->
  boards s5 = boards s ->
  length (nodes s5) = length (nodes s) ->
  (forall k, node_at s5 k
             = if existsb (Nat.eqb k) path then visited rw (node_at s k) else node_at s k) ->
  tree_ok s5.
Proof.
  intros [Hp Hall] Hb Hlen Hat.
  assert (Hfields : forall k,
            board (node_at s5 k) = board (node_at s k) /\
            parent (node_at s5 k) = parent (node_at s k) /\
            move (node_at s5 k) = move (node_at s k) /\
            children (node_at s5 k) = children (node_at s k) /\
            untried_moves (node_at s5 k) = untried_moves (node_at s k) /\
            visits (node_at s5 k)
            = if existsb (Nat.eqb k) path then visits (node_at s k) + 1
              else visits (node_at s k)).
  { intros k. rewrite Hat. destruct (existsb (Nat.eqb k) path); repeat split. }
  assert (Hholds : forall r x, holds s r x -> holds s5 r x).
  { intros r x Hx. unfold holds. rewrite Hb. exact Hx. }
  split.
  - intros k p Hk Hpar. rewrite Hlen in Hk.
    destruct (Hfields k) as (_ & Hpk & _). rewrite Hpk in Hpar. exact (Hp k p Hk Hpar).
  - intros k Hk. rewrite Hlen in Hk |- *.
    destruct (Hall k Hk) as ((b & Hbk & Hwf & Hcur & Hsize & Hunt & Hmoves)
                             & Hv & Hc & Hch).
    destruct (Hfields k) as (Fb & _ & _ & Fc & Fu & Fv).
    rewrite Fb, Fc, Fu, Fv.
    split; [|split; [|split]].
    + exists b. split; [apply Hholds; exact Hbk|]. split; [exact Hwf|].
      split; [exact Hcur|]. split; [exact Hsize|]. split; [exact Hunt|].
      intros c Hin. destruct (Hfields c) as (_ & _ & Fm & _). rewrite Fm.
      apply Hmoves. exact Hin.
    + destruct (existsb (Nat.eqb k) path); lia.
    + intros Hne. left. destruct (existsb (Nat.eqb k) path) eqn:E; [lia|].
      destruct (Hc Hne) as [H1|H1]; [exact H1|].
      apply mem_lineage in H1. congruence.
    + intros c Hin. destruct (Hch c Hin) as (Hlt & Hpar & Hvis).
      destruct (Hfields c) as (_ & Fp & _ & _ & _ & Fvc). rewrite Fp, Fvc.
      split; [exact Hlt|]. split; [exact Hpar|]. left.
      destruct (Hall c Hlt) as (_ & Hvc & _).
      destruct (existsb (Nat.eqb c) path) eqn:E; [lia|].
      destruct Hvis as [H1|H1]; [exact H1|].
      apply mem_lineage in H1. congruence.
Qed.

(** Simulation and backpropagation from [node]. *)
Lemma simulate_runs (s2 : Store) (node root : ref) :
  tree_inv (fun k => In k (path_to_root s2 node)) s2 ->
  (node < length (nodes s2))%nat ->
  In root (path_to_root s2 node) ->
  exists s5,
    (nd <- get_node node ;;
     board_state <- copy (board nd) ;;
     bs <- read board_state ;;
     let current_player := Board.current_player bs in
     MCTS.rollout (S (length (Board.get_valid_moves bs))) board_state ;;;
     bs <- read board_state ;;
     let result := Board.check_win bs in
     bound <- node_count ;;
     MCTS.backpropagate bound (Some node) result current_player) s2 = (Val tt, s5) /\
    tree_ok s5 /\
    length (nodes s5) = length (nodes s2) /\
    (forall r0 x, holds s2 r0 x -> holds s5 r0 x) /\
    visits (node_at s5 root) = visits (node_at s2 root) + 1 /\
    (forall k, board (node_at s5 k) = board (node_at s2 k) /\
               parent (node_at s5 k) = parent (node_at s2 k) /\
               children (node_at s5 k) = children (node_at s2 k)) /\
    exists bn b',
      holds s2 (board (node_at s2 node)) bn /\
      extends bn b' /\ Board.is_game_over b' = true /\
      (forall k, node_at s5 k
                 = if existsb (Nat.eqb k) (path_to_root s2 node)
                   then visited (MCTS.reward (Board.check_win b') (Board.current_player bn))
                                (node_at s2 k)
                   else node_at s2 k) /\
      b' = playout (S (length (Board.get_valid_moves bn))) bn /\
      well_formed bn /\ Board.current_player bn <> 0 /\
      holds s5 (length (boards s2)) b'.
Proof.
  intros Hinv Hnode Hroot.
  destruct Hinv as [Hp Hall].
  destruct (Hall node Hnode) as ((bn & Hbn & Hwf & Hcur & _) & _).
  (* the copy *)
  set (r := length (boards s2)).
  set (s3 := mk_store (boards s2 ++ [bn]) (nodes s2)).
  assert (Hr3 : holds s3 r bn) by apply holds_new_board.
  (* the rollout *)
  destruct (rollout_runs (S (length (Board.get_valid_moves bn))) s3 r bn Hr3 Hwf Hcur
              ltac:(lia)) as (s4 & b' & Hroll & Hb' & Hover' & Hext & (N4 & L4 & K4)).
  change (nodes s3) with (nodes s2) in N4.
  assert (Hkeep : forall r0 x, holds s2 r0 x -> holds s4 r0 x).
  { intros r0 x Hx. apply K4.
    - pose proof (holds_valid s2 r0 x Hx). unfold r. lia.
    - unfold holds, s3. cbn [boards]. rewrite nth_error_app1; [exact Hx|].
      apply (holds_valid s2 r0 x Hx). }
  assert (Hinv4 : tree_inv (fun k => In k (path_to_root s2 node)) s4).
  { apply (tree_inv_frame _ s2 s4 N4); [|split; assumption].
    intros r0 x _ Hx. apply Hkeep. exact Hx. }
  assert (Hat4 : forall k, node_at s4 k = node_at s2 k)
    by (intros k; unfold node_at; rewrite N4; reflexivity).
  assert (Hp4 : parents_below s4) by exact (proj1 Hinv4).
  assert (Hnode4 : (node < length (nodes s4))%nat) by (rewrite N4; exact Hnode).
  (* the backpropagation *)
  destruct (backpropagate_runs (Board.check_win b') (Board.current_player bn)
              (length (nodes s4)) s4 node Hp4 Hnode4 Hnode4)
    as (s5 & Hback & B5 & L5 & Hat5).
  rewrite (lineage_fuel s4 (length (nodes s4)) Hp4 node Hnode4 Hnode4) in Hat5.
  assert (Hpath : lineage (S node) s4 node = path_to_root s2 node).
  { unfold path_to_root. apply lineage_same_parents. intros k. rewrite Hat4. reflexivity. }
  rewrite Hpath in Hat5.
  exists s5. split.
  - rewrite (bind_val _ _ (get_node node) _ s2 (node_at s2 node) s2 eq_refl).
    rewrite (bind_val _ _ (copy (board (node_at s2 node))) _ s2 r s3)
      by (unfold copy, s3; rewrite (holds_deref s2 _ bn Hbn); reflexivity).
    rewrite (bind_val _ _ (read r) _ s3 bn s3)
      by (unfold read; rewrite (holds_deref s3 r bn Hr3); reflexivity).
    cbv zeta.
    rewrite (bind_val _ _ _ _ s3 tt s4 Hroll).
    rewrite (bind_val _ _ (read r) _ s4 b' s4)
      by (unfold read; rewrite (holds_deref s4 r b' Hb'); reflexivity).
    cbv zeta.
    rewrite (bind_val _ _ node_count _ s4 (length (nodes s4)) s4 eq_refl).
    exact Hback.
  - split; [exact (backprop_restores s4 s5 _ _ Hinv4 B5 L5 Hat5)|].
    split; [rewrite L5, N4; reflexivity|].
    split; [intros r0 x Hx; unfold holds; rewrite B5; apply Hkeep; exact Hx|].
    split.
    + rewrite Hat5. apply mem_lineage in Hroot. rewrite Hroot.
      cbn [visited with_wins with_visits visits]. rewrite Hat4. reflexivity.
    + split.
      * intros k. rewrite Hat5, <- Hat4.
        destruct (existsb (Nat.eqb k) (path_to_root s2 node)); repeat split.
      * exists bn, b'. split; [exact Hbn|]. split; [exact Hext|]. split; [exact Hover'|].
        split; [intros k; rewrite Hat5, Hat4; reflexivity|].
        split; [|split; [exact Hwf|split; [exact Hcur|]]].
        -- apply (holds_unique s4 r); [exact Hb'|].
           exact (rollout_playout _ s3 r bn s4 Hr3 Hroll).
        -- unfold holds. rewrite B5. exact Hb'.
Qed.

(** One round of the search loop. *)
Lemma iteration_runs (math_log : float -> float) (root : ref) (s : Store) :
  tree_ok s ->
  (root < length (nodes s))%nat ->
  exists s',
    MCTS.iteration math_log root s = (Val tt, s') /\
    tree_ok s' /\
    (length (nodes s) <= length (nodes s'))%nat /\
    (forall r0 x, holds s r0 x -> holds s' r0 x) /\
    visits (node_at s' root) = visits (node_at s root) + 1 /\
    board (node_at s' root) = board (node_at s root) /\
    parent (node_at s' root) = parent (node_at s root) /\
    incl (children (node_at s root)) (children (node_at s' root)) /\
    (untried_moves (node_at s root) <> [] -> children (node_at s' root) <> []).
Proof.
  intros Hok Hroot.
  destruct (select_runs math_log root s (length (nodes s)) Hok root Hroot ltac:(lia)
              (path_self s root)) as (n & Hsel & Hn & Hstop & Hpath).
  unfold MCTS.iteration.
  rewrite (bind_val _ _ node_count _ s (length (nodes s)) s eq_refl).
  rewrite (bind_val _ _ _ _ s n s Hsel).
  rewrite (bind_val _ _ (get_node n) _ s (node_at s n) s eq_refl).
  destruct (untried_moves (node_at s n)) as [|mv us] eqn:Eu.
  - (* nothing to expand *)
    rewrite (bind_val _ _ (ret n) _ s n s eq_refl).
    assert (Hinv : tree_inv (fun k => In k (path_to_root s n)) s)
      by (apply (tree_inv_weaken (fun _ => False)); [intros k []|exact Hok]).
    destruct (simulate_runs s n root Hinv Hn Hpath)
      as (s5 & Hrun & Hok5 & L5 & K5 & V5 & F5 & _).
    exists s5. split; [exact Hrun|]. split; [exact Hok5|]. split; [lia|].
    split; [exact K5|]. split; [exact V5|].
    destruct (F5 root) as (Fb & Fp & Fc).
    split; [exact Fb|]. split; [exact Fp|]. split; [rewrite Fc; apply incl_refl|].
    intros Hu. exfalso.
    rewrite (select_stops math_log s (length (nodes s)) root Hu) in Hsel.
    inversion Hsel. subst n. rewrite Eu in Hu. contradiction.
  - (* expansion *)
    destruct (expand_runs s n mv us root Hok Hn Eu Hpath)
      as (s2 & Hadd & Hinv & L2 & Hpath2 & K2 & F2 & Hch2 & _).
    rewrite (bind_val _ _ _ _ s (length (nodes s)) s2 Hadd).
    destruct (simulate_runs s2 (length (nodes s)) root Hinv ltac:(lia) Hpath2)
      as (s5 & Hrun & Hok5 & L5 & K5 & V5 & F5 & _).
    exists s5. split; [exact Hrun|]. split; [exact Hok5|]. split; [lia|].
    split; [intros r0 x Hx; apply K5, K2; exact Hx|].
    destruct (F2 root Hroot) as (Fb2 & Fp2 & Fv2 & Fc2).
    destruct (F5 root) as (Fb & Fp & Fc).
    split; [rewrite V5, Fv2; reflexivity|].
    split; [rewrite Fb, Fb2; reflexivity|]. split; [rewrite Fp, Fp2; reflexivity|].
    split; [rewrite Fc; exact Fc2|].
    intros Hu. rewrite Fc.
    rewrite (select_stops math_log s (length (nodes s)) root Hu) in Hsel.
    inversion Hsel. subst n. exact Hch2.
Qed.

Lemma search_loop_runs (math_log : float -> float) (end_time : float) (root : ref)
      (ticks : list float) :
  forall s,
    tree_ok s ->
    (root < length (nodes s))%nat ->
    exists s',
      MCTS.search_loop math_log ticks end_time root s = (Val (expires end_time ticks), s') /\
      tree_ok s' /\
      (root < length (nodes s'))%nat /\
      (forall r0 x, holds s r0 x -> holds s' r0 x) /\
      visits (node_at s' root)
      = visits (node_at s root) + Z.of_nat (rounds end_time ticks) /\
      board (node_at s' root) = board (node_at s root) /\
      parent (node_at s' root) = parent (node_at s root) /\
      incl (children (node_at s root)) (children (node_at s' root)) /\
      (untried_moves (node_at s root) <> [] -> (0 < rounds end_time ticks)%nat ->
       children (node_at s' root) <> []).
Proof.
  unfold expires.
  induction ticks as [|now ticks IH]; intros s Hok Hroot;
    cbn [MCTS.search_loop existsb rounds].
  - exists s. split; [reflexivity|]. split; [exact Hok|]. split; [exact Hroot|].
    split; [auto|]. split; [lia|]. split; [reflexivity|]. split; [reflexivity|].
    split; [apply incl_refl|]. intros _ H. lia.
  - destruct (PyFloat.ltb now end_time); cbn [negb orb].
    + destruct (iteration_runs math_log root s Hok Hroot)
        as (s1 & Hrun & Hok1 & L1 & K1 & V1 & B1 & P1 & C1 & U1).
      destruct (IH s1 Hok1 ltac:(lia))
        as (s2 & Hrun2 & Hok2 & L2 & K2 & V2 & B2 & P2 & C2 & U2).
      exists s2. rewrite (bind_val _ _ _ _ s tt s1 Hrun).
      split; [exact Hrun2|]. split; [exact Hok2|]. split; [exact L2|].
      split; [intros r0 x Hx; apply K2, K1; exact Hx|].
      split; [rewrite V2, V1; lia|]. split; [congruence|]. split; [congruence|].
      split; [intros c Hc; apply C2, C1; exact Hc|].
      intros Hu _. specialize (U1 Hu).
      destruct (children (node_at s1 root)) as [|c cs] eqn:Ec; [contradiction|].
      intros E. pose proof (C2 c (or_introl eq_refl)) as Hin. rewrite E in Hin.
      destruct Hin.
    + exists s. split; [reflexivity|]. split; [exact Hok|]. split; [exact Hroot|].
      split; [auto|]. split; [lia|]. split; [reflexivity|]. split; [reflexivity|].
      split; [apply incl_refl|]. intros _ H. lia.
Qed.

Lemma last_maximal_In (A : Type) (key : A -> Z) (l : list A) (c : A) :
  last_maximal A key l c -> In c l.
Proof.
  intros (before & after & E & _). rewrite E. apply in_or_app. right. left. reflexivity.
Qed.

(** The second half of [get_move] on a root that has a move to try. *)
Lemma search_runs (math_log : float -> float) (self : MCTS.t) (now : float)
      (ticks : list float) (root : ref) (s : Store) (b : Board.t) :
  tree_ok s ->
  (root < length (nodes s))%nat ->
  holds s (board (node_at s root)) b ->
  untried_moves (node_at s root) <> [] ->
  children (node_at s root) = [] ->
  let end_time := PyFloat.add now (MCTS.time_limit self) in
  exists r s',
    MCTS.search math_log self (now :: ticks) root s = (r, s') /\
    tree_ok s' /\
    (forall r0 x, holds s r0 x -> holds s' r0 x) /\
    visits (node_at s' root) = visits (node_at s root) + Z.of_nat (rounds end_time ticks) /\
    (if expires end_time ticks
     then match rounds end_time ticks with
          | O => r = Exn IndexError
          | S _ => exists m, r = Val (MCTS.Returned (Some m)) /\
                             Board.in_range b (fst m) (snd m) = true /\
                             Board.get b (fst m) (snd m) = 0
          end
     else r = Val MCTS.OutOfTicks).
Proof.
  intros Hok Hroot Hb Hu Hc. cbv zeta.
  set (end_time := PyFloat.add now (MCTS.time_limit self)).
  destruct (search_loop_runs math_log end_time root ticks s Hok Hroot)
    as (s1 & Hloop & Hok1 & L1 & K1 & V1 & B1 & P1 & C1 & U1).
  unfold MCTS.search. fold end_time.
  rewrite (bind_val _ _ _ _ s _ s1 Hloop).
  destruct (expires end_time ticks) eqn:Ex.
  - destruct (rounds end_time ticks) as [|k] eqn:Er.
    + (* no round: the root is as it was *)
      assert (Hsame : s1 = s).
      { destruct ticks as [|t ticks']; cbn [MCTS.search_loop] in Hloop.
        - unfold ret in Hloop. congruence.
        - cbn [rounds] in Er. destruct (PyFloat.ltb t end_time); [discriminate|].
          unfold ret in Hloop. congruence. }
      subst s1. exists (Exn IndexError), s.
      rewrite (bind_exn _ _ _ _ s IndexError s (most_visited_empty s root Hc)).
      split; [reflexivity|]. split; [exact Hok|]. split; [auto|]. split; [lia|reflexivity].
    + assert (Hne : children (node_at s1 root) <> []) by (apply U1; [exact Hu|lia]).
      destruct (most_visited_spec s1 root Hne) as (c & Hmax & Hrun).
      apply last_maximal_In in Hmax.
      destruct Hok1 as [Hp1 Hall1].
      destruct (Hall1 root L1) as ((b1 & Hb1 & _ & _ & _ & _ & Hmoves) & _).
      destruct (Hmoves c Hmax) as (m & Hm & Hin & He).
      assert (Eb : b1 = b).
      { apply (holds_unique s1 (board (node_at s1 root))); [exact Hb1|].
        rewrite B1. apply K1. exact Hb. }
      subst b1.
      exists (Val (MCTS.Returned (Some m))), s1.
      rewrite (bind_val _ _ _ _ s1 _ s1 Hrun). rewrite Hm.
      split; [reflexivity|]. split; [split; assumption|]. split; [exact K1|].
      split; [exact V1|]. exists m. auto.
  - exists (Val MCTS.OutOfTicks), s1. split; [reflexivity|]. split; [exact Hok1|].
    split; [exact K1|]. split; [exact V1|reflexivity].
Qed.

Lemma tree_ok_empty (s : Store) : nodes s = [] -> tree_ok s.
Proof.
  intros H. split.
  - intros n p Hn. rewrite H in Hn. cbn in Hn. lia.
  - intros n Hn. rewrite H in Hn. cbn in Hn. lia.
Qed.

(** Creating a root keeps the trees of the store well formed. *)
Lemma init_root_ok (s s1 : Store) (board_ref : ref) (b : Board.t) :
  tree_ok s ->
  holds s board_ref b ->
  well_formed b -> Board.current_player b <> 0 -> 0 < Board.size b ->
  grows_boards s s1 ->
  nodes s1 = nodes s ++ [PureNode.fresh board_ref b None None] ->
  tree_ok s1.
Proof.
  intros [Hp Hall] Hb Hwf Hcur Hsize G N.
  assert (Hlen : length (nodes s1) = S (length (nodes s)))
    by (rewrite N, length_app; cbn [length]; lia).
  assert (Hold : forall k, (k < length (nodes s))%nat -> node_at s1 k = node_at s k)
    by (intros k Hk; apply (node_at_app_l s s1 _ k N Hk)).
  assert (Hnew : node_at s1 (length (nodes s)) = PureNode.fresh board_ref b None None)
    by (apply (node_at_fresh s s1 _ N)).
  split.
  - intros k p Hk Hpar. rewrite Hlen in Hk.
    destruct (Nat.eq_dec k (length (nodes s))) as [->|Hne].
    + rewrite Hnew in Hpar. discriminate.
    + rewrite Hold in Hpar by lia. apply (Hp k p); [lia|exact Hpar].
  - intros k Hk. rewrite Hlen in Hk.
    destruct (Nat.eq_dec k (length (nodes s))) as [->|Hne].
    + rewrite Hnew. unfold PureNode.fresh. simpl.
      split; [|split; [lia|split; [intros H; contradiction|intros c []]]].
      exists b. split; [eapply holds_grows_boards; eauto|]. split; [exact Hwf|].
      split; [exact Hcur|]. split; [exact Hsize|]. split; [|intros c []].
      intros m Hm. apply (pure_get_sorted_moves_incl b m Hsize Hm).
    + assert (Hk' : (k < length (nodes s))%nat) by lia.
      rewrite (Hold k Hk').
      destruct (Hall k Hk') as ((bk & Hbk & Hwfk & Hcurk & Hsizek & Huntk & Hmovesk)
                                & Hvk & Hck & Hchk).
      split; [|split; [exact Hvk|split; [exact Hck|]]].
      * exists bk. split; [eapply holds_grows_boards; eauto|]. split; [exact Hwfk|].
        split; [exact Hcurk|]. split; [exact Hsizek|]. split; [exact Huntk|].
        intros c Hin. destruct (Hchk c Hin) as (Hlt & _ & _).
        rewrite (Hold c Hlt). apply Hmovesk. exact Hin.
      * intros c Hin. destruct (Hchk c Hin) as (Hlt & Hpar & Hvis).
        rewrite (Hold c Hlt), Hlen. split; [lia|]. split; assumption.
Qed.

(** X22: one round of the search loop.  In a store whose trees are well
    formed ([tree_ok]: parent links point to earlier nodes, untried moves
    and the moves of children are empty cells of the node's board, and
    every node with children, and every child, has been visited at
    least once) a round raises nothing: [select_child] is only reached
    on visited nodes whose children are all visited, so neither its
    division nor [math.log] fails.  The round leaves the trees well
    formed, the root receives exactly one visit, keeps its board and
    its children, and gets a child if it had a move to try; no board
    that existed is changed. *)
Theorem search_round_keeps_tree (math_log : float -> float) (root : ref) (s : Store) :
  tree_ok s ->
  (root < length (nodes s))%nat ->
  exists s',
    MCTS.iteration math_log root s = (Val tt, s') /\
    tree_ok s' /\
    (length (nodes s) <= length (nodes s'))%nat /\
    (forall r0 x, holds s r0 x -> holds s' r0 x) /\
    visits (node_at s' root) = visits (node_at s root) + 1 /\
    board (node_at s' root) = board (node_at s root) /\
    incl (children (node_at s root)) (children (node_at s' root)) /\
    (untried_moves (node_at s root) <> [] -> children (node_at s' root) <> []).
Proof.
  intros Hok Hroot.
  destruct (iteration_runs math_log root s Hok Hroot)
    as (s' & Hrun & Hok' & L & K & V & B & _ & C & U).
  exists s'. auto 10.
Qed.

Lemma four_store_ok : tree_ok four_store /\ (O < length (nodes four_store))%nat.
Proof.
  assert (Hb : holds (mk_store [four_board] []) O four_board) by reflexivity.
  destruct (node_init_runs (mk_store [four_board] []) O four_board None None Hb)
    as (s1 & Hinit & G & N).
  unfold four_store. rewrite Hinit. cbn [snd]. split.
  - apply (init_root_ok (mk_store [four_board] []) s1 O four_board);
      [apply tree_ok_empty; reflexivity|exact Hb| |discriminate|reflexivity|exact G|exact N].
    apply well_formed_check. vm_compute. reflexivity.
  - rewrite N. cbn. lia.
Qed.

Lemma search_round_keeps_tree_witness :
  exists s',
    MCTS.iteration no_log O four_store = (Val tt, s') /\
    tree_ok s' /\
    (length (nodes four_store) <= length (nodes s'))%nat /\
    (forall r0 x, holds four_store r0 x -> holds s' r0 x) /\
    visits (node_at s' O) = visits (node_at four_store O) + 1 /\
    board (node_at s' O) = board (node_at four_store O) /\
    incl (children (node_at four_store O)) (children (node_at s' O)) /\
    (untried_moves (node_at four_store O) <> [] -> children (node_at s' O) <> []).
Proof.
  apply (search_round_keeps_tree no_log O four_store).
  - exact (proj1 four_store_ok).
  - exact (proj2 four_store_ok).
Defined.

(** X23: what [MCTS.get_move] produces on a board with an empty cell.
    In a store with well-formed trees, for a well-formed board with a
    side to move: the call raises neither [ZeroDivisionError] nor
    [ValueError], and changes no board that existed.  It returns a move,
    which then is an empty cell of the board passed in; or it raises
    [IndexError], which happens only when no move is forced and the loop
    is left before its first round; or the loop is still running when
    the clock readings end.  Whenever the loop makes a round and is
    left, a move is returned. *)
Theorem mcts_get_move_contract
  (math_log : float -> float) (self : MCTS.t) (now : float) (ticks : list float)
  (s : Store) (board_ref : ref) (b : Board.t) :
  tree_ok s ->
  holds s board_ref b ->
  well_formed b ->
  Board.current_player b <> 0 ->
  0 < Board.size b ->
  ~ full b ->
  let end_time := PyFloat.add now (MCTS.time_limit self) in
  exists r s',
    MCTS.get_move math_log self (now :: ticks) board_ref s = (r, s') /\
    tree_ok s' /\
    (forall r0 x, holds s r0 x -> holds s' r0 x) /\
    ((exists m, r = Val (MCTS.Returned (Some m)) /\
                Board.in_range b (fst m) (snd m) = true /\
                Board.get b (fst m) (snd m) = 0) \/
     (r = Exn IndexError /\ expires end_time ticks = true /\ rounds end_time ticks = O) \/
     (r = Val MCTS.OutOfTicks /\ expires end_time ticks = false)) /\
    (expires end_time ticks = true -> (0 < rounds end_time ticks)%nat ->
     exists m, r = Val (MCTS.Returned (Some m))).
Proof.
  intros Hok Hb Hwf Hcur Hsize Hnf. cbv zeta.
  destruct (mcts_get_move_runs math_log self (now :: ticks) s board_ref b Hb)
    as (s1 & G1 & N1 & Hrun).
  assert (Hok1 : tree_ok s1) by (apply (init_root_ok s s1 board_ref b); assumption).
  assert (Hkeep1 : forall r0 x, holds s r0 x -> holds s1 r0 x)
    by (intros r0 x Hx; eapply holds_grows_boards; eauto).
  destruct (find (PureMCTS.forced b) (PureNode.get_sorted_moves b)) as [m|] eqn:Ef.
  - exists (Val (MCTS.Returned (Some m))), s1. split; [exact Hrun|].
    split; [exact Hok1|]. split; [exact Hkeep1|].
    apply find_some in Ef. destruct Ef as [Hin _].
    apply (pure_get_sorted_moves_incl b m Hsize) in Hin.
    split; [left; exists m; tauto|]. intros _ _. exists m. reflexivity.
  - pose proof (node_at_fresh s s1 _ N1) as Hroot.
    destruct (search_runs math_log self now ticks (length (nodes s)) s1 b Hok1)
      as (r & s2 & Hsearch & Hok2 & K2 & _ & Hres).
    + rewrite N1, length_app. cbn [length]. lia.
    + rewrite Hroot. unfold PureNode.fresh. simpl. apply Hkeep1. exact Hb.
    + rewrite Hroot. unfold PureNode.fresh. simpl. intros E.
      apply Hnf. apply pure_get_sorted_moves_nil. exact E.
    + rewrite Hroot. reflexivity.
    + exists r, s2. split; [rewrite Hrun; exact Hsearch|]. split; [exact Hok2|].
      split; [intros r0 x Hx; apply K2, Hkeep1; exact Hx|].
      cbv zeta in Hres.
      destruct (expires (PyFloat.add now (MCTS.time_limit self)) ticks).
      * destruct (rounds (PyFloat.add now (MCTS.time_limit self)) ticks) as [|k].
        -- split; [right; left; auto|]. intros _ H. lia.
        -- destruct Hres as (m & Hr & Hin & He).
           split; [left; exists m; auto|]. intros _ _. exists m. exact Hr.
      * split; [right; right; auto|]. intros H. discriminate.
Qed.

Lemma mcts_get_move_contract_witness :
  exists r s',
    MCTS.get_move no_log default_mcts (PyFloat.of_int 0 :: one_round_ticks) O
                  (mk_store [quiet_board] []) = (r, s') /\
    tree_ok s' /\
    (forall r0 x, holds (mk_store [quiet_board] []) r0 x -> holds s' r0 x) /\
    ((exists m, r = Val (MCTS.Returned (Some m)) /\
                Board.in_range quiet_board (fst m) (snd m) = true /\
                Board.get quiet_board (fst m) (snd m) = 0) \/
     (r = Exn IndexError /\
      expires (PyFloat.add (PyFloat.of_int 0) (MCTS.time_limit default_mcts))
              one_round_ticks = true /\
      rounds (PyFloat.add (PyFloat.of_int 0) (MCTS.time_limit default_mcts))
             one_round_ticks = O) \/
     (r = Val MCTS.OutOfTicks /\
      expires (PyFloat.add (PyFloat.of_int 0) (MCTS.time_limit default_mcts))
              one_round_ticks = false)) /\
    (expires (PyFloat.add (PyFloat.of_int 0) (MCTS.time_limit default_mcts))
             one_round_ticks = true ->
     (0 < rounds (PyFloat.add (PyFloat.of_int 0) (MCTS.time_limit default_mcts))
                 one_round_ticks)%nat ->
     exists m, r = Val (MCTS.Returned (Some m))).
Proof.
  apply (mcts_get_move_contract no_log default_mcts (PyFloat.of_int 0)
           one_round_ticks (mk_store [quiet_board] []) O quiet_board).
  - apply tree_ok_empty. reflexivity.
  - reflexivity.
  - apply well_formed_check. vm_compute. reflexivity.
  - discriminate.
  - reflexivity.
  - intros H. apply full_iff in H. vm_compute in H. discriminate.
Defined.

(** X24: the number of rounds.  When no move is forced, [get_move] makes
    one round of the loop for each clock reading that comes before the
    first reading not earlier than [end_time], and the root's visit
    count after the call is exactly that number.  Nothing else ends the
    loop: the attribute [max_moves] is never consulted. *)
Theorem mcts_rounds_follow_the_clock
  (math_log : float -> float) (self : MCTS.t) (now : float) (ticks : list float)
  (s : Store) (board_ref : ref) (b : Board.t) :
  tree_ok s ->
  holds s board_ref b ->
  well_formed b ->
  Board.current_player b <> 0 ->
  0 < Board.size b ->
  ~ full b ->
  (forall w, In w (Board.get_valid_moves b) ->
             ~ completes_five b w (Board.current_player b) /\
             ~ completes_five b w (- Board.current_player b)) ->
  exists r s',
    MCTS.get_move math_log self (now :: ticks) board_ref s = (r, s') /\
    visits (node_at s' (length (nodes s)))
    = Z.of_nat (rounds (PyFloat.add now (MCTS.time_limit self)) ticks).
Proof.
  intros Hok Hb Hwf Hcur Hsize Hnf Hnone.
  destruct (mcts_get_move_runs math_log self (now :: ticks) s board_ref b Hb)
    as (s1 & G1 & N1 & Hrun).
  assert (Hok1 : tree_ok s1) by (apply (init_root_ok s s1 board_ref b); assumption).
  destruct (pure_root_forced b Hcur) as (_ & _ & Hrest).
  rewrite (Hrest Hnone Hsize) in Hrun.
  pose proof (node_at_fresh s s1 _ N1) as Hroot.
  destruct (search_runs math_log self now ticks (length (nodes s)) s1 b Hok1)
    as (r & s2 & Hsearch & _ & _ & V & _).
  - rewrite N1, length_app. cbn [length]. lia.
  - rewrite Hroot. unfold PureNode.fresh. simpl.
    eapply holds_grows_boards; eauto.
  - rewrite Hroot. unfold PureNode.fresh. simpl. intros E.
    apply Hnf. apply pure_get_sorted_moves_nil. exact E.
  - rewrite Hroot. reflexivity.
  - exists r, s2. split; [rewrite Hrun; exact Hsearch|].
    cbv zeta in V. rewrite V, Hroot. unfold PureNode.fresh. simpl. lia.
Qed.

Lemma mcts_rounds_follow_the_clock_witness :
  exists r s',
    MCTS.get_move no_log (MCTS.mk (PyFloat.of_int 5) 1)
                  (PyFloat.of_int 0 :: two_round_ticks) O
                  (mk_store [quiet_board] []) = (r, s') /\
    visits (node_at s' (length (nodes (mk_store [quiet_board] []))))
    = Z.of_nat (rounds (PyFloat.add (PyFloat.of_int 0)
                                    (MCTS.time_limit (MCTS.mk (PyFloat.of_int 5) 1)))
                       two_round_ticks).
Proof.
  apply (mcts_rounds_follow_the_clock no_log (MCTS.mk (PyFloat.of_int 5) 1)
           (PyFloat.of_int 0) two_round_ticks
           (mk_store [quiet_board] []) O quiet_board).
  - apply tree_ok_empty. reflexivity.
  - reflexivity.
  - apply well_formed_check. vm_compute. reflexivity.
  - discriminate.
  - reflexivity.
  - intros H. apply full_iff in H. vm_compute in H. discriminate.
  - exact quiet_board_has_no_forced_move.
Defined.

(** The game of a rollout depends on the position it starts from
    only. *)
Lemma rollout_from (bn : Board.t) (st : Store) (r : ref) :
  well_formed bn ->
  Board.current_player bn <> 0 ->
  holds st r bn ->
  exists st',
    MCTS.rollout (S (length (Board.get_valid_moves bn))) r st = (Val tt, st') /\
    holds st' r (playout (S (length (Board.get_valid_moves bn))) bn).
Proof.
  intros Hwf Hcur Hb.
  destruct (rollout_runs (S (length (Board.get_valid_moves bn))) st r bn Hb Hwf Hcur
              ltac:(lia)) as (st' & b'' & Hroll & _).
  exists st'. split; [exact Hroll|].
  exact (rollout_playout _ st r bn st' Hb Hroll).
Qed.

Lemma quiet_store_ok : tree_ok quiet_store /\ (O < length (nodes quiet_store))%nat.
Proof.
  assert (Hb : holds (mk_store [quiet_board] []) O quiet_board) by reflexivity.
  destruct (node_init_runs (mk_store [quiet_board] []) O quiet_board None None Hb)
    as (s1 & Hinit & G & N).
  unfold quiet_store. rewrite Hinit. cbn [snd]. split.
  - apply (init_root_ok (mk_store [quiet_board] []) s1 O quiet_board);
      [apply tree_ok_empty; reflexivity|exact Hb| |discriminate|reflexivity|exact G|exact N].
    apply well_formed_check. vm_compute. reflexivity.
  - rewrite N. cbn. lia.
Qed.

(** What one round of the search loop does to the wins of the tree. *)
Lemma iteration_rewards (math_log : float -> float) (root : ref) (s : Store) :
  tree_ok s ->
  (root < length (nodes s))%nat ->
  exists n s' node bn b',
    MCTS.select math_log (length (nodes s)) root s = (Val n, s) /\
    MCTS.iteration math_log root s = (Val tt, s') /\
    simulated_from s s' n node bn /\
    (node < length (nodes s'))%nat /\
    In root (path_to_root s' node) /\
    holds s' (board (node_at s' node)) bn /\
    (exists board_state, (length (boards s) <= board_state)%nat /\ holds s' board_state b') /\
    (forall st r, holds st r bn ->
       exists st',
         MCTS.rollout (S (length (Board.get_valid_moves bn))) r st = (Val tt, st') /\
         holds st' r b') /\
    extends bn b' /\
    Board.is_game_over b' = true /\
    (forall k, In k (path_to_root s' node) ->
               wins (node_at s' k)
               = PyFloat.add (wins_before s k)
                   (MCTS.reward (Board.check_win b') (Board.current_player bn))) /\
    (forall k, (k < length (nodes s))%nat -> ~ In k (path_to_root s' node) ->
               node_at s' k = node_at s k) /\
    b' = playout (S (length (Board.get_valid_moves bn))) bn /\
    well_formed bn /\ Board.current_player bn <> 0.
Proof.
  intros Hok Hroot.
  destruct (select_runs math_log root s (length (nodes s)) Hok root Hroot ltac:(lia)
              (path_self s root)) as (n & Hsel & Hn & Hstop & Hpath).
  exists n. unfold MCTS.iteration.
  rewrite (bind_val _ _ node_count _ s (length (nodes s)) s eq_refl).
  rewrite (bind_val _ _ _ _ s n s Hsel).
  rewrite (bind_val _ _ (get_node n) _ s (node_at s n) s eq_refl).
  unfold simulated_from.
  destruct (untried_moves (node_at s n)) as [|mv us] eqn:Eu.
  - rewrite (bind_val _ _ (ret n) _ s n s eq_refl).
    assert (Hinv : tree_inv (fun k => In k (path_to_root s n)) s)
      by (apply (tree_inv_weaken (fun _ => False)); [intros k []|exact Hok]).
    destruct (simulate_runs s n root Hinv Hn Hpath)
      as (s5 & Hrun & Hok5 & L5 & K5 & V5 & F5 & bn & b' & Hbn & Hext & Hover & Hat
          & Hplay & Hwf & Hcur & Hheld).
    assert (Hsame : path_to_root s5 n = path_to_root s n).
    { unfold path_to_root. apply lineage_same_parents. intros k. apply (F5 k). }
    exists s5, n, bn, b'. split; [exact Hsel|]. split; [exact Hrun|].
    split.
    { split; [reflexivity|]. split; [|exact L5].
      destruct Hstop as [Hu|Hc]; [congruence|exact Hc]. }
    split; [lia|].
    rewrite Hsame. split; [exact Hpath|].
    split; [rewrite (proj1 (F5 n)); apply K5; exact Hbn|].
    split; [exists (length (boards s)); split; [lia|exact Hheld]|].
    split; [intros st r Hst; rewrite Hplay; exact (rollout_from bn st r Hwf Hcur Hst)|].
    split; [exact Hext|]. split; [exact Hover|]. split; [|split; [|auto]].
    + intros k Hk. rewrite Hat. rewrite (proj2 (mem_lineage k _) Hk).
      cbn [visited with_wins with_visits wins]. unfold wins_before.
      pose proof (lineage_below s (S n) (proj1 Hok) n k Hn Hk) as Hle.
      destruct (Nat.ltb_spec k (length (nodes s))); [reflexivity|lia].
    + intros k Hk Hnin. rewrite Hat.
      destruct (existsb (Nat.eqb k) (path_to_root s n)) eqn:E; [|reflexivity].
      apply mem_lineage in E. contradiction.
  - destruct (expand_runs s n mv us root Hok Hn Eu Hpath)
      as (s2 & Hadd & Hinv & L2 & Hpath2 & K2 & F2 & Hch2 & W2 & W0 & _ & Hother).
    rewrite (bind_val _ _ _ _ s (length (nodes s)) s2 Hadd).
    set (L := length (nodes s)) in *.
    destruct (simulate_runs s2 L root Hinv ltac:(lia) Hpath2)
      as (s5 & Hrun & Hok5 & L5 & K5 & V5 & F5 & bn & b' & Hbn & Hext & Hover & Hat
          & Hplay & Hwf & Hcur & Hheld).
    assert (Hsame : path_to_root s5 L = path_to_root s2 L).
    { unfold path_to_root. apply lineage_same_parents. intros k. apply (F5 k). }
    (* the child that was added *)
    destruct Hok as [Hp Hall].
    destruct (Hall n Hn) as ((b0 & Hb0 & _) & _).
    destruct (add_child_runs s n mv b0 Hn Hb0)
      as (s2' & Hadd' & _ & Hnew & Hnewb & Hself' & _).
    rewrite Hadd in Hadd'. inversion Hadd'. subst s2'. fold L in Hnew, Hself'.
    assert (HinL : In L (children (node_at s2 n))).
    { rewrite Hself'. cbn [with_children children].
      apply in_or_app. right. left. reflexivity. }
    assert (HparL : parent (node_at s2 L) = Some n) by (rewrite Hnew; reflexivity).
    assert (HpathL : path_to_root s2 L = L :: path_to_root s n).
    { rewrite (path_of_child s2 n L (proj1 Hinv) ltac:(lia) HparL). f_equal.
      unfold path_to_root. apply (lineage_same_below s s2 (S n) Hp n Hn).
      intros k Hk. apply (F2 k). lia. }
    assert (Hbn0 : bn = Board.make_move b0 mv).
    { apply (holds_unique s2 (length (boards s))); [|exact Hnewb].
      rewrite Hnew in Hbn. exact Hbn. }
    assert (Hgrow : (length (boards s) <= length (boards s2))%nat).
    { pose proof (holds_valid s2 _ _ Hnewb). lia. }
    exists s5, L, bn, b'. split; [exact Hsel|]. split; [exact Hrun|].
    split.
    { split; [reflexivity|]. split; [lia|].
      split; [rewrite (proj1 (proj2 (F5 L))); exact HparL|].
      split.
      { rewrite Hat. destruct (existsb (Nat.eqb L) (path_to_root s2 L));
          [unfold visited; cbn [with_wins with_visits move]|]; rewrite Hnew; reflexivity. }
      split; [rewrite (proj2 (proj2 (F5 n))); exact HinL|].
      exists b0. split; [exact Hb0|exact Hbn0]. }
    split; [lia|].
    rewrite Hsame. split; [exact Hpath2|].
    split; [rewrite (proj1 (F5 L)); apply K5; exact Hbn|].
    split; [exists (length (boards s2)); split; [exact Hgrow|exact Hheld]|].
    split; [intros st r Hst; rewrite Hplay; exact (rollout_from bn st r Hwf Hcur Hst)|].
    split; [exact Hext|]. split; [exact Hover|]. split; [|split; [|auto]].
    + intros k Hk. rewrite Hat. rewrite (proj2 (mem_lineage k _) Hk).
      cbn [visited with_wins with_visits wins]. unfold wins_before. fold L.
      rewrite HpathL in Hk. destruct Hk as [<-|Hk].
      * rewrite W0. destruct (Nat.ltb_spec L L); [lia|reflexivity].
      * pose proof (lineage_below s (S n) Hp n k Hn Hk) as Hle.
        destruct (Nat.ltb_spec k L); [|lia]. rewrite W2 by lia. reflexivity.
    + intros k Hk Hnin. rewrite Hat.
      destruct (existsb (Nat.eqb k) (path_to_root s2 L)) eqn:E.
      * apply mem_lineage in E. contradiction.
      * apply Hother; [exact Hk|]. intros ->. apply Hnin.
        rewrite HpathL. right. apply path_self.
Qed.

(** X27: the value a round backpropagates.  The selection of a round
    ends at a node [n] and changes nothing.  The round then simulates
    from one node [node]: the child it adds for the first untried move
    of [n], on the board of [n] with that move made, or [n] itself when
    [n] has neither an untried move nor a child.  The rollout runs on a
    board object created in the round; the position [b'] it ends in is
    the one the rollout loop reaches from the position [bn] of [node],
    on whatever object: a finished game that contains [bn].  Every node
    on the path from [node] to the root then has the same value added to
    its wins: 0.5 if [b'] has no winner, 1 if its winner is the player
    to move at [node], and 0 otherwise; the value is not taken relative
    to the player to move at the root, and it does not alternate along
    the path.  A new child starts from 0 wins; every other node of the
    store keeps its state. *)
Theorem search_round_rewards (math_log : float -> float) (root : ref) (s : Store) :
  tree_ok s ->
  (root < length (nodes s))%nat ->
  exists n s' node bn b',
    MCTS.select math_log (length (nodes s)) root s = (Val n, s) /\
    MCTS.iteration math_log root s = (Val tt, s') /\
    simulated_from s s' n node bn /\
    (node < length (nodes s'))%nat /\
    In root (path_to_root s' node) /\
    holds s' (board (node_at s' node)) bn /\
    (exists board_state, (length (boards s) <= board_state)%nat /\ holds s' board_state b') /\
    (forall st r, holds st r bn ->
       exists st',
         MCTS.rollout (S (length (Board.get_valid_moves bn))) r st = (Val tt, st') /\
         holds st' r b') /\
    extends bn b' /\
    Board.is_game_over b' = true /\
    (forall k, In k (path_to_root s' node) ->
               wins (node_at s' k)
               = PyFloat.add (wins_before s k)
                   (MCTS.reward (Board.check_win b') (Board.current_player bn))) /\
    (forall k, (k < length (nodes s))%nat -> ~ In k (path_to_root s' node) ->
               node_at s' k = node_at s k).
Proof.
  intros Hok Hroot.
  destruct (iteration_rewards math_log root s Hok Hroot)
    as (n & s' & node & bn & b' & H).
  exists n, s', node, bn, b'. tauto.
Qed.

Lemma search_round_rewards_witness :
  exists n s' node bn b',
    MCTS.select no_log (length (nodes quiet_store)) O quiet_store = (Val n, quiet_store) /\
    MCTS.iteration no_log O quiet_store = (Val tt, s') /\
    simulated_from quiet_store s' n node bn /\
    (node < length (nodes s'))%nat /\
    In O (path_to_root s' node) /\
    holds s' (board (node_at s' node)) bn /\
    (exists board_state,
        (length (boards quiet_store) <= board_state)%nat /\ holds s' board_state b') /\
    (forall st r, holds st r bn ->
       exists st',
         MCTS.rollout (S (length (Board.get_valid_moves bn))) r st = (Val tt, st') /\
         holds st' r b') /\
    extends bn b' /\
    Board.is_game_over b' = true /\
    (forall k, In k (path_to_root s' node) ->
               wins (node_at s' k)
               = PyFloat.add (wins_before quiet_store k)
                   (MCTS.reward (Board.check_win b') (Board.current_player bn))) /\
    (forall k, (k < length (nodes quiet_store))%nat -> ~ In k (path_to_root s' node) ->
               node_at s' k = node_at quiet_store k).
Proof.
  apply (search_round_rewards no_log O quiet_store).
  - exact (proj1 quiet_store_ok).
  - exact (proj2 quiet_store_ok).
Defined.
(* ================================================================== *)
(** * [MCTS._quick_evaluate_move] *)

Lemma quick_walk_after_gap (b : Board.t) (di dj player : Z) (fuel : nat) :
  forall ni nj w,
    1 <= Scan.space w ->
    Scan.consecutive (MCTS.quick_walk fuel b ni nj di dj player w) = Scan.consecutive w.
Proof.
  induction fuel as [|fuel IH]; intros ni nj w Hs; cbn [MCTS.quick_walk]; [reflexivity|].
  destruct (negb (Board.in_range b ni nj)); [reflexivity|].
  destruct (Board.get b ni nj =? player).
  - destruct (Z.eqb_spec (Scan.space w) 0); [lia|reflexivity].
  - destruct (Board.get b ni nj =? 0); [|reflexivity].
    cbn [Scan.space].
    destruct (Z.leb_spec 2 (Scan.space w + 1)); [reflexivity|lia].
Qed.

Lemma quick_walk_gap_first (b : Board.t) (di dj player : Z) (fuel : nat) (ni nj : Z) :
  player <> 0 ->
  Board.in_range b ni nj = true ->
  Board.get b ni nj = 0 ->
  let w := MCTS.quick_walk (S fuel) b ni nj di dj player (Scan.mk_walk 1 0 0) in
  Scan.consecutive w = 1 /\ 1 <= Scan.space w.
Proof.
  intros Hp Hin He. cbv zeta. cbn [MCTS.quick_walk]. rewrite Hin, He. cbn [negb].
  destruct (Z.eqb_spec 0 player) as [E|_]; [congruence|].
  cbn [Z.eqb Scan.space Scan.consecutive Scan.blocked Z.add Z.leb Z.compare Pos.compare
       Pos.compare_cont Pos.add].
  destruct fuel as [|fuel]; cbn [MCTS.quick_walk]; [cbn; lia|].
  destruct (negb (Board.in_range b (ni + di) (nj + dj))); [cbn; lia|].
  destruct (Board.get b (ni + di) (nj + dj) =? player); [cbn; lia|].
  destruct (Board.get b (ni + di) (nj + dj) =? 0); cbn; lia.
Qed.

Lemma quick_direction_bounds (score : Z) (w : Scan.walk) :
  let consecutive := Scan.consecutive w in
  let blocked := Scan.blocked w in
  let score' :=
    if 5 <=? consecutive then score + 100000
    else if consecutive =? 4 then
      if blocked =? 0 then score + 50000 else if blocked =? 1 then score + 10000 else score
    else if consecutive =? 3 then
      if blocked =? 0 then score + 5000 else if blocked =? 1 then score + 1000 else score
    else if consecutive =? 2 then
      if blocked =? 0 then score + 500 else if blocked =? 1 then score + 100 else score
    else score in
  score <= score' <= score + 100000 /\ (consecutive = 1 -> score' = score).
Proof.
  cbv zeta.
  destruct (5 <=? Scan.consecutive w) eqn:E5;
    [split; [lia|intros H; rewrite H in E5; discriminate]|].
  destruct (Z.eqb_spec (Scan.consecutive w) 4);
    [destruct (Scan.blocked w =? 0), (Scan.blocked w =? 1); split; lia|].
  destruct (Z.eqb_spec (Scan.consecutive w) 3);
    [destruct (Scan.blocked w =? 0), (Scan.blocked w =? 1); split; lia|].
  destruct (Z.eqb_spec (Scan.consecutive w) 2);
    [destruct (Scan.blocked w =? 0), (Scan.blocked w =? 1); split; lia|].
  split; lia.
Qed.

Lemma fold_left_bounded (A : Type) (f : Z -> A -> Z) (step : Z) (l : list A) :
  0 <= step ->
  (forall s d, 0 <= s -> s <= f s d <= s + step) ->
  forall score, 0 <= score ->
    score <= fold_left f l score <= score + step * Z.of_nat (length l).
Proof.
  intros Hstep Hf. induction l as [|d l IH]; intros score Hs; cbn [fold_left length].
  - lia.
  - specialize (Hf score d Hs). specialize (IH (f score d) ltac:(lia)). lia.
Qed.

Lemma fold_left_unchanged (A : Type) (f : Z -> A -> Z) (l : list A) :
  (forall s d, In d l -> f s d = s) -> forall score, fold_left f l score = score.
Proof.
  intros Hf. induction l as [|d l IH]; intros score; cbn [fold_left]; [reflexivity|].
  rewrite (Hf score d (or_introl eq_refl)). apply IH.
  intros s d' Hd. apply Hf. right. exact Hd.
Qed.

(** X25: the quick score of the rollout.  [_quick_evaluate_move] returns
    a score between 0 and 400000.  Its two half-walks share the counter
    [space], and the walk in the positive direction comes first: when,
    in each of the four directions, the cell next to the move in the
    positive direction is an empty cell of the board, no stone behind
    the move is counted and the score is 0, whatever lies behind. *)
Theorem quick_evaluate_move_blind_side (b : Board.t) (i j : Z) :
  Board.current_player b <> 0 ->
  0 <= MCTS._quick_evaluate_move b (i, j) <= 400000 /\
  ((forall d, In d Board.directions ->
              Board.in_range b (i + fst d) (j + snd d) = true /\
              Board.get b (i + fst d) (j + snd d) = 0) ->
   MCTS._quick_evaluate_move b (i, j) = 0).
Proof.
  intros Hp. unfold MCTS._quick_evaluate_move. cbv beta iota zeta. split.
  - match goal with
    | |- _ <= fold_left ?f _ _ <= _ =>
        pose proof (fold_left_bounded _ f 100000 Board.directions ltac:(lia)) as H
    end.
    cbv beta in H. cbn [length Board.directions] in H.
    apply (H ltac:(
      intros s [di dj] Hs; cbv beta iota;
      match goal with
      | |- context [Scan.consecutive ?w] =>
          exact (proj1 (quick_direction_bounds s w))
      end) 0 ltac:(lia)).
  - intros Hopen.
    apply fold_left_unchanged. intros s [di dj] Hd. cbv beta iota.
    destruct (Hopen (di, dj) Hd) as [Hin He]. cbn [fst snd] in Hin, He.
    assert (Hfuel : exists k, Z.to_nat (Board.size b) = S k).
    { apply in_range_bounds in Hin. exists (Z.to_nat (Board.size b) - 1)%nat. lia. }
    destruct Hfuel as (k & Hk). rewrite Hk.
    cbn [fold_left].
    replace (i + 1 * di) with (i + di) by lia.
    replace (j + 1 * dj) with (j + dj) by lia.
    destruct (quick_walk_gap_first b (1 * di) (1 * dj) (Board.current_player b) k
                (i + di) (j + dj) Hp Hin He) as [Hc Hs].
    cbv zeta in Hc, Hs.
    match goal with
    | |- context [Scan.consecutive ?w] =>
        assert (Hw : Scan.consecutive w = 1)
          by (rewrite quick_walk_after_gap; [exact Hc|exact Hs]);
        exact (proj2 (quick_direction_bounds s w) Hw)
    end.
Qed.

Lemma quick_evaluate_move_blind_side_witness :
  0 <= MCTS._quick_evaluate_move three_board (7, 6) <= 400000 /\
  MCTS._quick_evaluate_move three_board (7, 6) = 0 /\
  MCTS._quick_evaluate_move three_board (7, 2) = 50000.
Proof.
  destruct (quick_evaluate_move_blind_side three_board 7 6) as [Hbound Hblind];
    [discriminate|].
  split; [exact Hbound|]. split; [|reflexivity].
  apply Hblind. intros d Hd.
  destruct Hd as [<-|[<-|[<-|[<-|[]]]]]; split; reflexivity.
Defined.
(* ================================================================== *)
(** * [GomokuGUI.get_board_pos] *)

Lemma snaps_on_screen :
  forallb (fun v => snaps_to v (expected_line v)) (range 700) = true.
Proof. vm_compute. reflexivity. Qed.

Lemma nearest_line_on_screen (v : Z) :
  0 <= v < 700 ->
  exists k,
    GomokuGUI.nearest_line GomokuGUI.__init__ v = Val k /\
    Z.abs (v - line_pixel k) <= 20 /\
    (Z.abs (v - line_pixel k) = 20 -> Z.even k = true).
Proof.
  intros Hv. pose proof snaps_on_screen as H. rewrite forallb_forall in H.
  specialize (H v (proj2 (range_In 700 v) Hv)). unfold snaps_to in H.
  destruct (GomokuGUI.nearest_line GomokuGUI.__init__ v) as [k|e]; [|discriminate].
  apply andb_true_iff in H. destruct H as [H H3].
  apply andb_true_iff in H. destruct H as [H1 H2].
  apply Z.eqb_eq in H1. subst k. apply Z.leb_le in H2.
  exists (expected_line v). split; [reflexivity|]. split; [exact H2|].
  intros E. apply orb_true_iff in H3. destruct H3 as [H3|H3]; [|exact H3].
  apply Z.ltb_lt in H3. lia.
Qed.

Lemma odd_not_even (k : Z) : Z.even k = true -> k <> -1 /\ k <> 15.
Proof. intros H. split; intros ->; discriminate. Qed.

(** X26: from pixels to intersections.  For a mouse position inside the
    window, [get_board_pos] raises nothing.  It returns the row and the
    column of the grid whose lines are nearest to the pixel, each at
    most 20 pixels (half a cell) away; a pixel exactly half-way between
    two lines goes to the even-numbered one, as [round] rounds ties to
    even.  It returns [None] exactly for the pixels that are more than
    20 pixels outside the grid. *)
Theorem get_board_pos_snaps (x y : Z) :
  0 <= x < 640 ->
  0 <= y < 700 ->
  match GomokuGUI.get_board_pos GomokuGUI.__init__ (x, y) with
  | Val (Some (i, j)) =>
      0 <= i < 15 /\ 0 <= j < 15 /\
      Z.abs (y - line_pixel i) <= 20 /\ Z.abs (x - line_pixel j) <= 20 /\
      (Z.abs (y - line_pixel i) = 20 -> Z.even i = true) /\
      (Z.abs (x - line_pixel j) = 20 -> Z.even j = true)
  | Val None => x < 20 \/ 620 < x \/ y < 20 \/ 620 < y
  | Exn _ => False
  end.
Proof.
  intros Hx Hy.
  destruct (nearest_line_on_screen y Hy) as (i & Hi & Hdi & Hei).
  destruct (nearest_line_on_screen x ltac:(lia)) as (j & Hj & Hdj & Hej).
  unfold GomokuGUI.get_board_pos. rewrite Hi, Hj.
  cbn [GomokuGUI.board_size GomokuGUI.__init__].
  unfold line_pixel in *.
  destruct ((0 <=? i) && (i <? 15) && (0 <=? j) && (j <? 15)) eqn:E.
  - rewrite !andb_true_iff, !Z.leb_le, !Z.ltb_lt in E. repeat split; try lia; assumption.
  - rewrite !andb_false_iff, !Z.leb_gt, !Z.ltb_ge in E.
    assert (Hi' : Z.abs (y - (40 + 40 * i)) = 20 -> i <> -1 /\ i <> 15)
      by (intros H; apply odd_not_even, Hei, H).
    assert (Hj' : Z.abs (x - (40 + 40 * j)) = 20 -> j <> -1 /\ j <> 15)
      by (intros H; apply odd_not_even, Hej, H).
    lia.
Qed.

Lemma get_board_pos_snaps_witness :
  match GomokuGUI.get_board_pos GomokuGUI.__init__ (100, 60) with
  | Val (Some (i, j)) =>
      0 <= i < 15 /\ 0 <= j < 15 /\
      Z.abs (60 - line_pixel i) <= 20 /\ Z.abs (100 - line_pixel j) <= 20 /\
      (Z.abs (60 - line_pixel i) = 20 -> Z.even i = true) /\
      (Z.abs (100 - line_pixel j) = 20 -> Z.even j = true)
  | Val None => 100 < 20 \/ 620 < 100 \/ 60 < 20 \/ 620 < 60
  | Exn _ => False
  end.
Proof.
  apply (get_board_pos_snaps 100 60); lia.
Defined.
(* ================================================================== *)
(** * The pattern scan and the test for five in a row agree *)

Lemma walk_loop_consecutive_after_gap (b : Board.t) (di dj player : Z) (fuel : nat) :
  forall ni nj c sp bl,
    1 <= sp ->
    Scan.consecutive (Scan.walk_loop fuel b ni nj di dj player (Scan.mk_walk c sp bl)) = c.
Proof.
  induction fuel as [|fuel IH]; intros ni nj c sp bl Hsp;
    cbn [Scan.walk_loop Scan.consecutive Scan.space Scan.blocked]; [reflexivity|].
  destruct (negb (Board.in_range b ni nj)); [reflexivity|].
  destruct (Board.get b ni nj =? 0).
  - destruct (Z.leb_spec 2 (sp + 1)); [reflexivity|lia].
  - destruct (Board.get b ni nj =? player); [|reflexivity].
    destruct (Z.eqb_spec sp 0); [lia|reflexivity].
Qed.

Lemma walk_loop_counts (b : Board.t) (di dj player : Z) (fuel : nat) :
  player <> 0 ->
  forall ni nj c bl,
    Scan.consecutive (Scan.walk_loop fuel b ni nj di dj player (Scan.mk_walk c 0 bl))
    = Scan.count_loop fuel b ni nj di dj player c.
Proof.
  intros Hp. induction fuel as [|fuel IH]; intros ni nj c bl;
    cbn [Scan.walk_loop Scan.count_loop Scan.consecutive Scan.space Scan.blocked];
    [reflexivity|].
  destruct (Board.in_range b ni nj); cbn [negb andb]; [|reflexivity].
  destruct (Z.eqb_spec (Board.get b ni nj) 0) as [E|N].
  - rewrite E. destruct (Z.eqb_spec 0 player) as [E'|_]; [congruence|].
    cbn [Z.add Z.leb Z.compare Pos.compare Pos.compare_cont].
    apply walk_loop_consecutive_after_gap. lia.
  - destruct (Board.get b ni nj =? player); [|reflexivity].
    cbn [Z.eqb]. apply IH.
Qed.

Lemma pattern_run_is_line_count (b : Board.t) (i j di dj player : Z) :
  player <> 0 ->
  fst (fst (Scan.pattern b i j di dj player)) = Scan.line_count b (i, j) (di, dj) player.
Proof.
  intros Hp. unfold Scan.pattern, Scan.line_count. cbv zeta. cbn [fst snd].
  rewrite !(walk_loop_counts b _ _ player _ Hp).
  rewrite (count_loop_acc b di dj player _ (i + di) (j + dj)
             (Scan.count_loop (Z.to_nat (Board.size b)) b (i - di) (j - dj) (- di) (- dj)
                              player 1)).
  rewrite (count_loop_acc b (- di) (- dj) player _ (i - di) (j - dj) 1).
  rewrite (count_loop_acc b (- di) (- dj) player _ (i - di) (j - dj)
             (Scan.count_loop (Z.to_nat (Board.size b)) b (i + di) (j + dj) di dj player 1)).
  rewrite (count_loop_acc b di dj player _ (i + di) (j + dj) 1).
  lia.
Qed.

Lemma pattern_score_win5_iff (p : Z * Z * Z) :
  GomokuAI._get_pattern_score p = GomokuAI.pattern_scores GomokuAI.win5
  <-> 5 <= fst (fst p).
Proof.
  destruct p as [[c bl] sp]. cbn [fst].
  unfold GomokuAI._get_pattern_score, GomokuAI.pattern_scores.
  repeat match goal with
         | |- context [?a <=? ?b] => destruct (Z.leb_spec a b)
         | |- context [?a =? ?b] => destruct (Z.eqb_spec a b)
         end; cbn [andb]; split; intros; try discriminate; try lia.
Qed.

Lemma evaluate_line_win_iff (b : Board.t) (i j di dj player : Z) :
  Node._evaluate_line b i j di dj player = 100000
  <-> 5 <= fst (fst (Scan.pattern b i j di dj player)).
Proof.
  unfold Node._evaluate_line.
  destruct (Scan.pattern b i j di dj player) as [[c bl] sp]. cbn [fst].
  repeat match goal with
         | |- context [?a <=? ?b] => destruct (Z.leb_spec a b)
         | |- context [?a =? ?b] => destruct (Z.eqb_spec a b)
         end; split; intros; try discriminate; try lia.
Qed.

(** X28: the two scans agree on the run through a move.  For a cell
    of the board and a player other than 0, the run length that
    [_get_pattern] reports for the cell in one of the four directions
    is the count that [_is_winning_move] makes for it in that
    direction.  Hence [_is_winning_move] returns [True] for a move
    exactly when, on the board with the stone placed, [_get_pattern_score]
    gives the score of five in a row in some direction, and exactly when
    [Node._evaluate_line] gives 100000 in some direction. *)
Theorem winning_move_scores_five
  (s : Store) (board : ref) (b : Board.t) (move : Move) (player : Z) :
  holds s board b ->
  Board.in_range b (fst move) (snd move) = true ->
  player <> 0 ->
  let tb := Board.set b (fst move) (snd move) player in
  exists w,
    yields bool (GomokuAI._is_winning_move board move player) s w /\
    (forall d, In d Board.directions ->
               fst (fst (GomokuAI._get_pattern tb (fst move) (snd move) (fst d) (snd d) player))
               = Scan.line_count tb move d player) /\
    (w = true <->
     exists d, In d Board.directions /\
               GomokuAI._get_pattern_score
                 (GomokuAI._get_pattern tb (fst move) (snd move) (fst d) (snd d) player)
               = GomokuAI.pattern_scores GomokuAI.win5) /\
    (w = true <->
     exists d, In d Board.directions /\
               Node._evaluate_line tb (fst move) (snd move) (fst d) (snd d) player = 100000).
Proof.
  intros Hb _ Hp. cbv zeta.
  set (tb := Board.set b (fst move) (snd move) player).
  exists (Pure.is_winning_move b move player).
  split; [apply is_winning_move_yields; exact Hb|].
  assert (Hrun : forall d,
            fst (fst (Scan.pattern tb (fst move) (snd move) (fst d) (snd d) player))
            = Scan.line_count tb move d player).
  { intros [di dj]. destruct move as [i j]. cbn [fst snd].
    apply pattern_run_is_line_count. exact Hp. }
  split; [intros d _; exact (Hrun d)|].
  unfold Pure.is_winning_move, Scan.five_through. fold tb.
  rewrite existsb_exists. split.
  - split.
    + intros (d & Hd & H5). exists d. split; [exact Hd|].
      apply pattern_score_win5_iff. unfold GomokuAI._get_pattern. rewrite Hrun.
      apply Z.leb_le. exact H5.
    + intros (d & Hd & H5). exists d. split; [exact Hd|].
      apply pattern_score_win5_iff in H5. unfold GomokuAI._get_pattern in H5.
      rewrite Hrun in H5. apply Z.leb_le. exact H5.
  - split.
    + intros (d & Hd & H5). exists d. split; [exact Hd|].
      apply evaluate_line_win_iff. rewrite Hrun. apply Z.leb_le. exact H5.
    + intros (d & Hd & H5). exists d. split; [exact Hd|].
      apply evaluate_line_win_iff in H5. rewrite Hrun in H5. apply Z.leb_le. exact H5.
Qed.

Lemma winning_move_scores_five_witness :
  let tb := Board.set four_board (fst (7, 2)) (snd (7, 2)) 1 in
  exists w,
    yields bool (GomokuAI._is_winning_move O (7, 2) 1) (mk_store [four_board] []) w /\
    (forall d, In d Board.directions ->
               fst (fst (GomokuAI._get_pattern tb (fst (7, 2)) (snd (7, 2)) (fst d) (snd d) 1))
               = Scan.line_count tb (7, 2) d 1) /\
    (w = true <->
     exists d, In d Board.directions /\
               GomokuAI._get_pattern_score
                 (GomokuAI._get_pattern tb (fst (7, 2)) (snd (7, 2)) (fst d) (snd d) 1)
               = GomokuAI.pattern_scores GomokuAI.win5) /\
    (w = true <->
     exists d, In d Board.directions /\
               Node._evaluate_line tb (fst (7, 2)) (snd (7, 2)) (fst d) (snd d) 1 = 100000).
Proof.
  apply (winning_move_scores_five (mk_store [four_board] []) O four_board (7, 2) 1);
    [reflexivity|reflexivity|discriminate].
Defined.
(* ================================================================== *)
(** * The ranking of the candidates *)

Lemma pattern_score_In (p : Z * Z * Z) :
  In (GomokuAI._get_pattern_score p) score_values.
Proof.
  destruct p as [[c bl] sp].
  unfold GomokuAI._get_pattern_score, GomokuAI.pattern_scores, score_values.
  repeat match goal with
         | |- context [?a <=? ?b] => destruct (Z.leb_spec a b)
         | |- context [?a =? ?b] => destruct (Z.eqb_spec a b)
         end; cbn [andb In]; tauto.
Qed.

Lemma direction_all_In (b : Board.t) (i j player : Z) :
  In (GomokuAI._evaluate_direction_all b i j player) score_sums.
Proof.
  unfold score_sums. apply nodup_In.
  unfold GomokuAI._evaluate_direction_all. cbn [fold_left Board.directions fst snd].
  apply in_flat_map. eexists. split; [apply pattern_score_In|].
  apply in_flat_map. eexists. split; [apply pattern_score_In|].
  apply in_flat_map. eexists. split; [apply pattern_score_In|].
  apply in_map_iff. eexists. split; [reflexivity|apply pattern_score_In].
Qed.

Lemma base_scores_finite :
  forallb (fun ad =>
             is_finite (PyFloat.add (PyFloat.of_int (0 + fst ad))
                          (PyFloat.mul (PyFloat.of_int (snd ad)) PyFloat.lit_1_1)))
          (list_prod score_sums score_sums) = true.
Proof. vm_compute. reflexivity. Qed.

Lemma is_finite_finite (x : float) : is_finite x = true -> finite x.
Proof. destruct x; cbn; intros H; try discriminate; exact I. Qed.

Lemma sub_finite_num (x y : float) : finite x -> num y -> num (PyFloat.sub x y).
Proof.
  unfold PyFloat.sub, SFsub.
  destruct x as [sx|sx| |sx mx ex]; cbn [finite]; try contradiction;
    destruct y as [sy|sy| |sy my ey]; try discriminate; intros _ _;
    try reflexivity.
  - destruct sx, sy; reflexivity.
  - apply binary_normalize_num.
Qed.

Lemma evaluate_move_score_num (b : Board.t) (m : Move) : num (Pure.evaluate_move b m).
Proof.
  unfold Pure.evaluate_move. destruct m as [i j]. cbv zeta.
  apply sub_finite_num; [|apply binary_normalize_num].
  apply is_finite_finite.
  pose proof base_scores_finite as H. rewrite forallb_forall in H.
  apply (H (GomokuAI._evaluate_direction_all
              (Board.set b i j (Board.current_player b)) i j (Board.current_player b),
            GomokuAI._evaluate_direction_all
              (Board.set (Board.set b i j (Board.current_player b)) i j
                         (- Board.current_player b)) i j (- Board.current_player b))).
  apply in_prod; apply direction_all_In.
Qed.

(** Descending sorts are sorted, for an order that is asymmetric and
    whose complement is transitive on the elements at hand. *)
Section SortDesc.

Variable A : Type.
Variable ltb : A -> A -> bool.
Variable P : A -> Prop.
Hypothesis ltb_asym : forall a c, P a -> P c -> ltb a c = true -> ltb c a = false.
Hypothesis ltb_trans : forall a c d, P a -> P c -> P d ->
                                     ltb a c = false -> ltb c d = false -> ltb a d = false.

Lemma insert_desc_In (x y : A) (l : list A) :
  In y (insert_desc ltb x l) <-> y = x \/ In y l.
Proof.
  induction l as [|z l IH]; cbn [insert_desc In]; [intuition|].
  destruct (ltb x z); cbn [In]; rewrite ?IH; intuition.
Qed.

Lemma insert_desc_sorted (x : A) (l : list A) :
  P x -> (forall y, In y l -> P y) ->
  descending A ltb l -> descending A ltb (insert_desc ltb x l).
Proof.
  intros Hx Hl Hs. induction Hs as [|y l Hs IH Hy]; cbn [insert_desc].
  - constructor; [constructor|intros y []].
  - assert (Py : P y) by (apply Hl; left; reflexivity).
    assert (Hl' : forall z, In z l -> P z) by (intros z Hz; apply Hl; right; exact Hz).
    destruct (ltb x y) eqn:E.
    + constructor; [apply IH; exact Hl'|].
      intros z Hz. apply insert_desc_In in Hz.
      destruct Hz as [->|Hz]; [apply ltb_asym; assumption|].
      apply Hy. exact Hz.
    + constructor; [constructor; assumption|].
      intros z [<-|Hz]; [exact E|].
      apply (ltb_trans x y z Hx Py (Hl' z Hz) E (Hy z Hz)).
Qed.

Lemma sort_desc_sorted (l : list A) :
  (forall y, In y l -> P y) -> descending A ltb (sort_desc ltb l).
Proof.
  induction l as [|x l IH]; intros Hl; cbn [sort_desc fold_right]; [constructor|].
  fold (sort_desc ltb l). apply insert_desc_sorted.
  - apply Hl. left. reflexivity.
  - intros y Hy. apply Hl. right.
    apply (Permutation_in y (Permutation_sym (sort_desc_perm A ltb l))). exact Hy.
  - apply IH. intros y Hy. apply Hl. right. exact Hy.
Qed.

Lemma sorted_split (l1 l2 : list A) :
  descending A ltb (l1 ++ l2) ->
  forall x y, In x l1 -> In y l2 -> ltb x y = false.
Proof.
  induction l1 as [|a l1 IH]; cbn [app]; intros Hs x y Hx Hy; [destruct Hx|].
  inversion Hs as [|? ? Hs' Ha]; subst.
  destruct Hx as [<-|Hx].
  - apply Ha. apply in_or_app. right. exact Hy.
  - apply (IH Hs' x y Hx Hy).
Qed.

End SortDesc.

Lemma scored_ltb_asym (a c : float * Move) :
  num (fst a) -> num (fst c) -> scored_ltb a c = true -> scored_ltb c a = false.
Proof.
  intros Ha Hc. unfold scored_ltb, move_ltb.
  destruct (PyFloat.eqb (fst a) (fst c)) eqn:E1;
    destruct (PyFloat.eqb (fst c) (fst a)) eqn:E2.
  - intros H. bool_lia.
  - apply (eqb_eq _ _ Ha Hc) in E1.
    assert (E2' : ~ FloatOrder.eq (fst c) (fst a)).
    { intros H. apply (eqb_eq _ _ Hc Ha) in H. congruence. }
    exfalso. apply E2'. FloatTac.order.
  - apply (eqb_eq _ _ Hc Ha) in E2.
    assert (E1' : ~ FloatOrder.eq (fst a) (fst c)).
    { intros H. apply (eqb_eq _ _ Ha Hc) in H. congruence. }
    exfalso. apply E1'. FloatTac.order.
  - intros H. apply (ltb_lt _ _ Ha Hc) in H.
    apply (ltb_ge _ _ Hc Ha). FloatTac.order.
Qed.

Lemma scored_ltb_false_iff (a c : float * Move) :
  num (fst a) -> num (fst c) ->
  (scored_ltb a c = false <-> ranked_below (fst c) (snd c) (fst a) (snd a)).
Proof.
  intros Ha Hc. unfold scored_ltb, ranked_below, move_ltb.
  destruct (PyFloat.eqb (fst a) (fst c)) eqn:E.
  - apply (eqb_eq _ _ Ha Hc) in E. split.
    + intros H. right. split; [FloatTac.order|]. bool_lia.
    + intros [H|[_ H]]; [exfalso; FloatTac.order|]. bool_lia.
  - assert (E' : ~ FloatOrder.eq (fst a) (fst c)).
    { intros H. apply (eqb_eq _ _ Ha Hc) in H. congruence. }
    rewrite (ltb_ge _ _ Ha Hc). split.
    + intros H. left. FloatTac.order.
    + intros [H|[H _]]; [FloatTac.order|]. exfalso. apply E'. FloatTac.order.
Qed.

Lemma ranked_below_trans (s1 s2 s3 : float) (m1 m2 m3 : Move) :
  ranked_below s1 m1 s2 m2 -> ranked_below s2 m2 s3 m3 -> ranked_below s1 m1 s3 m3.
Proof.
  unfold ranked_below. intros [H1|[H1 L1]] [H2|[H2 L2]].
  - left. FloatTac.order.
  - left. FloatTac.order.
  - left. FloatTac.order.
  - right. split; [FloatTac.order|lia].
Qed.

Lemma scored_ltb_negtrans (a c d : float * Move) :
  num (fst a) -> num (fst c) -> num (fst d) ->
  scored_ltb a c = false -> scored_ltb c d = false -> scored_ltb a d = false.
Proof.
  intros Ha Hc Hd H1 H2.
  apply (scored_ltb_false_iff a c Ha Hc) in H1.
  apply (scored_ltb_false_iff c d Hc Hd) in H2.
  apply (scored_ltb_false_iff a d Ha Hd).
  exact (ranked_below_trans _ _ _ _ _ _ H2 H1).
Qed.

Lemma ranked_In (b : Board.t) (p : float * Move) :
  In p (ranked b) <-> In (snd p) (Pure.neighbour_cells b) /\ fst p = Pure.evaluate_move b (snd p).
Proof.
  unfold ranked. split.
  - intros H. apply (Permutation_in p (Permutation_sym (sort_desc_perm _ scored_ltb _))) in H.
    apply in_map_iff in H. destruct H as (m & <- & Hm). cbn [fst snd]. auto.
  - intros [Hm E]. apply (Permutation_in p (sort_desc_perm _ scored_ltb _)).
    apply in_map_iff. exists (snd p). split; [|exact Hm].
    destruct p as [sc m]. cbn [fst snd] in *. congruence.
Qed.

Lemma ranked_descending (b : Board.t) : descending (float * Move) scored_ltb (ranked b).
Proof.
  unfold ranked.
  apply (sort_desc_sorted _ scored_ltb (fun p => num (fst p))).
  - intros a c Ha Hc. apply scored_ltb_asym; assumption.
  - intros a c d Ha Hc Hd. apply scored_ltb_negtrans; assumption.
  - intros p Hp. apply in_map_iff in Hp. destruct Hp as (m & <- & _). cbn [fst].
    apply evaluate_move_score_num.
Qed.

Lemma ranked_order (b : Board.t) (l1 l2 : list (float * Move)) (m x : Move) :
  ranked b = l1 ++ l2 ->
  In m (map snd l1) -> In x (map snd l2) ->
  ranked_below (Pure.evaluate_move b x) x (Pure.evaluate_move b m) m.
Proof.
  intros E Hm Hx.
  apply in_map_iff in Hm. destruct Hm as (pm & Em & Hpm).
  apply in_map_iff in Hx. destruct Hx as (px & Ex & Hpx).
  assert (Hm' : In pm (ranked b)) by (rewrite E; apply in_or_app; left; exact Hpm).
  assert (Hx' : In px (ranked b)) by (rewrite E; apply in_or_app; right; exact Hpx).
  apply ranked_In in Hm', Hx'. destruct Hm' as [_ Sm]. destruct Hx' as [_ Sx].
  pose proof (ranked_descending b) as Hd. rewrite E in Hd.
  pose proof (sorted_split _ scored_ltb l1 l2 Hd pm px Hpm Hpx) as H.
  apply scored_ltb_false_iff in H;
    [|rewrite Sm; apply evaluate_move_score_num|rewrite Sx; apply evaluate_move_score_num].
  rewrite Sm, Sx, Em, Ex in H. exact H.
Qed.

(** X29: the candidates are the best-ranked cells.  On a board with a
    stone, [_get_valid_moves] ranks the empty cells that touch a stone by
    the tuple (score of [_evaluate_move], cell), in descending order, and
    keeps the first 15.  The score of every cell of the board is a
    number, the list it returns is in descending order of rank, no cell
    that was dropped ranks above a cell that was kept, and cells are
    dropped only when 15 are kept. *)
Theorem get_valid_moves_keeps_the_best (s : Store) (board : ref) (b : Board.t) :
  holds s board b ->
  Z.of_nat (length (Board.get_valid_moves b)) <> Board.size b * Board.size b ->
  exists moves score,
    yields (list Move) (GomokuAI._get_valid_moves board) s moves /\
    (forall m, Board.in_range b (fst m) (snd m) = true ->
               yields float (GomokuAI._evaluate_move board m) s (score m) /\ num (score m)) /\
    (forall l1 l2 m x, moves = l1 ++ l2 -> In m l1 -> In x l2 ->
                       ranked_below (score x) x (score m) m) /\
    (forall m x, In m moves -> ~ In x moves ->
                 Board.in_range b (fst x) (snd x) = true ->
                 Board.get b (fst x) (snd x) = 0 ->
                 adjacent_stone b (fst x) (snd x) ->
                 ranked_below (score x) x (score m) m /\ length moves = 15%nat).
Proof.
  intros Hb Hn. apply Z.eqb_neq in Hn.
  exists (Pure.get_valid_moves b), (Pure.evaluate_move b).
  split; [apply get_valid_moves_yields; exact Hb|].
  split; [intros m _; split; [apply evaluate_move_yields; exact Hb
                           |apply evaluate_move_score_num]|].
  unfold Pure.get_valid_moves. rewrite Hn. fold (ranked b).
  pose proof (firstn_skipn 15 (ranked b)) as Hsplit.
  split.
  - intros l1 l2 m x E Hm Hx.
    apply map_eq_app in E. destruct E as (p1 & p2 & E & E1 & E2).
    subst l1 l2.
    apply (ranked_order b p1 (p2 ++ skipn 15 (ranked b)) m x).
    + rewrite app_assoc, <- E. symmetry. exact Hsplit.
    + exact Hm.
    + rewrite map_app. apply in_or_app. left. exact Hx.
  - intros m x Hm Hx Hin He Hadj.
    assert (Hc : In (Pure.evaluate_move b x, x) (ranked b)).
    { apply ranked_In. cbn [fst snd]. split; [|reflexivity].
      apply neighbour_cells_In. auto. }
    rewrite <- Hsplit in Hc. apply in_app_or in Hc. destruct Hc as [Hc|Hc].
    + exfalso. apply Hx. apply in_map_iff. exists (Pure.evaluate_move b x, x). auto.
    + split.
      * apply (ranked_order b (firstn 15 (ranked b)) (skipn 15 (ranked b)) m x);
          [symmetry; exact Hsplit|exact Hm|].
        apply in_map_iff. exists (Pure.evaluate_move b x, x). auto.
      * rewrite length_map, length_firstn.
        assert (Hlen : (15 < length (ranked b))%nat).
        { destruct (Nat.lt_ge_cases 15 (length (ranked b))) as [H|H]; [exact H|].
          rewrite skipn_all2 in Hc by lia. destruct Hc. }
        lia.
Qed.

Lemma get_valid_moves_keeps_the_best_witness :
  exists moves score,
    yields (list Move) (GomokuAI._get_valid_moves O) (mk_store [four_board] []) moves /\
    (forall m, Board.in_range four_board (fst m) (snd m) = true ->
               yields float (GomokuAI._evaluate_move O m) (mk_store [four_board] [])
                      (score m) /\ num (score m)) /\
    (forall l1 l2 m x, moves = l1 ++ l2 -> In m l1 -> In x l2 ->
                       ranked_below (score x) x (score m) m) /\
    (forall m x, In m moves -> ~ In x moves ->
                 Board.in_range four_board (fst x) (snd x) = true ->
                 Board.get four_board (fst x) (snd x) = 0 ->
                 adjacent_stone four_board (fst x) (snd x) ->
                 ranked_below (score x) x (score m) m /\ length moves = 15%nat).
Proof.
  apply (get_valid_moves_keeps_the_best (mk_store [four_board] []) O four_board).
  - reflexivity.
  - vm_compute. discriminate.
Defined.

(** ** The final choice of the search *)

(** C7: the final choice of [MCTS.get_move].  In a store with
    well-formed trees, for a well-formed board with a side to move, when
    the time budget is exhausted (a reading of the clock ends the
    loop): if the root, the node the call created for the board, has at
    least one child, the call returns the move of a root child whose
    visit count is maximal among the root's children, namely the last
    such child in insertion (expansion) order.  The root has a child as
    soon as the loop made a round on a board with an empty cell and
    without a forced move. *)
Theorem C7_returns_last_most_visited_child
  (math_log : float -> float) (self : MCTS.t) (now : float) (ticks : list float)
  (s : Store) (board_ref : ref) (b : Board.t) :
  tree_ok s ->
  holds s board_ref b ->
  well_formed b ->
  Board.current_player b <> 0 ->
  0 < Board.size b ->
  expires (PyFloat.add now (MCTS.time_limit self)) ticks = true ->
  exists r s',
    MCTS.get_move math_log self (now :: ticks) board_ref s = (r, s') /\
    board (node_at s' (length (nodes s))) = board_ref /\
    parent (node_at s' (length (nodes s))) = None /\
    (children (node_at s' (length (nodes s))) <> [] ->
     exists c m,
       last_maximal ref (fun x => visits (node_at s' x))
                    (children (node_at s' (length (nodes s)))) c /\
       move (node_at s' c) = Some m /\
       r = Val (MCTS.Returned (Some m))) /\
    (~ full b ->
     (forall w, In w (Board.get_valid_moves b) ->
                ~ completes_five b w (Board.current_player b) /\
                ~ completes_five b w (- Board.current_player b)) ->
     (0 < rounds (PyFloat.add now (MCTS.time_limit self)) ticks)%nat ->
     children (node_at s' (length (nodes s))) <> []).
Proof.
  intros Hok Hb Hwf Hcur Hsize Hexp.
  destruct (mcts_get_move_runs math_log self (now :: ticks) s board_ref b Hb)
    as (s1 & G1 & N1 & Hrun).
  assert (Hok1 : tree_ok s1) by (apply (init_root_ok s s1 board_ref b); assumption).
  pose proof (node_at_fresh s s1 _ N1) as Hroot.
  set (root := length (nodes s)) in *.
  destruct (find (PureMCTS.forced b) (PureNode.get_sorted_moves b)) as [fm|] eqn:Ef.
  - (* a forced move: the call returns before the loop *)
    exists (Val (MCTS.Returned (Some fm))), s1. split; [exact Hrun|].
    rewrite Hroot. unfold PureNode.fresh. simpl.
    split; [reflexivity|]. split; [reflexivity|]. split; [intros H; contradiction|].
    intros _ Hnone _.
    destruct (pure_root_forced b Hcur) as (_ & _ & Hrest).
    rewrite (Hrest Hnone Hsize) in Ef. discriminate.
  - assert (Hlt : (root < length (nodes s1))%nat)
      by (rewrite N1, length_app; cbn [length]; unfold root; lia).
    destruct (search_loop_runs math_log (PyFloat.add now (MCTS.time_limit self)) root
                ticks s1 Hok1 Hlt)
      as (s2 & Hloop & Hok2 & L2 & K2 & V2 & B2 & P2 & C2 & U2).
    rewrite Hexp in Hloop.
    assert (Hsearch : MCTS.search math_log self (now :: ticks) root s1
                      = (v <- MCTS.most_visited root ;; ret (MCTS.Returned v)) s2).
    { unfold MCTS.search. rewrite (bind_val _ _ _ _ s1 true s2 Hloop). reflexivity. }
    rewrite Hsearch in Hrun.
    assert (HB : board (node_at s2 root) = board_ref)
      by (rewrite B2, Hroot; reflexivity).
    assert (HP : parent (node_at s2 root) = None)
      by (rewrite P2, Hroot; reflexivity).
    assert (HU : ~ full b ->
                 (0 < rounds (PyFloat.add now (MCTS.time_limit self)) ticks)%nat ->
                 children (node_at s2 root) <> []).
    { intros Hnf Hr. apply U2; [|exact Hr].
      rewrite Hroot. unfold PureNode.fresh. simpl. intros E.
      apply Hnf. apply pure_get_sorted_moves_nil. exact E. }
    destruct (children (node_at s2 root)) as [|c0 cs] eqn:Ech.
    + exists (Exn IndexError), s2.
      rewrite (bind_exn _ _ _ _ s2 IndexError s2 (most_visited_empty s2 root Ech)) in Hrun.
      split; [exact Hrun|]. split; [exact HB|]. split; [exact HP|].
      rewrite Ech. split; [intros H; contradiction|].
      intros Hnf _ Hr. exact (HU Hnf Hr).
    + destruct (most_visited_spec s2 root) as (c & Hmax & Hmv); [rewrite Ech; discriminate|].
      destruct Hok2 as [Hp2 Hall2].
      destruct (Hall2 root L2) as ((b2 & _ & _ & _ & _ & _ & Hmoves) & _).
      destruct (Hmoves c (last_maximal_In _ _ _ _ Hmax)) as (m & Hm & _).
      exists (Val (MCTS.Returned (Some m))), s2.
      rewrite (bind_val _ _ _ _ s2 _ s2 Hmv), Hm in Hrun.
      split; [exact Hrun|]. split; [exact HB|]. split; [exact HP|].
      rewrite Ech. split; [|intros _ _ _; discriminate].
      intros _. exists c, m. rewrite <- Ech. auto.
Qed.

Lemma small_board_has_no_forced_move (w : Move) :
  In w (Board.get_valid_moves small_board) ->
  ~ completes_five small_board w (Board.current_player small_board) /\
  ~ completes_five small_board w (- Board.current_player small_board).
Proof.
  intros Hw.
  assert (H : forallb (fun m => negb (PureMCTS.forced small_board m))
                      (Board.get_valid_moves small_board) = true)
    by (vm_compute; reflexivity).
  rewrite forallb_forall in H. specialize (H w Hw).
  apply negb_true_iff in H. unfold PureMCTS.forced in H.
  destruct (Pure.is_winning_move small_board w (Board.current_player small_board)) eqn:E1;
    [discriminate|].
  split; intros H5; apply (wins_iff_on_valid small_board _ w Hw) in H5; congruence.
Qed.

Lemma C7_returns_last_most_visited_child_witness :
  exists r s',
    MCTS.get_move no_log default_mcts (PyFloat.of_int 0 :: two_round_ticks) O
                  (mk_store [small_board] []) = (r, s') /\
    children (node_at s' O) = [1%nat; 2%nat] /\
    visits (node_at s' 1%nat) = 1 /\
    visits (node_at s' 2%nat) = 1 /\
    exists c m,
      last_maximal ref (fun x => visits (node_at s' x)) (children (node_at s' O)) c /\
      move (node_at s' c) = Some m /\
      r = Val (MCTS.Returned (Some m)) /\
      c = 2%nat.
Proof.
  destruct (C7_returns_last_most_visited_child no_log default_mcts (PyFloat.of_int 0)
              two_round_ticks (mk_store [small_board] []) O small_board)
    as (r & s' & Hrun & _ & _ & Hmax & Hchild).
  - apply tree_ok_empty. reflexivity.
  - reflexivity.
  - apply well_formed_check. vm_compute. reflexivity.
  - discriminate.
  - reflexivity.
  - reflexivity.
  - exists r, s'. split; [exact Hrun|].
    assert (Es : s' = snd (MCTS.get_move no_log default_mcts
                             (PyFloat.of_int 0 :: two_round_ticks) O
                             (mk_store [small_board] [])))
      by (rewrite Hrun; reflexivity).
    assert (Ec : children (node_at s' O) = [1%nat; 2%nat])
      by (rewrite Es; vm_compute; reflexivity).
    assert (E1 : visits (node_at s' 1%nat) = 1) by (rewrite Es; vm_compute; reflexivity).
    assert (E2 : visits (node_at s' 2%nat) = 1) by (rewrite Es; vm_compute; reflexivity).
    split; [exact Ec|]. split; [exact E1|]. split; [exact E2|].
    destruct Hmax as (c & m & Hlast & Hm & Hr).
    + apply Hchild.
      * intros H. apply full_iff in H. vm_compute in H. discriminate.
      * exact small_board_has_no_forced_move.
      * vm_compute. lia.
    + exists c, m. split; [exact Hlast|]. split; [exact Hm|]. split; [exact Hr|].
      destruct Hlast as (before & after & El & _ & Ha).
      cbn [length nodes] in El. rewrite Ec in El.
      destruct before as [|x [|y [|z before]]]; cbn [app] in El.
      * inversion El. subst c after.
        specialize (Ha 2%nat (or_introl eq_refl)). lia.
      * inversion El. reflexivity.
      * inversion El.
      * inversion El.
Defined.

(** ** [MCTS.get_move] as a whole *)

(** Whatever the clock does, a call of [MCTS.get_move] on a well-formed
    board ends in one of four ways, keeps the trees of the store well
    formed and leaves every board that existed as it was. *)
Lemma mcts_get_move_ends
      (math_log : float -> float) (self : MCTS.t) (clock : list float)
      (s : Store) (board_ref : ref) (b : Board.t) :
  tree_ok s ->
  holds s board_ref b ->
  well_formed b ->
  Board.current_player b <> 0 ->
  0 < Board.size b ->
  exists r s',
    MCTS.get_move math_log self clock board_ref s = (r, s') /\
    tree_ok s' /\
    (length (nodes s) < length (nodes s'))%nat /\
    (forall r0 x, holds s r0 x -> holds s' r0 x) /\
    ((exists m, r = Val (MCTS.Returned (Some m))) \/
     r = Exn IndexError \/
     r = Val MCTS.OutOfTicks).
Proof.
  intros Hok Hb Hwf Hcur Hsize.
  destruct (mcts_get_move_runs math_log self clock s board_ref b Hb)
    as (s1 & G1 & N1 & Hrun).
  assert (Hok1 : tree_ok s1) by (apply (init_root_ok s s1 board_ref b); assumption).
  assert (Hkeep1 : forall r0 x, holds s r0 x -> holds s1 r0 x)
    by (intros r0 x Hx; eapply holds_grows_boards; eauto).
  assert (Hlt : (length (nodes s) < length (nodes s1))%nat)
    by (rewrite N1, length_app; cbn [length]; lia).
  destruct (find (PureMCTS.forced b) (PureNode.get_sorted_moves b)) as [fm|].
  - exists (Val (MCTS.Returned (Some fm))), s1. split; [exact Hrun|].
    split; [exact Hok1|]. split; [exact Hlt|]. split; [exact Hkeep1|].
    left. exists fm. reflexivity.
  - destruct clock as [|now ticks].
    + exists (Val MCTS.OutOfTicks), s1. split; [exact Hrun|].
      split; [exact Hok1|]. split; [exact Hlt|]. split; [exact Hkeep1|]. auto.
    + destruct (search_loop_runs math_log (PyFloat.add now (MCTS.time_limit self))
                  (length (nodes s)) ticks s1 Hok1 Hlt)
        as (s2 & Hloop & Hok2 & L2 & K2 & _).
      assert (Hkeep2 : forall r0 x, holds s r0 x -> holds s2 r0 x)
        by (intros r0 x Hx; apply K2, Hkeep1; exact Hx).
      unfold MCTS.search in Hrun.
      rewrite (bind_val _ _ _ _ s1 _ s2 Hloop) in Hrun.
      destruct (expires (PyFloat.add now (MCTS.time_limit self)) ticks).
      * destruct (children (node_at s2 (length (nodes s)))) as [|c0 cs] eqn:Ech.
        -- rewrite (bind_exn _ _ _ _ s2 IndexError s2
                      (most_visited_empty s2 _ Ech)) in Hrun.
           exists (Exn IndexError), s2. split; [exact Hrun|].
           split; [exact Hok2|]. split; [lia|]. split; [exact Hkeep2|]. auto.
        -- destruct (most_visited_spec s2 (length (nodes s))) as (c & Hmax & Hmv);
             [rewrite Ech; discriminate|].
           destruct Hok2 as [Hp2 Hall2].
           destruct (Hall2 (length (nodes s)) L2) as ((b2 & _ & _ & _ & _ & _ & Hmoves) & _).
           destruct (Hmoves c (last_maximal_In _ _ _ _ Hmax)) as (m & Hm & _).
           rewrite (bind_val _ _ _ _ s2 _ s2 Hmv), Hm in Hrun.
           exists (Val (MCTS.Returned (Some m))), s2. split; [exact Hrun|].
           split; [split; assumption|]. split; [lia|]. split; [exact Hkeep2|].
           left. exists m. reflexivity.
      * exists (Val MCTS.OutOfTicks), s2. split; [exact Hrun|].
        split; [exact Hok2|]. split; [lia|]. split; [exact Hkeep2|]. auto.
Qed.

(** ** The claims about the two engines *)

(** C9: the cut-offs are sound.  For every board and depth, [_minimax]
    started with the window [(-inf, +inf)] returns a number, and the
    same recursion without the two [if beta <= alpha: break] returns an
    equal number, over the same candidate generator; and at every
    positive depth [get_move] returns the same move with and without
    the cut-offs. *)
Theorem C9_pruning_changes_no_value
  (self : GomokuAI.t) (depth : nat) (s : Store) (board : ref) (b : Board.t)
  (is_maximizing : bool) :
  holds s board b ->
  (exists pruned exact,
     yields float
       (GomokuAI._minimax depth board is_maximizing PyFloat.neg_inf PyFloat.inf) s pruned /\
     yields float
       (GomokuAI._minimax_with false depth board is_maximizing PyFloat.neg_inf PyFloat.inf)
       s exact /\
     num pruned /\ num exact /\
     PyFloat.eqb pruned exact = true) /\
  ((1 <= GomokuAI.max_depth self)%nat ->
   exists r,
     yields (option Move) (GomokuAI.get_move self board) s r /\
     yields (option Move) (GomokuAI.get_move_with false self board) s r).
Proof.
  intros Hb. split.
  - exists (Pure.minimax true depth b is_maximizing PyFloat.neg_inf PyFloat.inf),
           (Pure.minimax false depth b is_maximizing PyFloat.neg_inf PyFloat.inf).
    split; [apply (minimax_yields true); exact Hb|].
    split; [apply (minimax_yields false); exact Hb|].
    split; [apply minimax_num; reflexivity|].
    split; [apply minimax_num; reflexivity|].
    apply minimax_full_window.
  - intros _. exists (Pure.get_move true self b).
    split; [apply (get_move_yields true); exact Hb|].
    rewrite get_move_prune. apply (get_move_yields false). exact Hb.
Qed.

Lemma C9_pruning_changes_no_value_witness :
  (exists pruned exact,
     yields float (GomokuAI._minimax 2 O true PyFloat.neg_inf PyFloat.inf)
            (mk_store [quiet_board] []) pruned /\
     yields float (GomokuAI._minimax_with false 2 O true PyFloat.neg_inf PyFloat.inf)
            (mk_store [quiet_board] []) exact /\
     num pruned /\ num exact /\
     PyFloat.eqb pruned exact = true) /\
  exists r,
    yields (option Move) (GomokuAI.get_move (GomokuAI.mk 2) O) (mk_store [quiet_board] []) r /\
    yields (option Move) (GomokuAI.get_move_with false (GomokuAI.mk 2) O)
           (mk_store [quiet_board] []) r.
Proof.
  destruct (C9_pruning_changes_no_value (GomokuAI.mk 2) 2 (mk_store [quiet_board] []) O
              quiet_board true) as [Hval Hmove]; [reflexivity|].
  split; [exact Hval|]. apply Hmove. cbn [GomokuAI.max_depth]. lia.
Defined.

(** C8: neither engine changes the board it is given.  A call of
    [GomokuAI.get_move] (at a positive depth) returns, and a call of
    [MCTS.get_move] returns or raises, for every reading of the clock;
    afterwards the board object that was passed in, like every board
    object that existed before the call, has the contents it had: every
    cell and the player to move.  The exploration of both engines
    writes to board objects that the call created. *)
Theorem C8_get_move_keeps_the_board
  (ai : GomokuAI.t) (math_log : float -> float) (mcts : MCTS.t) (clock : list float)
  (s : Store) (board : ref) (b : Board.t) :
  holds s board b ->
  ((1 <= GomokuAI.max_depth ai)%nat ->
   exists r s',
     GomokuAI.get_move ai board s = (Val r, s') /\
     holds s' board b /\
     (forall r0 x, holds s r0 x -> holds s' r0 x)) /\
  (tree_ok s -> well_formed b -> Board.current_player b <> 0 -> 0 < Board.size b ->
   exists r s',
     MCTS.get_move math_log mcts clock board s = (r, s') /\
     holds s' board b /\
     (forall r0 x, holds s r0 x -> holds s' r0 x)).
Proof.
  intros Hb. split.
  - intros _. destruct (get_move_yields true ai s board b Hb) as (s' & Hrun & Hg).
    exists (Pure.get_move true ai b), s'. split; [exact Hrun|].
    assert (K : forall r0 x, holds s r0 x -> holds s' r0 x)
      by (intros r0 x Hx; exact (holds_grows s s' r0 x Hx Hg)).
    split; [apply K; exact Hb|exact K].
  - intros Hok Hwf Hcur Hsize.
    destruct (mcts_get_move_ends math_log mcts clock s board b Hok Hb Hwf Hcur Hsize)
      as (r & s' & Hrun & _ & _ & K & _).
    exists r, s'. split; [exact Hrun|]. split; [apply K; exact Hb|exact K].
Qed.

Lemma C8_get_move_keeps_the_board_witness :
  (exists r s',
     GomokuAI.get_move (GomokuAI.mk 2) O (mk_store [quiet_board] []) = (Val r, s') /\
     holds s' O quiet_board /\
     (forall r0 x, holds (mk_store [quiet_board] []) r0 x -> holds s' r0 x)) /\
  (exists r s',
     MCTS.get_move no_log default_mcts (PyFloat.of_int 0 :: two_round_ticks) O
                   (mk_store [quiet_board] []) = (r, s') /\
     holds s' O quiet_board /\
     (forall r0 x, holds (mk_store [quiet_board] []) r0 x -> holds s' r0 x)).
Proof.
  destruct (C8_get_move_keeps_the_board (GomokuAI.mk 2) no_log default_mcts
              (PyFloat.of_int 0 :: two_round_ticks) (mk_store [quiet_board] []) O
              quiet_board) as [Hai Hmcts]; [reflexivity|].
  split.
  - apply Hai. cbn [GomokuAI.max_depth]. lia.
  - apply Hmcts.
    + apply tree_ok_empty. reflexivity.
    + apply well_formed_check. vm_compute. reflexivity.
    + discriminate.
    + reflexivity.
Defined.

Lemma yields_unique (A : Type) (c : M A) (s : Store) (x y : A) :
  yields A c s x -> yields A c s y -> x = y.
Proof.
  intros (s1 & H1 & _) (s2 & H2 & _). rewrite H1 in H2. congruence.
Qed.

(** C1: forced moves come first, in both engines.  The candidates of
    [GomokuAI.get_move] are the cells [_get_valid_moves] returns; those
    of [MCTS.get_move] are the moves of its root, among which every
    empty cell that completes five for either side is found.  If some
    candidate completes five in a row for the player to move, the call
    returns such a candidate (the first one); if none does but some
    candidate would complete five for the opponent, it returns such a
    cell (the first one).  No search is run in either case: the result
    is the same for every depth, every time limit and every reading of
    the clock, also when the clock is never read. *)
Theorem C1_forced_moves_come_first
  (ai : GomokuAI.t) (math_log : float -> float) (mcts : MCTS.t) (clock : list float)
  (s : Store) (board : ref) (b : Board.t) :
  holds s board b ->
  Board.current_player b <> 0 ->
  let me := Board.current_player b in
  let empty_cells := Board.get_valid_moves b in
  exists cands,
    yields (list Move) (GomokuAI._get_valid_moves board) s cands /\
    ((exists w, In w cands /\ completes_five b w me) ->
     exists m,
       yields (option Move) (GomokuAI.get_move ai board) s (Some m) /\
       first_such Move (fun x => completes_five b x me) cands m) /\
    ((forall w, In w cands -> ~ completes_five b w me) ->
     (exists w, In w cands /\ completes_five b w (- me)) ->
     exists m,
       yields (option Move) (GomokuAI.get_move ai board) s (Some m) /\
       first_such Move (fun x => completes_five b x (- me)) cands m) /\
    ((exists w, In w empty_cells /\ completes_five b w me) ->
     exists m s',
       MCTS.get_move math_log mcts clock board s = (Val (MCTS.Returned (Some m)), s') /\
       first_such Move (fun x => completes_five b x me) empty_cells m) /\
    ((forall w, In w empty_cells -> ~ completes_five b w me) ->
     (exists w, In w empty_cells /\ completes_five b w (- me)) ->
     exists m s',
       MCTS.get_move math_log mcts clock board s = (Val (MCTS.Returned (Some m)), s') /\
       first_such Move (fun x => completes_five b x (- me)) empty_cells m).
Proof.
  intros Hb Hp. cbv zeta.
  exists (Pure.get_valid_moves b).
  split; [apply get_valid_moves_yields; exact Hb|].
  pose proof (get_move_yields true ai s board b Hb) as Hrun.
  destruct (pure_get_move_wins_or_blocks true ai b) as [Hwin Hblock].
  cbv zeta in Hwin, Hblock.
  destruct (mcts_get_move_runs math_log mcts clock s board b Hb) as (s1 & _ & _ & Hmcts).
  destruct (pure_root_forced b Hp) as (Hmwin & Hmblock & _).
  cbv zeta in Hmwin, Hmblock.
  split; [|split; [|split]].
  - intros Hsome. destruct (Hwin Hsome) as (m & Hr & Hfirst).
    exists m. split; [|exact Hfirst].
    unfold GomokuAI.get_move. rewrite <- Hr. exact Hrun.
  - intros Hnone Hsome. destruct (Hblock Hnone Hsome) as (m & Hr & Hfirst).
    exists m. split; [|exact Hfirst].
    unfold GomokuAI.get_move. rewrite <- Hr. exact Hrun.
  - intros Hsome. destruct (Hmwin Hsome) as (m & Hfind & Hfirst).
    rewrite Hfind in Hmcts. exists m, s1. split; [exact Hmcts|exact Hfirst].
  - intros Hnone Hsome. destruct (Hmblock Hnone Hsome) as (m & Hfind & Hfirst).
    rewrite Hfind in Hmcts. exists m, s1. split; [exact Hmcts|exact Hfirst].
Qed.

(** Which cells complete five on a concrete board is checked by
    evaluation, on the cells of the board. *)
Lemma completes_five_check (b : Board.t) (m : Move) (player : Z) :
  Board.in_range b (fst m) (snd m) = true ->
  Pure.is_winning_move b m player = true -> completes_five b m player.
Proof. intros Hin H. apply (is_winning_move_completes_five b m player Hin). exact H. Qed.

Lemma no_five_check (b : Board.t) (player : Z) (l : list Move) :
  forallb (fun m => Board.in_range b (fst m) (snd m)
                    && negb (Pure.is_winning_move b m player)) l = true ->
  forall w, In w l -> ~ completes_five b w player.
Proof.
  intros H w Hw H5. rewrite forallb_forall in H. specialize (H w Hw).
  apply andb_true_iff in H. destruct H as [Hin Hn].
  apply (is_winning_move_completes_five b w player Hin) in H5.
  rewrite H5 in Hn. discriminate.
Qed.

Lemma C1_forced_moves_come_first_witness :
  (exists m,
     yields (option Move) (GomokuAI.get_move (GomokuAI.mk 4) O)
            (mk_store [four_board] []) (Some m) /\
     completes_five four_board m 1) /\
  (exists m s',
     MCTS.get_move no_log default_mcts [] O (mk_store [four_board] [])
     = (Val (MCTS.Returned (Some m)), s') /\
     completes_five four_board m 1) /\
  (exists m,
     yields (option Move) (GomokuAI.get_move (GomokuAI.mk 4) O)
            (mk_store [open_four_board] []) (Some m) /\
     completes_five open_four_board m 1) /\
  (exists m s',
     MCTS.get_move no_log default_mcts [] O (mk_store [open_four_board] [])
     = (Val (MCTS.Returned (Some m)), s') /\
     completes_five open_four_board m 1).
Proof.
  destruct (C1_forced_moves_come_first (GomokuAI.mk 4) no_log default_mcts []
              (mk_store [four_board] []) O four_board)
    as (cands & Hc & Hwin & _ & Hmwin & _); [reflexivity|discriminate|].
  destruct (C1_forced_moves_come_first (GomokuAI.mk 4) no_log default_mcts []
              (mk_store [open_four_board] []) O open_four_board)
    as (cands' & Hc' & _ & Hblock & _ & Hmblock); [reflexivity|discriminate|].
  cbv zeta in Hwin, Hmwin, Hblock, Hmblock.
  assert (Ec : cands = Pure.get_valid_moves four_board).
  { apply (yields_unique _ _ _ _ _ Hc). apply get_valid_moves_yields. reflexivity. }
  assert (Ec' : cands' = Pure.get_valid_moves open_four_board).
  { apply (yields_unique _ _ _ _ _ Hc'). apply get_valid_moves_yields. reflexivity. }
  subst cands cands'.
  split; [|split; [|split]].
  - destruct Hwin as (m & Hrun & (_ & _ & _ & H5 & _)).
    + exists (7, 2). split; [vm_compute; tauto|].
      apply completes_five_check; reflexivity.
    + exists m. split; [exact Hrun|exact H5].
  - destruct Hmwin as (m & s' & Hrun & (_ & _ & _ & H5 & _)).
    + exists (7, 2). split; [vm_compute; tauto|].
      apply completes_five_check; reflexivity.
    + exists m, s'. split; [exact Hrun|exact H5].
  - destruct Hblock as (m & Hrun & (_ & _ & _ & H5 & _)).
    + apply no_five_check. vm_compute. reflexivity.
    + exists (7, 6). split; [vm_compute; tauto|].
      apply completes_five_check; reflexivity.
    + exists m. split; [exact Hrun|exact H5].
  - destruct Hmblock as (m & s' & Hrun & (_ & _ & _ & H5 & _)).
    + apply no_five_check. vm_compute. reflexivity.
    + exists (7, 6). split; [vm_compute; tauto|].
      apply completes_five_check; reflexivity.
    + exists m, s'. split; [exact Hrun|exact H5].
Defined.

(** C4 as amended: the value a round backpropagates.  In every round of
    the search loop, in a store with well-formed trees, the rollout
    starts from the position [bn] of one node: the child the round adds
    for the first untried move of the node its selection ends at, or
    that node itself when it has neither an untried move nor a child.
    The rollout loop reaches from [bn] a finished game.  The value of
    that game, 0.5 when it has no winner, 1 when its winner is the
    player to move in [bn], and 0 otherwise, is added to the wins of
    every node on the path from the node of the rollout to the root,
    the same value for all of them. *)
Theorem C4_reward_is_for_the_mover_of_the_rollout
  (math_log : float -> float) (root : ref) (s : Store) :
  tree_ok s ->
  (root < length (nodes s))%nat ->
  exists n s' node bn,
    MCTS.select math_log (length (nodes s)) root s = (Val n, s) /\
    MCTS.iteration math_log root s = (Val tt, s') /\
    simulated_from s s' n node bn /\
    holds s' (board (node_at s' node)) bn /\
    In root (path_to_root s' node) /\
    let b' := playout (S (length (Board.get_valid_moves bn))) bn in
    let value := MCTS.reward (Board.check_win b') (Board.current_player bn) in
    (forall st r, holds st r bn ->
       exists st',
         MCTS.rollout (S (length (Board.get_valid_moves bn))) r st = (Val tt, st') /\
         holds st' r b') /\
    Board.is_game_over b' = true /\
    (forall k, In k (path_to_root s' node) ->
               wins (node_at s' k) = PyFloat.add (wins_before s k) value) /\
    (Board.check_win b' = 0 -> value = PyFloat.lit_0_5) /\
    (Board.check_win b' <> 0 -> Board.check_win b' = Board.current_player bn ->
     value = PyFloat.of_int 1) /\
    (Board.check_win b' <> 0 -> Board.check_win b' <> Board.current_player bn ->
     value = PyFloat.of_int 0).
Proof.
  intros Hok Hroot.
  destruct (iteration_rewards math_log root s Hok Hroot)
    as (n & s' & node & bn & b' & Hsel & Hrun & Hsim & _ & Hpath & Hbn & _ & Hroll
        & _ & Hover & Hwins & _ & Hplay & _).
  subst b'.
  exists n, s', node, bn. split; [exact Hsel|]. split; [exact Hrun|].
  split; [exact Hsim|]. split; [exact Hbn|]. split; [exact Hpath|].
  cbv zeta. split; [exact Hroll|]. split; [exact Hover|]. split; [exact Hwins|].
  unfold MCTS.reward.
  split; [|split].
  - intros E. rewrite E. reflexivity.
  - intros Hn E. apply Z.eqb_neq in Hn. rewrite Hn. rewrite E, Z.eqb_refl. reflexivity.
  - intros Hn Hd. apply Z.eqb_neq in Hn, Hd. rewrite Hn, Hd. reflexivity.
Qed.

Lemma C4_reward_is_for_the_mover_of_the_rollout_witness :
  exists n s' node bn,
    MCTS.select no_log (length (nodes quiet_store)) O quiet_store = (Val n, quiet_store) /\
    MCTS.iteration no_log O quiet_store = (Val tt, s') /\
    simulated_from quiet_store s' n node bn /\
    holds s' (board (node_at s' node)) bn /\
    In O (path_to_root s' node) /\
    let b' := playout (S (length (Board.get_valid_moves bn))) bn in
    let value := MCTS.reward (Board.check_win b') (Board.current_player bn) in
    (forall st r, holds st r bn ->
       exists st',
         MCTS.rollout (S (length (Board.get_valid_moves bn))) r st = (Val tt, st') /\
         holds st' r b') /\
    Board.is_game_over b' = true /\
    (forall k, In k (path_to_root s' node) ->
               wins (node_at s' k) = PyFloat.add (wins_before quiet_store k) value) /\
    (Board.check_win b' = 0 -> value = PyFloat.lit_0_5) /\
    (Board.check_win b' <> 0 -> Board.check_win b' = Board.current_player bn ->
     value = PyFloat.of_int 1) /\
    (Board.check_win b' <> 0 -> Board.check_win b' <> Board.current_player bn ->
     value = PyFloat.of_int 0).
Proof.
  apply (C4_reward_is_for_the_mover_of_the_rollout no_log O quiet_store).
  - exact (proj1 quiet_store_ok).
  - exact (proj2 quiet_store_ok).
Defined.

(** C4 as stated fails in the first round of a search on
    [quiet_board], where Black is to move: the round adds the child for
    the move (8, 7), in which White is to move, and the rollout from it
    is won by Black, the player to move at the root.  The root and the
    child get 0 added to their wins, not 1. *)
Lemma C4_reward_is_not_for_the_root_mover :
  let run := MCTS.iteration no_log O quiet_store in
  let s' := snd run in
  let bn := deref s' (board (node_at s' 1%nat)) in
  let b' := playout (S (length (Board.get_valid_moves bn))) bn in
  fst run = Val tt /\
  move (node_at s' 1%nat) = Some (8, 7) /\
  path_to_root s' 1%nat = [1%nat; O] /\
  Board.current_player (deref quiet_store (board (node_at quiet_store O))) = 1 /\
  Board.check_win b' = 1 /\
  wins (node_at s' O) = PyFloat.add (wins_before quiet_store O) (PyFloat.of_int 0) /\
  wins (node_at s' 1%nat) = PyFloat.add (wins_before quiet_store 1%nat) (PyFloat.of_int 0) /\
  ~ rewards_root_mover quiet_store s' O O b' /\
  ~ rewards_root_mover quiet_store s' O 1%nat b'.
Proof.
  vm_compute.
  repeat (split; [reflexivity|]).
  split; intros H; discriminate H.
Qed.

(** C6 as amended: the loop follows the clock only.  The loop of
    [get_move] makes one round for every reading of the clock that is
    earlier than [end_time], the first reading plus [time_limit], and
    ends at the first reading that is not; until then it is running.
    Every round terminates, and the root has one visit more for each.
    [max_moves] is stored by [__init__] and read nowhere: the number of
    rounds is the same for every value of it. *)
Theorem C6_loop_follows_the_clock_only
  (math_log : float -> float) (self : MCTS.t) (now : float) (ticks : list float)
  (root : ref) (s : Store) :
  tree_ok s ->
  (root < length (nodes s))%nat ->
  let end_time := PyFloat.add now (MCTS.time_limit self) in
  exists s',
    MCTS.search_loop math_log ticks end_time root s = (Val (expires end_time ticks), s') /\
    visits (node_at s' root) = visits (node_at s root) + Z.of_nat (rounds end_time ticks) /\
    (exists r, MCTS.search math_log self (now :: ticks) root s = (r, s') /\
               (r = Val MCTS.OutOfTicks <-> expires end_time ticks = false)) /\
    forall max_moves',
      MCTS.search math_log (MCTS.mk (MCTS.time_limit self) max_moves') (now :: ticks) root s
      = MCTS.search math_log self (now :: ticks) root s.
Proof.
  intros Hok Hroot. cbv zeta.
  set (end_time := PyFloat.add now (MCTS.time_limit self)).
  destruct (search_loop_runs math_log end_time root ticks s Hok Hroot)
    as (s1 & Hloop & Hok1 & L1 & _ & V1 & _).
  exists s1. split; [exact Hloop|]. split; [exact V1|]. split; [|reflexivity].
  unfold MCTS.search. fold end_time.
  rewrite (bind_val _ _ _ _ s _ s1 Hloop).
  destruct (expires end_time ticks).
  - destruct (children (node_at s1 root)) as [|c0 cs] eqn:Ech.
    + rewrite (bind_exn _ _ _ _ s1 IndexError s1 (most_visited_empty s1 root Ech)).
      exists (Exn IndexError). split; [reflexivity|]. split; discriminate.
    + destruct (most_visited_spec s1 root) as (c & _ & Hmv); [rewrite Ech; discriminate|].
      rewrite (bind_val _ _ _ _ s1 _ s1 Hmv).
      eexists. split; [reflexivity|]. split; discriminate.
  - exists (Val MCTS.OutOfTicks). split; [reflexivity|]. split; reflexivity.
Qed.

Lemma C6_loop_follows_the_clock_only_witness :
  exists s',
    MCTS.search_loop no_log two_round_ticks
                     (PyFloat.add (PyFloat.of_int 0) (MCTS.time_limit capped_mcts)) O
                     quiet_store
    = (Val true, s') /\
    visits (node_at s' O) = 2 /\
    MCTS.max_moves capped_mcts = 1.
Proof.
  destruct (C6_loop_follows_the_clock_only no_log capped_mcts (PyFloat.of_int 0)
              two_round_ticks O quiet_store (proj1 quiet_store_ok) (proj2 quiet_store_ok))
    as (s' & Hloop & Hvisits & _).
  exists s'. split; [exact Hloop|]. split; [|reflexivity].
  rewrite Hvisits. reflexivity.
Defined.

(** C6 as stated fails: with [max_moves = 1] and a clock that leaves
    time for two rounds, [get_move] makes two rounds. *)
Lemma C6_simulations_exceed_max_moves :
  let run := MCTS.get_move no_log capped_mcts (PyFloat.of_int 0 :: two_round_ticks) O
                           (mk_store [small_board] []) in
  (exists m, fst run = Val (MCTS.Returned (Some m))) /\
  visits (node_at (snd run) O) = 2 /\
  MCTS.max_moves capped_mcts = 1 /\
  ~ simulations_capped no_log capped_mcts (PyFloat.of_int 0 :: two_round_ticks) O
                       (mk_store [small_board] []).
Proof.
  cbv zeta.
  split; [eexists; vm_compute; reflexivity|].
  split; [vm_compute; reflexivity|].
  split; [reflexivity|].
  unfold simulations_capped. vm_compute. intros H. apply H. reflexivity.
Qed.







(** C2, the failing input: the end of a drawn game.  The board is full
    and has no winner; [GomokuAI.get_move] returns [None] for it, and
    [MCTS.get_move], once a reading of the clock ends its loop, raises
    [IndexError]. *)
Theorem C2_mcts_get_move_raises_on_a_full_board :
  Board.get_valid_moves drawn_board = [] /\
  Board.check_win drawn_board = 0 /\
  fst (GomokuAI.get_move (GomokuAI.mk 4) O (mk_store [drawn_board] [])) = Val None /\
  fst (MCTS.get_move no_log default_mcts (PyFloat.of_int 0 :: one_round_ticks) O
                     (mk_store [drawn_board] []))
  = Exn IndexError.
Proof.
  vm_compute. repeat split.
Qed.

(** C10: [select_child] only sees visited nodes.  Whatever the clock
    does, a call of [get_move] on a well-formed board raises neither
    [ZeroDivisionError] nor [ValueError], and it leaves the store, in
    which the readings of the clock may end after any number of rounds,
    such that every node with a child has at least one visit, every
    child has at least one visit, and [select_child] on such a node
    returns one of its children.  The selection of a round, which is
    where [select_child] is called, runs in such a store and changes
    nothing in it. *)
Theorem C10_select_child_sees_visited_nodes
  (math_log : float -> float) (self : MCTS.t) (clock : list float)
  (s : Store) (board_ref : ref) (b : Board.t) :
  tree_ok s ->
  holds s board_ref b ->
  well_formed b ->
  Board.current_player b <> 0 ->
  0 < Board.size b ->
  exists r s',
    MCTS.get_move math_log self clock board_ref s = (r, s') /\
    r <> Exn ZeroDivisionError /\
    r <> Exn ValueError /\
    (forall n, (n < length (nodes s'))%nat ->
               children (node_at s' n) <> [] ->
               1 <= visits (node_at s' n) /\
               (forall c, In c (children (node_at s' n)) -> 1 <= visits (node_at s' c)) /\
               exists c, Node.select_child math_log n s' = (Val c, s') /\
                         In c (children (node_at s' n))) /\
    (exists n, MCTS.select math_log (length (nodes s')) (length (nodes s)) s' = (Val n, s')).
Proof.
  intros Hok Hb Hwf Hcur Hsize.
  destruct (mcts_get_move_ends math_log self clock s board_ref b Hok Hb Hwf Hcur Hsize)
    as (r & s' & Hrun & Hok' & Hlt & _ & Hres).
  exists r, s'. split; [exact Hrun|].
  split; [destruct Hres as [(m & ->)|[->| ->]]; discriminate|].
  split; [destruct Hres as [(m & ->)|[->| ->]]; discriminate|].
  split.
  - intros n Hn Hne. destruct Hok' as [Hp Hall].
    destruct (Hall n Hn) as (_ & _ & Hc & Hch).
    assert (Hv : 1 <= visits (node_at s' n)) by (destruct (Hc Hne) as [H|[]]; exact H).
    assert (Hcv : forall c, In c (children (node_at s' n)) -> 1 <= visits (node_at s' c)).
    { intros c Hin. destruct (Hch c Hin) as (_ & _ & [H|[]]). exact H. }
    split; [exact Hv|]. split; [exact Hcv|].
    apply select_child_returns; [exact Hv|exact Hne|].
    intros x Hx. specialize (Hcv x Hx). lia.
  - destruct (select_runs math_log (length (nodes s)) s' (length (nodes s')) Hok'
                (length (nodes s)) Hlt ltac:(lia) (path_self s' (length (nodes s))))
      as (n & Hsel & _).
    exists n. exact Hsel.
Qed.

Lemma C10_select_child_sees_visited_nodes_witness :
  exists r s',
    MCTS.get_move log_to_4 default_mcts (map PyFloat.of_int [0; 1; 2; 3; 4; 6]) O
                  (mk_store [pair_board] []) = (r, s') /\
    r <> Exn ZeroDivisionError /\
    r <> Exn ValueError /\
    (forall n, (n < length (nodes s'))%nat ->
               children (node_at s' n) <> [] ->
               1 <= visits (node_at s' n) /\
               (forall c, In c (children (node_at s' n)) -> 1 <= visits (node_at s' c)) /\
               exists c, Node.select_child log_to_4 n s' = (Val c, s') /\
                         In c (children (node_at s' n))) /\
    (exists n, MCTS.select log_to_4 (length (nodes s'))
                           (length (nodes (mk_store [pair_board] []))) s' = (Val n, s')) /\
    untried_moves (node_at s' O) = [] /\
    visits (node_at s' O) = 4 /\
    map (fun c => visits (node_at s' c)) (children (node_at s' O)) = [2; 2].
Proof.
  destruct (C10_select_child_sees_visited_nodes log_to_4 default_mcts
              (map PyFloat.of_int [0; 1; 2; 3; 4; 6]) (mk_store [pair_board] []) O
              pair_board)
    as (r & s' & Hrun & Hz & Hv & Hall & Hsel).
  - apply tree_ok_empty. reflexivity.
  - reflexivity.
  - apply well_formed_check. vm_compute. reflexivity.
  - discriminate.
  - reflexivity.
  - exists r, s'. split; [exact Hrun|]. split; [exact Hz|]. split; [exact Hv|].
    split; [exact Hall|]. split; [exact Hsel|].
    assert (Es : s' = snd (MCTS.get_move log_to_4 default_mcts
                             (map PyFloat.of_int [0; 1; 2; 3; 4; 6]) O
                             (mk_store [pair_board] [])))
      by (rewrite Hrun; reflexivity).
    rewrite Es. vm_compute. repeat split.
Defined.
